(* ===== verification/_CoqProject ===== *)
-Q . S2P
Prelude.v
Consts.v
SkipMap.v
FileIO.v
Types.v
World.v
VLog.v
Cursor.v
Block.v
Index.v
Bloom.v
SSTable.v
Meta.v
MemTable.v
KeyRange.v
RangeSearch.v
Bucket.v
Flush.v
Compaction.v
CompactionRun.v
Compactor.v
Config.v
Store.v
StoreInv.v
StoreSpec.v
RangeIterator.v
FlushSpec.v
CompactionSpec.v
SysInv.v
Recovery.v
TableRecovery.v
FlushRecovery.v
CompactionStep.v
Durability.v
Reopen.v
System.v
CompactionView.v
Provenance.v
CompactionSystem.v
SystemCrash.v
Lifetimes.v
GC.v
Background.v
Program.v
