(* ===== verification/Prelude.v ===== *)
(** * VelarixDB: a key-value store with separated values, in Rocq

    ** The program

    VelarixDB (crate [velarixdb], [src/]) is an embedded LSM-tree store that
    keeps values apart from keys. A [put] appends key and value to the _value
    log_ and inserts the key with the value's offset into the active _memtable_
    (a skip map and a bloom filter). A full memtable becomes read-only, is
    _flushed_ to an _SSTable_ (data blocks, block index, filter, summary) in a
    _bucket_ of tables of similar size, and its key range is entered into the
    _key-range index_. [get] looks at the active memtable, the read-only ones
    and then the SSTables whose range and filter admit the key, and reads the
    value from the log. _Compaction_ merges the tables of buckets with four or
    more tables; the _garbage collector_ moves live values from the log's tail to
    its end and punches a hole; _recovery_ rebuilds the state from the log and the
    bucket directory.

    ** Files and sources

    - [Prelude]: the [Result] monad with panics ([outcome]), its state-passing
      form ([io]), machine integers and little-endian encoding, the [loop]
      combinator, list and option lemmas, tactics and hint databases.
    - [Consts]: [consts/mod.rs], [err/mod.rs], [util/mod.rs], [SizeUnit]; the
      class [Platform] (size formula and hash of the filters, bytes one [read]
      call may deliver, latest representable date).
    - [SkipMap]: the class that states what [crossbeam_skiplist::SkipMap]
      promises, and a sorted-list instance to run the definitions with.
    - [FileIO]: [fs/mod.rs] ([FileNode], [FileAsync]) over a file system of
      inodes, names and directories. [World]: that file system together with the
      heap of [Arc]-shared maps and bit vectors and the clock; class [Env].
    - [Types]: [Entry], [SkipMapValue], [UserEntry] of [memtable/mem.rs].
    - [VLog]: [vlog/v_log.rs] and its reader. [Cursor]: the readers again, on a
      [FileNode] whose shared position [seek] and [read] move. [Block], [Index], [Bloom],
      [SSTable], [Meta]: [block/block_manager.rs], [index/indexer.rs],
      [filter/bf.rs], [sst/table.rs], [meta/meta_manager.rs], each with its
      reader of [fs/mod.rs].
    - [MemTable]: [memtable/mem.rs]. [KeyRange]: [key_range/range.rs],
      [RangeSearch]: its search over ranges with filters in memory, on disk and
      restored in any mixture. [Bucket]:
      [bucket/bucket_manager.rs], [compactors/insertor.rs]. [Flush]:
      [flush/flusher.rs]. [Compaction]: [compactors/sized.rs] and
      [handle_compaction], [CompactionRun]: its loop, [CompactionSpec]: what
      merging a bucket yields, [CompactionStep]: one round as a step on buckets,
      directories and ranges, [CompactionView]: what clients see across a run,
      [CompactionSystem]: a run as a step of the system.
      [Compactor]: the two background loops of [compactors/compact.rs].
    - [Config]: [cfg/config.rs], [db/keyspace.rs]. [Store]: [db/store.rs]
      ([put], [get], [update], [delete], rotation and the tasks they spawn).
      [StoreInv]: the invariant of an open store and its preservation,
      [StoreSpec]: the abstract map and the refinement. [RangeIterator]:
      [range/range_iterator.rs]. [FlushSpec]: a flush task as a step that keeps
      the map. [SysInv], [System]: the running program, client calls interleaved
      with the tasks that [db/store.rs] spawns, as a step relation.
    - [Recovery]: [db/recovery.rs] and [create_or_recover]. [Durability]:
      sessions, crashes and restarts of a store without tables. [TableRecovery]:
      the loops over the bucket directories, [FlushRecovery]: the directory tree
      a flush leaves, [Reopen]: opening and reading what is on disk.
      [Provenance]: which log entry a binding comes from. [SystemCrash]: a run of
      the program, a crash and a restart. [Lifetimes]: any number of them.
    - [GC]: [gc/garbage_collector.rs]. [Background]:
      [start_background_tasks] of [db/store.rs] and the workers of
      [compactors/compact.rs] on a broadcast channel. [Program]: all of it against
      a key-value map.

    ** How code becomes definitions

    A function of the source is a definition of the same name, prefixed where
    two components share a name ([mem_insert], [vlog_append], [store_put]).
    Methods with [&mut self] return the changed value. A [Result] is an
    [outcome]: [Ok], [Err] with the source's error, or [Panic] for a failed
    [unwrap], [assert!] or index. Integers are [Z] with the casts written out
    ([as_u32]); times are nanoseconds, cut to milliseconds where the code stores
    [timestamp_millis]. An [Arc] is a location in the world's heap, so clones
    alias; an open file is an inode, so it outlives its name. A lock is implicit:
    an operation is one step. Spawned tasks are values ([Task]) kept by the store
    and run later, in any order; the compactor's loops are a step relation.

    ** What the theorems show

    - The database is a map: [lives_refine_map] opens a new directory and takes any
      number of sessions, each a run of the program as in the next item, a crash
      and a recovery. The crash may come whenever no memtable waits for its flush,
      the log is within 32-bit offsets and what was logged after the stored head
      fits one memtable. All calls of all sessions together answer like one
      key-value map. The proof is an invariant of the running program that a
      recovered store satisfies again ([durable]): its filters are on disk until a
      read restores them, and entries may be both in a table and in the replayed
      memtable. [lives_pointers_in_range]: all the while, offsets point at log
      entries of their key and memtables stay within their size.
    - The program is a map: [program_refines_map] opens a new directory, starts the
      background tasks and relates every [lawful] interleaving of client calls,
      spawned tasks, flush listener, compaction worker and manual compactions to
      the calls alone on a key-value map. A task may run in the order
      [may_run] allows: flushes oldest first while log offsets fit 32 bits, and an
      insertion for the collector only while it repeats what readers find;
      [flush_order_stale_read] and [late_gc_insert_reverts_write] show what other
      orders do. A compaction may run when [may_compact] holds: tables without
      deletions, filters in memory, and no newest version only in the first table
      of a merged bucket; [manual_compaction_loses_write] shows what happens
      otherwise. [tasks_drain]: under these rules the queue empties whatever the
      choice of tasks, and every memtable with a flush task reaches disk.
    - The store is a map: [store_refines_map] relates every sequence of [put],
      [update], [delete] and [get] to a key-value map, rotations included;
      [store_put_view], [store_get_newest] and [store_put_rejects] give the
      operations one by one, [open_fresh] the initial state. [sessions_durable]
      carries the map over crashes and restarts while the keys written fit one
      memtable; [crash_after_rotation_loses] shows why not longer.
    - [crash_keeps_map] joins the two: a run of the program as above, a crash at a
      moment when no memtable waits for its flush, and a restart leave every
      client key as the calls made it; the head stored on disk may be stale.
    - What is on disk is found again: [reopen_reads_disk] gives [open] and [get] as
      a function of the log, the stored head and the tables ([disk_view]), and
      [flush_survives_crash] that a flush adds its memtable to what they find.
    - Compaction keeps what it does not drop: [compaction_keeps_view] takes a run
      on an open store whose tables hold no deletion markers and whose filters are
      in memory, with expiry switched off. It ends without an error and with
      balanced buckets, the invariants of the store hold again, no version is
      invented, and a key reads as before unless its newest version was only in
      the first table of a merged bucket, which the code skips.
    - Each layer below: the log refines a list of entries, a written SSTable
      answers like the map it was written from and loads back to it, flushing and
      bucket insertion publish exactly one table and keep the others, the
      key-range search and the filters never miss a key, merging keeps the newest
      version, recovery replays the log, the readers with a file position equal
      those on bytes ([vlog_cursor_equiv]), metadata, filters and summaries survive
      a restart, and at most one compaction runs at a time.
    - What the code does where it departs from its intention, stated as it
      behaves: for every input where that is possible, otherwise as one closed
      run from the store's creation. Among them: compaction loses the first table
      of a bucket and young deletion markers, one garbage collection corrupts a
      new store, a crash after a rotation loses the rotated memtable, flush tasks
      that run out of order let old values reappear, an error in the flush
      listener ends all compaction.

    ** Loops and bounds

    A loop over a file is [while_loop] with the unread bytes as measure;
    [while_loop_unfold] shows the measure is enough fuel because every iteration
    that continues has read at least one byte, and [vlog_scans_terminate] states
    it for arbitrary contents. The merge loops take the number of entries left
    as fuel; [merge_sstables_spec] covers the whole result, so the fuel is never
    exhausted. [compaction_loop] takes the number of tables plus one: each round
    replaces at least four tables by one, and [run_compaction_terminates] relates
    it to the unbounded loop. [orderly N] says that the first [N] readings of the
    clock increase strictly and that no table id is drawn twice among them; the
    bound [N] leaves the instances free to have a finite clock, and the theorems
    that need it say how many readings an operation takes. [orderly_env N] asks the
    same of the readings cut to milliseconds, since tables store no more and name
    their directories by them.

    ** Parameters

    Code outside the repository is a parameter with its documented behaviour: the
    skip map ([SkipMap]), the clock, UUIDs, table ids and the iteration order of
    hash maps ([Env]), hashing and the floating-point size formula ([Platform]),
    [Uuid::parse_str] and the length the system reports for a directory
    ([Recovery]), the broadcast channel ([Broadcast]), what it answers to the
    listener's loop ([Compactor]), and the order in which concurrent checks finish ([GC]). The [demo_] instances run the
    definitions on concrete inputs.

    ** Not modelled

    The block cache (an empty file), the crate root and type aliases; [fsync], and
    faults of the operating system other than missing names and [fallocate] with
    an empty range; [force_flush], which only tests call; accessors of fields;
    logging; the tests. One run of [handle_compaction], of the collector and of a
    flush is one step, so their interleaving with each other inside a run is not
    explored.

    ** Beyond the theorems

    Compaction in the running program is proved for tables without deletions and
    without restored ranges, in sessions that do not end in a crash; the
    definitions cover the rest. The theorems ask for tables made in different
    milliseconds, since a table's directory is named by the time alone. *)

From stdpp Require Import prelude gmap strings list sorting.
From Stdlib Require Import Strings.Byte ZArith Lia.

(** ** Outcomes of Rust code

    [Ok] and [Err] are the two constructors of [Result]; [Panic] is an
    unwinding [unwrap]/[assert!]/index error. *)
Inductive outcome (E A : Type) : Type :=
  | Ok (a : A)
  | Err (e : E)
  | Panic.
Arguments Ok {E A} a.
Arguments Err {E A} e.
Arguments Panic {E A}.

#[export] Instance outcome_ret {E} : MRet (outcome E) := fun A a => Ok a.
#[export] Instance outcome_bind {E} : MBind (outcome E) := fun A B f m =>
  match m with Ok a => f a | Err e => Err e | Panic => Panic end.
#[export] Instance outcome_fmap {E} : FMap (outcome E) := fun A B f m =>
  match m with Ok a => Ok (f a) | Err e => Err e | Panic => Panic end.

(** [opt.unwrap()] *)
Definition unwrap {E A} (o : option A) : outcome E A :=
  match o with Some a => Ok a | None => Panic end.

(** [res.map_err(f)] *)
Definition map_err {E E' A} (f : E -> E') (m : outcome E A) : outcome E' A :=
  match m with Ok a => Ok a | Err e => Err (f e) | Panic => Panic end.

Lemma bind_Ok {E A B} (m : outcome E A) (f : A -> outcome E B) b :
  m ≫= f = Ok b <-> exists a, m = Ok a /\ f a = Ok b.
Proof.
  destruct m; simpl; split; [eauto | intros (? & [= ->] & ?); done | done
    | intros (? & ? & ?); done | done | intros (? & ? & ?); done].
Qed.

(** ** Stateful code with errors: the state survives an error, as [&mut]
    effects made before an early return do. *)
Definition io (S E A : Type) : Type := S -> outcome E A * S.

#[export] Instance io_ret {S E} : MRet (io S E) := fun A a s => (Ok a, s).
#[export] Instance io_bind {S E} : MBind (io S E) := fun A B f m s =>
  match m s with
  | (Ok a, s') => f a s'
  | (Err e, s') => (Err e, s')
  | (Panic, s') => (Panic, s')
  end.

Definition io_get {S E} : io S E S := fun s => (Ok s, s).
Definition io_put {S E} (s : S) : io S E unit := fun _ => (Ok tt, s).
Definition io_modify {S E} (f : S -> S) : io S E unit := fun s => (Ok tt, f s).
Definition io_lift {S E A} (m : outcome E A) : io S E A := fun s => (m, s).
Definition io_err {S E A} (e : E) : io S E A := fun s => (Err e, s).

(** Iterate an effectful body over a list ([for x in xs { .. }]). *)
Fixpoint io_for {S E A} (xs : list A) (f : A -> io S E unit) : io S E unit :=
  match xs with
  | [] => mret tt
  | x :: xs' => f x ≫= fun _ => io_for xs' f
  end.

Lemma io_bind_Ok {S E A B} (m : io S E A) (f : A -> io S E B) s b s' :
  (m ≫= f) s = (Ok b, s') <-> exists a s1, m s = (Ok a, s1) /\ f a s1 = (Ok b, s').
Proof.
  unfold mbind, io_bind. destruct (m s) as [[]]; split; try done.
  all: first [intros; do 2 eexists; by split | by intros (? & ? & [= -> ->] & ?)
    | by intros (? & ? & ? & ?)].
Qed.

(** ** Machine integers

    A value of an unsigned integer type is a [Z] in range; an [as] cast to a
    narrower type keeps the low bits. *)
Declare Scope rust_scope.
Delimit Scope rust_scope with rust.

Definition as_u8 (z : Z) : Z := (z `mod` 2 ^ 8)%Z.
Definition as_u32 (z : Z) : Z := (z `mod` 2 ^ 32)%Z.
Definition as_u64 (z : Z) : Z := (z `mod` 2 ^ 64)%Z.
Abbreviation as_usize := as_u64 (only parsing).

(** Wrapping (release profile) arithmetic on [u64]/[usize]. *)
Notation "a +w b" := (as_u64 (a + b)) (at level 50, left associativity) : rust_scope.
Notation "a *w b" := (as_u64 (a * b)) (at level 40, left associativity) : rust_scope.

Definition is_u32 (z : Z) : Prop := (0 <= z < 2 ^ 32)%Z.
Definition is_u64 (z : Z) : Prop := (0 <= z < 2 ^ 64)%Z.

Lemma as_u32_id z : is_u32 z -> as_u32 z = z.
Proof. apply Z.mod_small. Qed.
Lemma as_u64_id z : is_u64 z -> as_u64 z = z.
Proof. apply Z.mod_small. Qed.
Lemma as_u32_range z : is_u32 (as_u32 z).
Proof. apply Z.mod_pos_bound; lia. Qed.
Lemma as_u64_range z : is_u64 (as_u64 z).
Proof. apply Z.mod_pos_bound; lia. Qed.

(** Length of a slice as a [usize]. *)
Definition zlen {A} (l : list A) : Z := Z.of_nat (length l).

Lemma zlen_nonneg {A} (l : list A) : (0 <= zlen l)%Z.
Proof. unfold zlen; lia. Qed.
Lemma zlen_app {A} (l k : list A) : zlen (l ++ k) = (zlen l + zlen k)%Z.
Proof. unfold zlen. rewrite length_app. lia. Qed.
Lemma zlen_cons {A} (x : A) l : zlen (x :: l) = (1 + zlen l)%Z.
Proof. unfold zlen; simpl; lia. Qed.
Lemma zlen_nil {A} : zlen (@nil A) = 0%Z.
Proof. done. Qed.
Lemma zlen_pos {A} (l : list A) : (0 < zlen l)%Z <-> l <> [].
Proof. destruct l; unfold zlen; simpl; split; intros; try done; lia. Qed.

(** ** Bytes *)
#[export] Instance byte_eq_dec : EqDecision byte := Byte.byte_eq_dec.
#[export] Instance byte_countable : Countable byte :=
  inj_countable Byte.to_N Byte.of_N Byte.of_to_N.

Definition byte_val (b : byte) : Z := Z.of_N (Byte.to_N b).
Definition byte_of (z : Z) : byte :=
  match Byte.of_N (Z.to_N (as_u8 z)) with Some b => b | None => x00 end.

Lemma byte_val_range b : (0 <= byte_val b < 256)%Z.
Proof. unfold byte_val. pose proof (Byte.to_N_bounded b). lia. Qed.

Lemma byte_val_of z : byte_val (byte_of z) = as_u8 z.
Proof.
  unfold byte_val, byte_of.
  assert (0 <= as_u8 z < 2 ^ 8)%Z by (apply Z.mod_pos_bound; lia).
  destruct (Byte.of_N (Z.to_N (as_u8 z))) eqn:E.
  - apply Byte.to_of_N in E. rewrite E. lia.
  - apply Byte.of_N_None_iff in E. lia.
Qed.

Lemma byte_val_inj b b' : byte_val b = byte_val b' -> b = b'.
Proof.
  unfold byte_val. intros E%N2Z.inj.
  pose proof (Byte.of_to_N b). pose proof (Byte.of_to_N b'). congruence.
Qed.

Lemma byte_of_val b : byte_of (byte_val b) = b.
Proof.
  apply byte_val_inj. rewrite byte_val_of. apply Z.mod_small, byte_val_range.
Qed.

(** [to_le_bytes]/[from_le_bytes] of an [n]-byte integer. *)
Fixpoint to_le (n : nat) (z : Z) : list byte :=
  match n with
  | O => []
  | S n' => byte_of z :: to_le n' (z / 256)
  end.

Fixpoint from_le (bs : list byte) : Z :=
  match bs with
  | [] => 0
  | b :: bs' => byte_val b + 256 * from_le bs'
  end.

Lemma length_to_le n z : length (to_le n z) = n.
Proof. revert z; induction n; intros; simpl; auto. Qed.

Lemma zlen_to_le n z : zlen (to_le n z) = Z.of_nat n.
Proof. unfold zlen. by rewrite length_to_le. Qed.

(** Lengths of concatenated fields: [zlen_solve] pushes [zlen] through them. *)
Create HintDb zlen.
Create Rewrite HintDb zlen.
#[export] Hint Rewrite @zlen_app @zlen_cons @zlen_nil zlen_to_le : zlen.
#[export] Hint Resolve zlen_nonneg as_u32_range as_u64_range : zlen.
Ltac zlen_solve := autorewrite with zlen; lia.

Lemma from_to_le n z : from_le (to_le n z) = (z `mod` 256 ^ Z.of_nat n)%Z.
Proof.
  revert z; induction n as [|n IH]; intros z.
  - simpl. by rewrite Z.mod_1_r.
  - cbn [to_le from_le]. rewrite IH, byte_val_of. unfold as_u8. change (2 ^ 8)%Z with 256%Z.
    rewrite Nat2Z.inj_succ, Z.pow_succ_r by lia.
    rewrite Z.rem_mul_r by lia. lia.
Qed.

Lemma from_to_le_4 z : is_u32 z -> from_le (to_le 4 z) = z.
Proof. intros. rewrite from_to_le. by apply Z.mod_small. Qed.
Lemma from_to_le_8 z : is_u64 z -> from_le (to_le 8 z) = z.
Proof. intros. rewrite from_to_le. by apply Z.mod_small. Qed.

Lemma from_le_range bs : (0 <= from_le bs < 256 ^ zlen bs)%Z.
Proof.
  induction bs as [|b bs IH]; [done|].
  rewrite zlen_cons. cbn [from_le].
  rewrite Z.pow_add_r by (try apply zlen_nonneg; lia).
  pose proof (byte_val_range b). lia.
Qed.

Lemma to_from_le bs : to_le (length bs) (from_le bs) = bs.
Proof.
  induction bs as [|b bs IH]; [done|].
  cbn [from_le length to_le]. pose proof (byte_val_range b). f_equal.
  - apply byte_val_inj. rewrite byte_val_of. unfold as_u8.
    rewrite Z.mul_comm, Z.mod_add by lia. apply Z.mod_small; lia.
  - rewrite Z.mul_comm, Z.div_add by lia.
    rewrite Z.div_small by lia. by rewrite Z.add_0_l.
Qed.

(** [b as u8] for a [bool]. *)
Definition bool_byte (b : bool) : byte := if b then x01 else x00.

Lemma bool_byte_eq_1 b : bool_decide (bool_byte b = x01) = b.
Proof. by destruct b. Qed.

(** ** Keys and their order: [Vec<u8>] compared lexicographically ([Ord]) *)
Abbreviation key := (list byte) (only parsing).

Fixpoint key_cmp (a b : list byte) : comparison :=
  match a, b with
  | [], [] => Eq
  | [], _ :: _ => Lt
  | _ :: _, [] => Gt
  | x :: a', y :: b' =>
      match Z.compare (byte_val x) (byte_val y) with
      | Eq => key_cmp a' b'
      | c => c
      end
  end.

Definition key_lt (a b : list byte) : Prop := key_cmp a b = Lt.
Definition key_ltb (a b : list byte) : bool :=
  match key_cmp a b with Lt => true | _ => false end.
Definition key_leb (a b : list byte) : bool :=
  match key_cmp a b with Gt => false | _ => true end.

#[export] Instance key_lt_dec a b : Decision (key_lt a b).
Proof. unfold key_lt. solve_decision. Defined.

Lemma key_cmp_refl a : key_cmp a a = Eq.
Proof. induction a; simpl; [done|]. by rewrite Z.compare_refl. Qed.

Lemma key_cmp_eq a b : key_cmp a b = Eq <-> a = b.
Proof.
  split; [|intros ->; apply key_cmp_refl].
  revert b; induction a as [|x a IH]; intros [|y b]; simpl; try done.
  destruct (Z.compare_spec (byte_val x) (byte_val y)) as [E| |]; try done.
  intros ->%IH. by apply byte_val_inj in E as ->.
Qed.

Lemma key_cmp_antisym a b : key_cmp b a = CompOpp (key_cmp a b).
Proof.
  revert b; induction a as [|x a IH]; intros [|y b]; simpl; try done.
  rewrite (Z.compare_antisym (byte_val x)).
  destruct (byte_val x ?= byte_val y)%Z; simpl; auto.
Qed.

Lemma key_cmp_gt a b : key_cmp a b = Gt <-> key_lt b a.
Proof. unfold key_lt. rewrite (key_cmp_antisym a b). by destruct (key_cmp a b). Qed.

Lemma key_lt_irrefl a : ~ key_lt a a.
Proof. unfold key_lt. by rewrite key_cmp_refl. Qed.

Lemma key_lt_trans a b c : key_lt a b -> key_lt b c -> key_lt a c.
Proof.
  unfold key_lt. revert b c.
  induction a as [|x a IH]; intros [|y b] [|z c]; simpl; try done.
  destruct (Z.compare_spec (byte_val x) (byte_val y)),
    (Z.compare_spec (byte_val y) (byte_val z)),
    (Z.compare_spec (byte_val x) (byte_val z)); try done; try lia; eauto.
Qed.

#[export] Instance key_lt_strict : StrictOrder key_lt.
Proof. split; [intros a; apply key_lt_irrefl | intros a b c; apply key_lt_trans]. Qed.

Lemma key_lt_ne a b : key_lt a b -> a <> b.
Proof. intros H ->. by apply key_lt_irrefl in H. Qed.

Lemma key_cmp_total a b : {key_lt a b} + {a = b} + {key_lt b a}.
Proof.
  destruct (key_cmp a b) eqn:E; [left; right; by apply key_cmp_eq|by left; left|].
  right. by apply key_cmp_gt.
Qed.

Lemma key_leb_spec a b : key_leb a b = true <-> key_lt a b \/ a = b.
Proof.
  unfold key_leb, key_lt. rewrite <- key_cmp_eq. destruct (key_cmp a b); naive_solver.
Qed.

Lemma key_ltb_spec a b : key_ltb a b = true <-> key_lt a b.
Proof. unfold key_ltb, key_lt. destruct (key_cmp a b); naive_solver. Qed.

(** ** Association lists keyed by byte strings, and strictly sorted ones *)
Section kfind.
Context {V : Type}.
Implicit Types (l : list (list byte * V)) (k : list byte) (v : V).

Fixpoint kfind (k : list byte) (l : list (list byte * V)) : option V :=
  match l with
  | [] => None
  | (k', v) :: l' => if decide (k = k') then Some v else kfind k l'
  end.

Definition sorted_keys (l : list (list byte * V)) : Prop := StronglySorted key_lt l.*1.

Lemma sorted_keys_cons k v l :
  sorted_keys ((k, v) :: l) <-> sorted_keys l /\ Forall (fun p => key_lt k p.1) l.
Proof.
  unfold sorted_keys; simpl. split.
  - intros [? H]%StronglySorted_inv. split; [done|]. by rewrite Forall_fmap in H.
  - intros [? H]. constructor; [done|]. by rewrite Forall_fmap.
Qed.

Lemma sorted_keys_app l1 l2 :
  sorted_keys (l1 ++ l2) <->
  sorted_keys l1 /\ sorted_keys l2 /\
  (forall p q, p ∈ l1 -> q ∈ l2 -> key_lt p.1 q.1).
Proof.
  induction l1 as [|[k v] l1 IH].
  - split; [intros; repeat split; [constructor|done|set_solver]|naive_solver].
  - rewrite <- app_comm_cons, !sorted_keys_cons, IH, Forall_app, !Forall_forall.
    setoid_rewrite elem_of_cons. naive_solver.
Qed.

Lemma kfind_app k l1 l2 :
  kfind k (l1 ++ l2) = match kfind k l1 with Some v => Some v | None => kfind k l2 end.
Proof. induction l1 as [|[k' v] l1 IH]; simpl; [done|]. by case_decide. Qed.

Lemma kfind_elem k v l : kfind k l = Some v -> (k, v) ∈ l.
Proof.
  induction l as [|[k' v'] l IH]; simpl; [done|].
  case_decide; [intros [= ->]; subst; left|intros; right; auto].
Qed.

Lemma kfind_None k l : kfind k l = None <-> k ∉ l.*1.
Proof.
  induction l as [|[k' v'] l IH]; simpl; [set_solver|].
  rewrite not_elem_of_cons. case_decide; [naive_solver|]. rewrite IH. naive_solver.
Qed.

Lemma sorted_keys_gt k v l k' :
  sorted_keys ((k, v) :: l) -> k' ∈ l.*1 -> key_lt k k'.
Proof.
  rewrite sorted_keys_cons, Forall_forall. intros [_ H] [[a b] [-> Hin]]%list_elem_of_fmap.
  by apply (H (a, b)).
Qed.

Lemma sorted_keys_NoDup l : sorted_keys l -> NoDup l.
Proof.
  induction l as [|[k v] l IH]; intros Hs; [constructor|]. apply NoDup_cons. split; [|apply IH; by apply sorted_keys_cons in Hs as []].
  intros Hin. eapply key_lt_irrefl, (sorted_keys_gt _ _ _ _ Hs). apply list_elem_of_fmap. by exists (k, v).
Qed.

Lemma kfind_sorted k v l : sorted_keys l -> (k, v) ∈ l -> kfind k l = Some v.
Proof.
  induction l as [|[k' v'] l IH]; intros Hs Hin; [set_solver|]. simpl.
  apply elem_of_cons in Hin as [[= -> ->]|Hin]; [by rewrite decide_True|].
  rewrite decide_False; [apply IH; [by apply sorted_keys_cons in Hs as []|done]|].
  intros ->. eapply key_lt_irrefl, (sorted_keys_gt _ _ _ _ Hs).
  apply list_elem_of_fmap. by exists (k', v).
Qed.

Lemma kfind_below k v l k' :
  sorted_keys ((k, v) :: l) -> key_lt k' k -> kfind k' ((k, v) :: l) = None.
Proof.
  intros Hs Hlt. apply kfind_None. simpl. apply not_elem_of_cons. split.
  - by apply key_lt_ne.
  - intros Hin. pose proof (sorted_keys_gt _ _ _ _ Hs Hin).
    by eapply key_lt_irrefl, key_lt_trans.
Qed.

Lemma sorted_kfind_ext l1 l2 :
  sorted_keys l1 -> sorted_keys l2 -> (forall k, kfind k l1 = kfind k l2) -> l1 = l2.
Proof.
  revert l2; induction l1 as [|[k v] l1 IH]; intros [|[k' v'] l2] H1 H2 E.
  - done.
  - specialize (E k'). simpl in E. by rewrite decide_True in E.
  - specialize (E k). simpl in E. by rewrite decide_True in E.
  - destruct (key_cmp_total k k') as [[Hlt| ->]|Hlt].
    + specialize (E k). rewrite (kfind_below _ _ _ _ H2 Hlt) in E. simpl in E.
      by rewrite decide_True in E.
    + assert (v = v') as -> by (specialize (E k'); simpl in E; rewrite !decide_True in E by done; congruence).
      f_equal. apply IH; [by apply sorted_keys_cons in H1 as []|by apply sorted_keys_cons in H2 as []|].
      intros q. specialize (E q). simpl in E. case_decide as Hq; [|done]. subst q.
      transitivity (@None V); [|symmetry]; apply kfind_None; intros Hin;
        [eapply key_lt_irrefl, (sorted_keys_gt _ _ _ _ H1 Hin)
        |eapply key_lt_irrefl, (sorted_keys_gt _ _ _ _ H2 Hin)].
    + specialize (E k'). rewrite (kfind_below _ _ _ _ H1 Hlt) in E. simpl in E.
      by rewrite decide_True in E.
Qed.
End kfind.

(** Mapping the values commutes with the search. *)
Lemma kfind_fmap {V V'} (g : V -> V') k (l : list (list byte * V)) :
  kfind k ((fun p => (p.1, g p.2)) <$> l) = g <$> kfind k l.
Proof. induction l as [|[k' v] l IH]; simpl; [done|]. by case_decide. Qed.

Lemma keys_fmap {V V'} (g : V -> V') (l : list (list byte * V)) :
  ((fun p => (p.1, g p.2)) <$> l).*1 = l.*1.
Proof. induction l as [|[k v] l IH]; simpl; [done|]. by f_equal. Qed.

(** ** Loops

    [loop { body }] where the body either continues with a new state, breaks
    with a value, or leaves the function with an error. [while_loop] runs it
    with the fuel its measure gives; [while_loop_unfold] says that this is enough
    fuel, whenever each continuing iteration decreases the measure. *)
Section loops.
Context {E St A : Type} (body : St -> outcome E (St + A)).

Fixpoint loop (fuel : nat) (s : St) : option (outcome E A) :=
  match fuel with
  | O => None
  | S n =>
      match body s with
      | Ok (inl s') => loop n s'
      | Ok (inr a) => Some (Ok a)
      | Err e => Some (Err e)
      | Panic => Some Panic
      end
  end.

Context (measure : St -> nat).

Definition while_loop (s : St) : outcome E A :=
  match loop (S (measure s)) s with Some r => r | None => Panic end.

Context (Hdec : forall s s', body s = Ok (inl s') -> measure s' < measure s).

Lemma loop_terminates fuel s : measure s < fuel -> is_Some (loop fuel s).
Proof using Hdec.
  revert s; induction fuel as [|n IH]; intros s Hlt; [lia|]. simpl.
  destruct (body s) as [[s'|a]|e|] eqn:B; eauto.
  apply IH. specialize (Hdec _ _ B). lia.
Qed.

Lemma loop_fuel_irrelevant n m s r : loop n s = Some r -> n <= m -> loop m s = Some r.
Proof.
  revert m s; induction n as [|n IH]; intros [|m] s; simpl; try done; [lia|].
  destruct (body s) as [[s'|a]|e|]; auto with lia.
Qed.

Lemma while_loop_unfold s :
  while_loop s =
  match body s with
  | Ok (inl s') => while_loop s'
  | Ok (inr a) => Ok a
  | Err e => Err e
  | Panic => Panic
  end.
Proof using Hdec.
  unfold while_loop at 1. cbn [loop]. destruct (body s) as [[s'|a]|e|] eqn:B; try done.
  destruct (loop_terminates (S (measure s')) s') as [r Hr]; [lia|].
  specialize (Hdec _ _ B). unfold while_loop. rewrite Hr.
  by rewrite (loop_fuel_irrelevant _ (measure s) _ _ Hr) by lia.
Qed.
End loops.

(** Goals without variables: split and compute. *)
Ltac closed := repeat split; first [done | discriminate | by vm_compute | (vm_compute; discriminate)].
