(* ===== verification/Consts.v ===== *)
(** * Constants, error enum, units and time ([src/consts], [src/err],
    [src/util], [SizeUnit] of [src/db/store.rs]) and the platform the code
    runs on. *)

From S2P Require Import Prelude.
From stdpp Require Import prelude gmap strings list.
From Stdlib Require Import Strings.Byte ZArith Lia.
Open Scope Z_scope.

(** ** [src/consts/mod.rs] *)
Definition KB : Z := 1024.
Definition MAX_KEY_SIZE : Z := 65536.
Definition MAX_KEY_SPACE_SIZE : Z := 255.
Definition MAX_VALUE_SIZE : Z := Z.shiftl 1 32.
Definition DEFAULT_FLUSH_SIGNAL_CHANNEL_SIZE : Z := 1.
Definition DEFAULT_MAX_WRITE_BUFFER_NUMBER : Z := 2.
Definition MIN_TRESHOLD : Z := 4.
Definition MAX_TRESHOLD : Z := 32.
Definition SIZE_OF_USIZE : Z := 8.
Definition SIZE_OF_U32 : Z := 4.
Definition SIZE_OF_U64 : Z := 8.
Definition SIZE_OF_U8 : Z := 1.
Definition HEAD_KEY_SIZE : Z := 4.
Definition BLOCK_SIZE : Z := 4 * 1024.
Definition VLOG_START_OFFSET : Z := 0.
Definition HEAD_ENTRY_KEY : list byte := [x68; x65; x61; x64].
Definition TAIL_ENTRY_KEY : list byte := [x74; x61; x69; x6c].
Definition HEAD_ENTRY_VALUE : list byte := [x68; x65; x61; x64].
Definition TAIL_ENTRY_VALUE : list byte := [x74; x61; x69; x6c].
Definition TOMB_STONE_MARKER : list byte := [x2a].

(** ** [SizeUnit] *)
Inductive SizeUnit := Bytes | Kilobytes | Megabytes | Gigabytes.

(** [SizeUnit::as_bytes] *)
Definition as_bytes (u : SizeUnit) (value : Z) : Z :=
  match u with
  | Bytes => value
  | Kilobytes => as_u64 (value * KB)
  | Megabytes => as_u64 (as_u64 (value * KB) * KB)
  | Gigabytes => as_u64 (as_u64 (as_u64 (value * KB) * KB) * KB)
  end.

Definition MIN_SSTABLE_SIZE : Z := as_bytes Kilobytes 4.
Definition WRITE_BUFFER_SIZE : Z := as_bytes Kilobytes 50.
Definition GC_CHUNK_SIZE : Z := as_bytes Kilobytes 1.

Lemma as_bytes_no_wrap u v :
  0 <= v -> v * KB ^ 3 < 2 ^ 64 ->
  as_bytes u v = v * match u with Bytes => 1 | Kilobytes => KB | Megabytes => KB ^ 2
                     | Gigabytes => KB ^ 3 end.
Proof.
  unfold as_bytes, KB. change (1024 ^ 3) with 1073741824. change (1024 ^ 2) with 1048576.
  intros. assert (as_u64 (v * 1024) = v * 1024) as E1 by (apply as_u64_id; unfold is_u64; lia).
  assert (as_u64 (v * 1024 * 1024) = v * 1024 * 1024) as E2 by (apply as_u64_id; unfold is_u64; lia).
  destruct u; rewrite ?E1, ?E2, ?as_u64_id by (unfold is_u64; lia); lia.
Qed.

(** ** [src/err/mod.rs] *)

(** Paths are lists of components, outermost first. *)
Abbreviation path := (list string) (only parsing).

(** What the model distinguishes of a [std::io::Error]. *)
Inductive io_error := UnexpectedEof | NotFound | OtherIO.

Inductive Error : Type :=
  | FileSync (error : io_error)
  | FileCreation (p : list string) (error : io_error)
  | FileSeek (error : io_error)
  | DirDelete (error : io_error)
  | FilterFilePathNotProvided
  | FilterFileOpen (p : list string)
  | FileDelete (error : io_error)
  | FileOpen (p : list string) (error : io_error)
  | GetFileMetaData (error : io_error)
  | TryFilePathExist (error : io_error)
  | DirCreation (p : list string) (error : io_error)
  | FileClear (p : list string) (error : io_error)
  | FileRead (p : list string) (error : io_error)
  | FileWrite (p : list string) (error : io_error)
  | DirOpen (p : list string) (error : io_error)
  | UnexpectedEOF (error : io_error)
  | GCErrorAttemptToRemoveUnsyncedEntries
  | ConditionsToInsertToBucketNotMet
  | FlushToDisk (error : Error)
  | InsertToMemTableFailed (k : string) (value_offset : Z)
  | MemTableRecovery (error : Error)
  | InvaidUUIDParseString (input_string : string)
  | InvalidSSTableDirectory (input_string : string)
  | CompactionFailed (error : Error)
  | CompactionPartiallyFailed (error : Error)
  | KeyNotFoundInAnySSTable
  | KeyFoundAsTombstoneInSSTable
  | KeyFoundAsTombstoneInMemtable
  | KeyFoundAsTombstoneInValueLog
  | KeyNotFoundInMemTable
  | KeyNotFoundInValueLog
  | KeyNotFound (error : Error)
  | NotFoundInDB
  | TombStoneCheckFailed (msg : string)
  | BlockIsFull
  | FilterNotProvidedForFlush
  | KeyMaxSizeExceeded
  | KeySizeNone
  | ValueSizeNone
  | ValMaxSizeExceeded
  | FilterNotFound
  | BiggestKeyIndex
  | LowestKeyIndex
  | TableSummaryIsNone
  | KeyNotFoundByAnyBloomFilter
  | FailedToInsertToBucket (msg : string)
  | GCErrorFailedToPunchHoleInVlogFile (error : io_error)
  | GCErrorUnsupportedPlatform (msg : string)
  | RangeScan (error : Error)
  | FlushSignalChannelOverflow
  | GCUpdateChannelOverflow
  | FlushSignalChannelClosed
  | Serialization (msg : string)
  | CompactionCleanupPartial
  | CompactionCleanup (error : Error)
  | CannotRemoveObsoleteSST
  | MergeSSTContainsZeroEntries
  | TokioJoin
  | EntriesCannotBeEmptyDuringFlush.

Abbreviation result A := (outcome Error A) (only parsing).

(** [FileNode::unexpected_eof] *)
Definition unexpected_eof : Error := UnexpectedEOF UnexpectedEof.

(** ** The platform

    What the code takes from crates outside the repository and from parts of
    the standard library whose algorithm is unspecified:
    - [max_buf_size]: a [tokio::fs::File] returns at most this many bytes per
      [read] call (the crate's default is 2 MiB);
    - [max_timestamp_secs]: the largest whole second [chrono::DateTime<Utc>]
      represents ([Utc.timestamp_opt] yields [None] beyond it);
    - [hash_key k seed]: [DefaultHasher] fed with key [k] and then [seed];
    - [no_of_bits n p]: the [f64] expression [-(n * ln p / ln 2 ^ 2).ceil()]
      cast to [u32] ([f64::ln] has unspecified precision). [f64] values are
      their 64-bit patterns. *)
Class Platform := {
  max_buf_size : Z;
  max_buf_size_ge : 65536 <= max_buf_size;
  max_timestamp_secs : Z;
  max_timestamp_secs_ge : 2 ^ 32 <= max_timestamp_secs;
  hash_key : list byte -> Z -> Z;
  hash_key_u64 k seed : is_u64 (hash_key k seed);
  no_of_bits : Z -> Z -> Z;
  no_of_bits_u32 n p : is_u32 (no_of_bits n p);
}.

(** ** Time: a [DateTime<Utc>] is a number of nanoseconds since the epoch. *)
Definition DateTime : Type := Z.

Definition timestamp_millis (t : DateTime) : Z := t / 1000000.

(** [util::default_datetime] *)
Definition default_datetime : DateTime := 0.

(** [util::milliseconds_to_datetime], on a [u64] *)
Definition milliseconds_to_datetime `{Platform} (milliseconds : Z) : outcome Error DateTime :=
  let seconds := milliseconds / 1000 in
  let nanoseconds := (milliseconds mod 1000) * 1000000 in
  if decide (seconds <= max_timestamp_secs)
  then Ok (seconds * 1000000000 + nanoseconds)
  else Panic.

(** Timestamps on disk are whole milliseconds. *)
Definition trunc_ms (t : DateTime) : DateTime := timestamp_millis t * 1000000.

Lemma trunc_ms_mod t : trunc_ms t = t - t `mod` 1000000.
Proof. unfold trunc_ms, timestamp_millis. rewrite (Z.mod_eq t 1000000) by lia. lia. Qed.
Lemma trunc_ms_le t : trunc_ms t <= t.
Proof. rewrite trunc_ms_mod. pose proof (Z.mod_pos_bound t 1000000). lia. Qed.

(** A point in time the code can have produced with [Utc::now()] and store:
    after the epoch and representable. *)
Definition valid_time `{Platform} (t : DateTime) : Prop :=
  0 <= t /\ t / 1000000000 <= max_timestamp_secs /\ timestamp_millis t < 2 ^ 64.

Lemma milliseconds_to_datetime_millis `{Platform} t :
  valid_time t -> milliseconds_to_datetime (timestamp_millis t) = Ok (trunc_ms t).
Proof.
  intros (H0 & H1 & _). unfold milliseconds_to_datetime, trunc_ms, timestamp_millis.
  rewrite decide_True by (rewrite Z.div_div by lia; done).
  f_equal. rewrite (Z.div_mod (t / 1000000) 1000) at 3 by lia. lia.
Qed.

Lemma trunc_ms_millis t : timestamp_millis (trunc_ms t) = timestamp_millis t.
Proof. unfold trunc_ms. unfold timestamp_millis at 1. by rewrite Z.div_mul. Qed.

Lemma trunc_ms_idem t : trunc_ms (trunc_ms t) = trunc_ms t.
Proof. unfold trunc_ms at 1. by rewrite trunc_ms_millis. Qed.

Lemma valid_time_trunc `{Platform} t : valid_time t -> valid_time (trunc_ms t).
Proof.
  intros (H0 & H1 & H2). unfold valid_time. rewrite trunc_ms_millis. split; [|split; [|done]].
  - unfold trunc_ms, timestamp_millis. pose proof (Z.div_pos t 1000000). lia.
  - etransitivity; [|exact H1]. apply Z.div_le_mono; [done|apply trunc_ms_le].
Qed.

Lemma valid_time_u64 `{Platform} t : valid_time t -> is_u64 (timestamp_millis t).
Proof. intros (? & _ & ?). split; [|done]. by apply Z.div_pos. Qed.

(** ** [f64] by bit pattern ([util::float_to_le_bytes] and back) *)
Definition float_to_le_bytes (bits : Z) : list byte := to_le 8 bits.

Definition float_from_le_bytes (bs : list byte) : option Z :=
  if decide (length bs <> 8%nat) then None else Some (from_le bs).

Lemma float_le_roundtrip f : is_u64 f -> float_from_le_bytes (float_to_le_bytes f) = Some f.
Proof.
  intros. unfold float_from_le_bytes, float_to_le_bytes.
  rewrite decide_False by (rewrite length_to_le; lia). by rewrite from_to_le_8.
Qed.

Definition f64_sign (f : Z) : bool := Z.testbit f 63.
Definition f64_is_nan (f : Z) : bool :=
  bool_decide (Z.land (Z.shiftr f 52) 2047 = 2047) && negb (bool_decide (Z.land f (2 ^ 52 - 1) = 0)).
Definition f64_is_zero (f : Z) : bool := bool_decide (Z.land f (2 ^ 63 - 1) = 0).

(** [f >= 0.0] and [f > 0.0] *)
Definition f64_ge0 (f : Z) : bool := negb (f64_is_nan f) && (negb (f64_sign f) || f64_is_zero f).
Definition f64_gt0 (f : Z) : bool := negb (f64_is_nan f) && negb (f64_sign f) && negb (f64_is_zero f).

(** ** A concrete platform, for running the definitions *)
Definition demo_hash (k : list byte) (seed : Z) : Z :=
  as_u64 (fold_left (fun acc b => acc + byte_val b) (take 8 k) 7 * (2 * seed + 1) + seed).

Lemma demo_hash_u64 k seed : is_u64 (demo_hash k seed).
Proof. apply as_u64_range. Qed.

Definition demo_platform : Platform :=
  {| max_buf_size := 2 * 1024 * 1024;
     max_buf_size_ge := ltac:(lia);
     max_timestamp_secs := 8210266876799;
     max_timestamp_secs_ge := ltac:(lia);
     hash_key := demo_hash;
     hash_key_u64 := demo_hash_u64;
     no_of_bits := fun n _ => as_u32 (n * 3);
     no_of_bits_u32 := fun n _ => as_u32_range (n * 3) |}.
