(* ===== verification/SkipMap.v ===== *)
(** * The ordered map interface ([crossbeam_skiplist::SkipMap])

    The crate is outside the repository, so the model depends on an interface:
    operations with the laws the crate documents (a map ordered by key whose
    iterator yields entries in ascending key order). Everything downstream is
    proved against [SkipMap]; [sorted_list_skipmap] is one implementation of
    it, used to run the definitions. [Arc<SkipMap<..>>] values are references
    into a [heap], so that clones of an [Arc] alias. *)

From S2P Require Import Prelude Consts.
From stdpp Require Import prelude gmap list sorting.
From Stdlib Require Import Strings.Byte.

Class SkipMap (M : Type -> Type) := {
  sm_new {V} : M V;
  sm_insert {V} : list byte -> V -> M V -> M V;
  sm_remove {V} : list byte -> M V -> M V;
  sm_get {V} : list byte -> M V -> option V;
  sm_iter {V} : M V -> list (list byte * V);
  sm_iter_sorted {V} (m : M V) : sorted_keys (sm_iter m);
  sm_get_iter {V} k (m : M V) : sm_get k m = kfind k (sm_iter m);
  sm_get_new {V} k : sm_get (V := V) k sm_new = None;
  sm_get_insert {V} k k' v (m : M V) :
    sm_get k (sm_insert k' v m) = if decide (k = k') then Some v else sm_get k m;
  sm_get_remove {V} k k' (m : M V) :
    sm_get k (sm_remove k' m) = if decide (k = k') then None else sm_get k m;
}.

Section interface.
Context {M : Type -> Type} `{SkipMap M} {V : Type}.
Implicit Types (m : M V) (k : list byte) (v : V).

(** Derived accessors of the crate: [front], [back], [len], [is_empty]. *)
Definition sm_front (m : M V) : option (list byte * V) := head (sm_iter m).
Definition sm_back (m : M V) : option (list byte * V) := last (sm_iter m).
Definition sm_len (m : M V) : Z := zlen (sm_iter m).
Definition sm_is_empty (m : M V) : bool :=
  match sm_iter m with [] => true | _ => false end.

(** Two maps are equivalent when no client can tell them apart. *)
#[export] Instance sm_equiv : Equiv (M V) := fun m1 m2 => sm_iter m1 = sm_iter m2.

#[export] Instance sm_equiv_equivalence : Equivalence (≡@{M V}).
Proof. split; unfold equiv, sm_equiv; repeat intro; congruence. Qed.

Lemma sm_equiv_get m1 m2 : m1 ≡ m2 <-> forall k, sm_get k m1 = sm_get k m2.
Proof.
  unfold equiv, sm_equiv. split.
  - intros E k. by rewrite !sm_get_iter, E.
  - intros E. apply sorted_kfind_ext; [apply sm_iter_sorted..|].
    intros k. by rewrite <- !sm_get_iter.
Qed.

#[export] Instance sm_insert_proper :
  Proper ((=) ==> (=) ==> (≡) ==> (≡)) (sm_insert (M := M) (V := V)).
Proof.
  intros k ? <- v ? <- m1 m2 E. rewrite sm_equiv_get in *. intros k'.
  rewrite !sm_get_insert. by case_decide.
Qed.

#[export] Instance sm_remove_proper :
  Proper ((=) ==> (≡) ==> (≡)) (sm_remove (M := M) (V := V)).
Proof.
  intros k ? <- m1 m2 E. rewrite sm_equiv_get in *. intros k'.
  rewrite !sm_get_remove. by case_decide.
Qed.

#[export] Instance sm_get_proper : Proper ((=) ==> (≡) ==> (=)) (sm_get (M := M) (V := V)).
Proof. intros k ? <- m1 m2 E. rewrite sm_equiv_get in E. apply E. Qed.

Lemma sm_iter_new : sm_iter (V := V) (sm_new (M := M)) = [].
Proof.
  destruct (sm_iter sm_new) as [|[k v] l] eqn:E; [done|].
  pose proof (sm_get_iter (V := V) k sm_new) as G. rewrite sm_get_new, E in G.
  simpl in G. by rewrite decide_True in G.
Qed.

Lemma sm_elem k v m : (k, v) ∈ sm_iter m <-> sm_get k m = Some v.
Proof.
  rewrite sm_get_iter. split; [apply kfind_sorted, sm_iter_sorted|apply kfind_elem].
Qed.

Lemma sm_is_empty_spec m : sm_is_empty m = true <-> forall k, sm_get k m = None.
Proof.
  unfold sm_is_empty. destruct (sm_iter m) as [|[k v] l] eqn:E.
  - split; [|done]. intros _ k. by rewrite sm_get_iter, E.
  - split; [done|]. intros G. specialize (G k). rewrite sm_get_iter, E in G.
    simpl in G. by rewrite decide_True in G.
Qed.

(** Building a map from entries by successive insertion: the last write of
    a key wins. *)
Definition sm_insert_all (l : list (list byte * V)) (m : M V) : M V :=
  fold_left (fun m p => sm_insert p.1 p.2 m) l m.

Lemma sm_get_insert_all k l m :
  sm_get k (sm_insert_all l m) =
  match kfind k (reverse l) with Some v => Some v | None => sm_get k m end.
Proof.
  unfold sm_insert_all. revert m. induction l as [|[k' v'] l IH]; intros m; [done|].
  simpl. rewrite IH, sm_get_insert, reverse_cons, kfind_app. simpl.
  destruct (kfind k (reverse l)); [done|]. by case_decide.
Qed.

Lemma kfind_reverse_sorted k (l : list (list byte * V)) :
  sorted_keys l -> kfind k (reverse l) = kfind k l.
Proof.
  induction l as [|[k' v] l IH]; intros Hs; [done|].
  rewrite reverse_cons, kfind_app. simpl.
  pose proof Hs as [Hs' _]%sorted_keys_cons. rewrite (IH Hs'). case_decide as E.
  - subst. destruct (kfind k' l) eqn:A; [|done]. apply kfind_elem in A.
    exfalso. eapply key_lt_irrefl, (sorted_keys_gt _ _ _ _ Hs).
    apply list_elem_of_fmap. by exists (k', v0).
  - by destruct (kfind k l).
Qed.

Lemma sm_iter_insert_all l :
  sorted_keys l -> sm_iter (sm_insert_all l sm_new) = l.
Proof.
  intros Hs. apply sorted_kfind_ext; [apply sm_iter_sorted|done|]. intros k.
  rewrite <- sm_get_iter, sm_get_insert_all, kfind_reverse_sorted, sm_get_new by done.
  by destruct (kfind k l).
Qed.
End interface.

(** ** An implementation: strictly sorted association lists *)
Section sorted_list.
Context {V : Type}.

Fixpoint sl_insert (k : list byte) (v : V) (l : list (list byte * V)) : list (list byte * V) :=
  match l with
  | [] => [(k, v)]
  | (k', v') :: l' =>
      match key_cmp k k' with
      | Lt => (k, v) :: (k', v') :: l'
      | Eq => (k, v) :: l'
      | Gt => (k', v') :: sl_insert k v l'
      end
  end.

Fixpoint sl_remove (k : list byte) (l : list (list byte * V)) : list (list byte * V) :=
  match l with
  | [] => []
  | (k', v') :: l' => if decide (k = k') then l' else (k', v') :: sl_remove k l'
  end.

Lemma sl_insert_keys k v l x : x ∈ (sl_insert k v l).*1 -> x = k \/ x ∈ l.*1.
Proof.
  induction l as [|[k' v'] l IH]; simpl; [set_solver|].
  destruct (key_cmp k k') eqn:E; simpl; rewrite ?elem_of_cons; [|naive_solver..].
  apply key_cmp_eq in E. naive_solver.
Qed.

Lemma sl_insert_sorted k v l : sorted_keys l -> sorted_keys (sl_insert k v l).
Proof.
  unfold sorted_keys. induction l as [|[k' v'] l IH]; simpl; [repeat constructor|].
  intros [Hs Hf]%StronglySorted_inv. destruct (key_cmp k k') eqn:E; simpl.
  - apply key_cmp_eq in E as ->. by constructor.
  - constructor; [by constructor|]. constructor; [done|].
    eapply Forall_impl; [exact Hf|]. intros x. by apply key_lt_trans.
  - constructor; [auto|]. rewrite Forall_forall in *. intros x.
    intros [->|Hin]%sl_insert_keys; [by apply key_cmp_gt|auto].
Qed.

Lemma sl_remove_keys k l x : x ∈ (sl_remove k l).*1 -> x ∈ l.*1.
Proof. induction l as [|[k' v'] l IH]; simpl; [done|]. case_decide; simpl; set_solver. Qed.

Lemma sl_remove_sorted k l : sorted_keys l -> sorted_keys (sl_remove k l).
Proof.
  unfold sorted_keys. induction l as [|[k' v'] l IH]; simpl; [done|].
  intros [Hs Hf]%StronglySorted_inv. case_decide; [done|]. simpl. constructor; [auto|].
  rewrite Forall_forall in *. intros x Hx%sl_remove_keys. auto.
Qed.

Lemma sl_get_insert k k' v l :
  kfind k (sl_insert k' v l) = if decide (k = k') then Some v else kfind k l.
Proof.
  induction l as [|[k0 v0] l IH]; simpl; [done|].
  destruct (key_cmp k' k0) eqn:E; simpl.
  - apply key_cmp_eq in E as ->. by repeat case_decide.
  - done.
  - rewrite IH. repeat case_decide; try done. subst. by rewrite key_cmp_refl in E.
Qed.

Lemma sl_get_remove k k' l :
  sorted_keys l -> kfind k (sl_remove k' l) = if decide (k = k') then None else kfind k l.
Proof.
  induction l as [|[k0 v0] l IH]; intros Hs; simpl; [by case_decide|].
  pose proof Hs as [Hs' _]%sorted_keys_cons. destruct (decide (k' = k0)) as [->|E]; simpl.
  - destruct (decide (k = k0)) as [->|]; [|done]. apply kfind_None. intros Hin.
    eapply key_lt_irrefl, (sorted_keys_gt _ _ _ _ Hs Hin).
  - rewrite (IH Hs'). repeat case_decide; congruence.
Qed.
End sorted_list.

(** Inserting a value that a projection ignores, under a new key, is invisible
    through the projection. *)
Lemma omap_sl_insert {V B} (f : V -> option B) k v (l : list (list byte * V)) :
  k ∉ l.*1 -> f v = None -> omap f (sl_insert k v l).*2 = omap f l.*2.
Proof.
  induction l as [|[k' v'] l IH]; intros Hk Hf; csimpl; [by rewrite Hf|].
  destruct (key_cmp k k') eqn:E; csimpl.
  - apply key_cmp_eq in E. set_solver.
  - by rewrite Hf.
  - by rewrite IH by set_solver.
Qed.

(** Every implementation iterates over the sorted insertion. *)
Lemma sm_iter_insert {M} `{SkipMap M} {V} k v (m : M V) : sm_iter (sm_insert k v m) = sl_insert k v (sm_iter m).
Proof.
  apply sorted_kfind_ext; [apply sm_iter_sorted|apply sl_insert_sorted, sm_iter_sorted|]. intros k'.
  by rewrite <- sm_get_iter, sm_get_insert, sl_get_insert, sm_get_iter.
Qed.

(** The list together with the fact that it is sorted. *)
Definition slist (V : Type) : Type := { l : list (list byte * V) | sorted_keys l }.

Definition sorted_list_skipmap : SkipMap slist :=
  {| sm_new V := exist _ [] (SSorted_nil key_lt);
     sm_insert V k v m := exist _ (sl_insert k v (proj1_sig m)) (sl_insert_sorted k v _ (proj2_sig m));
     sm_remove V k m := exist _ (sl_remove k (proj1_sig m)) (sl_remove_sorted k _ (proj2_sig m));
     sm_get V k m := kfind k (proj1_sig m);
     sm_iter V m := proj1_sig m;
     sm_iter_sorted V m := proj2_sig m;
     sm_get_iter V k m := eq_refl;
     sm_get_new V k := eq_refl;
     sm_get_insert V k k' v m := sl_get_insert k k' v (proj1_sig m);
     sm_get_remove V k k' m := sl_get_remove k k' (proj1_sig m) (proj2_sig m) |}.
