(* ===== verification/FileIO.v ===== *)
(** * Files ([src/fs/mod.rs]: [FileNode], [FileAsync]; [src/macro/mod.rs])

    A file system is a table of inodes (byte strings), a name table and a set
    of directories. A [FileNode] keeps the inode it opened, so a handle stays
    usable after its name is removed. Files are opened with [append(true)]:
    every write goes to the end. Reads follow a [seek] made under the same
    lock, so the cursor is the list of bytes still ahead. *)

From stdpp Require Import prelude gmap strings list.
From Stdlib Require Import Strings.Byte ZArith Lia.
From S2P Require Import Prelude Consts.
Open Scope Z_scope.

Inductive FileType := FIndex | FData | FValueLog | FFilter | FMeta | FSummary.

Record FileNode := mkFileNode {
  file_path : list string;
  file : nat;
  file_type : FileType;
}.

Record FS := mkFS {
  inodes : gmap nat (list byte);
  names : gmap (list string) nat;
  dirs : gset (list string);
  next_inode : nat;
}.

Definition empty_fs : FS := mkFS ∅ ∅ {[ [] ]} 0.

(** Contents of an inode. *)
Definition content (fs : FS) (i : nat) : list byte := default [] (inodes fs !! i).

Definition set_inode (fs : FS) (i : nat) (bs : list byte) : FS :=
  mkFS (<[i := bs]> (inodes fs)) (names fs) (dirs fs) (next_inode fs).

(** The directory a path is in: [Path::parent]. *)
Definition parent (p : list string) : list string := take (pred (length p)) p.

(** Every prefix of a path, itself included. *)
Definition prefixes (p : list string) : list (list string) :=
  (fun n => take n p) <$> seq 0 (S (length p)).

Definition path_exists (fs : FS) (p : list string) : bool :=
  bool_decide (p ∈ dirs fs) || bool_decide (is_Some (names fs !! p)).

(** [FileNode::create]: open for reading and appending, creating the file. *)
Definition file_create (p : list string) : io FS Error nat := fun fs =>
  match names fs !! p with
  | Some i => (Ok i, fs)
  | None =>
      if decide (parent p ∈ dirs fs) then
        let i := next_inode fs in
        (Ok i, mkFS (<[i := []]> (inodes fs)) (<[p := i]> (names fs)) (dirs fs) (S i))
      else (Err (FileCreation p NotFound), fs)
  end.

(** [FileNode::new] *)
Definition file_new (p : list string) (ty : FileType) : io FS Error FileNode :=
  i ← file_create p; mret (mkFileNode p i ty).

(** [FileNode::create_dir_all] *)
Definition create_dir_all (p : list string) : io FS Error unit := fun fs =>
  if path_exists fs p then (Ok tt, fs)
  else (Ok tt, mkFS (inodes fs) (names fs) (list_to_set (prefixes p) ∪ dirs fs) (next_inode fs)).

(** [FileNode::open] *)
Definition file_open (p : list string) : io FS Error nat := fun fs =>
  match names fs !! p with
  | Some i => (Ok i, fs)
  | None => (Err (FileOpen p NotFound), fs)
  end.

(** [FileNode::metadata().len()] and [FileAsync::size] *)
Definition file_size (n : FileNode) : io FS Error Z := fun fs => (Ok (zlen (content fs (file n))), fs).

(** [tokio::fs::metadata(path).len()] *)
Definition path_len (p : list string) : io FS Error Z := fun fs =>
  match names fs !! p with
  | Some i => (Ok (zlen (content fs i)), fs)
  | None => (Err (GetFileMetaData NotFound), fs)
  end.

(** [FileNode::write_all] *)
Definition write_all (n : FileNode) (buf : list byte) : io FS Error unit := fun fs =>
  (Ok tt, set_inode fs (file n) (content fs (file n) ++ buf)).

(** [FileNode::clear] *)
Definition file_clear (n : FileNode) : io FS Error unit := fun fs =>
  (Ok tt, set_inode fs (file n) []).

(** [FileNode::sync_all]: contents are already visible to every reader of the
    inode; nothing the model observes changes. *)
Definition sync_all (n : FileNode) : io FS Error unit := mret tt.

(** [tokio::fs::remove_dir_all(path)]: removes the names below a directory. *)
Definition remove_dir_all (p : list string) : io FS Error unit := fun fs =>
  if decide (p ∈ dirs fs) then
    (Ok tt, mkFS (inodes fs)
              (filter (fun q => ~ p `prefix_of` q.1) (names fs))
              (filter (fun q => ~ p `prefix_of` q) (dirs fs)) (next_inode fs))
  else (Err (DirDelete NotFound), fs).

(** ** Reading ([load_buffer!])

    [file.read(buf)] on a buffer of [n] bytes: [k] bytes are copied, where [k]
    is bounded by the buffer, by what is left and by the platform's limit per
    call; the rest of the (zero-initialised) buffer is untouched. *)
Section reading.
Context `{Platform}.

Definition read_count (n : Z) (rest : list byte) : Z :=
  Z.min n (Z.min max_buf_size (zlen rest)).

Definition load_buffer (n : Z) (rest : list byte) : list byte * Z * list byte :=
  let k := read_count n rest in
  (take (Z.to_nat k) rest ++ replicate (Z.to_nat (n - k)) x00, k, drop (Z.to_nat k) rest).

(** One [load_buffer!] followed by the [bytes_read == 0] check. *)
Definition read_field (n : Z) (rest : list byte) : outcome Error (list byte * Z * list byte) :=
  let '(buf, k, rest') := load_buffer n rest in
  if decide (k = 0) then Err unexpected_eof else Ok (buf, k, rest').

(** The bytes from [offset] on: [seek(SeekFrom::Start(offset))]. *)
Definition seek (offset : Z) (bs : list byte) : list byte := drop (Z.to_nat offset) bs.

Lemma load_buffer_app xs rest :
  zlen xs <= max_buf_size -> load_buffer (zlen xs) (xs ++ rest) = (xs, zlen xs, rest).
Proof.
  intros Hle. unfold load_buffer, read_count.
  assert (Z.min (zlen xs) (Z.min max_buf_size (zlen (xs ++ rest))) = zlen xs) as ->.
  { rewrite zlen_app. pose proof (zlen_nonneg rest). lia. }
  unfold zlen. rewrite Nat2Z.id, Z.sub_diag, take_app_length, drop_app_length.
  by rewrite app_nil_r.
Qed.

Lemma load_buffer_nil n : 0 <= n -> load_buffer n [] = (replicate (Z.to_nat n) x00, 0, []).
Proof.
  intros. unfold load_buffer, read_count. rewrite zlen_nil.
  pose proof max_buf_size_ge. replace (Z.min n (Z.min max_buf_size 0)) with 0 by lia.
  simpl. by rewrite Z.sub_0_r.
Qed.

(** A call never reads past the end, and consumes what it reports. *)
Lemma load_buffer_spec n rest buf k rest' :
  0 <= n -> load_buffer n rest = (buf, k, rest') ->
  zlen buf = n /\ 0 <= k <= n /\ zlen rest = k + zlen rest'.
Proof.
  intros Hn [= <- <- <-]. unfold read_count. pose proof max_buf_size_ge.
  pose proof (zlen_nonneg rest). unfold zlen in *.
  rewrite length_app, length_take, length_replicate, length_drop. lia.
Qed.

(** Zero bytes are reported only at the end of the file or for an empty buffer. *)
Lemma read_count_zero n rest :
  0 <= n -> read_count n rest = 0 <-> n = 0 \/ rest = [].
Proof.
  intros. unfold read_count. pose proof max_buf_size_ge. destruct rest.
  - rewrite zlen_nil. split; [by right|lia].
  - rewrite zlen_cons. pose proof (zlen_nonneg rest). split; [left; lia|].
    intros [->|]; [lia|done].
Qed.
Lemma load_buffer_le n z rest :
  (n <= 8)%nat -> load_buffer (Z.of_nat n) (to_le n z ++ rest) = (to_le n z, Z.of_nat n, rest).
Proof.
  intros. rewrite <- (zlen_to_le n z) at 1. rewrite load_buffer_app.
  - by rewrite zlen_to_le.
  - rewrite zlen_to_le. pose proof max_buf_size_ge. lia.
Qed.

Lemma read_field_app xs rest :
  xs <> [] -> zlen xs <= max_buf_size ->
  read_field (zlen xs) (xs ++ rest) = Ok (xs, zlen xs, rest).
Proof.
  intros Hne Hle. unfold read_field. rewrite load_buffer_app by done.
  apply zlen_pos in Hne. by rewrite decide_False by lia.
Qed.

Lemma read_field_le n z rest :
  (0 < n <= 8)%nat -> read_field (Z.of_nat n) (to_le n z ++ rest) = Ok (to_le n z, Z.of_nat n, rest).
Proof.
  intros. unfold read_field. rewrite load_buffer_le by lia. by rewrite decide_False by lia.
Qed.

(** A field that was read took at least one byte. *)
Lemma read_field_consumes n rest buf k rest' :
  0 <= n -> read_field n rest = Ok (buf, k, rest') ->
  zlen buf = n /\ 0 < k <= n /\ zlen rest = k + zlen rest'.
Proof.
  unfold read_field. intros Hn. destruct (load_buffer n rest) as [[b k'] r'] eqn:E.
  destruct (load_buffer_spec _ _ _ _ _ Hn E) as (? & ? & ?).
  case_decide; [done|]. intros [= <- <- <-]. lia.
Qed.

End reading.

Lemma content_set_inode fs i j bs :
  content (set_inode fs i bs) j = if decide (i = j) then bs else content fs j.
Proof.
  unfold content, set_inode. simpl. case_decide; subst.
  - by rewrite lookup_insert_eq.
  - by rewrite lookup_insert_ne.
Qed.

Lemma seek_app xs ys : seek (zlen xs) (xs ++ ys) = ys.
Proof. unfold seek, zlen. by rewrite Nat2Z.id, drop_app_length. Qed.

Lemma seek_plus a b bs : 0 <= a -> 0 <= b -> seek (a + b) bs = seek b (seek a bs).
Proof. intros. unfold seek. rewrite drop_drop. f_equal. lia. Qed.

Lemma seek_0 bs : seek 0 bs = bs.
Proof. done. Qed.

(** ** Creating files *)
Lemma parent_snoc d s : parent (d ++ [s]) = d.
Proof.
  unfold parent. rewrite length_app, Nat.add_comm. simpl. by rewrite take_app_length.
Qed.

(** The file system after creating an empty file. *)
Definition fs_touch (fs : FS) (p : list string) : FS :=
  mkFS (<[next_inode fs := []]> (inodes fs)) (<[p := next_inode fs]> (names fs)) (dirs fs) (S (next_inode fs)).

Lemma file_new_fresh fs d s ty :
  names fs !! (d ++ [s]) = None -> d ∈ dirs fs ->
  file_new (d ++ [s]) ty fs = (Ok (mkFileNode (d ++ [s]) (next_inode fs) ty), fs_touch fs (d ++ [s])).
Proof.
  intros Hn Hd. unfold file_new, mbind, io_bind, file_create. by rewrite Hn, decide_True by by rewrite parent_snoc.
Qed.

Lemma file_new_existing fs p ty i :
  names fs !! p = Some i -> file_new p ty fs = (Ok (mkFileNode p i ty), fs).
Proof. intros Hn. unfold file_new, mbind, io_bind, file_create. by rewrite Hn. Qed.

Lemma content_touch fs p : content (fs_touch fs p) (next_inode fs) = [].
Proof. unfold content, fs_touch. simpl. by rewrite lookup_insert_eq. Qed.

Lemma content_touch_ne fs p i : i <> next_inode fs -> content (fs_touch fs p) i = content fs i.
Proof. intros. unfold content, fs_touch. simpl. by rewrite lookup_insert_ne. Qed.

(** ** How an operation changed the files

    [fs_appends i bs fs fs']: [bs] was appended to inode [i] and nothing else
    changed; [fs_created p bs fs fs']: a file named [p] holding [bs] was made. *)
Record fs_appends (i : nat) (bs : list byte) (fs fs' : FS) : Prop := {
  fa_names : names fs' = names fs;
  fa_dirs : dirs fs' = dirs fs;
  fa_next : next_inode fs' = next_inode fs;
  fa_content : content fs' i = content fs i ++ bs;
  fa_other j : j <> i -> content fs' j = content fs j;
}.

Record fs_created (p : list string) (bs : list byte) (fs fs' : FS) : Prop := {
  fc_names : names fs' = <[p := next_inode fs]> (names fs);
  fc_dirs : dirs fs' = dirs fs;
  fc_next : next_inode fs' = S (next_inode fs);
  fc_content : content fs' (next_inode fs) = bs;
  fc_other j : j <> next_inode fs -> content fs' j = content fs j;
}.

Lemma fs_appends_refl i fs : fs_appends i [] fs fs.
Proof. split; try done. by rewrite app_nil_r. Qed.

Lemma fs_appends_trans i bs bs' fs fs' fs'' :
  fs_appends i bs fs fs' -> fs_appends i bs' fs' fs'' -> fs_appends i (bs ++ bs') fs fs''.
Proof.
  intros [N D X C O] [N' D' X' C' O']. split; try congruence.
  - by rewrite C', C, app_assoc.
  - intros j Hj. by rewrite O', O.
Qed.

Lemma write_all_appends n bs fs :
  exists fs', write_all n bs fs = (Ok tt, fs') /\ fs_appends (file n) bs fs fs'.
Proof.
  eexists. split; [reflexivity|]. split; try done.
  - by rewrite content_set_inode, decide_True.
  - intros j Hj. by rewrite content_set_inode, decide_False.
Qed.

(** Create a fresh file and write it in one go. *)
Lemma create_write_fresh fs d s ty bs :
  names fs !! (d ++ [s]) = None -> d ∈ dirs fs ->
  exists fs1 fs', file_new (d ++ [s]) ty fs = (Ok (mkFileNode (d ++ [s]) (next_inode fs) ty), fs1) /\
    write_all (mkFileNode (d ++ [s]) (next_inode fs) ty) bs fs1 = (Ok tt, fs') /\
    fs_created (d ++ [s]) bs fs fs'.
Proof.
  intros Hn Hd. do 2 eexists. split; [by apply file_new_fresh|]. split; [reflexivity|]. split; try done.
  - rewrite content_set_inode, decide_True by done. by rewrite content_touch.
  - intros j Hj. rewrite content_set_inode, decide_False by done. by rewrite content_touch_ne.
Qed.

(** Names lie in existing directories and refer to allocated inodes. *)
Record fs_wf (fs : FS) : Prop := {
  wf_parent p i : names fs !! p = Some i -> parent p ∈ dirs fs;
  wf_inode p i : names fs !! p = Some i -> (i < next_inode fs)%nat;
}.

Lemma wf_fresh_name fs d s : fs_wf fs -> d ∉ dirs fs -> names fs !! (d ++ [s]) = None.
Proof.
  intros [Hp _] Hd. destruct (names fs !! (d ++ [s])) as [i|] eqn:E; [|done].
  apply Hp in E. by rewrite parent_snoc in E.
Qed.

Lemma path_exists_false fs p : path_exists fs p = false -> (p ∉ dirs fs) /\ names fs !! p = None.
Proof.
  unfold path_exists. intros [Hd Hn]%orb_false_iff. apply bool_decide_eq_false in Hd, Hn.
  split; [done|]. by destruct (names fs !! p); [destruct Hn|].
Qed.

Lemma prefixes_elem q p : q `prefix_of` p -> q ∈ prefixes p.
Proof.
  intros [r ->]. unfold prefixes. apply list_elem_of_fmap. exists (length q). split; [by rewrite take_app_length|].
  apply elem_of_seq. rewrite length_app. lia.
Qed.

(** A new directory appears with its ancestors. *)
Lemma create_dir_all_fresh fs p :
  path_exists fs p = false ->
  exists fs', create_dir_all p fs = (Ok tt, fs') /\ p ∈ dirs fs' /\ names fs' = names fs /\
    next_inode fs' = next_inode fs /\ inodes fs' = inodes fs /\ (dirs fs ⊆ dirs fs') /\
    (forall q, q ∈ dirs fs' -> q ∈ dirs fs \/ q `prefix_of` p) /\ (forall q, q `prefix_of` p -> q ∈ dirs fs').
Proof.
  intros Hp. unfold create_dir_all. rewrite Hp. eexists. split; [reflexivity|].
  cbn [dirs names next_inode inodes]. split.
  2: { do 3 (split; [done|]). split; [by apply union_subseteq_r|].
       split.
       - intros q [Hq|Hq]%elem_of_union; [right|by left]. apply elem_of_list_to_set in Hq. unfold prefixes in Hq.
         apply list_elem_of_fmap in Hq as (n & -> & _). exists (drop n p). by rewrite take_drop.
       - intros q Hq. apply elem_of_union_l, elem_of_list_to_set. by apply prefixes_elem. }
  apply elem_of_union_l, elem_of_list_to_set. by apply prefixes_elem.
Qed.

(** Making sure a directory exists: names and files stay. *)
(** Every directory has its parent. *)
Definition dirs_closed (fs : FS) : Prop := forall q, q ∈ dirs fs -> q <> [] -> parent q ∈ dirs fs.

Lemma parent_prefix (q d : list string) : q `prefix_of` d -> parent q `prefix_of` d.
Proof. unfold parent. intros Hq. etrans; [|exact Hq]. exists (drop (pred (length q)) q). by rewrite take_drop. Qed.

Lemma create_dir_all_run fs p :
  names fs !! p = None ->
  exists fs', create_dir_all p fs = (Ok tt, fs') /\ p ∈ dirs fs' /\ names fs' = names fs /\
    next_inode fs' = next_inode fs /\ inodes fs' = inodes fs /\ (dirs fs ⊆ dirs fs') /\
    (forall q, q ∈ dirs fs' -> q ∈ dirs fs \/ q `prefix_of` p) /\ (dirs_closed fs -> dirs_closed fs').
Proof.
  intros Hn. destruct (path_exists fs p) eqn:E.
  2: { destruct (create_dir_all_fresh fs p E) as (fs' & ? & ? & ? & ? & ? & Hsub & Hnew & Hpre). exists fs'. do 7 (split; [done|]).
       intros Hc q [Hq|Hq]%Hnew Hne; [by apply Hsub, Hc|by apply Hpre, parent_prefix]. }
  exists fs. unfold create_dir_all. rewrite E. split; [done|]. split; [|by eauto 10].
  unfold path_exists in E. apply orb_true_iff in E as [E|E]; apply bool_decide_eq_true in E; [done|].
  rewrite Hn in E. by destruct E.
Qed.
