(* ===== verification/Types.v ===== *)
(** * Entries ([src/memtable/mem.rs]: [Entry], [SkipMapValue], [UserEntry]) *)

From stdpp Require Import prelude gmap strings list.
From Stdlib Require Import Strings.Byte ZArith Lia.
From S2P Require Import Prelude Consts.
Open Scope Z_scope.

Record SkipMapValue := mkSMV {
  smv_val_offset : Z;
  smv_created_at : DateTime;
  smv_is_tombstone : bool;
}.

Record Entry := mkEntry {
  e_key : list byte;
  e_val_offset : Z;
  e_created_at : DateTime;
  e_is_tombstone : bool;
}.

Record UserEntry := mkUserEntry {
  ue_val : list byte;
  ue_created_at : DateTime;
}.

(** [SkipMapValue::new], [Entry::new] *)
Definition smv_new (o : Z) (t : DateTime) (b : bool) : SkipMapValue := mkSMV o t b.
Definition entry_new (k : list byte) (o : Z) (t : DateTime) (b : bool) : Entry := mkEntry k o t b.

(** The entry a map binding stands for, and back. *)
Definition entry_of (p : list byte * SkipMapValue) : Entry :=
  entry_new p.1 (smv_val_offset p.2) (smv_created_at p.2) (smv_is_tombstone p.2).
Definition value_of (e : Entry) : SkipMapValue :=
  smv_new (e_val_offset e) (e_created_at e) (e_is_tombstone e).

(** [Entry::has_expired] at time [now], on [u64] milliseconds *)
Definition has_expired (e : Entry) (ttl_millis : Z) (now : DateTime) : bool :=
  let current_timestamp := as_u64 (timestamp_millis now) in
  bool_decide (current_timestamp > as_u64 (as_u64 (timestamp_millis (e_created_at e)) + as_u64 ttl_millis)).

#[export] Instance SkipMapValue_eq_dec : EqDecision SkipMapValue.
Proof. solve_decision. Defined.
#[export] Instance Entry_eq_dec : EqDecision Entry.
Proof. solve_decision. Defined.

(** What survives a trip through an SSTable: the offset cut to [u32], the time
    cut to milliseconds. *)
Definition smv_stored (v : SkipMapValue) : SkipMapValue :=
  mkSMV (as_u32 (smv_val_offset v)) (trunc_ms (smv_created_at v)) (smv_is_tombstone v).
