(* ===== verification/World.v ===== *)
(** * The world the components share

    The database's parts run against one machine state: the file system, a heap
    of the [Arc]-shared skip maps and bit vectors (clones of an [Arc] hold the
    same location, so a write through one is seen through all), and the number
    of readings taken from the clock and the random generator. *)

From stdpp Require Import prelude gmap strings pretty list.
From Stdlib Require Import Strings.Byte ZArith Lia.
From S2P Require Import Prelude Consts SkipMap FileIO Types.
Open Scope Z_scope.

(** What the code reads from its environment: the [i]-th reading of the clock
    ([Utc::now()]), of the UUID generator ([Uuid::new_v4]), of the table id
    generator ([generate_table_id]), and the unspecified iteration order of a
    [HashMap]. *)
Class Env `{Platform} := {
  clock : nat -> DateTime;
  clock_valid n : valid_time (clock n);
  new_uuid : nat -> string;
  new_table_id : nat -> list byte;
  hash_iter {A} : list A -> list A;
  hash_iter_perm {A} (l : list A) : hash_iter l ≡ₚ l;
}.

Record World (M : Type -> Type) := mkWorld {
  w_fs : FS;
  w_maps : gmap nat (M SkipMapValue);
  w_bits : gmap nat (list bool);
  w_next : nat;
  w_ticks : nat;
}.
Arguments mkWorld {M}.
Arguments w_fs {M}.
Arguments w_maps {M}.
Arguments w_bits {M}.
Arguments w_next {M}.
Arguments w_ticks {M}.

Section world.
Context `{Env} {M : Type -> Type} `{SkipMap M}.
Abbreviation W := (World M).

Definition with_fs (w : W) (fs : FS) : W := mkWorld fs (w_maps w) (w_bits w) (w_next w) (w_ticks w).

(** Run a file operation in the world. *)
Definition on_fs {A} (m : io FS Error A) : io W Error A := fun w =>
  let '(r, fs') := m (w_fs w) in (r, with_fs w fs').

(** The skip map and the bit vector at a location. *)
Definition the_map (w : W) (l : nat) : M SkipMapValue := default sm_new (w_maps w !! l).
Definition the_bits (w : W) (l : nat) : list bool := default [] (w_bits w !! l).

Definition put_map (w : W) (l : nat) (m : M SkipMapValue) : W :=
  mkWorld (w_fs w) (<[l := m]> (w_maps w)) (w_bits w) (w_next w) (w_ticks w).
Definition put_bits (w : W) (l : nat) (b : list bool) : W :=
  mkWorld (w_fs w) (w_maps w) (<[l := b]> (w_bits w)) (w_next w) (w_ticks w).

(** [Arc::new(SkipMap)], [Arc::new(Mutex::new(BitVec))] *)
Definition alloc_map (m : M SkipMapValue) : io W Error nat := fun w =>
  (Ok (w_next w), mkWorld (w_fs w) (<[w_next w := m]> (w_maps w)) (w_bits w) (S (w_next w)) (w_ticks w)).
Definition alloc_bits (b : list bool) : io W Error nat := fun w =>
  (Ok (w_next w), mkWorld (w_fs w) (w_maps w) (<[w_next w := b]> (w_bits w)) (S (w_next w)) (w_ticks w)).

Definition read_map (l : nat) : io W Error (M SkipMapValue) := fun w => (Ok (the_map w l), w).
Definition read_bits (l : nat) : io W Error (list bool) := fun w => (Ok (the_bits w l), w).
Definition write_map (l : nat) (m : M SkipMapValue) : io W Error unit := fun w => (Ok tt, put_map w l m).
Definition write_bits (l : nat) (b : list bool) : io W Error unit := fun w => (Ok tt, put_bits w l b).

Definition tick (w : W) : W := mkWorld (w_fs w) (w_maps w) (w_bits w) (w_next w) (S (w_ticks w)).

(** [Utc::now()], [Uuid::new_v4()], [MemTable::generate_table_id()] *)
Definition now : io W Error DateTime := fun w => (Ok (clock (w_ticks w)), tick w).
Definition gen_uuid : io W Error string := fun w => (Ok (new_uuid (w_ticks w)), tick w).
Definition generate_table_id : io W Error (list byte) := fun w => (Ok (new_table_id (w_ticks w)), tick w).

(** [m.await.unwrap()] *)
Definition io_unwrap {A} (m : io W Error A) : io W Error A := fun w =>
  match m w with (Err _, w') => (Panic, w') | r => r end.

(** Iterating a [HashMap] *)
Definition hm_iter {K V} `{Countable K} (m : gmap K V) : list (K * V) := hash_iter (map_to_list m).

Lemma hm_iter_elem {K V} `{Countable K} (m : gmap K V) k v : (k, v) ∈ hm_iter m <-> m !! k = Some v.
Proof. unfold hm_iter. by rewrite hash_iter_perm, elem_of_map_to_list. Qed.

Lemma the_map_put w l l' m : the_map (put_map w l m) l' = if decide (l = l') then m else the_map w l'.
Proof.
  unfold the_map, put_map. simpl. case_decide; subst; [by rewrite lookup_insert_eq|by rewrite lookup_insert_ne].
Qed.

Lemma the_bits_put w l l' b : the_bits (put_bits w l b) l' = if decide (l = l') then b else the_bits w l'.
Proof.
  unfold the_bits, put_bits. simpl. case_decide; subst; [by rewrite lookup_insert_eq|by rewrite lookup_insert_ne].
Qed.

(** A world that differs by new locations of the heap only *)
Record heap_ext (w w' : W) : Prop := {
  hx_fs : w_fs w' = w_fs w;
  hx_ticks : w_ticks w' = w_ticks w;
  hx_next : (w_next w <= w_next w')%nat;
  hx_maps l : (l < w_next w)%nat -> the_map w' l = the_map w l;
  hx_bits l : (l < w_next w)%nat -> the_bits w' l = the_bits w l;
}.

#[global] Instance heap_ext_preorder : PreOrder heap_ext.
Proof.
  split; [by intros w; split|]. intros w1 w2 w3 [A1 A2 A3 A4 A5] [B1 B2 B3 B4 B5]. split; [congruence..|lia| |].
  - intros l Hl. rewrite B4 by lia. by apply A4.
  - intros l Hl. rewrite B5 by lia. by apply A5.
Qed.

Lemma io_unwrap_ok {A} (m : io W Error A) w a w' : m w = (Ok a, w') -> io_unwrap m w = (Ok a, w').
Proof. unfold io_unwrap. by intros ->. Qed.

Lemma on_fs_ok {A} (m : io FS Error A) w a fs' :
  m (w_fs w) = (Ok a, fs') -> on_fs m w = (Ok a, with_fs w fs').
Proof. unfold on_fs. by intros ->. Qed.
End world.

(** ** Stepping through the monad *)
Lemma io_step {S E A B} (m : io S E A) (f : A -> io S E B) s a s' :
  m s = (Ok a, s') -> (m ≫= f) s = f a s'.
Proof. intros E0. unfold mbind, io_bind. by rewrite E0. Qed.

Lemma io_step_err {S E A B} (m : io S E A) (f : A -> io S E B) s e s' :
  m s = (Err e, s') -> (m ≫= f) s = (Err e, s').
Proof. intros E0. unfold mbind, io_bind. by rewrite E0. Qed.

Lemma io_step_panic {S E A B} (m : io S E A) (f : A -> io S E B) s s' :
  m s = (Panic, s') -> (m ≫= f) s = (Panic, s').
Proof. intros E0. unfold mbind, io_bind. by rewrite E0. Qed.

(** [io_step H] runs the first statement of a sequence by its specification. *)
Ltac run H := first [rewrite (io_step _ _ _ _ _ H) | rewrite (io_step_err _ _ _ _ _ H) | rewrite (io_step_panic _ _ _ _ H)].
(** Run a statement whose definition computes. *)
Ltac run_simpl := erewrite io_step; [|reflexivity].

(** A heap environment to run the definitions in: the clock advances a
    millisecond per reading. *)
Definition uuid_of (n : nat) : string := String.append "id" (pretty n).

Section demo_env.
#[local] Existing Instance demo_platform.

Lemma demo_clock_valid n : valid_time (Z.min (1700000000000000000 + Z.of_nat n * 1000000) 1800000000000000000).
Proof.
  unfold valid_time, timestamp_millis. change max_timestamp_secs with 8210266876799.
  assert (0 <= Z.min (1700000000000000000 + Z.of_nat n * 1000000) 1800000000000000000 <= 1800000000000000000) as [? ?] by lia.
  revert H H0. generalize (Z.min (1700000000000000000 + Z.of_nat n * 1000000) 1800000000000000000). intros t ? ?.
  split; [done|]. split.
  - apply Z.div_le_upper_bound; lia.
  - apply Z.div_lt_upper_bound; lia.
Qed.

Definition demo_env : Env :=
  {| clock n := Z.min (1700000000000000000 + Z.of_nat n * 1000000) 1800000000000000000;
     clock_valid := demo_clock_valid;
     new_uuid := uuid_of;
     new_table_id n := to_le 8 (Z.of_nat n);
     hash_iter A l := l;
     hash_iter_perm A l := Permutation_refl l |}.
End demo_env.

Definition empty_world : World slist := mkWorld empty_fs ∅ ∅ 0 0.
