(* ===== verification/VLog.v ===== *)
(** * The value log ([src/vlog/v_log.rs] and [VLogFileNode] of [src/fs/mod.rs])

    The log file is the concatenation of serialized entries. [vlog_rep]
    relates a file and a [ValueLog] to the abstract list of entries it holds;
    [append], [get], [recover] and [read_chunk_to_garbage_collect] refine
    operations on that list. *)

From stdpp Require Import prelude gmap strings list.
From Stdlib Require Import Strings.Byte ZArith Lia.
From S2P Require Import Prelude Consts FileIO.
Open Scope Z_scope.

Record ValueLogEntry := mkVLE {
  ksize : Z;
  vsize : Z;
  vle_key : list byte;
  vle_value : list byte;
  vle_created_at : DateTime;
  vle_is_tombstone : bool;
}.

(** [ValueLogEntry::new] *)
Definition vle_new (ks vs : Z) (k v : list byte) (t : DateTime) (tomb : bool) : ValueLogEntry :=
  mkVLE ks vs k v t tomb.

(** [ValueLogEntry::serialize] *)
Definition vle_serialize (e : ValueLogEntry) : list byte :=
  to_le 4 (as_u32 (zlen (vle_key e))) ++
  to_le 4 (as_u32 (zlen (vle_value e))) ++
  to_le 8 (timestamp_millis (vle_created_at e)) ++
  [bool_byte (vle_is_tombstone e)] ++
  vle_key e ++
  vle_value e.

Record ValueLog := mkVLog {
  vlog_file : FileNode;
  head_offset : Z;
  tail_offset : Z;
  vlog_size : Z;
}.

Section vlog.
Context `{Platform}.

(** [ValueLog::new] *)
Definition vlog_new (dir : list string) : io FS Error ValueLog :=
  _ ← create_dir_all dir;
  f ← file_new (dir ++ ["val_log.bin"%string]) FValueLog;
  sz ← file_size f;
  mret (mkVLog f 0 0 sz).

(** [ValueLog::append] *)
Definition vlog_append (v : ValueLog) (k val : list byte) (t : DateTime) (tomb : bool)
    : io FS Error (Z * ValueLog) :=
  let e := vle_new (zlen k) (zlen val) k val t tomb in
  let data := vle_serialize e in
  let last_offset := vlog_size v in
  _ ← write_all (vlog_file v) data;
  mret (last_offset, mkVLog (vlog_file v) (head_offset v) (tail_offset v) (vlog_size v + zlen data)).

(** [ValueLog::set_head] and [ValueLog::set_tail] *)
Definition vlog_set_head (v : ValueLog) (h : Z) : ValueLog :=
  mkVLog (vlog_file v) h (tail_offset v) (vlog_size v).
Definition vlog_set_tail (v : ValueLog) (t : Z) : ValueLog :=
  mkVLog (vlog_file v) (head_offset v) t (vlog_size v).

(** [ValueLog::sync_to_disk] *)
Definition vlog_sync_to_disk (v : ValueLog) : io FS Error unit := sync_all (vlog_file v).

(** [ValueLog::clear_all]: the open file always has metadata, and a failure to
    remove is only logged *)
Definition vlog_clear_all (v : ValueLog) : io FS Error ValueLog := fun fs =>
  (Ok (mkVLog (vlog_file v) 0 0 0), (remove_dir_all (file_path (vlog_file v)) fs).2).

(** The fields of one entry as they are read; [get], [recover] and
    [read_chunk_to_garbage_collect] contain this sequence of reads. [None]
    is the end of the file before the entry. *)
Record log_record := mkRec {
  rec_key_len : Z;
  rec_val_len : Z;
  rec_created_at : Z;
  rec_is_tombstone : bool;
  rec_key : list byte;
  rec_value : list byte;
  rec_bytes : Z;
}.

Definition read_log_record (rest : list byte) : outcome Error (option (log_record * list byte)) :=
  let '(key_len_bytes, n1, rest) := load_buffer SIZE_OF_U32 rest in
  if decide (n1 = 0) then Ok None else
  let key_len := from_le key_len_bytes in
  '(val_len_bytes, n2, rest) ← read_field SIZE_OF_U32 rest;
  let val_len := from_le val_len_bytes in
  '(creation_date_bytes, n3, rest) ← read_field SIZE_OF_U64 rest;
  let created_at := from_le creation_date_bytes in
  '(istombstone_bytes, n4, rest) ← read_field SIZE_OF_U8 rest;
  let is_tombstone := bool_decide (head istombstone_bytes = Some x01) in
  '(k, n5, rest) ← read_field key_len rest;
  '(value, n6, rest) ← read_field val_len rest;
  Ok (Some (mkRec key_len val_len created_at is_tombstone k value (n1 + n2 + n3 + n4 + n5 + n6), rest)).

(** [VLogFileNode::get] *)
Definition vlog_file_get (bs : list byte) (start_offset : Z)
    : outcome Error (option (list byte * bool)) :=
  r ← read_log_record (seek start_offset bs);
  match r with
  | None => Ok None
  | Some (rec, _) => Ok (Some (rec_value rec, rec_is_tombstone rec))
  end.

(** The entry built from the fields ([util::milliseconds_to_datetime]). *)
Definition record_entry (rec : log_record) : outcome Error ValueLogEntry :=
  t ← milliseconds_to_datetime (rec_created_at rec);
  Ok (mkVLE (rec_key_len rec) (rec_val_len rec) (rec_key rec) (rec_value rec) t (rec_is_tombstone rec)).

(** [VLogFileNode::recover] *)
Definition recover_body (s : list byte * list ValueLogEntry)
    : outcome Error (list byte * list ValueLogEntry + list ValueLogEntry) :=
  let '(rest, entries) := s in
  r ← read_log_record rest;
  match r with
  | None => Ok (inr entries)
  | Some (rec, rest') => e ← record_entry rec; Ok (inl (rest', entries ++ [e]))
  end.

Definition vlog_file_recover (bs : list byte) (start_offset : Z) : outcome Error (list ValueLogEntry) :=
  while_loop recover_body (fun s => length s.1) (seek start_offset bs, []).

(** [VLogFileNode::read_chunk_to_garbage_collect] *)
Definition chunk_body (bytes_to_collect : Z) (s : list byte * list ValueLogEntry * Z)
    : outcome Error (list byte * list ValueLogEntry * Z + list ValueLogEntry * Z) :=
  let '(rest, entries, total) := s in
  r ← read_log_record rest;
  match r with
  | None => Ok (inr (entries, total))
  | Some (rec, rest') =>
      let total' := total + rec_bytes rec in
      e ← record_entry rec;
      let entries' := entries ++ [e] in
      if decide (total' >= bytes_to_collect) then Ok (inr (entries', total'))
      else Ok (inl (rest', entries', total'))
  end.

Definition vlog_file_read_chunk (bs : list byte) (bytes_to_collect offset : Z)
    : outcome Error (list ValueLogEntry * Z) :=
  while_loop (chunk_body bytes_to_collect) (fun s => length s.1.1) (seek offset bs, [], 0).

(** [ValueLog::get], [::recover], [::read_chunk_to_garbage_collect] *)
Definition vlog_get (v : ValueLog) (start_offset : Z) : io FS Error (option (list byte * bool)) :=
  fun fs => (vlog_file_get (content fs (file (vlog_file v))) start_offset, fs).
Definition vlog_recover (v : ValueLog) (start_offset : Z) : io FS Error (list ValueLogEntry) :=
  fun fs => (vlog_file_recover (content fs (file (vlog_file v))) start_offset, fs).
Definition vlog_read_chunk (v : ValueLog) (bytes_to_collect : Z) : io FS Error (list ValueLogEntry * Z) :=
  fun fs => (vlog_file_read_chunk (content fs (file (vlog_file v))) bytes_to_collect (tail_offset v), fs).
End vlog.

(** ** Entries and their encoding *)
Section encoding.
Context `{Platform}.

(** An entry a store operation can produce and a single [read] call per field
    can load back: non-empty key and value within one read and within [u32]. *)
Definition valid_entry (e : ValueLogEntry) : Prop :=
  vle_key e <> [] /\ vle_value e <> [] /\
  zlen (vle_key e) <= max_buf_size /\ zlen (vle_value e) <= max_buf_size /\
  is_u32 (zlen (vle_key e)) /\ is_u32 (zlen (vle_value e)) /\
  valid_time (vle_created_at e) /\
  ksize e = zlen (vle_key e) /\ vsize e = zlen (vle_value e).

(** What comes back: the same entry with its time cut to milliseconds. *)
Definition stored (e : ValueLogEntry) : ValueLogEntry :=
  mkVLE (ksize e) (vsize e) (vle_key e) (vle_value e) (trunc_ms (vle_created_at e)) (vle_is_tombstone e).

Definition entry_bytes (e : ValueLogEntry) : Z := zlen (vle_serialize e).

Lemma entry_bytes_eq e : entry_bytes e = 17 + zlen (vle_key e) + zlen (vle_value e).
Proof.
  unfold entry_bytes, vle_serialize. zlen_solve.
Qed.

(** The fields a serialized entry is read back as. *)
Definition record_of (e : ValueLogEntry) : log_record :=
  mkRec (zlen (vle_key e)) (zlen (vle_value e)) (timestamp_millis (vle_created_at e))
    (vle_is_tombstone e) (vle_key e) (vle_value e) (entry_bytes e).

(** Reading up to and including the key; what remains is the value field. *)
Lemma read_log_record_header k vl t tomb tl :
  k <> [] -> zlen k <= max_buf_size -> is_u32 (zlen k) -> is_u32 vl -> valid_time t ->
  read_log_record (to_le 4 (as_u32 (zlen k)) ++ to_le 4 vl ++ to_le 8 (timestamp_millis t) ++
                   [bool_byte tomb] ++ k ++ tl) =
  ('(value, n, rest) ← read_field vl tl;
   Ok (Some (mkRec (zlen k) vl (timestamp_millis t) tomb k value (17 + zlen k + n), rest))).
Proof.
  intros Hk Mk Uk Uv T. unfold read_log_record.
  change SIZE_OF_U32 with (Z.of_nat 4). change SIZE_OF_U64 with (Z.of_nat 8).
  rewrite load_buffer_le, decide_False by lia. rewrite as_u32_id, from_to_le_4 by done.
  rewrite read_field_le by lia. cbn [mbind outcome_bind].
  rewrite from_to_le_4 by done. rewrite read_field_le by lia. cbn [mbind outcome_bind].
  rewrite from_to_le_8 by by apply valid_time_u64.
  change SIZE_OF_U8 with (zlen [bool_byte tomb]).
  rewrite read_field_app by (done || (pose proof max_buf_size_ge; rewrite zlen_cons, zlen_nil; lia)).
  cbn [mbind outcome_bind]. rewrite read_field_app by done. cbn [mbind outcome_bind head].
  destruct (read_field vl tl) as [[[b n] r]| |]; [|done..]. cbn [mbind outcome_bind].
  by destruct tomb.
Qed.

Lemma read_log_record_serialize e rest :
  valid_entry e ->
  read_log_record (vle_serialize e ++ rest) = Ok (Some (record_of e, rest)).
Proof.
  intros (Hk & Hv & Mk & Mv & Uk & Uv & T & _ & _). unfold vle_serialize. rewrite <- !app_assoc.
  rewrite (as_u32_id (zlen (vle_value e))) by done.
  rewrite read_log_record_header, read_field_app by done. cbn [mbind outcome_bind].
  unfold record_of. by rewrite entry_bytes_eq.
Qed.

Lemma record_entry_of e : valid_entry e -> record_entry (record_of e) = Ok (stored e).
Proof.
  intros (? & ? & ? & ? & ? & ? & T & Ek & Ev). unfold record_entry, record_of. simpl.
  rewrite milliseconds_to_datetime_millis by done. unfold stored. simpl. by rewrite Ek, Ev.
Qed.

Lemma read_log_record_nil : read_log_record [] = Ok None.
Proof. unfold read_log_record. by rewrite load_buffer_nil by done. Qed.

Lemma read_log_record_consumes rest rec rest' :
  read_log_record rest = Ok (Some (rec, rest')) -> zlen rest = rec_bytes rec + zlen rest' /\ 6 <= rec_bytes rec.
Proof.
  unfold read_log_record. destruct (load_buffer SIZE_OF_U32 rest) as [[b1 n1] r1] eqn:E1.
  destruct (load_buffer_spec SIZE_OF_U32 _ _ _ _ ltac:(done) E1) as (? & ? & ?).
  case_decide; [done|].
  intros ([[b2 n2] r2] & R2 & Hr)%bind_Ok.
  apply bind_Ok in Hr as ([[b3 n3] r3] & R3 & Hr).
  apply bind_Ok in Hr as ([[b4 n4] r4] & R4 & Hr).
  apply bind_Ok in Hr as ([[b5 n5] r5] & R5 & Hr).
  apply bind_Ok in Hr as ([[b6 n6] r6] & R6 & Hr). injection Hr as <- <-.
  apply read_field_consumes in R2 as (? & ? & ?); [|done].
  apply read_field_consumes in R3 as (? & ? & ?); [|done].
  apply read_field_consumes in R4 as (? & ? & ?); [|done].
  apply read_field_consumes in R5 as (? & ? & ?); [|apply from_le_range].
  apply read_field_consumes in R6 as (? & ? & ?); [|apply from_le_range].
  simpl. lia.
Qed.

Lemma recover_body_dec s s' :
  recover_body s = Ok (inl s') -> (length s'.1 < length s.1)%nat.
Proof.
  destruct s as [rest es]. unfold recover_body. intros (r & R & Hs)%bind_Ok.
  destruct r as [[rec rest']|]; [|done]. apply bind_Ok in Hs as (e & _ & [= <-]).
  apply read_log_record_consumes in R as []. unfold zlen in *. simpl. lia.
Qed.

Lemma chunk_body_dec n s s' :
  chunk_body n s = Ok (inl s') -> (length s'.1.1 < length s.1.1)%nat.
Proof.
  destruct s as [[rest es] tot]. unfold chunk_body. intros (r & R & Hs)%bind_Ok.
  destruct r as [[rec rest']|]; [|done]. apply bind_Ok in Hs as (e & _ & Hs).
  case_decide; [done|]. injection Hs as <-.
  apply read_log_record_consumes in R as []. unfold zlen in *. simpl. lia.
Qed.
End encoding.

(** ** The log as a list of entries *)
Section log.
Context `{Platform}.

Definition log_bytes (es : list ValueLogEntry) : list byte := mjoin (vle_serialize <$> es).

(** Offset of the [i]-th entry. *)
Definition offset_of (es : list ValueLogEntry) (i : nat) : Z := zlen (log_bytes (take i es)).

Lemma log_bytes_app es es' : log_bytes (es ++ es') = log_bytes es ++ log_bytes es'.
Proof. unfold log_bytes. by rewrite fmap_app, join_app. Qed.

Lemma seek_offset_of es i : seek (offset_of es i) (log_bytes es) = log_bytes (drop i es).
Proof.
  unfold offset_of. rewrite <- (take_drop i es) at 2. by rewrite log_bytes_app, seek_app.
Qed.

(** A log file and its in-memory handle represent the entries [es]: the
    cached [size] is the file's length, and every entry is readable. *)
Record vlog_rep (fs : FS) (v : ValueLog) (es : list ValueLogEntry) : Prop := {
  rep_content : content fs (file (vlog_file v)) = log_bytes es;
  rep_size : vlog_size v = zlen (log_bytes es);
  rep_valid : Forall valid_entry es;
}.

Lemma while_recover es acc :
  Forall valid_entry es ->
  while_loop recover_body (fun s => length s.1) (log_bytes es, acc) = Ok (acc ++ (stored <$> es)).
Proof.
  intros Hv. revert acc. induction Hv as [|e es He Hes IH]; intros acc.
  - rewrite while_loop_unfold by apply recover_body_dec. unfold recover_body.
    change (log_bytes []) with (@nil byte). rewrite read_log_record_nil. simpl.
    by rewrite app_nil_r.
  - rewrite while_loop_unfold by apply recover_body_dec. unfold recover_body at 1.
    change (log_bytes (e :: es)) with (vle_serialize e ++ log_bytes es).
    rewrite read_log_record_serialize by done. cbn [mbind outcome_bind].
    rewrite record_entry_of by done. cbn [mbind outcome_bind].
    rewrite IH. f_equal. simpl. by rewrite <- app_assoc.
Qed.

(** Number of entries a chunk read covers: entries are taken until the bytes
    read reach the requested amount. *)
Fixpoint chunk_count (want : Z) (es : list ValueLogEntry) : nat :=
  match es with
  | [] => O
  | e :: es' => if decide (entry_bytes e >= want) then 1%nat
                else S (chunk_count (want - entry_bytes e) es')
  end.

Lemma while_chunk n es acc total :
  Forall valid_entry es ->
  while_loop (chunk_body n) (fun s => length s.1.1) (log_bytes es, acc, total) =
  Ok (acc ++ (stored <$> take (chunk_count (n - total) es) es),
      total + zlen (log_bytes (take (chunk_count (n - total) es) es))).
Proof.
  intros Hv. revert acc total. induction Hv as [|e es He Hes IH]; intros acc total.
  - rewrite while_loop_unfold by apply chunk_body_dec. unfold chunk_body.
    change (log_bytes []) with (@nil byte). rewrite read_log_record_nil. simpl.
    rewrite app_nil_r. change (zlen (log_bytes [])) with 0. by rewrite Z.add_0_r.
  - rewrite while_loop_unfold by apply chunk_body_dec. unfold chunk_body at 1.
    change (log_bytes (e :: es)) with (vle_serialize e ++ log_bytes es).
    rewrite read_log_record_serialize by done. cbn [mbind outcome_bind].
    rewrite record_entry_of by done. cbn [mbind outcome_bind rec_bytes record_of chunk_count].
    assert (zlen (log_bytes [e]) = entry_bytes e) as El.
    { unfold log_bytes. simpl. by rewrite app_nil_r. }
    repeat case_decide; try lia.
    + simpl. rewrite take_0, El. done.
    + rewrite IH. replace (n - (total + entry_bytes e)) with (n - total - entry_bytes e) by lia.
      cbn [take fmap list_fmap]. rewrite <- app_assoc. do 2 f_equal.
      change (e :: take ?k es) with ([e] ++ take k es). rewrite log_bytes_app, zlen_app, El. lia.
Qed.

Lemma vlog_append_run fs v es k val t tomb :
  let e := vle_new (zlen k) (zlen val) k val t tomb in
  vlog_rep fs v es -> valid_entry e ->
  exists v' fs',
    vlog_append v k val t tomb fs = (Ok (zlen (log_bytes es), v'), fs') /\
    vlog_rep fs' v' (es ++ [e]) /\ vlog_file v' = vlog_file v /\
    head_offset v' = head_offset v /\ tail_offset v' = tail_offset v /\
    (forall i, i <> file (vlog_file v) -> content fs' i = content fs i) /\
    names fs' = names fs /\ dirs fs' = dirs fs /\ next_inode fs' = next_inode fs.
Proof.
  intros e [Hc Hs Hv] He. rewrite <- Hs. do 2 eexists. split; [reflexivity|]. split; [|repeat split].
  - assert (log_bytes [e] = vle_serialize e) as El by (unfold log_bytes; simpl; by rewrite app_nil_r).
    split; simpl.
    + by rewrite content_set_inode, decide_True, Hc, log_bytes_app, El by done.
    + by rewrite Hs, log_bytes_app, zlen_app, El.
    + apply Forall_app; split; [done|]. by constructor.
  - intros i Hi. simpl. rewrite content_set_inode. by rewrite decide_False.
Qed.

Lemma vlog_get_run fs v es i e :
  vlog_rep fs v es -> es !! i = Some e ->
  vlog_get v (offset_of es i) fs = (Ok (Some (vle_value e, vle_is_tombstone e)), fs).
Proof.
  intros [Hc _ Hv] Hi. unfold vlog_get, vlog_file_get. rewrite Hc, seek_offset_of.
  rewrite (drop_S _ _ _ Hi). change (log_bytes (e :: ?l)) with (vle_serialize e ++ log_bytes l).
  rewrite read_log_record_serialize; [done|]. by eapply Forall_lookup_1.
Qed.

Lemma vlog_recover_run fs v es i :
  vlog_rep fs v es ->
  vlog_recover v (offset_of es i) fs = (Ok (stored <$> drop i es), fs).
Proof.
  intros [Hc _ Hv]. unfold vlog_recover, vlog_file_recover. rewrite Hc, seek_offset_of.
  by rewrite while_recover by by apply Forall_drop.
Qed.

(** The entry that starts at a byte offset. *)
Fixpoint entry_at (es : list ValueLogEntry) (off : Z) : option ValueLogEntry :=
  match es with
  | [] => None
  | e :: es' => if decide (off = 0) then Some e else entry_at es' (off - entry_bytes e)
  end.

Lemma log_bytes_cons e es : zlen (log_bytes (e :: es)) = entry_bytes e + zlen (log_bytes es).
Proof. change (log_bytes (e :: es)) with (vle_serialize e ++ log_bytes es). by rewrite zlen_app. Qed.

Lemma offset_of_plus es i j : offset_of es (i + j) = offset_of es i + offset_of (drop i es) j.
Proof. unfold offset_of. by rewrite <- zlen_app, <- log_bytes_app, take_take_drop. Qed.

Lemma offset_of_S es i e : es !! i = Some e -> offset_of es (S i) = offset_of es i + entry_bytes e.
Proof.
  intros Hi. replace (S i) with (i + 1)%nat by lia. rewrite offset_of_plus. f_equal.
  rewrite (drop_S _ _ _ Hi). unfold offset_of. cbn [take]. rewrite take_0, log_bytes_cons.
  change (log_bytes []) with (@nil byte). rewrite zlen_nil. lia.
Qed.

Lemma entry_at_offset es off e :
  entry_at es off = Some e -> exists i, es !! i = Some e /\ off = offset_of es i.
Proof.
  revert off. induction es as [|e0 es IH]; intros off; [done|]. cbn [entry_at]. case_decide as E.
  - intros [= ->]. by exists O.
  - intros (i & Hi & Ho)%IH. exists (S i). split; [done|]. unfold offset_of in *. cbn [take].
    rewrite log_bytes_cons. lia.
Qed.

Lemma entry_at_app es es' off e : entry_at es off = Some e -> entry_at (es ++ es') off = Some e.
Proof.
  revert off. induction es as [|e0 es IH]; intros off; [done|]. cbn [entry_at app]. case_decide; [done|apply IH].
Qed.

Lemma entry_at_end es e : entry_at (es ++ [e]) (zlen (log_bytes es)) = Some e.
Proof.
  induction es as [|e0 es IH]; cbn [entry_at app].
  - by rewrite decide_True.
  - rewrite log_bytes_cons. pose proof (zlen_nonneg (log_bytes es)). pose proof (entry_bytes_eq e0).
    pose proof (zlen_nonneg (vle_key e0)). pose proof (zlen_nonneg (vle_value e0)).
    rewrite decide_False by lia. rewrite <- IH. f_equal. lia.
Qed.

Lemma vlog_get_at fs v es off e :
  vlog_rep fs v es -> entry_at es off = Some e ->
  vlog_get v off fs = (Ok (Some (vle_value e, vle_is_tombstone e)), fs).
Proof. intros Hr (i & Hi & ->)%entry_at_offset. by apply vlog_get_run. Qed.

(** [clear_all] asks for a directory's removal, so the log file stays as it is
    under a handle that takes it for empty: the next append reports offset 0,
    where the old first entry is still read. *)
Lemma vlog_clear_all_keeps fs v e es k val t tomb :
  vlog_rep fs v (e :: es) -> file_path (vlog_file v) ∉ dirs fs ->
  exists v' v'' fs', vlog_clear_all v fs = (Ok v', fs) /\
    vlog_append v' k val t tomb fs = (Ok (0, v''), fs') /\
    vlog_get v'' 0 fs' = (Ok (Some (vle_value e, vle_is_tombstone e)), fs').
Proof.
  intros [Hc Hs Hv] Hd. do 3 eexists. split; [unfold vlog_clear_all, remove_dir_all; by rewrite decide_False|].
  split; [reflexivity|]. unfold vlog_get, vlog_file_get. cbn [vlog_file snd fst].
  rewrite content_set_inode, decide_True, Hc by done. change (log_bytes (e :: es)) with (vle_serialize e ++ log_bytes es).
  rewrite <- app_assoc, seek_0. apply Forall_cons in Hv as [He _]. by rewrite read_log_record_serialize.
Qed.
End log.

(** ** Properties *)
Section properties.
Context `{Platform}.

(** [C23] Appending an entry to a log that represents [es] returns the offset of
    the new last entry and leaves a log that represents [es ++ [e]]; head, tail
    and every other file are untouched. *)
Theorem vlog_append_refines fs v es k val t tomb :
  let e := vle_new (zlen k) (zlen val) k val t tomb in
  vlog_rep fs v es -> valid_entry e ->
  exists v' fs',
    vlog_append v k val t tomb fs = (Ok (offset_of (es ++ [e]) (length es), v'), fs') /\
    vlog_rep fs' v' (es ++ [e]) /\
    head_offset v' = head_offset v /\ tail_offset v' = tail_offset v /\
    (forall i, i <> file (vlog_file v) -> content fs' i = content fs i).
Proof.
  intros e Hr He. destruct (vlog_append_run fs v es k val t tomb Hr He) as (v' & fs' & E & Hr' & _ & ? & ? & ? & _).
  exists v', fs'. unfold offset_of. by rewrite take_app_length.
Qed.

(** Reading at the offset of the [i]-th entry returns that entry's value and
    tombstone flag. *)
Theorem vlog_get_entry fs v es i e :
  vlog_rep fs v es -> es !! i = Some e ->
  vlog_get v (offset_of es i) fs = (Ok (Some (vle_value e, vle_is_tombstone e)), fs).
Proof. apply vlog_get_run. Qed.

(** [C25] Crash recovery from the offset of the [i]-th entry yields exactly the
    entries from [i] on, in order, with millisecond timestamps. *)
Theorem vlog_recover_suffix fs v es i :
  vlog_rep fs v es ->
  vlog_recover v (offset_of es i) fs = (Ok (stored <$> drop i es), fs).
Proof. apply vlog_recover_run. Qed.

(** A garbage-collection chunk read from the tail returns a prefix of the
    remaining entries together with its exact byte length, and that prefix is
    everything or at least the requested number of bytes. *)
Theorem vlog_read_chunk_prefix fs v es i n :
  vlog_rep fs v es -> tail_offset v = offset_of es i ->
  exists m,
    vlog_read_chunk v n fs =
      (Ok (stored <$> take m (drop i es), zlen (log_bytes (take m (drop i es)))), fs) /\
    (take m (drop i es) = drop i es \/ n <= zlen (log_bytes (take m (drop i es)))).
Proof.
  intros [Hc _ Hv] Ht. exists (chunk_count (n - 0) (drop i es)). split.
  - unfold vlog_read_chunk, vlog_file_read_chunk. rewrite Hc, Ht, seek_offset_of.
    by rewrite while_chunk by by apply Forall_drop.
  - rewrite Z.sub_0_r. clear. generalize (drop i es) as l. intros l. revert n.
    induction l as [|e l IH]; intros n; [by left|]. cbn [chunk_count].
    assert (forall q, zlen (log_bytes (e :: q)) = entry_bytes e + zlen (log_bytes q)) as E.
    { intros q. change (e :: q) with ([e] ++ q). rewrite log_bytes_app, zlen_app.
      unfold log_bytes at 1. simpl. by rewrite app_nil_r. }
    case_decide; cbn [take].
    + right. rewrite E. pose proof (zlen_nonneg (log_bytes (take 0 l))). lia.
    + destruct (IH (n - entry_bytes e)) as [->|]; [by left|]. right. rewrite E. lia.
Qed.

(** [C39] On arbitrary file contents both scanning loops finish within one
    iteration per remaining byte: no input makes recovery or a chunk read run
    forever. *)
Theorem vlog_scans_terminate bs off n :
  is_Some (loop recover_body (S (length (seek off bs))) (seek off bs, [])) /\
  is_Some (loop (chunk_body n) (S (length (seek off bs))) (seek off bs, [], 0)).
Proof.
  split.
  - apply (loop_terminates _ (fun s => length s.1) recover_body_dec). simpl. lia.
  - apply (loop_terminates _ (fun s => length s.1.1) (chunk_body_dec n)). simpl. lia.
Qed.

(** Two handles on one log file, as [val_log] and [gc_log] are after
    [vlog.to_owned()], each cache the size. After an append through one handle,
    an append through the other reports the offset of the first handle's entry:
    reading there yields the wrong value. *)
Theorem vlog_clone_append_misdirected fs v es k1 val1 t1 b1 k2 val2 t2 b2 :
  let e1 := vle_new (zlen k1) (zlen val1) k1 val1 t1 b1 in
  vlog_rep fs v es -> valid_entry e1 ->
  exists o v1 v2 fs1 fs2,
    vlog_append v k1 val1 t1 b1 fs = (Ok (o, v1), fs1) /\
    vlog_append v k2 val2 t2 b2 fs1 = (Ok (o, v2), fs2) /\
    vlog_get v2 o fs2 = (Ok (Some (val1, b1)), fs2).
Proof.
  intros e1 [Hc Hs Hv] He. do 5 eexists. split; [reflexivity|]. split; [reflexivity|].
  unfold vlog_get, vlog_file_get. simpl. rewrite content_set_inode, decide_True by done.
  rewrite content_set_inode, decide_True, Hc, Hs, <- !app_assoc, seek_app by done.
  by rewrite read_log_record_serialize.
Qed.

(** A value of exactly [MAX_VALUE_SIZE] bytes, which [validate_size]
    accepts, is logged with a length field of zero and can not be read back. *)
Theorem vlog_max_value_unreadable pre post k val t tomb :
  k <> [] -> zlen k <= MAX_KEY_SIZE -> zlen val = MAX_VALUE_SIZE -> valid_time t ->
  vlog_file_get (pre ++ vle_serialize (vle_new (zlen k) (zlen val) k val t tomb) ++ post) (zlen pre)
  = Err unexpected_eof.
Proof.
  intros Hk Mk Hv Ht. unfold MAX_KEY_SIZE, MAX_VALUE_SIZE in *. pose proof max_buf_size_ge.
  pose proof (zlen_nonneg k). unfold vlog_file_get, vle_serialize. rewrite seek_app, <- !app_assoc.
  simpl vle_value. rewrite Hv. change (as_u32 (Z.shiftl 1 32)) with 0.
  rewrite read_log_record_header by (done || (unfold is_u32; simpl; lia)).
  unfold read_field. destruct (load_buffer 0 (val ++ post)) as [[b n] r] eqn:E.
  apply load_buffer_spec in E as (_ & ? & _); [|done]. by rewrite decide_True by lia.
Qed.

(** A value longer than one [read] call delivers comes back with everything
    past that call's bytes replaced by zeros, and no error is reported. *)
Theorem vlog_long_value_zero_filled pre post k val t tomb :
  k <> [] -> zlen k <= MAX_KEY_SIZE -> valid_time t ->
  max_buf_size < zlen val < 2 ^ 32 ->
  vlog_file_get (pre ++ vle_serialize (vle_new (zlen k) (zlen val) k val t tomb) ++ post) (zlen pre)
  = Ok (Some (take (Z.to_nat max_buf_size) val ++
              replicate (Z.to_nat (zlen val - max_buf_size)) x00, tomb)).
Proof.
  intros Hk Mk Ht Hv. unfold MAX_KEY_SIZE in *. pose proof max_buf_size_ge.
  pose proof (zlen_nonneg k). unfold vlog_file_get, vle_serialize. rewrite seek_app, <- !app_assoc.
  simpl vle_value. rewrite (as_u32_id (zlen val)) by (unfold is_u32; lia).
  rewrite read_log_record_header by (done || (unfold is_u32; simpl; lia)).
  unfold read_field, load_buffer, read_count. rewrite zlen_app. pose proof (zlen_nonneg post).
  replace (Z.min (zlen val) (Z.min max_buf_size (zlen val + zlen post))) with max_buf_size by lia.
  rewrite decide_False by lia. cbn [mbind outcome_bind rec_value rec_is_tombstone].
  by rewrite take_app_le by (unfold zlen in *; lia).
Qed.
End properties.

(** ** Witnesses on a concrete log *)
Section witnesses.
#[local] Existing Instance demo_platform.

Definition demo_entry (c : byte) : ValueLogEntry :=
  vle_new 2 3 [x6b; c] [x76; c; c] 1700000000123456789 false.
Definition demo_log : list ValueLogEntry := [demo_entry x30; demo_entry x31].
Definition demo_node : FileNode := mkFileNode ["v_log"%string; "val_log.bin"%string] 0 FValueLog.
Definition demo_vlog : ValueLog := mkVLog demo_node 0 0 (zlen (log_bytes demo_log)).
Definition demo_fs : FS := mkFS {[ 0%nat := log_bytes demo_log ]} {[ file_path demo_node := 0%nat ]} ∅ 1.

Lemma demo_entry_valid c : valid_entry (demo_entry c).
Proof. closed. Qed.

Lemma demo_rep : vlog_rep demo_fs demo_vlog demo_log.
Proof. split; [by vm_compute|done|repeat constructor; apply demo_entry_valid]. Qed.

Lemma vlog_append_refines_witness :
  exists v' fs',
    vlog_append demo_vlog [x6b; x32] [x76; x32; x32] 1700000000123456789 false demo_fs
      = (Ok (44, v'), fs') /\ vlog_rep fs' v' (demo_log ++ [demo_entry x32]).
Proof.
  destruct (vlog_append_refines demo_fs demo_vlog demo_log [x6b; x32] [x76; x32; x32]
    1700000000123456789 false demo_rep (demo_entry_valid x32)) as (v' & fs' & E & R & _).
  exists v', fs'. split; [exact E|exact R].
Defined.

Lemma vlog_get_entry_witness :
  vlog_get demo_vlog 22 demo_fs = (Ok (Some ([x76; x31; x31], false)), demo_fs).
Proof. exact (vlog_get_entry demo_fs demo_vlog demo_log 1 (demo_entry x31) demo_rep eq_refl). Defined.

Lemma vlog_recover_suffix_witness :
  vlog_recover demo_vlog 22 demo_fs = (Ok [stored (demo_entry x31)], demo_fs).
Proof. exact (vlog_recover_suffix demo_fs demo_vlog demo_log 1 demo_rep). Defined.

Lemma vlog_read_chunk_prefix_witness :
  exists m, vlog_read_chunk demo_vlog 10 demo_fs =
    (Ok (stored <$> take m demo_log, zlen (log_bytes (take m demo_log))), demo_fs).
Proof.
  destruct (vlog_read_chunk_prefix demo_fs demo_vlog demo_log 0 10 demo_rep eq_refl) as (m & E & _).
  exists m. exact E.
Defined.

Lemma vlog_clone_append_misdirected_witness :
  exists o v1 v2 fs1 fs2,
    vlog_append demo_vlog [x6b; x32] [x76; x32; x32] 1700000000123456789 false demo_fs = (Ok (o, v1), fs1) /\
    vlog_append demo_vlog [x67] [x67] 1700000000123456789 false fs1 = (Ok (o, v2), fs2) /\
    vlog_get v2 o fs2 = (Ok (Some ([x76; x32; x32], false)), fs2).
Proof.
  exact (vlog_clone_append_misdirected demo_fs demo_vlog demo_log [x6b; x32] [x76; x32; x32]
    1700000000123456789 false [x67] [x67] 1700000000123456789 false demo_rep (demo_entry_valid x32)).
Defined.

Definition demo_big (n : Z) : list byte := replicate (Z.to_nat n) x61.

Lemma zlen_demo_big n : 0 <= n -> zlen (demo_big n) = n.
Proof. intros. unfold zlen, demo_big. rewrite length_replicate. lia. Qed.

Lemma vlog_max_value_unreadable_witness :
  vlog_file_get ([] ++ vle_serialize (vle_new (zlen [x6b]) (zlen (demo_big MAX_VALUE_SIZE)) [x6b]
                         (demo_big MAX_VALUE_SIZE) 0 false) ++ []) (zlen (@nil byte))
  = Err unexpected_eof.
Proof.
  apply (vlog_max_value_unreadable [] [] [x6b] (demo_big MAX_VALUE_SIZE) 0 false);
    [done|done|by apply zlen_demo_big|closed].
Defined.

Lemma vlog_long_value_zero_filled_witness :
  vlog_file_get ([] ++ vle_serialize (vle_new (zlen [x6b]) (zlen (demo_big 3000000)) [x6b]
                         (demo_big 3000000) 0 false) ++ []) (zlen (@nil byte))
  = Ok (Some (take (Z.to_nat max_buf_size) (demo_big 3000000) ++
              replicate (Z.to_nat (zlen (demo_big 3000000) - max_buf_size)) x00, false)).
Proof.
  apply (vlog_long_value_zero_filled [] [] [x6b] (demo_big 3000000) 0 false); [done|done|closed|].
  rewrite zlen_demo_big by done. done.
Defined.
End witnesses.
