(* ===== verification/Cursor.v ===== *)
(** * Reading through a file's cursor ([FileNode] of [src/fs/mod.rs])

    The other files read a file as the list of bytes still ahead. Here an open
    file has a position, which [seek], [read_buf] and [write_all] move, and the
    value log's readers run on it step by step. [vlog_cursor_equiv] shows that
    both ways of reading agree, whatever the position was before. *)

From stdpp Require Import prelude gmap strings list.
From Stdlib Require Import Strings.Byte ZArith Lia.
From S2P Require Import Prelude Consts FileIO VLog.
Open Scope Z_scope.

Section cursor.
Context `{Platform}.

(** The file system and the position of the open file *)
Abbreviation Cur := (FS * Z)%type.

(** [FileNode::metadata] and [FileAsync::size], [::is_empty] *)
Definition node_metadata (n : FileNode) : io Cur Error Z := fun '(fs, pos) => (Ok (zlen (content fs (file n))), (fs, pos)).
Definition node_size (n : FileNode) : io Cur Error Z := node_metadata n.
Definition node_is_empty (n : FileNode) : io Cur Error bool := size ← node_size n; mret (bool_decide (size = 0)).

(** [FileNode::seek] *)
Definition node_seek (n : FileNode) (start_offset : Z) : io Cur Error Z := fun '(fs, _) => (Ok start_offset, (fs, start_offset)).

(** [FileNode::read_buf]: the bytes at the position, at most the platform's
    limit and what is left, overwrite the start of the buffer. *)
Definition node_read_buf (n : FileNode) (buf : list byte) : io Cur Error (list byte * Z) := fun '(fs, pos) =>
  let bs := content fs (file n) in
  let count := Z.max 0 (Z.min (zlen buf) (Z.min max_buf_size (zlen bs - pos))) in
  let data := (fun i => default x00 (bs !! Z.to_nat (pos + i))) <$> seqZ 0 count in
  (Ok (data ++ drop (Z.to_nat count) buf, count), (fs, pos + count)).

(** [FileNode::write_all] on a file opened for appending: the position moves to
    the end. *)
Definition node_write_all (n : FileNode) (buf : list byte) : io Cur Error unit := fun '(fs, _) =>
  let bs := content fs (file n) ++ buf in (Ok tt, (set_inode fs (file n) bs, zlen bs)).

(** [FileNode::flush]: nothing the model observes changes. *)
Definition node_flush (n : FileNode) : io Cur Error unit := mret tt.

(** ** The value log's readers on a cursor *)

(** [load_buffer!] into a zeroed buffer, and the check for its end *)
Definition load (n : FileNode) (len : Z) : io Cur Error (list byte * Z) := node_read_buf n (replicate (Z.to_nat len) x00).
Definition load_field (n : FileNode) (len : Z) : io Cur Error (list byte * Z) :=
  '(buf, bytes_read) ← load n len;
  if decide (bytes_read = 0) then io_err unexpected_eof else mret (buf, bytes_read).

(** The reads of one entry *)
Definition cursor_record (n : FileNode) : io Cur Error (option log_record) :=
  '(key_len_bytes, n1) ← load n SIZE_OF_U32;
  if decide (n1 = 0) then mret None else
  '(val_len_bytes, n2) ← load_field n SIZE_OF_U32;
  '(creation_date_bytes, n3) ← load_field n SIZE_OF_U64;
  '(istombstone_bytes, n4) ← load_field n SIZE_OF_U8;
  '(k, n5) ← load_field n (from_le key_len_bytes);
  '(value, n6) ← load_field n (from_le val_len_bytes);
  mret (Some (mkRec (from_le key_len_bytes) (from_le val_len_bytes) (from_le creation_date_bytes)
    (bool_decide (head istombstone_bytes = Some x01)) k value (n1 + n2 + n3 + n4 + n5 + n6))).

(** [VLogFileNode::get] *)
Definition cursor_get (n : FileNode) (start_offset : Z) : io Cur Error (option (list byte * bool)) :=
  _ ← node_seek n start_offset;
  r ← cursor_record n;
  mret ((fun rec => (rec_value rec, rec_is_tombstone rec)) <$> r).

(** [VLogFileNode::recover]; [None] when the fuel is used up *)
Fixpoint cursor_scan (fuel : nat) (n : FileNode) (entries : list ValueLogEntry) : io Cur Error (option (list ValueLogEntry)) :=
  match fuel with
  | O => mret None
  | S fuel' =>
      r ← cursor_record n;
      match r with
      | None => mret (Some entries)
      | Some rec => e ← io_lift (record_entry rec); cursor_scan fuel' n (entries ++ [e])
      end
  end.
Definition cursor_recover (n : FileNode) (start_offset : Z) : io Cur Error (option (list ValueLogEntry)) :=
  size ← node_size n;
  _ ← node_seek n start_offset;
  cursor_scan (S (Z.to_nat size)) n [].

(** ** Lemmas *)

(** Reading at a position is reading from the bytes ahead of it. *)
Lemma bytes_at pos count (bs : list byte) :
  0 <= pos -> 0 <= count -> count <= Z.max 0 (zlen bs - pos) ->
  (fun i => default x00 (bs !! Z.to_nat (pos + i))) <$> seqZ 0 count = take (Z.to_nat count) (seek pos bs).
Proof.
  intros Hp Hc Hle. unfold seek, zlen in *. apply list_eq_same_length with (Z.to_nat count).
  - rewrite length_take, length_drop. lia.
  - by rewrite length_fmap, length_seqZ.
  - intros i x y Hi. rewrite list_lookup_fmap, lookup_take_lt, lookup_drop by lia. rewrite lookup_seqZ_lt by lia. cbn.
    intros [= <-] E. replace (Z.to_nat (pos + (0 + Z.of_nat i))) with (Z.to_nat pos + i)%nat by lia. by rewrite E.
Qed.

Lemma load_run n fs pos len :
  0 <= pos -> 0 <= len ->
  let '(buf, k, rest) := load_buffer len (seek pos (content fs (file n))) in
  load n len (fs, pos) = (Ok (buf, k), (fs, pos + k)) /\ rest = seek (pos + k) (content fs (file n)) /\ 0 <= k.
Proof.
  intros Hp Hl. unfold load_buffer, load, node_read_buf, read_count. set (bs := content fs (file n)).
  assert (zlen (seek pos bs) = Z.max 0 (zlen bs - pos)) as E by (unfold zlen, seek; rewrite length_drop; lia).
  assert (zlen (replicate (Z.to_nat len) x00) = len) as Er by (unfold zlen; rewrite length_replicate; lia).
  pose proof max_buf_size_ge. rewrite Er, E. set (k := Z.min len (Z.min max_buf_size (Z.max 0 (zlen bs - pos)))).
  replace (Z.max 0 (Z.min len (Z.min max_buf_size (zlen bs - pos)))) with k by lia. split; [|split; [|lia]].
  - rewrite bytes_at by lia. by rewrite drop_replicate, <- Z2Nat.inj_sub by lia.
  - rewrite seek_plus by lia. done.
Qed.

Lemma load_field_run n fs pos len :
  0 <= pos -> 0 <= len ->
  match read_field len (seek pos (content fs (file n))) with
  | Ok (buf, k, rest) => load_field n len (fs, pos) = (Ok (buf, k), (fs, pos + k)) /\ rest = seek (pos + k) (content fs (file n)) /\ 0 <= pos + k
  | Err e => exists pos', load_field n len (fs, pos) = (Err e, (fs, pos'))
  | Panic => False
  end.
Proof.
  intros Hp Hl. pose proof (load_run n fs pos len Hp Hl) as Hr. unfold read_field, load_field.
  destruct (load_buffer len _) as [[buf k] rest]. destruct Hr as (E & -> & Hk). unfold mbind, io_bind. rewrite E.
  case_decide; [by eexists|]. split; [done|]. split; [done|lia].
Qed.

(** What a read of an entry from the bytes ahead says of one on the cursor *)
Definition agrees (n : FileNode) fs pos (o : outcome Error (option (log_record * list byte))) (m : io Cur Error (option log_record)) : Prop :=
  match o with
  | Ok (Some (rec, rest)) => exists pos', m (fs, pos) = (Ok (Some rec), (fs, pos')) /\
      rest = seek pos' (content fs (file n)) /\ 0 <= pos'
  | Ok None => exists pos', m (fs, pos) = (Ok None, (fs, pos'))
  | Err e => exists pos', m (fs, pos) = (Err e, (fs, pos'))
  | Panic => False
  end.

Lemma agrees_field n fs pos len K K' :
  0 <= pos -> 0 <= len ->
  (forall b k pos', 0 <= pos' -> agrees n fs pos' (K (b, k, seek pos' (content fs (file n)))) (K' (b, k))) ->
  agrees n fs pos (r ← read_field len (seek pos (content fs (file n))); K r) (r ← load_field n len; K' r).
Proof.
  intros Hp Hl HK. pose proof (load_field_run n fs pos len Hp Hl) as Hf. unfold agrees, mbind, io_bind, outcome_bind in *.
  destruct (read_field len _) as [[[b k] rest]|e|]; [|by destruct Hf as [pos' ->]; eexists|done].
  destruct Hf as (-> & -> & Hk). by apply HK.
Qed.

Lemma cursor_record_run n fs pos : 0 <= pos -> agrees n fs pos (read_log_record (seek pos (content fs (file n)))) (cursor_record n).
Proof.
  intros Hp. unfold read_log_record, cursor_record. pose proof (load_run n fs pos SIZE_OF_U32 Hp ltac:(done)) as Hl.
  destruct (load_buffer SIZE_OF_U32 _) as [[b1 n1] rest]. destruct Hl as (E & -> & Hk).
  assert (forall o m, agrees n fs (pos + n1) o (m b1 n1) -> agrees n fs pos o ('(b, k) ← load n SIZE_OF_U32; m b k)) as Hload.
  { intros o m. unfold agrees, mbind, io_bind. by rewrite E. }
  apply Hload. case_decide; [by eexists|]. pose proof (from_le_range b1).
  apply agrees_field; [lia|done|]. intros b2 n2 p2 Hp2. pose proof (from_le_range b2).
  apply agrees_field; [lia|done|]. intros b3 n3 p3 Hp3.
  apply agrees_field; [lia|done|]. intros b4 n4 p4 Hp4.
  apply agrees_field; [lia..|]. intros b5 n5 p5 Hp5.
  apply agrees_field; [lia..|]. intros b6 n6 p6 Hp6. by exists p6.
Qed.

Lemma cursor_scan_run fuel n fs pos entries :
  0 <= pos -> (length (seek pos (content fs (file n))) < fuel)%nat ->
  exists pos', cursor_scan fuel n entries (fs, pos) =
    (l ← while_loop recover_body (fun s => length s.1) (seek pos (content fs (file n)), entries); Ok (Some l), (fs, pos')).
Proof.
  revert pos entries. induction fuel as [|fuel IH]; intros pos entries Hp Hlen; [lia|].
  rewrite while_loop_unfold by exact recover_body_dec. cbn [cursor_scan]. pose proof (cursor_record_run n fs pos Hp) as Hr.
  unfold recover_body at 1. unfold agrees, mbind, io_bind, outcome_bind in *.
  destruct (read_log_record _) as [[[rec rest]|]|e|] eqn:Er; [| | |done].
  - destruct Hr as (p & -> & -> & Hp'). apply read_log_record_consumes in Er as [El Hb]. unfold zlen in El.
    unfold io_lift. destruct (record_entry rec) as [e|e|]; [|by eexists..]. apply IH; [done|lia].
  - destruct Hr as [p ->]. by eexists.
  - destruct Hr as [p ->]. by eexists.
Qed.

(** ** Properties *)

(** [C26] Reading through the file's cursor is reading from the bytes ahead: from any
    position, [get] and [recover], run read by read on the open file, return
    what the readers on byte lists return, errors and panics included, and
    recovery finishes. *)
Theorem vlog_cursor_equiv n fs pos off :
  0 <= off ->
  (cursor_get n off (fs, pos)).1 = vlog_file_get (content fs (file n)) off /\
  (cursor_recover n off (fs, pos)).1 = Some <$> vlog_file_recover (content fs (file n)) off /\
  (cursor_get n off (fs, pos)).2.1 = fs /\ (cursor_recover n off (fs, pos)).2.1 = fs.
Proof.
  intros Hoff. pose proof (cursor_record_run n fs off Hoff) as Hr. unfold cursor_get, vlog_file_get, cursor_recover, vlog_file_recover.
  destruct (cursor_scan_run (S (Z.to_nat (zlen (content fs (file n))))) n fs off [] Hoff) as [p E].
  { unfold seek. rewrite length_drop. unfold zlen. lia. }
  unfold agrees, node_seek, node_size, node_metadata, mbind, io_bind, outcome_bind in *. rewrite E. cbn [fst snd].
  destruct (read_log_record _) as [[[rec rest]|]|e|]; [| | |done].
  - destruct Hr as (p' & -> & _). split; [done|]. split; [|done]. by destruct (while_loop _ _ _).
  - destruct Hr as [p' ->]. split; [done|]. split; [|done]. by destruct (while_loop _ _ _).
  - destruct Hr as [p' ->]. split; [done|]. split; [|done]. by destruct (while_loop _ _ _).
Qed.
End cursor.

(** ** Witness *)
Section cursor_witness.
#[local] Existing Instance demo_platform.

Definition cursor_node : FileNode := mkFileNode ["log"%string] 0 FValueLog.
Definition cursor_entry : ValueLogEntry := mkVLE 1 2 [x61] [x31; x32] 1700000000000000000 false.
Definition cursor_fs : FS := mkFS {[ 0%nat := vle_serialize cursor_entry ++ vle_serialize cursor_entry ]} ∅ ∅ 1.

Lemma vlog_cursor_equiv_witness :
  (cursor_get cursor_node 20 (cursor_fs, 7)).1 = Ok (Some ([x31; x32], false)) /\
  (cursor_recover cursor_node 20 (cursor_fs, 7)).1 = Ok (Some [cursor_entry]).
Proof.
  destruct (vlog_cursor_equiv cursor_node cursor_fs 7 20 ltac:(lia)) as (E1 & E2 & _). rewrite E1, E2. split; vm_compute; reflexivity.
Defined.
End cursor_witness.
