(* ===== verification/Block.v ===== *)
(** * SSTable data files ([src/block/block_manager.rs], [DataFileNode] of
    [src/fs/mod.rs])

    A data file is a sequence of serialized block entries. *)

From stdpp Require Import prelude gmap strings list.
From Stdlib Require Import Strings.Byte ZArith Lia.
From S2P Require Import Prelude Consts SkipMap FileIO Types VLog.
Open Scope Z_scope.

Record BlockEntry := mkBE {
  key_prefix : Z;
  be_key : list byte;
  value_offset : Z;
  creation_date : DateTime;
  be_is_tombstone : bool;
}.

Record Block := mkBlock {
  b_entries : list BlockEntry;
  b_size : Z;
  entry_count : Z;
}.

(** [Block::new] *)
Definition block_new : Block := mkBlock [] 0 0.

(** [Block::is_full] *)
Definition block_is_full (b : Block) (entry_size : Z) : bool :=
  bool_decide (b_size b + entry_size > BLOCK_SIZE).

(** [key.len() + SIZE_OF_U32 + SIZE_OF_U32 + SIZE_OF_U64 + SIZE_OF_U8] *)
Definition block_entry_size (k : list byte) : Z :=
  zlen k + SIZE_OF_U32 + SIZE_OF_U32 + SIZE_OF_U64 + SIZE_OF_U8.

(** [Block::set_entry] *)
Definition set_entry (b : Block) (kp : Z) (k : list byte) (vo : Z) (cd : DateTime) (tomb : bool)
    : outcome Error Block :=
  let entry_size := block_entry_size k in
  if block_is_full b entry_size then Err BlockIsFull
  else Ok (mkBlock (b_entries b ++ [mkBE kp k vo cd tomb]) (b_size b + entry_size) (entry_count b + 1)).

(** [Block::get_last_entry] *)
Definition get_last_entry (b : Block) : outcome Error BlockEntry := unwrap (last (b_entries b)).

(** [Block::get_entry] *)
Definition block_get_entry (b : Block) (k : list byte) : option BlockEntry :=
  List.find (fun e => bool_decide (be_key e = k)) (b_entries b).

(** [Block::serialize] *)
Definition block_serialize (e : BlockEntry) : outcome Error (list byte) :=
  let entry_len := block_entry_size (be_key e) in
  let entry_vec :=
    to_le 4 (key_prefix e) ++ be_key e ++ to_le 4 (value_offset e) ++
    to_le 8 (timestamp_millis (creation_date e)) ++ [bool_byte (be_is_tombstone e)] in
  if decide (entry_len <> zlen entry_vec) then Err (Serialization "Invalid input") else Ok entry_vec.

(** [Block::write_to_file]: the number of bytes written *)
Fixpoint write_entries (n : FileNode) (es : list BlockEntry) (written : Z) : io FS Error Z :=
  match es with
  | [] => mret written
  | e :: es' =>
      data ← io_lift (block_serialize e);
      _ ← write_all n data;
      write_entries n es' (written + zlen data)
  end.

Definition block_write_to_file (b : Block) (n : FileNode) : io FS Error Z :=
  write_entries n (b_entries b) 0.

(** ** Reading a data file *)
Section data_file.
Context `{Platform} {M : Type -> Type} `{SkipMap M}.

Record data_record := mkDRec {
  dr_key : list byte;
  dr_val_offset : Z;
  dr_created_at : Z;
  dr_is_tombstone : bool;
  dr_bytes : Z;
}.

(** The reads [load_entries], [find_entry] and [load_entries_within_range] share;
    [None] is the end of the file before an entry. *)
Definition read_data_record (rest : list byte) : outcome Error (option (data_record * list byte)) :=
  let '(key_len_bytes, n1, rest) := load_buffer SIZE_OF_U32 rest in
  if decide (n1 = 0) then Ok None else
  let key_len := from_le key_len_bytes in
  '(k, n2, rest) ← read_field key_len rest;
  '(val_offset_bytes, n3, rest) ← read_field SIZE_OF_U32 rest;
  '(created_at_bytes, n4, rest) ← read_field SIZE_OF_U64 rest;
  '(is_tombstone_byte, n5, rest) ← read_field SIZE_OF_U8 rest;
  Ok (Some (mkDRec k (from_le val_offset_bytes) (from_le created_at_bytes)
              (bool_decide (head is_tombstone_byte = Some x01)) (n1 + n2 + n3 + n4 + n5), rest)).

(** [DataFileNode::load_entries] *)
Definition load_body (s : list byte * M SkipMapValue * Z)
    : outcome Error (list byte * M SkipMapValue * Z + M SkipMapValue * Z) :=
  let '(rest, entries, total) := s in
  r ← read_data_record rest;
  match r with
  | None => Ok (inr (entries, total))
  | Some (rec, rest') =>
      t ← milliseconds_to_datetime (dr_created_at rec);
      Ok (inl (rest', sm_insert (dr_key rec) (smv_new (dr_val_offset rec) t (dr_is_tombstone rec)) entries,
               total + dr_bytes rec))
  end.

Definition load_entries (bs : list byte) : outcome Error (M SkipMapValue * Z) :=
  while_loop load_body (fun s => length s.1.1) (seek 0 bs, sm_new, 0).

(** [DataFileNode::find_entry] *)
Definition find_body (searched_key : list byte) (rest : list byte)
    : outcome Error (list byte + option (Z * DateTime * bool)) :=
  r ← read_data_record rest;
  match r with
  | None => Ok (inr None)
  | Some (rec, rest') =>
      if decide (dr_key rec = searched_key) then
        t ← milliseconds_to_datetime (dr_created_at rec);
        Ok (inr (Some (dr_val_offset rec, t, dr_is_tombstone rec)))
      else Ok (inl rest')
  end.

Definition find_entry (bs : list byte) (offset : Z) (searched_key : list byte)
    : outcome Error (option (Z * DateTime * bool)) :=
  while_loop (find_body searched_key) length (seek offset bs).

(** [DataFileNode::load_entries_within_range] *)
Definition range_body (end_offset : Z) (s : list byte * list Entry * Z)
    : outcome Error (list byte * list Entry * Z + list Entry) :=
  let '(rest, entries, total) := s in
  r ← read_data_record rest;
  match r with
  | None => Ok (inr entries)
  | Some (rec, rest') =>
      let total' := total + dr_bytes rec in
      t ← milliseconds_to_datetime (dr_created_at rec);
      let entries' := entries ++ [entry_new (dr_key rec) (dr_val_offset rec) t (dr_is_tombstone rec)] in
      if decide (as_u32 total' >= end_offset) then Ok (inr entries') else Ok (inl (rest', entries', total'))
  end.

Definition load_entries_within_range (bs : list byte) (start_offset end_offset : Z)
    : outcome Error (list Entry) :=
  while_loop (range_body end_offset) (fun s => length s.1.1) (seek start_offset bs, [], 0).
End data_file.

(** ** Blocks *)

(** What [Block] promises: the cached size and count describe the entries, and
    the block fits its 4 KiB. *)
Record block_inv (b : Block) : Prop := {
  inv_size : b_size b = foldr (fun e acc => block_entry_size (be_key e) + acc) 0 (b_entries b);
  inv_count : entry_count b = zlen (b_entries b);
  inv_fits : b_size b <= BLOCK_SIZE;
}.

Definition be_bytes (e : BlockEntry) : list byte :=
  to_le 4 (key_prefix e) ++ be_key e ++ to_le 4 (value_offset e) ++
  to_le 8 (timestamp_millis (creation_date e)) ++ [bool_byte (be_is_tombstone e)].

Definition data_bytes (es : list BlockEntry) : list byte := mjoin (be_bytes <$> es).

Lemma block_entry_size_eq k : block_entry_size k = zlen k + 17.
Proof. unfold block_entry_size, SIZE_OF_U32, SIZE_OF_U64, SIZE_OF_U8. lia. Qed.

Lemma zlen_be_bytes e : zlen (be_bytes e) = block_entry_size (be_key e).
Proof.
  unfold be_bytes. rewrite block_entry_size_eq. zlen_solve.
Qed.

Lemma block_serialize_ok e : block_serialize e = Ok (be_bytes e).
Proof.
  unfold block_serialize. fold (be_bytes e). rewrite decide_False; [done|].
  intros []. symmetry. apply zlen_be_bytes.
Qed.

Lemma data_bytes_app es es' : data_bytes (es ++ es') = data_bytes es ++ data_bytes es'.
Proof. unfold data_bytes. by rewrite fmap_app, join_app. Qed.

Lemma data_bytes_cons e es : data_bytes (e :: es) = be_bytes e ++ data_bytes es.
Proof. done. Qed.

Lemma zlen_data_bytes es :
  zlen (data_bytes es) = foldr (fun e acc => block_entry_size (be_key e) + acc) 0 es.
Proof.
  induction es as [|e es IH]; [done|].
  rewrite data_bytes_cons, zlen_app, zlen_be_bytes, IH. done.
Qed.

Lemma write_entries_spec n es w fs :
  write_entries n es w fs =
  (Ok (w + zlen (data_bytes es)),
   match es with [] => fs | _ => set_inode fs (file n) (content fs (file n) ++ data_bytes es) end).
Proof.
  revert w fs. induction es as [|e es IH]; intros w fs.
  { unfold mret, io_ret. simpl. change (zlen (data_bytes [])) with 0. by rewrite Z.add_0_r. }
  cbn [write_entries]. unfold mbind, io_bind, io_lift. rewrite block_serialize_ok.
  unfold write_all. rewrite IH, data_bytes_cons, zlen_app, Z.add_assoc. f_equal.
  destruct es as [|e' es]; [by rewrite app_nil_r|].
  rewrite content_set_inode, decide_True, <- app_assoc by done.
  unfold set_inode. simpl. by rewrite insert_insert_eq.
Qed.

Section data_lemmas.
Context `{Platform} {M : Type -> Type} `{SkipMap M}.

Definition valid_be (e : BlockEntry) : Prop :=
  be_key e <> [] /\ zlen (be_key e) <= MAX_KEY_SIZE /\ key_prefix e = zlen (be_key e) /\
  is_u32 (value_offset e) /\ valid_time (creation_date e).

Lemma read_data_record_nil : read_data_record [] = Ok None.
Proof. unfold read_data_record. by rewrite load_buffer_nil by done. Qed.

Lemma read_data_record_entry e rest :
  valid_be e ->
  read_data_record (be_bytes e ++ rest) =
  Ok (Some (mkDRec (be_key e) (value_offset e) (timestamp_millis (creation_date e))
              (be_is_tombstone e) (zlen (be_bytes e)), rest)).
Proof.
  intros (Hk & Hl & Hkl & Ho & Ht). pose proof max_buf_size_ge. unfold MAX_KEY_SIZE in *.
  pose proof (zlen_nonneg (be_key e)). rewrite zlen_be_bytes, block_entry_size_eq.
  unfold read_data_record, be_bytes. rewrite <- !app_assoc, Hkl.
  change SIZE_OF_U32 with (Z.of_nat 4). change SIZE_OF_U64 with (Z.of_nat 8).
  rewrite load_buffer_le, decide_False by lia. rewrite from_to_le_4 by (unfold is_u32; lia).
  rewrite read_field_app by (done || lia). cbn [mbind outcome_bind].
  rewrite read_field_le by lia. cbn [mbind outcome_bind].
  rewrite read_field_le by lia. cbn [mbind outcome_bind].
  change SIZE_OF_U8 with (zlen [bool_byte (be_is_tombstone e)]).
  rewrite read_field_app by (done || (rewrite zlen_cons, zlen_nil; lia)). cbn [mbind outcome_bind].
  rewrite from_to_le_4, from_to_le_8 by (done || by apply valid_time_u64).
  cbn [head]. rewrite zlen_cons, zlen_nil. do 4 f_equal; [by destruct (be_is_tombstone e)|lia].
Qed.

Lemma read_data_record_consumes rest rec rest' :
  read_data_record rest = Ok (Some (rec, rest')) -> (length rest' < length rest)%nat.
Proof.
  unfold read_data_record. destruct (load_buffer SIZE_OF_U32 rest) as [[b1 n1] r1] eqn:E1.
  destruct (load_buffer_spec SIZE_OF_U32 _ _ _ _ ltac:(done) E1) as (? & ? & ?).
  case_decide; [done|]. intros ([[b2 n2] r2] & R2 & Hr)%bind_Ok.
  apply bind_Ok in Hr as ([[b3 n3] r3] & R3 & Hr).
  apply bind_Ok in Hr as ([[b4 n4] r4] & R4 & Hr).
  apply bind_Ok in Hr as ([[b5 n5] r5] & R5 & [= <- <-]).
  apply read_field_consumes in R2 as (? & ? & ?); [|apply from_le_range].
  apply read_field_consumes in R3 as (? & ? & ?); [|done].
  apply read_field_consumes in R4 as (? & ? & ?); [|done].
  apply read_field_consumes in R5 as (? & ? & ?); [|done].
  unfold zlen in *. lia.
Qed.

Lemma load_body_dec s s' :
  load_body (M := M) s = Ok (inl s') -> (length s'.1.1 < length s.1.1)%nat.
Proof.
  destruct s as [[rest m] tot]. unfold load_body. intros (r & R & Hs)%bind_Ok.
  destruct r as [[rec rest']|]; [|done]. apply bind_Ok in Hs as (t & _ & [= <-]).
  by apply read_data_record_consumes in R.
Qed.

Lemma find_body_dec sk s s' : find_body sk s = Ok (inl s') -> (length s' < length s)%nat.
Proof.
  unfold find_body. intros (r & R & Hs)%bind_Ok. destruct r as [[rec rest']|]; [|done].
  apply read_data_record_consumes in R. case_decide; [|by injection Hs as <-].
  apply bind_Ok in Hs as (t & _ & [=]).
Qed.

Lemma range_body_dec e s s' : range_body e s = Ok (inl s') -> (length s'.1.1 < length s.1.1)%nat.
Proof.
  destruct s as [[rest m] tot]. unfold range_body. intros (r & R & Hs)%bind_Ok.
  destruct r as [[rec rest']|]; [|done]. apply bind_Ok in Hs as (t & _ & Hs).
  case_decide; [done|]. injection Hs as <-. by apply read_data_record_consumes in R.
Qed.

(** A block entry as the map binding it is read back as. *)
Definition be_binding (e : BlockEntry) : list byte * SkipMapValue :=
  (be_key e, smv_new (value_offset e) (trunc_ms (creation_date e)) (be_is_tombstone e)).

Lemma while_load es m tot :
  Forall valid_be es ->
  while_loop load_body (fun s => length s.1.1) (data_bytes es, m, tot) =
  Ok (sm_insert_all (be_binding <$> es) m, tot + zlen (data_bytes es)).
Proof.
  intros Hv. revert m tot. induction Hv as [|e es He Hes IH]; intros m tot;
    rewrite while_loop_unfold by apply load_body_dec; unfold load_body at 1.
  - change (data_bytes []) with (@nil byte). rewrite read_data_record_nil. simpl.
    unfold zlen. simpl. by rewrite Z.add_0_r.
  - rewrite data_bytes_cons, read_data_record_entry by done. cbn [mbind outcome_bind dr_created_at].
    rewrite milliseconds_to_datetime_millis by apply He. cbn [mbind outcome_bind].
    rewrite IH, zlen_app, Z.add_assoc. done.
Qed.

(** The scan of [find_entry] as a function of the entries. *)
Definition data_find (sk : list byte) (es : list BlockEntry) : option (Z * DateTime * bool) :=
  (fun e => (value_offset e, trunc_ms (creation_date e), be_is_tombstone e)) <$>
  List.find (fun e => bool_decide (be_key e = sk)) es.

Lemma find_key_elem es e :
  NoDup (be_key <$> es) -> e ∈ es -> List.find (fun e' => bool_decide (be_key e' = be_key e)) es = Some e.
Proof.
  induction es as [|e' es IH]; intros Hnd Hin; [set_solver|]. cbn [List.find].
  apply NoDup_cons in Hnd as [Hni Hnd]. apply elem_of_cons in Hin as [->|Hin]; [by rewrite bool_decide_true|].
  rewrite bool_decide_false; [by apply IH|]. intros E. apply Hni. rewrite E. by apply list_elem_of_fmap_2.
Qed.

Lemma while_find sk es :
  Forall valid_be es ->
  while_loop (find_body sk) length (data_bytes es) = Ok (data_find sk es).
Proof.
  intros Hv. unfold data_find. induction Hv as [|e es He Hes IH];
    rewrite while_loop_unfold by apply find_body_dec; unfold find_body at 1.
  - change (data_bytes []) with (@nil byte). by rewrite read_data_record_nil.
  - rewrite data_bytes_cons, read_data_record_entry by done. cbn [mbind outcome_bind dr_key List.find].
    case_decide; [|by rewrite bool_decide_false].
    rewrite bool_decide_true by done. simpl.
    by rewrite milliseconds_to_datetime_millis by apply He.
Qed.

Lemma find_entry_at pre es sk :
  Forall valid_be es -> find_entry (data_bytes pre ++ data_bytes es) (zlen (data_bytes pre)) sk = Ok (data_find sk es).
Proof. intros. unfold find_entry. rewrite seek_app. by apply while_find. Qed.
End data_lemmas.

(** An entry that fits is appended and keeps the invariant. *)
Lemma set_entry_fits b kp k vo cd tomb :
  block_inv b -> b_size b + zlen k + 17 <= BLOCK_SIZE ->
  exists b', set_entry b kp k vo cd tomb = Ok b' /\ b_entries b' = b_entries b ++ [mkBE kp k vo cd tomb] /\
    block_inv b'.
Proof.
  intros [Hs Hc Hf] Hfit. unfold set_entry, block_is_full. rewrite block_entry_size_eq.
  rewrite bool_decide_false by lia. eexists. split; [done|]. split; [done|]. split; simpl.
  - rewrite Hs. clear. induction (b_entries b) as [|e l IH]; simpl; rewrite ?block_entry_size_eq in *; lia.
  - rewrite Hc. zlen_solve.
  - lia.
Qed.

(** A block with entries that satisfies its invariant. *)
Definition good_block (b : Block) : Prop := block_inv b /\ b_entries b <> [].

Lemma good_block_size b : good_block b -> b_size b = zlen (data_bytes (b_entries b)).
Proof. intros [[-> _ _] _]. by rewrite zlen_data_bytes. Qed.

Lemma block_write_appends b n fs :
  good_block b -> exists fs', block_write_to_file b n fs = (Ok (b_size b), fs') /\
    fs_appends (file n) (data_bytes (b_entries b)) fs fs'.
Proof.
  intros Hb. rewrite good_block_size by done. destruct Hb as [_ Hne].
  destruct (write_all_appends n (data_bytes (b_entries b)) fs) as (fs' & E & Ha).
  exists fs'. split; [|done]. injection E as <-. unfold block_write_to_file. rewrite write_entries_spec.
  by destruct (b_entries b).
Qed.

(** ** Properties *)

(** [Block::set_entry] accepts an entry exactly when it fits the block's 4096
    bytes; it then appends the entry and keeps the block's invariant, and a
    rejected entry leaves the error [BlockIsFull]. *)
Theorem set_entry_spec b kp k vo cd tomb :
  block_inv b ->
  match set_entry b kp k vo cd tomb with
  | Ok b' => b_entries b' = b_entries b ++ [mkBE kp k vo cd tomb] /\ block_inv b' /\
             zlen (data_bytes (b_entries b')) = b_size b'
  | Err e => e = BlockIsFull /\ BLOCK_SIZE < b_size b + zlen k + 17
  | Panic => False
  end.
Proof.
  intros Hb. destruct (decide (b_size b + zlen k + 17 <= BLOCK_SIZE)) as [Hfit|Hfull].
  - destruct (set_entry_fits b kp k vo cd tomb Hb Hfit) as (b' & -> & E & Hb').
    split; [done|]. split; [done|]. rewrite zlen_data_bytes. by destruct Hb'.
  - unfold set_entry, block_is_full. rewrite block_entry_size_eq, bool_decide_true by lia. split; [done|lia].
Qed.

(** Writing a block appends exactly its entries' encodings to the data file,
    touches no other file, and reports the block's cached size as the number of
    bytes written; scanning the file from where the block starts finds an entry
    of the block. *)
Theorem block_write_to_file_spec `{Platform} b n fs e :
  good_block b -> Forall valid_be (b_entries b) -> NoDup (be_key <$> b_entries b) -> e ∈ b_entries b ->
  exists fs', block_write_to_file b n fs = (Ok (b_size b), fs') /\
    fs_appends (file n) (data_bytes (b_entries b)) fs fs' /\
    find_entry (content fs' (file n)) (zlen (content fs (file n))) (be_key e) =
      Ok (Some (value_offset e, trunc_ms (creation_date e), be_is_tombstone e)).
Proof.
  intros Hb Hv Hnd Hin. destruct (block_write_appends b n fs Hb) as (fs' & E & A).
  exists fs'. split; [done|]. split; [done|]. rewrite (fa_content _ _ _ _ A).
  unfold find_entry. rewrite seek_app, while_find by done. unfold data_find. f_equal.
  rewrite (find_key_elem _ e) by done. done.
Qed.

(** ** Witnesses *)
Section block_witnesses.
#[local] Existing Instance demo_platform.

Definition demo_be (c : byte) : BlockEntry := mkBE 2 [x6b; c] 7 1700000000123456789 false.
Definition demo_block : Block := mkBlock [demo_be x30; demo_be x31] 38 2.

Lemma demo_block_inv : block_inv demo_block.
Proof. by split. Qed.

Lemma set_entry_spec_witness :
  exists b', set_entry demo_block 2 [x6b; x32] 7 0 true = Ok b' /\ block_inv b'.
Proof.
  pose proof (set_entry_spec demo_block 2 [x6b; x32] 7 0 true demo_block_inv) as Hs.
  vm_compute in Hs |- *. destruct Hs as (_ & Hb & _). eexists. split; [reflexivity|exact Hb].
Defined.

Lemma block_write_to_file_spec_witness :
  exists fs', block_write_to_file demo_block (mkFileNode [] 0 FData) empty_fs = (Ok 38, fs') /\
    find_entry (content fs' 0) 0 [x6b; x31] = Ok (Some (7, 1700000000123000000, false)).
Proof.
  destruct (block_write_to_file_spec demo_block (mkFileNode [] 0 FData) empty_fs (demo_be x31))
    as (fs' & E & _ & Hf).
  - split; [exact demo_block_inv|done].
  - repeat constructor; vm_compute; done.
  - apply (bool_decide_unpack _). by vm_compute.
  - right. left.
  - exists fs'. split; [exact E|exact Hf].
Defined.
End block_witnesses.
