(* ===== verification/Index.v ===== *)
(** * SSTable index files ([src/index/indexer.rs], [IndexFileNode] of
    [src/fs/mod.rs])

    One index entry per block: the block's last key and its start offset. *)

From stdpp Require Import prelude gmap strings list.
From Stdlib Require Import Strings.Byte ZArith Lia.
From S2P Require Import Prelude Consts SkipMap FileIO.
Open Scope Z_scope.

Record IndexEntry := mkIE {
  key_len : Z;
  ie_key : list byte;
  block_handle : Z;
}.

Record Index := mkIndex {
  ix_entries : list IndexEntry;
  ix_file : FileNode;
}.

Record RangeOffset := mkRange {
  start_offset : Z;
  end_offset : Z;
}.

(** [Index::new], [Index::insert] *)
Definition index_new (n : FileNode) : Index := mkIndex [] n.
Definition index_insert (ix : Index) (kl : Z) (k : list byte) (offset : Z) : Index :=
  mkIndex (ix_entries ix ++ [mkIE kl k offset]) (ix_file ix).

(** [Index::serialize_entry] *)
Definition index_serialize_entry (e : IndexEntry) : outcome Error (list byte) :=
  let entry_len := zlen (ie_key e) + SIZE_OF_U32 + SIZE_OF_U32 in
  let entry_vec := to_le 4 (key_len e) ++ ie_key e ++ to_le 4 (block_handle e) in
  if decide (entry_len <> zlen entry_vec) then Err (Serialization "Invalid entry size") else Ok entry_vec.

(** [Index::write_to_file] *)
Definition index_write_to_file (ix : Index) : io FS Error unit :=
  io_for (ix_entries ix) (fun e =>
    data ← io_lift (index_serialize_entry e);
    write_all (ix_file ix) data).

Section index_file.
Context `{Platform}.

(** The reads [get_from_index] and [get_block_range] share. *)
Definition read_index_record (rest : list byte)
    : outcome Error (option (list byte * Z * list byte)) :=
  let '(key_len_bytes, n1, rest) := load_buffer SIZE_OF_U32 rest in
  if decide (n1 = 0) then Ok None else
  '(k, n2, rest) ← read_field (from_le key_len_bytes) rest;
  '(key_offset_bytes, n3, rest) ← read_field SIZE_OF_U32 rest;
  Ok (Some (k, from_le key_offset_bytes, rest)).

(** [IndexFileNode::get_from_index] *)
Definition get_body (searched_key : list byte) (rest : list byte)
    : outcome Error (list byte + option Z) :=
  r ← read_index_record rest;
  match r with
  | None => Ok (inr None)
  | Some (k, offset, rest') =>
      match key_cmp k searched_key with
      | Lt => Ok (inl rest')
      | Eq => Ok (inr (Some offset))
      | Gt => Ok (inr (Some offset))
      end
  end.

Definition get_from_index (bs : list byte) (searched_key : list byte) : outcome Error (option Z) :=
  while_loop (get_body searched_key) length (seek 0 bs).

(** [IndexFileNode::get_block_range] *)
Definition block_range_body (start_key end_key : list byte) (s : list byte * RangeOffset)
    : outcome Error (list byte * RangeOffset + RangeOffset) :=
  let '(rest, ro) := s in
  r ← read_index_record rest;
  match r with
  | None => Ok (inr ro)
  | Some (k, offset, rest') =>
      match key_cmp k start_key with
      | Gt =>
          match key_cmp k end_key with
          | Gt => Ok (inr (mkRange (start_offset ro) offset))
          | _ => Ok (inl (rest', mkRange (start_offset ro) offset))
          end
      | _ => Ok (inl (rest', mkRange offset (end_offset ro)))
      end
  end.

Definition get_block_range (bs : list byte) (start_key end_key : list byte) : outcome Error RangeOffset :=
  while_loop (block_range_body start_key end_key) (fun s => length s.1) (seek 0 bs, mkRange 0 0).

(** [Index::get] *)
Definition index_get (n : FileNode) (searched_key : list byte) : io FS Error (option Z) :=
  fun fs => (get_from_index (content fs (file n)) searched_key, fs).

(** ** Lemmas *)

(** An index entry as written: its key is a non-empty key of the table. *)
Definition valid_index_entry (e : IndexEntry) : Prop :=
  ie_key e <> [] /\ zlen (ie_key e) <= MAX_KEY_SIZE /\ key_len e = zlen (ie_key e) /\ is_u32 (block_handle e).

Definition index_entry_bytes (e : IndexEntry) : list byte :=
  to_le 4 (key_len e) ++ ie_key e ++ to_le 4 (block_handle e).

Definition index_bytes (es : list IndexEntry) : list byte := mjoin (index_entry_bytes <$> es).

Lemma index_serialize_ok e : index_serialize_entry e = Ok (index_entry_bytes e).
Proof.
  unfold index_serialize_entry. rewrite decide_False; [done|].
  unfold SIZE_OF_U32. zlen_solve.
Qed.

Lemma index_write_all n es fs :
  io_for es (fun e => data ← io_lift (index_serialize_entry e); write_all n data) fs =
  (Ok tt, match es with [] => fs | _ => set_inode fs (file n) (content fs (file n) ++ index_bytes es) end).
Proof.
  revert fs. induction es as [|e es IH]; intros fs; [done|]. cbn [io_for].
  unfold mbind at 1, io_bind at 1. unfold mbind at 1, io_bind at 1, io_lift.
  rewrite index_serialize_ok. unfold write_all at 1. rewrite IH. f_equal.
  change (index_bytes (e :: es)) with (index_entry_bytes e ++ index_bytes es).
  destruct es as [|e' es]; [by rewrite app_nil_r|].
  rewrite content_set_inode, decide_True, <- app_assoc by done.
  unfold set_inode. simpl. by rewrite insert_insert_eq.
Qed.

Lemma read_index_record_nil : read_index_record [] = Ok None.
Proof. unfold read_index_record. by rewrite load_buffer_nil by done. Qed.

Lemma read_index_record_entry e rest :
  valid_index_entry e ->
  read_index_record (index_entry_bytes e ++ rest) = Ok (Some (ie_key e, block_handle e, rest)).
Proof.
  intros (Hk & Hl & Hkl & Hb). pose proof max_buf_size_ge. unfold MAX_KEY_SIZE in *.
  pose proof (zlen_nonneg (ie_key e)). unfold read_index_record, index_entry_bytes.
  rewrite <- !app_assoc, Hkl. change SIZE_OF_U32 with (Z.of_nat 4).
  rewrite load_buffer_le, decide_False by lia. rewrite from_to_le_4 by (unfold is_u32; lia).
  rewrite read_field_app by (done || lia). cbn [mbind outcome_bind].
  rewrite read_field_le by lia. cbn [mbind outcome_bind]. by rewrite from_to_le_4.
Qed.

Lemma read_index_record_consumes rest k o rest' :
  read_index_record rest = Ok (Some (k, o, rest')) -> (length rest' < length rest)%nat.
Proof.
  unfold read_index_record. destruct (load_buffer SIZE_OF_U32 rest) as [[b1 n1] r1] eqn:E1.
  destruct (load_buffer_spec SIZE_OF_U32 _ _ _ _ ltac:(done) E1) as (? & ? & ?).
  case_decide; [done|]. intros ([[b2 n2] r2] & R2 & Hr)%bind_Ok.
  apply bind_Ok in Hr as ([[b3 n3] r3] & R3 & [= -> <- ->]).
  apply read_field_consumes in R2 as (? & ? & ?); [|apply from_le_range].
  apply read_field_consumes in R3 as (? & ? & ?); [|done].
  unfold zlen in *. lia.
Qed.

Lemma get_body_dec sk s s' : get_body sk s = Ok (inl s') -> (length s' < length s)%nat.
Proof.
  unfold get_body. intros (r & R & Hs)%bind_Ok. destruct r as [[[k o] rest']|]; [|done].
  apply read_index_record_consumes in R. destruct (key_cmp k sk); [done| |done].
  by injection Hs as <-.
Qed.

Lemma block_range_body_dec a b s s' :
  block_range_body a b s = Ok (inl s') -> (length s'.1 < length s.1)%nat.
Proof.
  destruct s as [rest ro]. unfold block_range_body. intros (r & R & Hs)%bind_Ok.
  destruct r as [[[k o] rest']|]; [|done]. apply read_index_record_consumes in R.
  destruct (key_cmp k a); [| |destruct (key_cmp k b)]; try done; by injection Hs as <-.
Qed.

(** The index search as a function of the entries: the first one whose key is
    not below the searched key. *)
Definition index_find (sk : list byte) (es : list IndexEntry) : option Z :=
  block_handle <$> List.find (fun e => negb (key_ltb (ie_key e) sk)) es.

Lemma get_from_index_find es sk :
  Forall valid_index_entry es -> get_from_index (index_bytes es) sk = Ok (index_find sk es).
Proof.
  intros Hv. unfold get_from_index. rewrite seek_0. induction Hv as [|e es He Hes IH].
  - rewrite while_loop_unfold by apply get_body_dec. unfold get_body.
    change (index_bytes []) with (@nil byte). by rewrite read_index_record_nil.
  - rewrite while_loop_unfold by apply get_body_dec. unfold get_body at 1.
    change (index_bytes (e :: es)) with (index_entry_bytes e ++ index_bytes es).
    rewrite read_index_record_entry by done. cbn [mbind outcome_bind].
    unfold index_find. cbn [List.find]. unfold key_ltb at 1.
    destruct (key_cmp (ie_key e) sk); [done| |done]. exact IH.
Qed.
End index_file.
