(* ===== verification/Bloom.v ===== *)
(** * Bloom filters ([src/filter/bf.rs], [FilterFileNode] of [src/fs/mod.rs])

    A filter's bits live behind an [Arc<Mutex<BitVec>>]: a filter holds the
    location of its bits and clones share them. *)

From stdpp Require Import prelude gmap strings list.
From Stdlib Require Import Strings.Byte ZArith Lia.
From S2P Require Import Prelude Consts SkipMap FileIO Types World.
Open Scope Z_scope.

Record BloomFilter := mkBF {
  bf_sst_dir : option (list string);
  no_of_hash_func : Z;
  no_of_elements : Z;
  bit_vec : nat;
  false_positive_rate : Z;
  bf_file_path : option (list string);
}.

Definition bf_set_sst_dir (f : BloomFilter) (d : option (list string)) : BloomFilter :=
  mkBF d (no_of_hash_func f) (no_of_elements f) (bit_vec f) (false_positive_rate f) (bf_file_path f).
Definition bf_set_file_path (f : BloomFilter) (p : option (list string)) : BloomFilter :=
  mkBF (bf_sst_dir f) (no_of_hash_func f) (no_of_elements f) (bit_vec f) (false_positive_rate f) p.

(** [BloomFilter::set_sstable_path] *)
Definition set_sstable_path (f : BloomFilter) (p : list string) : BloomFilter := bf_set_sst_dir f (Some p).

(** [BloomFilter::calculate_no_of_hash_function]: [(bits as f64 / elements as f64) * 1.0]
    truncated to [u32]. The [f64] quotient of two [u32] truncates to the integer
    quotient; a division by zero gives infinity (or NaN) and the cast saturates. *)
Definition calculate_no_of_hash_function (bits elements : Z) : Z :=
  if decide (elements = 0) then (if decide (bits = 0) then 0 else 2 ^ 32 - 1) else bits / elements.

(** The seeds [0..no_of_hash_func]. *)
Definition seeds (n : Z) : list Z := seqZ 0 n.

(** [BloomFilter::serialize] *)
Definition bf_serialize (f : BloomFilter) : list byte :=
  to_le 4 (as_u32 (no_of_hash_func f)) ++ to_le 4 (no_of_elements f) ++
  float_to_le_bytes (false_positive_rate f).

Section bloom.
Context `{Env} {M : Type -> Type} `{SkipMap M}.
Abbreviation W := (World M).

(** [hash % bits.len()]: a remainder by zero panics. *)
Definition bit_index (k : list byte) (seed : Z) (bits : list bool) : outcome Error nat :=
  if decide (zlen bits = 0) then Panic else Ok (Z.to_nat (hash_key k seed `mod` zlen bits)).

Fixpoint set_bits (k : list byte) (ss : list Z) (bits : list bool) : outcome Error (list bool) :=
  match ss with
  | [] => Ok bits
  | s :: ss' => i ← bit_index k s bits; set_bits k ss' (<[i := true]> bits)
  end.

Fixpoint test_bits (k : list byte) (ss : list Z) (bits : list bool) : outcome Error bool :=
  match ss with
  | [] => Ok true
  | s :: ss' =>
      i ← bit_index k s bits;
      b ← unwrap (bits !! i);
      if negb b then Ok false else test_bits k ss' bits
  end.

(** [BloomFilter::new] *)
Definition bf_new (rate : Z) (elements : Z) : io W Error BloomFilter :=
  if negb (f64_ge0 rate) then io_lift Panic else
  if decide (elements > 0) then
    let bits := no_of_bits elements rate in
    let hashes := calculate_no_of_hash_function bits (as_u32 elements) in
    l ← alloc_bits (replicate (Z.to_nat bits) false);
    mret (mkBF None hashes 0 l rate None)
  else io_lift Panic.

(** [BloomFilter::default] *)
Definition bf_default : io W Error BloomFilter :=
  l ← alloc_bits []; mret (mkBF None 0 0 l 0 None).

(** [BloomFilter::set] *)
Definition bf_set (f : BloomFilter) (k : list byte) : io W Error BloomFilter :=
  bits ← read_bits (bit_vec f);
  bits' ← io_lift (set_bits k (seeds (no_of_hash_func f)) bits);
  _ ← write_bits (bit_vec f) bits';
  mret (mkBF (bf_sst_dir f) (no_of_hash_func f) (as_u32 (no_of_elements f + 1)) (bit_vec f)
          (false_positive_rate f) (bf_file_path f)).

(** [BloomFilter::contains] *)
Definition bf_contains (f : BloomFilter) (k : list byte) : io W Error bool :=
  bits ← read_bits (bit_vec f);
  io_lift (test_bits k (seeds (no_of_hash_func f)) bits).

(** [BloomFilter::build_filter_from_entries] *)
Fixpoint bf_set_all (f : BloomFilter) (ks : list (list byte)) : io W Error BloomFilter :=
  match ks with
  | [] => mret f
  | k :: ks' => f' ← bf_set f k; bf_set_all f' ks'
  end.
Definition build_filter_from_entries (f : BloomFilter) (entries : nat) : io W Error BloomFilter :=
  m ← read_map entries; bf_set_all f (sm_iter m).*1.

(** [BloomFilter::write] *)
Definition bf_write (f : BloomFilter) (dir : list string) : io W Error BloomFilter :=
  let p := dir ++ ["filter.db"%string] in
  n ← io_unwrap (on_fs (file_new p FFilter));
  _ ← on_fs (write_all n (bf_serialize f));
  mret (bf_set_file_path f (Some p)).

(** [FilterFileNode::recover], on the bytes of the file *)
Definition filter_recover (bs : list byte) : outcome Error (Z * Z * Z) :=
  '(hash_bytes, _, rest) ← read_field SIZE_OF_U32 bs;
  '(elements_bytes, _, rest) ← read_field SIZE_OF_U32 rest;
  '(rate_bytes, _, rest) ← read_field SIZE_OF_U64 rest;
  match float_from_le_bytes rate_bytes with
  | None => Err unexpected_eof
  | Some rate => Ok (rate, from_le hash_bytes, from_le elements_bytes)
  end.

(** The whole of [FilterFileNode::recover]: open by path, then read. *)
Definition filter_file_recover (p : list string) : io W Error (Z * Z * Z) :=
  i ← on_fs (fun fs => match names fs !! p with
                       | Some i => (Ok i, fs) | None => (Err (FilterFileOpen p), fs) end);
  fs ← (fun w => (Ok (w_fs w), w));
  io_lift (filter_recover (content fs i)).

(** [BloomFilter::recover_meta] *)
Definition recover_meta (f : BloomFilter) : io W Error BloomFilter :=
  match bf_file_path f with
  | None => io_err FilterFilePathNotProvided
  | Some p =>
      '(rate, hashes, elements) ← filter_file_recover p;
      let bits := no_of_bits elements rate in
      l ← alloc_bits (replicate (Z.to_nat bits) false);
      mret (mkBF (bf_sst_dir f) hashes elements l rate (bf_file_path f))
  end.

(** [BloomFilter::clear]: resets the shared bits and returns a fresh filter *)
Definition bf_clear (f : BloomFilter) : io W Error BloomFilter :=
  bits ← read_bits (bit_vec f);
  _ ← write_bits (bit_vec f) (replicate (length bits) false);
  l ← alloc_bits (replicate (length bits) false);
  mret (mkBF None (no_of_hash_func f) 0 l (false_positive_rate f) None).

(** ** Lemmas *)

(** The filter's bits admit the key: every probed bit is set. *)
Definition admits (n : Z) (bits : list bool) (k : list byte) : Prop :=
  Forall (fun s => bits !! Z.to_nat (hash_key k s `mod` zlen bits) = Some true) (seeds n).

(** A filter with hash functions has bits to probe. *)
Definition probing_ok (n : Z) (bits : list bool) : Prop := n <= 0 \/ 0 < zlen bits.

(** Bits that are all zero admit nothing. *)
Lemma zero_rejects n bits k : 0 < n -> Forall (eq false) bits -> ~ admits n bits k.
Proof.
  intros Hn Hz Ha. unfold admits, seeds in Ha. rewrite seqZ_cons in Ha by done. apply Forall_cons in Ha as [Ha _].
  by apply (Forall_lookup_1 _ _ _ _ Hz) in Ha.
Qed.

Lemma bit_index_ok k s bits :
  0 < zlen bits -> exists i, bit_index k s bits = Ok i /\
    i = Z.to_nat (hash_key k s `mod` zlen bits) /\ (i < length bits)%nat.
Proof.
  intros Hl. unfold bit_index. rewrite decide_False by lia. eexists. do 2 (split; [done|]).
  pose proof (Z.mod_pos_bound (hash_key k s) (zlen bits) Hl). unfold zlen in *. lia.
Qed.

Lemma set_bits_spec k ss bits :
  ss = [] \/ 0 < zlen bits ->
  exists bits', set_bits k ss bits = Ok bits' /\ length bits' = length bits /\
    Forall (fun s => bits' !! Z.to_nat (hash_key k s `mod` zlen bits) = Some true) ss /\
    (forall i, bits !! i = Some true -> bits' !! i = Some true).
Proof.
  revert bits. induction ss as [|s ss IH]; intros bits Hl; [by exists bits|].
  destruct Hl as [|Hl]; [done|]. destruct (bit_index_ok k s bits Hl) as (i & E & Ei & Hi).
  destruct (IH (<[i:=true]> bits)) as (bits' & Es & Hlen & Hall & Hmono).
  { right. unfold zlen. by rewrite length_insert. }
  exists bits'. cbn [set_bits]. rewrite E. cbn [mbind outcome_bind]. rewrite length_insert in Hlen.
  assert (forall j, bits !! j = Some true -> bits' !! j = Some true) as Hm.
  { intros j Hj. apply Hmono. destruct (decide (i = j)) as [<-|]; [by rewrite list_lookup_insert_eq|].
    by rewrite list_lookup_insert_ne. }
  split; [done|]. split; [done|]. split; [|done]. constructor.
  - rewrite <- Ei. apply Hmono. by rewrite list_lookup_insert_eq.
  - revert Hall. unfold zlen. by rewrite length_insert.
Qed.

Lemma test_bits_spec k ss bits :
  ss = [] \/ 0 < zlen bits ->
  exists b, test_bits k ss bits = Ok b /\
    (b = true <-> Forall (fun s => bits !! Z.to_nat (hash_key k s `mod` zlen bits) = Some true) ss).
Proof.
  induction ss as [|s ss IH]; intros Hl; [by exists true|].
  destruct Hl as [|Hl]; [done|]. destruct (bit_index_ok k s bits Hl) as (i & E & Ei & Hi).
  cbn [test_bits]. rewrite E. cbn [mbind outcome_bind].
  apply lookup_lt_is_Some in Hi as [b Hb]. rewrite Hb. cbn [unwrap mbind outcome_bind].
  destruct b; cbn [negb].
  - destruct (IH (or_intror Hl)) as (b & -> & Hiff). exists b. split; [done|].
    rewrite Hiff, Forall_cons, <- Ei, Hb. naive_solver.
  - exists false. split; [done|]. rewrite Forall_cons, <- Ei, Hb. naive_solver.
Qed.

Lemma seeds_ok n bits : probing_ok n bits -> seeds n = [] \/ 0 < zlen bits.
Proof. intros [Hn|]; [left; unfold seeds; by rewrite seqZ_nil|by right]. Qed.

(** What [contains] answers, in terms of the bits. *)
Lemma bf_contains_spec f k w :
  probing_ok (no_of_hash_func f) (the_bits w (bit_vec f)) ->
  exists b, bf_contains f k w = (Ok b, w) /\
    (b = true <-> admits (no_of_hash_func f) (the_bits w (bit_vec f)) k).
Proof.
  intros Hp. unfold bf_contains. run_simpl. unfold io_lift.
  destruct (test_bits_spec k _ _ (seeds_ok _ _ Hp)) as (b & -> & Hb). by exists b.
Qed.

Lemma bf_contains_true f k w :
  probing_ok (no_of_hash_func f) (the_bits w (bit_vec f)) ->
  admits (no_of_hash_func f) (the_bits w (bit_vec f)) k -> bf_contains f k w = (Ok true, w).
Proof. intros Hp Ha. destruct (bf_contains_spec f k w Hp) as ([|] & E & Hb); naive_solver. Qed.

(** [set] only changes the filter's bits, keeps their number and every admitted
    key, and admits the new one. *)
Lemma bf_set_spec f k w :
  let l := bit_vec f in let n := no_of_hash_func f in
  probing_ok n (the_bits w l) ->
  exists f' bits', bf_set f k w = (Ok f', put_bits w l bits') /\
    f' = mkBF (bf_sst_dir f) n (as_u32 (no_of_elements f + 1)) l (false_positive_rate f) (bf_file_path f) /\
    length bits' = length (the_bits w l) /\ admits n bits' k /\
    (forall n' k', admits n' (the_bits w l) k' -> admits n' bits' k').
Proof.
  intros l n Hp. destruct (set_bits_spec k _ _ (seeds_ok _ _ Hp)) as (bits' & E & Hl & Hk & Hm).
  eexists _, bits'. unfold bf_set. run_simpl. fold l n. unfold io_lift, mbind, io_bind at 1. rewrite E.
  split; [reflexivity|]. split; [done|]. split; [done|].
  unfold admits, zlen in *. rewrite Hl. split; [done|].
  intros n' k' Ha. eapply Forall_impl; [exact Ha|]. intros s. apply Hm.
Qed.

(** Inserting keys one after the other admits them all. *)
Lemma bf_set_all_spec ks f w :
  let l := bit_vec f in let n := no_of_hash_func f in
  probing_ok n (the_bits w l) ->
  exists f' bits', bf_set_all f ks w = (Ok f', match ks with [] => w | _ => put_bits w l bits' end) /\
    (ks = [] -> bits' = the_bits w l) /\
    bit_vec f' = l /\ no_of_hash_func f' = n /\ bf_sst_dir f' = bf_sst_dir f /\
    bf_file_path f' = bf_file_path f /\ false_positive_rate f' = false_positive_rate f /\
    as_u32 (no_of_elements f') = as_u32 (no_of_elements f + zlen ks) /\
    length bits' = length (the_bits w l) /\ Forall (admits n bits') ks /\
    (forall k', admits n (the_bits w l) k' -> admits n bits' k').
Proof.
  intros l n. revert f w l n. induction ks as [|k ks IH]; intros f w l n Hp.
  { exists f, (the_bits w l). cbn [bf_set_all]. change (zlen (@nil (list byte))) with 0.
    rewrite Z.add_0_r. by repeat split. }
  destruct (bf_set_spec f k w Hp) as (f1 & b1 & E1 & Hf1 & L1 & A1 & K1). fold l n in E1, Hf1, L1, A1, K1.
  assert (bit_vec f1 = l /\ no_of_hash_func f1 = n) as [Hl1 Hn1] by by rewrite Hf1.
  destruct (IH f1 (put_bits w l b1)) as (f' & b' & E' & Hnil & ? & ? & ? & ? & ? & He & L' & A' & K').
  { rewrite Hl1, Hn1, the_bits_put, decide_True by done. unfold probing_ok, zlen in *. by rewrite L1. }
  rewrite Hl1, Hn1, the_bits_put, decide_True in * by done.
  exists f', b'. cbn [bf_set_all]. run E1. rewrite E'.
  split; [destruct ks; [by rewrite Hnil|]|].
  { unfold put_bits. simpl. by rewrite insert_insert_eq. }
  split; [done|]. rewrite Hf1 in *. simpl in *. repeat (split; [congruence || done|]).
  split. { rewrite He. unfold as_u32, zlen. simpl length. rewrite Zplus_mod_idemp_l. f_equal. lia. }
  split; [congruence|]. split; [constructor; auto|]. auto.
Qed.
(** Reading back the metadata a filter was written with. *)
Lemma filter_recover_serialize f :
  is_u32 (no_of_hash_func f) -> is_u32 (no_of_elements f) -> is_u64 (false_positive_rate f) ->
  filter_recover (bf_serialize f) = Ok (false_positive_rate f, no_of_hash_func f, no_of_elements f).
Proof.
  intros Hh He Hr. unfold filter_recover, bf_serialize. rewrite as_u32_id, <- (app_nil_r (float_to_le_bytes _)) by done.
  change SIZE_OF_U32 with (Z.of_nat 4). change SIZE_OF_U64 with (Z.of_nat 8). unfold float_to_le_bytes.
  do 3 (rewrite read_field_le by lia; cbn [mbind outcome_bind]).
  change (to_le 8 (false_positive_rate f)) with (float_to_le_bytes (false_positive_rate f)).
  by rewrite float_le_roundtrip, !from_to_le_4 by done.
Qed.
End bloom.

(** ** Properties *)
Section bloom_properties.
Context `{Env} {M : Type -> Type} `{SkipMap M}.

(** No false negatives: after [build_filter_from_entries], [contains] answers
    true for every key of the map and for every key it admitted before. *)
Theorem bf_build_no_false_negatives f entries (w : World M) k :
  probing_ok (no_of_hash_func f) (the_bits w (bit_vec f)) ->
  is_Some (sm_get k (the_map w entries)) \/ bf_contains f k w = (Ok true, w) ->
  exists f' w', build_filter_from_entries f entries w = (Ok f', w') /\
    bf_contains f' k w' = (Ok true, w') /\ bf_contains f k w' = (Ok true, w').
Proof.
  intros Hp Hk. unfold build_filter_from_entries. run_simpl.
  destruct (bf_set_all_spec (sm_iter (the_map w entries)).*1 f w Hp)
    as (f' & b' & -> & Hnil & Hl & Hn & _ & _ & _ & _ & Hlen & Hall & Hmono).
  set (w' := match _ with [] => w | _ => _ end).
  assert (the_bits w' (bit_vec f) = b') as Hb.
  { subst w'. destruct ((sm_iter _).*1); [by rewrite Hnil|]. by rewrite the_bits_put, decide_True. }
  exists f', w'. split; [done|].
  assert (admits (no_of_hash_func f) b' k) as Ha.
  { destruct Hk as [[v Hv]|Hk].
    - rewrite Forall_forall in Hall. apply Hall. apply list_elem_of_fmap. exists (k, v).
      split; [done|]. by apply sm_elem.
    - apply Hmono. destruct (bf_contains_spec f k w Hp) as (b & E & Hb'). apply Hb'. congruence. }
  split; apply bf_contains_true; rewrite ?Hl, ?Hn, Hb; try done;
    unfold probing_ok, zlen in *; by rewrite Hlen.
Qed.

(** Filter metadata survives a restart: writing a filter into a fresh
    directory entry and recovering from that path restores the hash count, the
    element count and the rate, with an all-zero bit vector sized for them. *)
Theorem bf_meta_roundtrip f g dir (w : World M) :
  names (w_fs w) !! (dir ++ ["filter.db"%string]) = None -> dir ∈ dirs (w_fs w) ->
  is_u32 (no_of_hash_func f) -> is_u32 (no_of_elements f) -> is_u64 (false_positive_rate f) ->
  exists f' w' g' w'',
    bf_write f dir w = (Ok f', w') /\ bf_file_path f' = Some (dir ++ ["filter.db"%string]) /\
    recover_meta (bf_set_file_path g (bf_file_path f')) w' = (Ok g', w'') /\
    no_of_hash_func g' = no_of_hash_func f /\ no_of_elements g' = no_of_elements f /\
    false_positive_rate g' = false_positive_rate f /\ bf_sst_dir g' = bf_sst_dir g /\
    the_bits w'' (bit_vec g') =
      replicate (Z.to_nat (no_of_bits (no_of_elements f) (false_positive_rate f))) false.
Proof.
  intros Hn Hd Hh He Hr. set (p := dir ++ _).
  exists (bf_set_file_path f (Some p)).
  eexists (with_fs w (set_inode (fs_touch (w_fs w) p) (next_inode (w_fs w)) (bf_serialize f))).
  do 2 eexists. split; [|split; [done|]].
  { unfold bf_write. fold p.
    run (io_unwrap_ok _ _ _ _ (on_fs_ok _ w _ _ (file_new_fresh _ _ "filter.db" FFilter Hn Hd))).
    unfold mbind, io_bind, on_fs, write_all. simpl. by rewrite content_touch. }
  split.
  { unfold recover_meta. cbn [bf_file_path bf_set_file_path]. unfold filter_file_recover, on_fs, mbind, io_bind, io_lift.
    simpl. rewrite lookup_insert_eq. unfold content. simpl. rewrite lookup_insert_eq. simpl default.
    rewrite filter_recover_serialize by done. reflexivity. }
  cbn [no_of_hash_func no_of_elements false_positive_rate bf_sst_dir bit_vec bf_set_file_path].
  do 4 (split; [done|]). unfold the_bits. simpl. by rewrite lookup_insert_eq.
Qed.

(** [BloomFilter::new] panics exactly on a negative (or NaN) rate or zero
    elements; otherwise it returns an empty filter on fresh bits that are
    probed safely. *)
Theorem bf_new_spec rate elements (w : World M) :
  0 <= elements < 2 ^ 32 ->
  (f64_ge0 rate = false \/ elements = 0 -> bf_new rate elements w = (Panic, w)) /\
  (f64_ge0 rate = true -> 0 < elements ->
   exists f w', bf_new rate elements w = (Ok f, w') /\ bit_vec f = w_next w /\ no_of_elements f = 0 /\
     the_bits w' (bit_vec f) = replicate (Z.to_nat (no_of_bits elements rate)) false /\
     no_of_hash_func f = no_of_bits elements rate / elements /\
     probing_ok (no_of_hash_func f) (the_bits w' (bit_vec f))).
Proof.
  intros He. unfold bf_new. split.
  - intros [->| ->]; [done|]. by destruct (f64_ge0 rate).
  - intros -> Hpos. simpl. rewrite decide_True by lia. rewrite as_u32_id by (unfold is_u32; lia).
    unfold calculate_no_of_hash_function. rewrite decide_False by lia.
    do 2 eexists. split; [reflexivity|]. simpl. unfold the_bits. simpl. rewrite lookup_insert_eq. simpl.
    do 4 (split; [done|]). unfold probing_ok. pose proof (no_of_bits_u32 elements rate) as [Hb _].
    destruct (decide (no_of_bits elements rate = 0)) as [->|]; [left; by rewrite Z.div_0_l by lia|].
    right. unfold zlen. rewrite length_replicate. lia.
Qed.
End bloom_properties.

(** ** Witnesses *)
Section bloom_witnesses.
#[local] Existing Instance demo_platform.
#[local] Existing Instance demo_env.
#[local] Existing Instance sorted_list_skipmap.

Definition demo_filter : BloomFilter := mkBF None 3 0 0 4547007122018943789 None.
Definition demo_map : slist SkipMapValue :=
  sm_insert [x61] (smv_new 0 1700000000000000000 false)
    (sm_insert [x62] (smv_new 22 1700000000001000000 false) sm_new).
Definition demo_bloom_world : World slist :=
  mkWorld empty_fs {[ 1%nat := demo_map ]} {[ 0%nat := replicate 64 false ]} 2 0.

Lemma demo_admits n k : admits n (replicate 16 true) k.
Proof.
  apply Forall_forall. intros s _. apply lookup_replicate. split; [done|].
  assert (zlen (replicate 16 true) = 16) as -> by done.
  pose proof (Z.mod_pos_bound (hash_key k s) 16). lia.
Qed.

Lemma bf_build_no_false_negatives_witness :
  exists f' w', build_filter_from_entries demo_filter 1 demo_bloom_world = (Ok f', w') /\
    bf_contains f' [x62] w' = (Ok true, w') /\ bf_contains demo_filter [x62] w' = (Ok true, w').
Proof.
  apply (bf_build_no_false_negatives demo_filter 1 demo_bloom_world [x62]).
  - right. by vm_compute.
  - left. vm_compute. by eexists.
Defined.

Lemma bf_meta_roundtrip_witness :
  exists f' w' g' w'',
    bf_write demo_filter [] demo_bloom_world = (Ok f', w') /\ bf_file_path f' = Some ["filter.db"%string] /\
    recover_meta (bf_set_file_path demo_filter (bf_file_path f')) w' = (Ok g', w'') /\
    no_of_hash_func g' = 3.
Proof.
  destruct (bf_meta_roundtrip demo_filter demo_filter [] demo_bloom_world)
    as (f' & w' & g' & w'' & E1 & E2 & E3 & E4 & _); [done|by vm_compute|done..|].
  exists f', w', g', w''. by repeat split.
Defined.

Lemma bf_new_spec_witness :
  bf_new 0 0 demo_bloom_world = (Panic, demo_bloom_world) /\
  exists f w', bf_new 0 10 demo_bloom_world = (Ok f, w') /\ bit_vec f = 2%nat.
Proof.
  split.
  - apply (bf_new_spec 0 0 demo_bloom_world); [done|by right].
  - destruct (bf_new_spec 0 10 demo_bloom_world) as [_ Hn]; [done|].
    destruct Hn as (f & w' & E1 & E2 & _); [by vm_compute|done|]. exists f, w'. by split.
Defined.
End bloom_witnesses.
