(* ===== verification/SSTable.v ===== *)
(** * SSTables ([src/sst/table.rs], [SummaryFileNode] of [src/fs/mod.rs])

    A table is a directory with a data file (blocks of entries), an index (the
    last key and the offset of each block), a filter file and a summary. *)

From stdpp Require Import prelude gmap strings list sorting.
From Stdlib Require Import Strings.Byte ZArith Lia.
From S2P Require Import Prelude Consts SkipMap FileIO Types World Block Index Bloom.
Open Scope Z_scope.

Record Summary := mkSummary {
  s_path : list string;
  smallest_key : list byte;
  biggest_key : list byte;
}.

Record Table := mkTable {
  t_dir : list string;
  hotness : Z;
  t_size : Z;
  t_created_at : DateTime;
  data_file : FileNode;
  index_file : FileNode;
  t_entries : nat;
  t_filter : option BloomFilter;
  t_summary : option Summary;
}.

Definition t_with_size (t : Table) (z : Z) : Table :=
  mkTable (t_dir t) (hotness t) z (t_created_at t) (data_file t) (index_file t) (t_entries t) (t_filter t) (t_summary t).
Definition t_with_entries (t : Table) (l : nat) : Table :=
  mkTable (t_dir t) (hotness t) (t_size t) (t_created_at t) (data_file t) (index_file t) l (t_filter t) (t_summary t).
Definition t_with_filter (t : Table) (f : option BloomFilter) : Table :=
  mkTable (t_dir t) (hotness t) (t_size t) (t_created_at t) (data_file t) (index_file t) (t_entries t) f (t_summary t).
Definition t_with_summary (t : Table) (s : option Summary) : Table :=
  mkTable (t_dir t) (hotness t) (t_size t) (t_created_at t) (data_file t) (index_file t) (t_entries t) (t_filter t) s.

(** [Table::increase_hotness], on a [u64] *)
Definition increase_hotness (t : Table) : Table :=
  mkTable (t_dir t) (as_u64 (hotness t + 1)) (t_size t) (t_created_at t) (data_file t) (index_file t)
    (t_entries t) (t_filter t) (t_summary t).

Definition data_file_path (d : list string) : list string := d ++ ["data.db"%string].
Definition index_file_path (d : list string) : list string := d ++ ["index.db"%string].
Definition summary_file_path (d : list string) : list string := d ++ ["summary.db"%string].

(** [Summary::new], [Summary::serialize] *)
Definition summary_new (d : list string) : Summary := mkSummary (summary_file_path d) [] [].
Definition summary_serialize (s : Summary) : list byte :=
  to_le 4 (as_u32 (zlen (smallest_key s))) ++ to_le 4 (as_u32 (zlen (biggest_key s))) ++
  smallest_key s ++ biggest_key s.

Section sstable.
Context `{Env} {M : Type -> Type} `{SkipMap M}.
Abbreviation W := (World M).

(** [Summary::write_to_file] *)
Definition summary_write_to_file (s : Summary) : io W Error unit :=
  n ← io_unwrap (on_fs (file_new (s_path s) FSummary));
  on_fs (write_all n (summary_serialize s)).

(** [SummaryFileNode::recover], on the bytes of the file *)
Definition summary_recover_bytes (bs : list byte) : outcome Error (list byte * list byte) :=
  '(smallest_len_bytes, _, rest) ← read_field SIZE_OF_U32 bs;
  '(biggest_len_bytes, _, rest) ← read_field SIZE_OF_U32 rest;
  '(smallest, _, rest) ← read_field (from_le smallest_len_bytes) rest;
  '(biggest, _, rest) ← read_field (from_le biggest_len_bytes) rest;
  Ok (smallest, biggest).

(** [Summary::recover] *)
Definition summary_recover (s : Summary) : io W Error Summary := fun w =>
  match names (w_fs w) !! s_path s with
  | None => (Err (FilterFileOpen (s_path s)), w)
  | Some i =>
      (r ← summary_recover_bytes (content (w_fs w) i);
       let '(smallest, biggest) := r in Ok (mkSummary (s_path s) smallest biggest), w)
  end.

(** [Table::new] with [Table::generate_file_path] *)
Definition table_new (dir : list string) : io W Error Table :=
  created_at ← now;
  _ ← on_fs (create_dir_all dir);
  data ← io_unwrap (on_fs (file_new (data_file_path dir) FData));
  index ← io_unwrap (on_fs (file_new (index_file_path dir) FIndex));
  l ← alloc_map sm_new;
  mret (mkTable dir 0 0 created_at data index l None None).

(** [Table::build_from]; the file's modification time is a clock reading *)
Definition table_build_from (dir data_path index_path : list string) : io W Error Table :=
  _ ← now;
  data ← io_unwrap (on_fs (file_new data_path FData));
  index ← io_unwrap (on_fs (file_new index_path FIndex));
  l ← alloc_map sm_new;
  size ← on_fs (file_size data);
  modified_time ← now;
  created_at ← io_lift (milliseconds_to_datetime (timestamp_millis modified_time));
  mret (mkTable dir 1 size created_at data index l None None).

(** [set_sst_size_from_entries] of [Table] and [TableInsertor] *)
Definition entries_byte_size (m : M SkipMapValue) : Z :=
  foldr (fun p acc => zlen p.1 + SIZE_OF_USIZE + SIZE_OF_U64 + SIZE_OF_U8 + acc) 0 (sm_iter m).

(** [Table::set_entries] *)
Definition table_set_entries (t : Table) (entries : nat) : io W Error Table :=
  m ← read_map entries;
  mret (t_with_size (t_with_entries t entries) (entries_byte_size m)).

(** The loop of [Table::write_to_file] that fills the blocks *)
Fixpoint fill_blocks (es : list Entry) (blocks : list Block) (current_block : Block)
    : outcome Error (list Block * Block) :=
  match es with
  | [] => Ok (blocks, current_block)
  | e :: es' =>
      let '(blocks, current_block) :=
        if block_is_full current_block (block_entry_size (e_key e))
        then (blocks ++ [current_block], block_new) else (blocks, current_block) in
      current_block' ← set_entry current_block (as_u32 (zlen (e_key e))) (e_key e)
                         (as_u32 (e_val_offset e)) (e_created_at e) (e_is_tombstone e);
      fill_blocks es' blocks current_block'
  end.

(** [Table::write_block] *)
Definition write_block (t : Table) (block : Block) (index : Index) : io W Error (Table * Index) :=
  let offset := t_size t in
  last_entry ← io_lift (get_last_entry block);
  let index' := index_insert index (key_prefix last_entry) (be_key last_entry) (as_u32 offset) in
  bytes_written ← on_fs (block_write_to_file block (data_file t));
  mret (t_with_size t (t_size t + bytes_written), index').

Fixpoint write_blocks (t : Table) (blocks : list Block) (index : Index) : io W Error (Table * Index) :=
  match blocks with
  | [] => mret (t, index)
  | b :: bs => '(t', index') ← write_block t b index; write_blocks t' bs index'
  end.

(** [Table::write_to_file], from the first data block on *)
Definition write_entries_to_files (t : Table) (entries : M SkipMapValue) (index : Index) : io W Error Table :=
  let t := if decide (t_size t > 0) then t_with_size t 0 else t in
  '(blocks, current_block) ← io_lift (fill_blocks (entry_of <$> sm_iter entries) [] block_new);
  '(t, index) ← ('(t, index) ← write_blocks t blocks index;
                 match b_entries current_block with
                 | [] => mret (t, index)
                 | _ => write_block t current_block index
                 end);
  _ ← on_fs (index_write_to_file index);
  mret t.

(** [Table::write_to_file] *)
Definition table_write_to_file (t : Table) : io W Error Table :=
  match t_filter t with
  | None => io_err FilterNotProvidedForFlush
  | Some filter =>
      entries ← read_map (t_entries t);
      if sm_is_empty entries then io_err EntriesCannotBeEmptyDuringFlush else
      let index := index_new (index_file t) in
      let summary := summary_new (t_dir t) in
      smallest_entry ← io_lift (unwrap (sm_front entries));
      biggest_entry ← io_lift (unwrap (sm_back entries));
      let summary := mkSummary (s_path summary) smallest_entry.1 biggest_entry.1 in
      _ ← summary_write_to_file summary;
      let t := t_with_summary t (Some summary) in
      filter ← bf_write filter (t_dir t);
      let t := t_with_filter t (Some (set_sstable_path filter (file_path (data_file t)))) in
      write_entries_to_files t entries index
  end.

(** [Table::get] *)
Definition table_get (t : Table) (start_offset : Z) (searched_key : list byte)
    : io W Error (option (Z * DateTime * bool)) := fun w =>
  (find_entry (content (w_fs w) (file (data_file t))) start_offset searched_key, w).

(** [Table::load_entries_from_file] *)
Definition load_entries_from_file (t : Table) : io W Error Table :=
  '(entries, bytes_read) ← (fun w => (load_entries (content (w_fs w) (file (data_file t))), w));
  l ← alloc_map entries;
  mret (t_with_size (t_with_entries t l) bytes_read).

(** [Table::range] *)
Definition table_range (t : Table) (ro : RangeOffset) : io W Error (list Entry) := fun w =>
  (load_entries_within_range (content (w_fs w) (file (data_file t))) (start_offset ro) (end_offset ro), w).

(** The lookup of a key in one table: index, then data file. *)
Definition sst_lookup (t : Table) (k : list byte) : io W Error (option (Z * DateTime * bool)) :=
  block_offset ← on_fs (index_get (index_file t) k);
  match block_offset with
  | None => mret None
  | Some offset => table_get t offset k
  end.

(** ** Lemmas *)

(** The block entry an entry is stored as, and the entries of a run of blocks. *)
Definition be_of (e : Entry) : BlockEntry :=
  mkBE (as_u32 (zlen (e_key e))) (e_key e) (as_u32 (e_val_offset e)) (e_created_at e) (e_is_tombstone e).

Definition blocks_entries (bs : list Block) : list BlockEntry := mjoin (b_entries <$> bs).

Lemma blocks_entries_cons b bs : blocks_entries (b :: bs) = b_entries b ++ blocks_entries bs.
Proof. done. Qed.

Lemma blocks_entries_app bs bs' : blocks_entries (bs ++ bs') = blocks_entries bs ++ blocks_entries bs'.
Proof. unfold blocks_entries. by rewrite fmap_app, join_app. Qed.

Lemma block_new_inv : block_inv block_new.
Proof. by split. Qed.

Lemma block_size_nonneg b : block_inv b -> 0 <= b_size b.
Proof. intros [-> _ _]. rewrite <- zlen_data_bytes. apply zlen_nonneg. Qed.

Lemma full_block_nonempty b k :
  block_inv b -> zlen k + 17 <= BLOCK_SIZE -> block_is_full b (block_entry_size k) = true -> b_entries b <> [].
Proof.
  intros [Hs _ _] Hk Hf E. rewrite E in Hs. simpl in Hs. unfold block_is_full in Hf.
  apply bool_decide_eq_true in Hf. rewrite block_entry_size_eq in Hf. lia.
Qed.

(** Filling partitions the entries into non-empty blocks, in order. *)
Lemma fill_blocks_spec es blocks cur :
  Forall (fun e => zlen (e_key e) + 17 <= BLOCK_SIZE) es -> block_inv cur ->
  exists bs cur', fill_blocks es blocks cur = Ok (blocks ++ bs, cur') /\
    block_inv cur' /\ Forall good_block bs /\
    blocks_entries bs ++ b_entries cur' = b_entries cur ++ (be_of <$> es) /\
    (es <> [] \/ b_entries cur <> [] -> b_entries cur' <> []).
Proof.
  intros Hes. revert blocks cur. induction Hes as [|e es He Hes IH]; intros blocks cur Hc.
  { exists [], cur. rewrite !app_nil_r. do 4 (split; [done|]). by intros [|]. }
  cbn [fill_blocks]. destruct (block_is_full cur (block_entry_size (e_key e))) eqn:Hfull.
  - destruct (set_entry_fits block_new (as_u32 (zlen (e_key e))) (e_key e) (as_u32 (e_val_offset e))
      (e_created_at e) (e_is_tombstone e) block_new_inv) as (b' & -> & Eb & Hb'); [done|].
    cbn [mbind outcome_bind]. destruct (IH (blocks ++ [cur]) b' Hb') as (bs & cur' & -> & ? & ? & E & Hne).
    exists (cur :: bs), cur'. rewrite <- app_assoc. split; [done|]. split; [done|].
    split; [constructor; [|done]; split; [done|by eapply full_block_nonempty]|]. split.
    + by rewrite blocks_entries_cons, <- app_assoc, E, Eb.
    + intros _. apply Hne. right. by rewrite Eb.
  - destruct (set_entry_fits cur (as_u32 (zlen (e_key e))) (e_key e) (as_u32 (e_val_offset e))
      (e_created_at e) (e_is_tombstone e) Hc) as (b' & -> & Eb & Hb').
    { unfold block_is_full in Hfull. apply bool_decide_eq_false in Hfull. rewrite block_entry_size_eq in Hfull. lia. }
    cbn [mbind outcome_bind]. destruct (IH blocks b' Hb') as (bs & cur' & -> & ? & ? & E & Hne).
    exists bs, cur'. split; [done|]. split; [done|]. split; [done|]. split.
    + by rewrite E, Eb, <- app_assoc.
    + intros _. apply Hne. right. rewrite Eb. by destruct (b_entries cur).
Qed.

(** The index the blocks get, the first one at offset [off]. *)
Fixpoint idx_of (off : Z) (bs : list Block) : list IndexEntry :=
  match bs with
  | [] => []
  | b :: bs' =>
      match last (b_entries b) with
      | Some e => [mkIE (key_prefix e) (be_key e) (as_u32 off)]
      | None => []
      end ++ idx_of (off + b_size b) bs'
  end.

Lemma write_block_spec t b ix (w : W) :
  good_block b -> exists fs',
    write_block t b ix w =
      (Ok (t_with_size t (t_size t + b_size b), mkIndex (ix_entries ix ++ idx_of (t_size t) [b]) (ix_file ix)),
       with_fs w fs') /\
    fs_appends (file (data_file t)) (data_bytes (b_entries b)) (w_fs w) fs'.
Proof.
  intros Hb. destruct (block_write_appends b (data_file t) (w_fs w) Hb) as (fs' & E & Ha).
  exists fs'. split; [|done]. unfold write_block. destruct Hb as [_ Hne].
  unfold get_last_entry. cbn [idx_of]. destruct (last (b_entries b)) as [e|] eqn:El.
  - run_simpl. run (on_fs_ok _ w _ _ E). done.
  - by apply last_None in El.
Qed.

Lemma write_blocks_spec t bs ix (w : W) :
  Forall good_block bs -> exists fs',
    write_blocks t bs ix w =
      (Ok (t_with_size t (t_size t + zlen (data_bytes (blocks_entries bs))),
           mkIndex (ix_entries ix ++ idx_of (t_size t) bs) (ix_file ix)), with_fs w fs') /\
    fs_appends (file (data_file t)) (data_bytes (blocks_entries bs)) (w_fs w) fs'.
Proof.
  intros Hbs. revert t ix w. induction Hbs as [|b bs Hb Hbs IH]; intros t ix w.
  { exists (w_fs w). cbn [write_blocks idx_of]. rewrite app_nil_r. split; [|apply fs_appends_refl].
    change (zlen (data_bytes (blocks_entries []))) with 0. rewrite Z.add_0_r.
    by destruct t, ix, w. }
  destruct (write_block_spec t b ix w Hb) as (fs1 & E1 & A1).
  destruct (IH (t_with_size t (t_size t + b_size b))
    (mkIndex (ix_entries ix ++ idx_of (t_size t) [b]) (ix_file ix)) (with_fs w fs1)) as (fs2 & E2 & A2).
  exists fs2. cbn [write_blocks]. run E1. rewrite E2.
  rewrite blocks_entries_cons, data_bytes_app. split.
  - rewrite zlen_app, (good_block_size b) by done. cbn [idx_of ix_entries ix_file t_size t_with_size].
    rewrite app_nil_r, <- app_assoc, Z.add_assoc, (good_block_size b) by done. done.
  - by eapply fs_appends_trans.
Qed.

Lemma index_write_appends ix fs :
  exists fs', index_write_to_file ix fs = (Ok tt, fs') /\
    fs_appends (file (ix_file ix)) (index_bytes (ix_entries ix)) fs fs'.
Proof.
  unfold index_write_to_file. rewrite index_write_all. destruct (ix_entries ix) as [|e es].
  - exists fs. split; [done|]. apply fs_appends_refl.
  - destruct (write_all_appends (ix_file ix) (index_bytes (e :: es)) fs) as (fs' & E & A).
    injection E as <-. by eexists.
Qed.

(** The data scan as an association-list search. *)
Lemma data_find_kfind sk es :
  data_find sk es =
  (fun v => (smv_val_offset v, smv_created_at v, smv_is_tombstone v)) <$> kfind sk (be_binding <$> es).
Proof.
  unfold data_find. induction es as [|e es IH]; [done|]. cbn [List.find fmap list_fmap be_binding kfind].
  destruct (decide (be_key e = sk)) as [<-|Hne].
  - by rewrite bool_decide_true, decide_True by done.
  - rewrite bool_decide_false, decide_False by done. exact IH.
Qed.

Lemma data_find_app_skip sk es es' :
  Forall (fun e => be_key e <> sk) es -> data_find sk (es ++ es') = data_find sk es'.
Proof.
  intros Hall. unfold data_find. induction Hall as [|e es He Hes IH]; [done|].
  rewrite <- app_comm_cons. cbn [List.find]. by rewrite bool_decide_false.
Qed.

Abbreviation keys_sorted es := (StronglySorted key_lt (be_key <$> es)).

(** Every key of a sorted run is at most its last key. *)
Lemma sorted_last_max (ks : list (list byte)) k :
  StronglySorted key_lt ks -> last ks = Some k -> Forall (fun k' => key_lt k' k \/ k' = k) ks.
Proof.
  induction ks as [|x ks IH]; intros Hs Hl; [constructor|]. apply StronglySorted_inv in Hs as [Hs Hx].
  destruct ks as [|y ks]; [injection Hl as ->; by repeat constructor; right|].
  rewrite last_cons_cons in Hl. specialize (IH Hs Hl). constructor; [|done]. left.
  rewrite Forall_forall in Hx. apply Hx. by apply last_Some_elem_of.
Qed.

Lemma sst_find bs pre sk :
  Forall good_block bs -> Forall valid_be (blocks_entries bs) -> keys_sorted (blocks_entries bs) ->
  zlen (data_bytes pre) + zlen (data_bytes (blocks_entries bs)) < 2 ^ 32 ->
  match index_find sk (idx_of (zlen (data_bytes pre)) bs) with
  | None => data_find sk (blocks_entries bs) = None
  | Some o => find_entry (data_bytes pre ++ data_bytes (blocks_entries bs)) o sk =
              Ok (data_find sk (blocks_entries bs))
  end.
Proof.
  intros Hg. revert pre. induction Hg as [|b bs Hb Hbs IH]; intros pre Hv Hs Hlt; [done|].
  rewrite blocks_entries_cons in *. cbn [idx_of]. pose proof Hb as [_ Hne].
  destruct (last (b_entries b)) as [e|] eqn:El; [|by apply last_None in El].
  cbn [app]. unfold index_find. cbn [List.find ie_key]. destruct (key_ltb (be_key e) sk) eqn:Elt; cbn [negb].
  - apply key_ltb_spec in Elt. rewrite fmap_app in Hs. apply StronglySorted_app in Hs as (Hcross & Hs1 & Hs2).
    assert (Forall (fun e' => be_key e' <> sk) (b_entries b)) as Hskip.
    { assert (last (be_key <$> b_entries b) = Some (be_key e)) as El' by by rewrite fmap_last, El.
      pose proof (sorted_last_max _ _ Hs1 El') as Hm. rewrite Forall_fmap in Hm.
      eapply Forall_impl; [exact Hm|]. intros e' [Hl|Heq] E0; simpl in *.
      - eapply key_lt_irrefl, key_lt_trans; [exact Elt|]. by rewrite <- E0.
      - apply (key_lt_irrefl sk). by rewrite <- Heq, E0 in Elt. }
    rewrite data_find_app_skip by done. apply Forall_app in Hv as [_ Hv].
    rewrite data_bytes_app, zlen_app in Hlt.
    specialize (IH (pre ++ b_entries b) Hv Hs2). rewrite !data_bytes_app, zlen_app, <- app_assoc in IH.
    rewrite (good_block_size b) by done. rewrite data_bytes_app. apply IH. lia.
  - cbn [fmap option_fmap option_map block_handle]. rewrite as_u32_id.
    + by rewrite find_entry_at.
    + split; [apply zlen_nonneg|]. pose proof (zlen_nonneg (data_bytes (b_entries b ++ blocks_entries bs))). lia.
Qed.

Lemma idx_of_valid off bs :
  Forall valid_be (blocks_entries bs) -> Forall valid_index_entry (idx_of off bs).
Proof.
  revert off. induction bs as [|b bs IH]; intros off Hv; [constructor|].
  rewrite blocks_entries_cons in Hv. apply Forall_app in Hv as [Hv Hvs]. cbn [idx_of].
  apply Forall_app. split; [|by apply IH]. destruct (last (b_entries b)) as [e|] eqn:El; [|constructor].
  constructor; [|constructor]. apply last_Some_elem_of in El. rewrite Forall_forall in Hv.
  destruct (Hv e El) as (? & ? & ? & _). do 3 (split; [done|]). apply as_u32_range.
Qed.

(** ** What a written table represents *)

(** A map a table can store: keys are non-empty and fit a block, times are
    representable, and the data file stays below the [u32] offsets of the index. *)
Record storable (m : M SkipMapValue) : Prop := {
  st_nonempty : sm_iter m <> [];
  st_entries : Forall (fun p => p.1 <> [] /\ zlen p.1 + 17 <= BLOCK_SIZE /\ valid_time (smv_created_at p.2)) (sm_iter m);
  st_size : zlen (data_bytes (be_of <$> (entry_of <$> sm_iter m))) < 2 ^ 32;
}.

(** The files of table [t] are the encoding of map [m]. *)
Definition table_holds (w : W) (t : Table) (m : M SkipMapValue) : Prop :=
  storable m /\ exists bs,
    Forall good_block bs /\ blocks_entries bs = be_of <$> (entry_of <$> sm_iter m) /\
    content (w_fs w) (file (data_file t)) = data_bytes (blocks_entries bs) /\
    content (w_fs w) (file (index_file t)) = index_bytes (idx_of 0 bs).

(** A table whose files were just created. *)
Record table_ready (w : W) (t : Table) : Prop := {
  tr_dir : t_dir t ∈ dirs (w_fs w);
  tr_summary : names (w_fs w) !! summary_file_path (t_dir t) = None;
  tr_filter : names (w_fs w) !! (t_dir t ++ ["filter.db"%string]) = None;
  tr_data_inode : (file (data_file t) < next_inode (w_fs w))%nat;
  tr_index_inode : (file (index_file t) < next_inode (w_fs w))%nat;
  tr_distinct : file (data_file t) <> file (index_file t);
  tr_data : content (w_fs w) (file (data_file t)) = [];
  tr_index : content (w_fs w) (file (index_file t)) = [];
  tr_size : 0 <= t_size t;
}.

Lemma stored_binding p : be_binding (be_of (entry_of p)) = (p.1, smv_stored p.2).
Proof. done. Qed.

Lemma stored_bindings (l : list (list byte * SkipMapValue)) :
  be_binding <$> (be_of <$> (entry_of <$> l)) = (fun p => (p.1, smv_stored p.2)) <$> l.
Proof. rewrite <- !list_fmap_compose. by apply list_fmap_ext. Qed.

Lemma storable_valid m : storable m -> Forall valid_be (be_of <$> (entry_of <$> sm_iter m)).
Proof.
  intros [_ He _]. rewrite !Forall_fmap. eapply Forall_impl; [exact He|]. intros [k v] (? & Hk & ?); simpl in *.
  unfold BLOCK_SIZE in Hk. pose proof (zlen_nonneg k). unfold valid_be, MAX_KEY_SIZE. simpl.
  do 2 (split; [done || lia|]). split; [apply as_u32_id; unfold is_u32; lia|]. split; [apply as_u32_range|done].
Qed.

Lemma map_keys_sorted (m : M SkipMapValue) : keys_sorted (be_of <$> (entry_of <$> sm_iter m)).
Proof.
  rewrite <- !list_fmap_compose. exact (sm_iter_sorted m).
Qed.

(** What a lookup reports for a stored value. *)
Definition found (v : SkipMapValue) : Z * DateTime * bool :=
  (as_u32 (smv_val_offset v), trunc_ms (smv_created_at v), smv_is_tombstone v).

Lemma sst_lookup_holds t m k w :
  table_holds w t m -> sst_lookup t k w = (Ok (found <$> sm_get k m), w).
Proof.
  intros (Hst & bs & Hg & He & Hd & Hi). pose proof (storable_valid m Hst) as Hv. rewrite <- He in Hv.
  unfold sst_lookup. unfold mbind, io_bind, on_fs, index_get. rewrite Hi.
  rewrite get_from_index_find by by apply idx_of_valid. simpl.
  assert (with_fs w (w_fs w) = w) as -> by by destruct w.
  pose proof (sst_find bs [] k Hg Hv) as Hf. rewrite He in Hf at 1 2.
  specialize (Hf (map_keys_sorted m) (st_size _ Hst)). change (zlen (data_bytes [])) with 0 in Hf.
  assert (data_find k (blocks_entries bs) = found <$> sm_get k m) as Hdf.
  { rewrite data_find_kfind, He, stored_bindings, kfind_fmap, <- sm_get_iter. by destruct (sm_get k m). }
  rewrite Hdf in Hf. destruct (index_find k (idx_of 0 bs)) as [o|].
  - unfold table_get. rewrite Hd. simpl in Hf. by rewrite Hf.
  - by rewrite Hf.
Qed.

Lemma load_entries_holds t m w :
  table_holds w t m -> exists t' w' l,
    load_entries_from_file t w = (Ok t', w') /\ t' = t_with_size (t_with_entries t l) (t_size t') /\
    l = w_next w /\ w_fs w' = w_fs w /\ w_bits w' = w_bits w /\
    sm_iter (the_map w' l) = (fun p => (p.1, smv_stored p.2)) <$> sm_iter m /\
    t_size t' = zlen (content (w_fs w) (file (data_file t))) /\ w_next w' = S (w_next w) /\
    w_maps w' = <[l := the_map w' l]> (w_maps w) /\ w_ticks w' = w_ticks w.
Proof.
  intros (Hst & bs & Hg & He & Hd & _). pose proof (storable_valid m Hst) as Hv.
  do 3 eexists. split.
  { unfold load_entries_from_file. unfold mbind at 1, io_bind at 1. rewrite Hd, He.
    unfold load_entries. rewrite seek_0, while_load by done. reflexivity. }
  do 4 (split; [done|]). split; [|split; [by rewrite Hd, He|split; [done|]]].
  2: { split; [|done]. unfold the_map. simpl. by rewrite lookup_insert_eq. }
  unfold the_map. simpl. rewrite lookup_insert_eq. simpl. rewrite stored_bindings, sm_iter_insert_all; [done|].
  unfold sorted_keys. rewrite keys_fmap. apply sm_iter_sorted.
Qed.

(** Only the two files' bytes matter. *)
Lemma table_holds_frame (w w' : W) t t' m :
  table_holds w t m -> data_file t' = data_file t -> index_file t' = index_file t ->
  content (w_fs w') (file (data_file t)) = content (w_fs w) (file (data_file t)) ->
  content (w_fs w') (file (index_file t)) = content (w_fs w) (file (index_file t)) ->
  table_holds w' t' m.
Proof. intros (Hst & bs & ? & ? & Hd & Hi) E1 E2 C1 C2. split; [done|]. exists bs. by rewrite E1, E2, C1, C2. Qed.

Lemma summary_write_fresh s d (w : W) :
  s_path s = summary_file_path d -> names (w_fs w) !! summary_file_path d = None -> d ∈ dirs (w_fs w) ->
  exists fs', summary_write_to_file s w = (Ok tt, with_fs w fs') /\
    fs_created (summary_file_path d) (summary_serialize s) (w_fs w) fs'.
Proof.
  intros Hp Hn Hd. unfold summary_write_to_file. rewrite Hp.
  destruct (create_write_fresh (w_fs w) d "summary.db" FSummary (summary_serialize s) Hn Hd) as (fs1 & fs' & E1 & E2 & C).
  exists fs'. split; [|done]. run (io_unwrap_ok _ _ _ _ (on_fs_ok _ w _ _ E1)).
  by rewrite (on_fs_ok _ (with_fs w fs1) _ _ E2).
Qed.

Lemma bf_write_fresh f d (w : W) :
  names (w_fs w) !! (d ++ ["filter.db"%string]) = None -> d ∈ dirs (w_fs w) ->
  exists fs', bf_write f d w = (Ok (bf_set_file_path f (Some (d ++ ["filter.db"%string]))), with_fs w fs') /\
    fs_created (d ++ ["filter.db"%string]) (bf_serialize f) (w_fs w) fs'.
Proof.
  intros Hn Hd. unfold bf_write.
  destruct (create_write_fresh (w_fs w) d "filter.db" FFilter (bf_serialize f) Hn Hd) as (fs1 & fs' & E1 & E2 & C).
  exists fs'. split; [|done]. run (io_unwrap_ok _ _ _ _ (on_fs_ok _ w _ _ E1)).
  by run (on_fs_ok _ (with_fs w fs1) _ _ E2).
Qed.

(** Both kinds of block write of [write_to_file] are one run over all blocks. *)
Lemma write_last_block t bs ix cur (w : W) :
  b_entries cur <> [] ->
  ('(t, index) ← write_blocks t bs ix;
   match b_entries cur with [] => mret (t, index) | _ => write_block t cur index end) w
  = write_blocks t (bs ++ [cur]) ix w.
Proof.
  intros Hne. revert t ix w. induction bs as [|b bs IH]; intros t ix w.
  - cbn [write_blocks app]. unfold mbind at 1, io_bind at 1. cbn [mret io_ret].
    destruct (b_entries cur) eqn:E; [done|]. unfold mbind, io_bind.
    by destruct (write_block t cur ix w) as [[[t' ix']| |] w'].
  - cbn [write_blocks app]. unfold mbind at 2 3, io_bind at 2 3. unfold mbind, io_bind in IH |- *.
    destruct (write_block t b ix w) as [[[t' ix']| |] w']; [apply IH|done|done].
Qed.

(** The keys the summary records. *)
Definition bounds_of (m : M SkipMapValue) : list byte * list byte :=
  (default [] (fst <$> head (sm_iter m)), default [] (fst <$> last (sm_iter m))).

Lemma storable_bounds m :
  storable m -> exists a b, sm_front m = Some a /\ sm_back m = Some b /\
    (a.1, b.1) = bounds_of m /\ sm_is_empty m = false.
Proof.
  intros [Hne _ _]. unfold sm_front, sm_back, bounds_of, sm_is_empty.
  destruct (sm_iter m) as [|p l]; [done|]. destruct (last (p :: l)) as [q|] eqn:El; [|by apply last_None in El].
  exists p, q. by repeat split.
Qed.

(** The table [write_to_file] leaves behind. *)
Definition written_table (t : Table) (f : BloomFilter) (m : M SkipMapValue) : Table :=
  mkTable (t_dir t) (hotness t) (zlen (data_bytes (be_of <$> (entry_of <$> sm_iter m)))) (t_created_at t)
    (data_file t) (index_file t) (t_entries t)
    (Some (set_sstable_path (bf_set_file_path f (Some (t_dir t ++ ["filter.db"%string]))) (file_path (data_file t))))
    (Some (mkSummary (summary_file_path (t_dir t)) (bounds_of m).1 (bounds_of m).2)).

Lemma summary_filter_ne d : summary_file_path d <> d ++ ["filter.db"%string].
Proof. unfold summary_file_path. by intros [=]%app_inv_head. Qed.

Lemma reset_size t : 0 <= t_size t -> (if decide (t_size t > 0) then t_with_size t 0 else t) = t_with_size t 0.
Proof. intros Hz. case_decide as D; [done|]. replace 0 with (t_size t) by lia. by destruct t. Qed.

Lemma write_entries_to_files_holds t m (w : W) :
  storable m -> 0 <= t_size t -> file (data_file t) <> file (index_file t) ->
  content (w_fs w) (file (data_file t)) = [] -> content (w_fs w) (file (index_file t)) = [] ->
  exists fs2 fs3, write_entries_to_files t m (index_new (index_file t)) w =
      (Ok (t_with_size t (zlen (data_bytes (be_of <$> (entry_of <$> sm_iter m))))), with_fs w fs3) /\
    table_holds (with_fs w fs3) t m /\
    (exists dbs, fs_appends (file (data_file t)) dbs (w_fs w) fs2) /\
    (exists ibs, fs_appends (file (index_file t)) ibs fs2 fs3).
Proof.
  intros Hst Hz Hdi Hd0 Hi0. unfold write_entries_to_files. rewrite reset_size by done.
  destruct (fill_blocks_spec (entry_of <$> sm_iter m) [] block_new) as (bs & cur & Efill & Hcur & Hbs & Hent & Hne).
  { rewrite Forall_fmap. eapply Forall_impl; [apply (st_entries _ Hst)|]. simpl. naive_solver. }
  { apply block_new_inv. }
  assert (b_entries cur <> []) as Hcne.
  { apply Hne. left. pose proof (st_nonempty _ Hst). by destruct (sm_iter m). }
  change (b_entries block_new) with (@nil BlockEntry) in Hent. cbn [app] in Hent, Efill.
  rewrite Efill. run_simpl.
  assert (Forall good_block (bs ++ [cur])) as Hall.
  { apply Forall_app. split; [done|]. constructor; [by split|constructor]. }
  assert (blocks_entries (bs ++ [cur]) = be_of <$> (entry_of <$> sm_iter m)) as Hall_e.
  { rewrite blocks_entries_app, <- Hent. f_equal. rewrite blocks_entries_cons. apply app_nil_r. }
  destruct (write_blocks_spec (t_with_size t 0) (bs ++ [cur]) (index_new (index_file t)) w Hall) as (fs2 & E2 & A2).
  rewrite <- (write_last_block _ bs _ cur) in E2 by done. run E2.
  rewrite Hall_e in A2. cbn [t_size t_with_size ix_entries index_new app data_file] in A2 |- *. rewrite Z.add_0_l.
  destruct (index_write_appends (mkIndex (idx_of 0 (bs ++ [cur])) (index_file t)) fs2) as (fs3 & E3 & A3).
  exists fs2, fs3. cbn [ix_file index_new]. run (on_fs_ok _ (with_fs w fs2) _ _ E3). rewrite Hall_e. split; [done|].
  split; [|by split; eexists]. split; [done|]. exists (bs ++ [cur]). do 2 (split; [done|]).
  cbn [w_fs with_fs]. cbn [ix_file ix_entries] in A3. split.
  - by rewrite (fa_other _ _ _ _ A3), (fa_content _ _ _ _ A2), Hd0, Hall_e by done.
  - by rewrite (fa_content _ _ _ _ A3), (fa_other _ _ _ _ A2), Hi0 by done.
Qed.

Lemma table_write_holds t f (w : W) :
  let m := the_map w (t_entries t) in
  t_filter t = Some f -> table_ready w t -> storable m ->
  exists fs', table_write_to_file t w = (Ok (written_table t f m), with_fs w fs') /\
    table_holds (with_fs w fs') (written_table t f m) m /\
    names fs' = <[t_dir t ++ ["filter.db"%string] := S (next_inode (w_fs w))]>
                  (<[summary_file_path (t_dir t) := next_inode (w_fs w)]> (names (w_fs w))) /\
    dirs fs' = dirs (w_fs w) /\ next_inode fs' = S (S (next_inode (w_fs w))) /\
    (forall j, (j < next_inode (w_fs w))%nat -> j <> file (data_file t) -> j <> file (index_file t) ->
      content fs' j = content (w_fs w) j) /\
    content fs' (next_inode (w_fs w)) = summary_serialize (mkSummary (summary_file_path (t_dir t)) (bounds_of m).1 (bounds_of m).2) /\
    content fs' (S (next_inode (w_fs w))) = bf_serialize f.
Proof.
  intros m Hf Hr Hst. destruct (storable_bounds m Hst) as (a & b & Ea & Eb & Eab & Ee).
  pose proof Hr as [Hdir Hs0 Hf0 Hdi Hii Hne Hd0 Hi0 Hz].
  unfold table_write_to_file. rewrite Hf. run_simpl. fold m. rewrite Ee, Ea, Eb. do 2 run_simpl.
  set (s := mkSummary _ a.1 b.1).
  destruct (summary_write_fresh s (t_dir t) w eq_refl Hs0 Hdir) as (fs1 & E1 & [N1 D1 X1 C1 O1]).
  run E1. destruct (bf_write_fresh f (t_dir t) (with_fs w fs1)) as (fs2 & E2 & [N2 D2 X2 C2 O2]); cbn [w_fs with_fs] in *.
  { by rewrite N1, lookup_insert_ne by apply summary_filter_ne. }
  { by rewrite D1. }
  cbn [t_dir t_with_summary]. run E2.
  match goal with |- context [write_entries_to_files ?t1 _ _ _] => set (t2 := t1) end.
  destruct (write_entries_to_files_holds t2 m (with_fs (with_fs w fs1) fs2)) as (fs3 & fs4 & E4 & Hh & [dbs A3] & [ibs A4]);
    cbn [w_fs with_fs] in *; try done.
  1,2: subst t2; cbn [data_file index_file t_with_filter t_with_summary]; rewrite O2, O1 by lia; done.
  exists fs4. change (index_file t2) with (index_file t) in E4. rewrite E4. change (file (data_file t2)) with (file (data_file t)) in *.
  change (file (index_file t2)) with (file (index_file t)) in *.
  assert (t_with_size t2 (zlen (data_bytes (be_of <$> (entry_of <$> sm_iter m)))) = written_table t f m) as ->.
  { unfold written_table. rewrite <- Eab. by destruct t. }
  split; [done|]. split; [by eapply table_holds_frame|].
  rewrite (fa_names _ _ _ _ A4), (fa_names _ _ _ _ A3), (fa_dirs _ _ _ _ A4), (fa_dirs _ _ _ _ A3),
    (fa_next _ _ _ _ A4), (fa_next _ _ _ _ A3). split; [by rewrite N2, N1, X1|]. split; [congruence|].
  split; [congruence|]. split; [|split].
  - intros j Hj ? ?. by rewrite (fa_other _ _ _ _ A4), (fa_other _ _ _ _ A3), O2, O1 by (done || lia).
  - rewrite (fa_other _ _ _ _ A4), (fa_other _ _ _ _ A3), O2, C1 by lia. unfold s. by rewrite <- Eab.
  - rewrite (fa_other _ _ _ _ A4), (fa_other _ _ _ _ A3) by lia. by rewrite <- X1.
Qed.

(** A key that fits no block makes the filling fail. *)
Lemma set_entry_cases b kp k vo cd tomb :
  block_inv b -> (exists b', set_entry b kp k vo cd tomb = Ok b' /\ block_inv b' /\ zlen k + 17 <= BLOCK_SIZE) \/
    set_entry b kp k vo cd tomb = Err BlockIsFull.
Proof.
  intros Hb. destruct (decide (b_size b + zlen k + 17 <= BLOCK_SIZE)) as [Hf|Hf].
  - left. destruct (set_entry_fits b kp k vo cd tomb Hb Hf) as (b' & -> & _ & Hb').
    pose proof (block_size_nonneg b Hb). exists b'. split; [done|]. split; [done|lia].
  - right. unfold set_entry, block_is_full. by rewrite block_entry_size_eq, bool_decide_true by lia.
Qed.

Lemma fill_blocks_long_key es blocks cur :
  block_inv cur -> Exists (fun e => BLOCK_SIZE < zlen (e_key e) + 17) es ->
  fill_blocks es blocks cur = Err BlockIsFull.
Proof.
  intros Hc Hex. revert blocks cur Hc. induction es as [|e es IH]; intros blocks cur Hc; [by inversion Hex|].
  cbn [fill_blocks].
  assert (exists blocks' cur', block_inv cur' /\
    (if block_is_full cur (block_entry_size (e_key e)) then (blocks ++ [cur], block_new) else (blocks, cur))
    = (blocks', cur')) as (blocks' & cur' & Hc' & ->).
  { destruct (block_is_full _ _); eauto using block_new_inv. }
  destruct (set_entry_cases cur' (as_u32 (zlen (e_key e))) (e_key e) (as_u32 (e_val_offset e))
    (e_created_at e) (e_is_tombstone e) Hc') as [(b' & -> & Hb' & Hk)| ->]; [|done].
  cbn [mbind outcome_bind]. apply IH; [|done]. apply Exists_cons in Hex as [?|?]; [lia|done].
Qed.

(** [Table::new] in a directory that does not exist yet. *)
Lemma table_new_ready dir (w : W) :
  fs_wf (w_fs w) -> path_exists (w_fs w) dir = false ->
  exists t w', table_new dir w = (Ok t, w') /\ t_dir t = dir /\ t_filter t = None /\ t_entries t = w_next w /\
    w_next w' = S (w_next w) /\ w_bits w' = w_bits w /\ w_maps w' = <[w_next w := sm_new]> (w_maps w) /\
    data_file t = mkFileNode (data_file_path dir) (next_inode (w_fs w)) FData /\
    index_file t = mkFileNode (index_file_path dir) (S (next_inode (w_fs w))) FIndex /\
    table_ready w' t /\ hotness t = 0 /\
    names (w_fs w') = <[index_file_path dir := S (next_inode (w_fs w))]>
                        (<[data_file_path dir := next_inode (w_fs w)]> (names (w_fs w))) /\
    (dirs (w_fs w) ⊆ dirs (w_fs w')) /\ next_inode (w_fs w') = S (S (next_inode (w_fs w))) /\
    (forall j, (j < next_inode (w_fs w))%nat -> content (w_fs w') j = content (w_fs w) j) /\
    w_ticks w' = S (w_ticks w) /\ (forall q, q ∈ dirs (w_fs w') <-> q ∈ dirs (w_fs w) \/ q `prefix_of` dir).
Proof.
  intros Hwf Hp. destruct (create_dir_all_fresh _ _ Hp) as (fs1 & E1 & Hd1 & N1 & X1 & I1 & Hsub & Hnew & Hpre).
  apply path_exists_false in Hp as [Hd _]. unfold table_new. run_simpl. run (on_fs_ok _ (tick w) _ _ E1).
  pose proof (wf_fresh_name _ _ "data.db" Hwf Hd) as Nd. pose proof (wf_fresh_name _ _ "index.db" Hwf Hd) as Ni.
  pose proof (wf_fresh_name _ _ "summary.db" Hwf Hd) as Ns. pose proof (wf_fresh_name _ _ "filter.db" Hwf Hd) as Nf.
  rewrite <- N1 in Nd, Ni, Ns, Nf.
  assert (forall s s', s <> s' -> dir ++ [s] <> dir ++ [s' : string]) as Hne.
  { intros s s' Hs [= E]%app_inv_head. done. }
  run (io_unwrap_ok _ _ _ _ (on_fs_ok _ (with_fs (tick w) fs1) _ _ (file_new_fresh fs1 dir "data.db" FData Nd Hd1))).
  assert (names (fs_touch fs1 (dir ++ ["data.db"%string])) !! (dir ++ ["index.db"%string]) = None) as Ni'.
  { cbn [names fs_touch]. by rewrite lookup_insert_ne by by apply Hne. }
  run (io_unwrap_ok _ _ _ _ (on_fs_ok _ (with_fs (with_fs (tick w) fs1) (fs_touch fs1 (dir ++ ["data.db"%string]))) _ _
    (file_new_fresh _ dir "index.db" FIndex Ni' Hd1))).
  do 2 eexists. split; [reflexivity|]. rewrite <- X1. do 8 (split; [done|]). split; [|split; [done|]].
  - split; cbn; try done; try lia.
    + by rewrite !lookup_insert_ne by by apply Hne.
    + by rewrite !lookup_insert_ne by by apply Hne.
    + unfold content. cbn. rewrite lookup_insert_ne by lia. by rewrite lookup_insert_eq.
    + unfold content. cbn. by rewrite lookup_insert_eq.
  - rewrite <- N1. do 3 (split; [done|]). split; [|split; [done|]].
    2: { intros q. split; [by apply Hnew|]. intros [Hq|Hq]; [by apply Hsub|by apply Hpre]. }
    intros j Hj. unfold content. cbn. rewrite !lookup_insert_ne by lia. by rewrite I1.
Qed.

(** ** Properties *)

(** [C12] A written table answers like the map it was written from: index lookup
    followed by the data-file scan returns, for every key, the stored value of
    the map (offset as [u32], time in milliseconds) or nothing. *)
Theorem sst_write_then_lookup t f (w : W) k :
  t_filter t = Some f -> table_ready w t -> storable (the_map w (t_entries t)) ->
  exists t' w', table_write_to_file t w = (Ok t', w') /\
    sst_lookup t' k w' = (Ok (found <$> sm_get k (the_map w (t_entries t))), w').
Proof.
  intros Hf Hr Hst. destruct (table_write_holds t f w Hf Hr Hst) as (fs' & E & Hh & _).
  do 2 eexists. split; [exact E|]. by apply sst_lookup_holds.
Qed.

(** [C14] Loading a written table's data file rebuilds the whole map, key for key,
    and the table's recorded size is the number of bytes of the data file. *)
Theorem sst_write_then_load t f (w : W) :
  t_filter t = Some f -> table_ready w t -> storable (the_map w (t_entries t)) ->
  exists t1 w1 t2 w2, table_write_to_file t w = (Ok t1, w1) /\
    load_entries_from_file t1 w1 = (Ok t2, w2) /\ t_size t2 = t_size t1 /\
    (forall k, sm_get k (the_map w2 (t_entries t2)) = smv_stored <$> sm_get k (the_map w (t_entries t))).
Proof.
  intros Hf Hr Hst. destruct (table_write_holds t f w Hf Hr Hst) as (fs' & E & Hh & _).
  destruct (load_entries_holds _ _ _ Hh) as (t2 & w2 & l & E2 & Ht2 & Hl & _ & _ & Hm & Hs & _).
  exists (written_table t f (the_map w (t_entries t))), (with_fs w fs'), t2, w2.
  split; [done|]. split; [done|]. split.
  - rewrite Hs. destruct Hh as (_ & bs & _ & He & Hd & _). by rewrite Hd, He.
  - intros k. rewrite Ht2. cbn [t_entries t_with_size t_with_entries].
    by rewrite !sm_get_iter, Hm, kfind_fmap.
Qed.

(** A summary is read back from its bytes. *)
Lemma summary_recover_serialize s :
  smallest_key s <> [] -> biggest_key s <> [] -> zlen (smallest_key s) <= MAX_KEY_SIZE -> zlen (biggest_key s) <= MAX_KEY_SIZE ->
  summary_recover_bytes (summary_serialize s) = Ok (smallest_key s, biggest_key s).
Proof.
  intros Hs Hb Ls Lb. unfold summary_serialize.
  pose proof (zlen_nonneg (smallest_key s)). pose proof (zlen_nonneg (biggest_key s)). pose proof max_buf_size_ge.
  unfold MAX_KEY_SIZE in *. rewrite !as_u32_id by (unfold is_u32; lia). unfold summary_recover_bytes.
  change SIZE_OF_U32 with (Z.of_nat 4). do 2 (rewrite read_field_le by lia; cbn [mbind outcome_bind]).
  rewrite !from_to_le_4 by (unfold is_u32; lia). rewrite read_field_app by (done || lia). cbn [mbind outcome_bind].
  rewrite <- (app_nil_r (biggest_key s)) at 2. rewrite read_field_app by (done || lia). done.
Qed.

(** The summary file written with a table gives back the smallest and the
    biggest key of the map. *)
Theorem sst_summary_roundtrip s d (w : W) :
  s_path s = summary_file_path d -> names (w_fs w) !! summary_file_path d = None -> d ∈ dirs (w_fs w) ->
  smallest_key s <> [] -> biggest_key s <> [] ->
  zlen (smallest_key s) <= MAX_KEY_SIZE -> zlen (biggest_key s) <= MAX_KEY_SIZE ->
  exists w', summary_write_to_file s w = (Ok tt, w') /\
    summary_recover (summary_new d) w' = (Ok s, w').
Proof.
  intros Hp Hn Hd Hs Hb Ls Lb. destruct (summary_write_fresh s d w Hp Hn Hd) as (fs' & E & C).
  exists (with_fs w fs'). split; [done|]. unfold summary_recover. cbn [s_path summary_new w_fs with_fs].
  rewrite (fc_names _ _ _ _ C), lookup_insert_eq, (fc_content _ _ _ _ C), summary_recover_serialize by done. cbn [mbind outcome_bind].
  rewrite <- Hp. by destruct s.
Qed.

(** [C40] A map with a key longer than 4079 bytes is never written: the write fails
    with [BlockIsFull] and both the data and the index file stay empty, although
    keys up to 65536 bytes are accepted by the store. *)
Theorem sst_long_key_rejected t f (w : W) k v :
  t_filter t = Some f -> table_ready w t ->
  sm_get k (the_map w (t_entries t)) = Some v -> 4079 < zlen k ->
  exists w', table_write_to_file t w = (Err BlockIsFull, w') /\
    content (w_fs w') (file (data_file t)) = [] /\ content (w_fs w') (file (index_file t)) = [].
Proof.
  intros Hf [Hdir Hs0 Hf0 Hdi Hii Hne Hd0 Hi0 Hz] Hk Hlen. set (m := the_map w (t_entries t)) in *.
  apply sm_elem in Hk. unfold table_write_to_file. rewrite Hf. run_simpl. fold m.
  assert (exists a b, sm_front m = Some a /\ sm_back m = Some b /\ sm_is_empty m = false) as (a & b & Ea & Eb & Ee).
  { unfold sm_front, sm_back, sm_is_empty. destruct (sm_iter m) as [|p l]; [set_solver|].
    destruct (last (p :: l)) as [q|] eqn:El; [eauto|by apply last_None in El]. }
  rewrite Ee, Ea, Eb. do 2 run_simpl. set (s := mkSummary _ a.1 b.1).
  destruct (summary_write_fresh s (t_dir t) w eq_refl Hs0 Hdir) as (fs1 & E1 & [N1 D1 X1 _ O1]).
  run E1. destruct (bf_write_fresh f (t_dir t) (with_fs w fs1)) as (fs2 & E2 & [N2 D2 X2 _ O2]); cbn [w_fs with_fs] in *.
  { by rewrite N1, lookup_insert_ne by apply summary_filter_ne. }
  { by rewrite D1. }
  cbn [t_dir t_with_summary]. run E2. exists (with_fs (with_fs w fs1) fs2). unfold write_entries_to_files.
  rewrite fill_blocks_long_key; [|apply block_new_inv|].
  - split; [done|]. cbn [w_fs with_fs]. by rewrite !O2, !O1 by lia.
  - apply Exists_exists. exists (entry_of (k, v)). split; [by apply list_elem_of_fmap_2|]. simpl.
    unfold BLOCK_SIZE. lia.
Qed.

(** [write_to_file] refuses a table without filter and an empty table before
    it touches any file. *)
Theorem sst_write_guards t (w : W) :
  (t_filter t = None -> table_write_to_file t w = (Err FilterNotProvidedForFlush, w)) /\
  (forall f, t_filter t = Some f -> (forall k, sm_get k (the_map w (t_entries t)) = None) ->
    table_write_to_file t w = (Err EntriesCannotBeEmptyDuringFlush, w)).
Proof.
  unfold table_write_to_file. split; [by intros ->|]. intros f -> He. run_simpl.
  by apply sm_is_empty_spec in He as ->.
Qed.
End sstable.

(** ** Witnesses *)
Section sstable_witnesses.
#[local] Existing Instance demo_platform.
#[local] Existing Instance demo_env.
#[local] Existing Instance sorted_list_skipmap.

Definition demo_table_map (k : list byte) : slist SkipMapValue :=
  sm_insert [x61] (smv_new 5 1700000000000000000 false)
    (sm_insert k (smv_new 22 1700000000001234567 true) sm_new).

(** A world in which the directory ["t"] holds the two empty files of a table. *)
Definition demo_table_world (k : list byte) : World slist :=
  mkWorld (mkFS {[ 0%nat := []; 1%nat := [] ]}
             {[ ["t"; "data.db"]%string := 0%nat; ["t"; "index.db"]%string := 1%nat ]}
             {[ []; ["t"%string] ]} 2)
    {[ 0%nat := demo_table_map k ]} {[ 1%nat := replicate 64 false ]} 2 0.

Definition demo_table : Table :=
  mkTable ["t"%string] 0 30 1700000000000000000 (mkFileNode ["t"; "data.db"]%string 0 FData)
    (mkFileNode ["t"; "index.db"]%string 1 FIndex) 0 (Some (mkBF None 3 2 1 4547007122018943789 None)) None.

Lemma demo_ready k : table_ready (demo_table_world k) demo_table.
Proof. split; first [by vm_compute | cbn; lia | done]. Qed.

Lemma demo_storable : storable (the_map (demo_table_world [x62]) 0).
Proof.
  split.
  - by vm_compute.
  - repeat constructor; vm_compute; done.
  - by vm_compute.
Qed.

Lemma sst_write_then_lookup_witness :
  exists t' w', table_write_to_file demo_table (demo_table_world [x62]) = (Ok t', w') /\
    sst_lookup t' [x62] w' = (Ok (Some (22, 1700000000001000000, true)), w').
Proof.
  exact (sst_write_then_lookup demo_table _ (demo_table_world [x62]) [x62] eq_refl (demo_ready [x62]) demo_storable).
Defined.

Lemma sst_write_then_load_witness :
  exists t1 w1 t2 w2, table_write_to_file demo_table (demo_table_world [x62]) = (Ok t1, w1) /\
    load_entries_from_file t1 w1 = (Ok t2, w2) /\ t_size t2 = t_size t1 /\
    (forall k, sm_get k (the_map w2 (t_entries t2)) =
               smv_stored <$> sm_get k (the_map (demo_table_world [x62]) (t_entries demo_table))).
Proof.
  exact (sst_write_then_load demo_table _ (demo_table_world [x62]) eq_refl (demo_ready [x62]) demo_storable).
Defined.

Lemma sst_summary_roundtrip_witness :
  let s := mkSummary ["t"; "summary.db"]%string [x61] [x62; x63] in
  exists w', summary_write_to_file s (demo_table_world [x62]) = (Ok tt, w') /\
    summary_recover (summary_new ["t"%string]) w' = (Ok s, w').
Proof.
  apply (sst_summary_roundtrip (mkSummary ["t"; "summary.db"]%string [x61] [x62; x63]) ["t"%string]
    (demo_table_world [x62])); first [done | by vm_compute].
Defined.

Lemma sst_long_key_rejected_witness :
  exists w', table_write_to_file demo_table (demo_table_world (replicate 4080 x62)) = (Err BlockIsFull, w') /\
    content (w_fs w') 0 = [] /\ content (w_fs w') 1 = [].
Proof.
  apply (sst_long_key_rejected demo_table (mkBF None 3 2 1 4547007122018943789 None)
    (demo_table_world (replicate 4080 x62)) (replicate 4080 x62) (smv_new 22 1700000000001234567 true)).
  - reflexivity.
  - apply demo_ready.
  - vm_compute. reflexivity.
  - by vm_compute.
Defined.

Lemma sst_write_guards_witness :
  table_write_to_file (t_with_filter demo_table None) (demo_table_world [x62])
    = (Err FilterNotProvidedForFlush, demo_table_world [x62]).
Proof.
  exact (proj1 (sst_write_guards (t_with_filter demo_table None) (demo_table_world [x62])) eq_refl).
Defined.
End sstable_witnesses.
