(* ===== verification/Meta.v ===== *)
(** * Store metadata ([src/meta/meta_manager.rs], [MetaFileNode] of [src/fs/mod.rs]) *)

From stdpp Require Import prelude gmap strings list.
From Stdlib Require Import Strings.Byte ZArith Lia.
From S2P Require Import Prelude Consts SkipMap FileIO Types World.
Open Scope Z_scope.

Record Meta := mkMeta {
  file_handle : FileNode;
  v_log_tail : Z;
  v_log_head : Z;
  m_created_at : DateTime;
  last_modified : DateTime;
}.

(** [Meta::set_head], [Meta::set_tail] *)
Definition meta_set_head (m : Meta) (head : Z) : Meta :=
  mkMeta (file_handle m) (v_log_tail m) head (m_created_at m) (last_modified m).
Definition meta_set_tail (m : Meta) (tail : Z) : Meta :=
  mkMeta (file_handle m) tail (v_log_head m) (m_created_at m) (last_modified m).

(** [Meta::serialize] *)
Definition meta_serialize (m : Meta) : list byte :=
  to_le 4 (as_u32 (v_log_head m)) ++ to_le 4 (as_u32 (v_log_tail m)) ++
  to_le 8 (as_u64 (timestamp_millis (m_created_at m))) ++ to_le 8 (as_u64 (timestamp_millis (last_modified m))).

Section meta.
Context `{Env} {M : Type -> Type} `{SkipMap M}.
Abbreviation W := (World M).

(** [Meta::new] *)
Definition meta_new (dir : list string) : io W Error Meta :=
  created_at ← now;
  last_modified ← now;
  _ ← on_fs (create_dir_all dir);
  n ← io_unwrap (on_fs (file_new (dir ++ ["meta.bin"%string]) FMeta));
  mret (mkMeta n 0 0 created_at last_modified).

(** [Meta::write] *)
Definition meta_write (m : Meta) : io W Error unit :=
  _ ← on_fs (file_clear (file_handle m));
  on_fs (write_all (file_handle m) (meta_serialize m)).

(** [Meta::update_last_modified] *)
Definition update_last_modified (m : Meta) : io W Error Meta :=
  t ← now; mret (mkMeta (file_handle m) (v_log_tail m) (v_log_head m) (m_created_at m) t).

(** [MetaFileNode::recover], on the bytes of the file *)
Definition meta_recover_bytes (bs : list byte) : outcome Error (Z * Z * DateTime * DateTime) :=
  '(head_bytes, _, rest) ← read_field SIZE_OF_U32 bs;
  '(tail_bytes, _, rest) ← read_field SIZE_OF_U32 rest;
  '(creation_bytes, _, rest) ← read_field SIZE_OF_U64 rest;
  '(modified_bytes, _, rest) ← read_field SIZE_OF_U64 rest;
  created_at ← milliseconds_to_datetime (from_le creation_bytes);
  last_modified ← milliseconds_to_datetime (from_le modified_bytes);
  Ok (from_le head_bytes, from_le tail_bytes, created_at, last_modified).

(** [Meta::recover] *)
Definition meta_recover (m : Meta) : io W Error Meta := fun w =>
  let p := file_path (file_handle m) in
  match names (w_fs w) !! p with
  | None => (Err (FilterFileOpen p), w)
  | Some i =>
      ('(head, tail, created_at, last_modified) ← meta_recover_bytes (content (w_fs w) i);
       Ok (mkMeta (file_handle m) tail head created_at last_modified), w)
  end.

Lemma meta_bytes_serialize m :
  valid_time (m_created_at m) -> valid_time (last_modified m) ->
  meta_recover_bytes (meta_serialize m) = Ok (as_u32 (v_log_head m), as_u32 (v_log_tail m), trunc_ms (m_created_at m), trunc_ms (last_modified m)).
Proof.
  intros Hc Hl. unfold meta_serialize. pose proof (valid_time_u64 _ Hc). pose proof (valid_time_u64 _ Hl).
  rewrite !as_u64_id by done. unfold meta_recover_bytes.
  rewrite <- (app_nil_r (to_le 8 (timestamp_millis (last_modified m)))).
  change SIZE_OF_U32 with (Z.of_nat 4). change SIZE_OF_U64 with (Z.of_nat 8).
  do 4 (rewrite read_field_le by lia; cbn [mbind outcome_bind]).
  rewrite !from_to_le_4, !from_to_le_8 by (done || apply as_u32_range).
  by rewrite !milliseconds_to_datetime_millis by done.
Qed.

Lemma meta_recover_serialize m m0 i (w : W) :
  names (w_fs w) !! file_path (file_handle m0) = Some i -> content (w_fs w) i = meta_serialize m ->
  valid_time (m_created_at m) -> valid_time (last_modified m) ->
  meta_recover m0 w =
    (Ok (mkMeta (file_handle m0) (as_u32 (v_log_tail m)) (as_u32 (v_log_head m))
           (trunc_ms (m_created_at m)) (trunc_ms (last_modified m))), w).
Proof.
  intros Hn Hs Hc Hl. unfold meta_recover. rewrite Hn, Hs. by rewrite meta_bytes_serialize.
Qed.

(** What [Meta::write] stores, [Meta::recover] reads back, whatever the file
    held before: the two log offsets modulo [2^32] and the times in
    milliseconds. *)
Theorem meta_write_recover m m0 (w : W) :
  names (w_fs w) !! file_path (file_handle m) = Some (file (file_handle m)) ->
  file_handle m0 = file_handle m -> valid_time (m_created_at m) -> valid_time (last_modified m) ->
  exists w', meta_write m w = (Ok tt, w') /\
    meta_recover m0 w' =
      (Ok (mkMeta (file_handle m) (as_u32 (v_log_tail m)) (as_u32 (v_log_head m))
             (trunc_ms (m_created_at m)) (trunc_ms (last_modified m))), w').
Proof.
  intros Hn H0' Hc Hl. eexists. split; [reflexivity|]. erewrite (meta_recover_serialize m m0 (file (file_handle m))); [by rewrite H0'|..|done|done].
  - by rewrite H0'.
  - unfold on_fs, write_all. cbn [w_fs with_fs]. by rewrite !content_set_inode, !decide_True by done.
Qed.
End meta.

Section meta_witness.
#[local] Existing Instance demo_platform.
#[local] Existing Instance demo_env.
#[local] Existing Instance sorted_list_skipmap.

Definition demo_meta : Meta :=
  mkMeta (mkFileNode ["meta.bin"%string] 0 FMeta) 12 4294967300 1700000000000000000 1700000000123456789.
Definition demo_meta_world : World slist :=
  mkWorld (mkFS {[ 0%nat := [x00] ]} {[ ["meta.bin"%string] := 0%nat ]} {[ [] ]} 1) ∅ ∅ 0 0.

Lemma meta_write_recover_witness :
  exists w', meta_write demo_meta demo_meta_world = (Ok tt, w') /\
    meta_recover demo_meta w' =
      (Ok (mkMeta (file_handle demo_meta) 12 4 1700000000000000000 1700000000123000000), w').
Proof.
  apply (meta_write_recover demo_meta demo_meta demo_meta_world); [done|done|..];
    repeat split; vm_compute; done.
Defined.
End meta_witness.
