(* ===== verification/MemTable.v ===== *)
(** * Memtables ([src/memtable/mem.rs])

    A memtable's entries are an [Arc]-shared skip map: clones of a memtable and
    the SSTable it is flushed to hold the same location. *)

From stdpp Require Import prelude gmap strings list.
From Stdlib Require Import Strings.Byte ZArith Lia.
From S2P Require Import Prelude Consts SkipMap FileIO Types World Bloom.
Open Scope Z_scope.

Record MemConfig := mkMemConfig {
  false_pos_rate : Z;
  mt_capacity : Z;
  size_unit : SizeUnit;
}.

Record MemTable := mkMem {
  mt_entries : nat;
  bloom_filter : BloomFilter;
  mt_size : Z;
  mt_created_at : DateTime;
  read_only : bool;
  most_recent_entry : Entry;
  mt_config : MemConfig;
}.

(** The bytes an entry counts for. *)
Definition mem_entry_size (key_len : Z) : Z := key_len + SIZE_OF_U32 + SIZE_OF_U64 + SIZE_OF_U8.

(** [MemTable::is_full] *)
Definition is_full (t : MemTable) (key_len : Z) : bool :=
  bool_decide (mt_size t + key_len + SIZE_OF_U32 + SIZE_OF_U64 + SIZE_OF_U8 >= mt_capacity (mt_config t)).

(** [MemTable::mark_readonly] *)
Definition mark_readonly (t : MemTable) : MemTable :=
  mkMem (mt_entries t) (bloom_filter t) (mt_size t) (mt_created_at t) true (most_recent_entry t) (mt_config t).

(** [MemTable::get_most_recent_offset] *)
Definition get_most_recent_offset (t : MemTable) : Z := e_val_offset (most_recent_entry t).

(** [MemTable::is_entry_within_range] *)
Definition is_entry_within_range (k start end_ : list byte) : bool :=
  match key_cmp k start with Gt => true | _ => false end
  || match key_cmp k start with Eq => true | _ => false end
  || match key_cmp k end_ with Lt => true | _ => false end
  || match key_cmp k end_ with Eq => true | _ => false end.

Section memtable.
Context `{Env} {M : Type -> Type} `{SkipMap M}.
Abbreviation W := (World M).

Definition max_no_of_entries (c : MemConfig) : Z := as_bytes (size_unit c) (mt_capacity c) / 100.

(** [MemTable::with_specified_capacity_and_rate], [MemTable::new] *)
Definition with_specified_capacity_and_rate (unit : SizeUnit) (capacity rate : Z) : io W Error MemTable :=
  if negb (f64_ge0 rate) then io_lift Panic else
  if decide (capacity > 0) then
    let config := mkMemConfig rate capacity unit in
    bf ← bf_new rate (max_no_of_entries config);
    created ← now;
    l ← alloc_map sm_new;
    t ← now;
    mret (mkMem l bf 0 created false (entry_new [] 0 t false) config)
  else io_lift Panic.
Definition mem_new (capacity rate : Z) : io W Error MemTable :=
  with_specified_capacity_and_rate Bytes capacity rate.

(** [MemTable::insert] *)
Definition mem_insert (t : MemTable) (e : Entry) : io W Error MemTable :=
  let entry_length_byte := mem_entry_size (zlen (e_key e)) in
  present ← bf_contains (bloom_filter t) (e_key e);
  bf ← (if negb present then bf_set (bloom_filter t) (e_key e) else mret (bloom_filter t));
  m ← read_map (mt_entries t);
  _ ← write_map (mt_entries t) (sm_insert (e_key e) (value_of e) m);
  let recent := if decide (e_val_offset e > e_val_offset (most_recent_entry t)) then e else most_recent_entry t in
  mret (mkMem (mt_entries t) bf (mt_size t + entry_length_byte) (mt_created_at t) (read_only t) recent (mt_config t)).

(** [MemTable::get] *)
Definition mem_get (t : MemTable) (k : list byte) : io W Error (option SkipMapValue) :=
  present ← bf_contains (bloom_filter t) k;
  if (present : bool) then m ← read_map (mt_entries t); mret (sm_get k m) else mret None.

(** [MemTable::update] *)
Definition mem_update (t : MemTable) (e : Entry) : io W Error unit :=
  present ← bf_contains (bloom_filter t) (e_key e);
  if negb present then io_err KeyNotFoundInMemTable else
  m ← read_map (mt_entries t);
  write_map (mt_entries t) (sm_insert (e_key e) (value_of e) m).

(** [MemTable::delete] *)
Definition mem_delete (t : MemTable) (e : Entry) : io W Error unit :=
  present ← bf_contains (bloom_filter t) (e_key e);
  if negb present then io_err KeyNotFoundInMemTable else
  t_now ← now;
  m ← read_map (mt_entries t);
  write_map (mt_entries t) (sm_insert (e_key e) (smv_new (e_val_offset e) t_now (e_is_tombstone e)) m).

(** [MemTable::clear]: empties the shared skip map and takes a fresh filter *)
Definition mem_clear (t : MemTable) : io W Error MemTable :=
  _ ← write_map (mt_entries t) sm_new;
  bf ← bf_new (false_pos_rate (mt_config t)) (max_no_of_entries (mt_config t));
  mret (mkMem (mt_entries t) bf 0 (mt_created_at t) (read_only t) (most_recent_entry t) (mt_config t)).

(** ** Invariant: the filter can be probed and admits every key of the map. *)
Record mem_inv (w : W) (t : MemTable) : Prop := {
  mi_probe : probing_ok (no_of_hash_func (bloom_filter t)) (the_bits w (bit_vec (bloom_filter t)));
  mi_admits k : is_Some (sm_get k (the_map w (mt_entries t))) ->
    admits (no_of_hash_func (bloom_filter t)) (the_bits w (bit_vec (bloom_filter t))) k;
}.

(** The abstract contents. *)
Definition mem_lookup (w : W) (t : MemTable) (k : list byte) : option SkipMapValue :=
  sm_get k (the_map w (mt_entries t)).

(** Under the invariant the filter never hides an entry. *)
Lemma mem_get_lookup w t k : mem_inv w t -> mem_get t k w = (Ok (mem_lookup w t k), w).
Proof.
  intros [Hp Ha]. destruct (bf_contains_spec (bloom_filter t) k w Hp) as ([|] & E & Hb); unfold mem_get; run E.
  - done.
  - unfold mem_lookup. destruct (sm_get k (the_map w (mt_entries t))) as [v|] eqn:G; [|done].
    exfalso. apply diff_false_true, Hb, Ha. by eexists.
Qed.

(** Making sure a filter admits a key. *)
Lemma ensure_admits f k (w : W) :
  let l := bit_vec f in let n := no_of_hash_func f in
  probing_ok n (the_bits w l) ->
  exists f' bits' w', (present ← bf_contains f k; if negb present then bf_set f k else mret f) w = (Ok f', w') /\
    w_maps w' = w_maps w /\ w_fs w' = w_fs w /\ w_next w' = w_next w /\ w_ticks w' = w_ticks w /\
    (forall l', l' <> l -> the_bits w' l' = the_bits w l') /\ the_bits w' l = bits' /\
    bit_vec f' = l /\ no_of_hash_func f' = n /\ length bits' = length (the_bits w l) /\ admits n bits' k /\
    (forall n' k', admits n' (the_bits w l) k' -> admits n' bits' k') /\ false_positive_rate f' = false_positive_rate f /\
    (no_of_elements f' = no_of_elements f \/ no_of_elements f' = as_u32 (no_of_elements f + 1)) /\
    (0 < n -> Forall (eq false) (the_bits w l) -> no_of_elements f' = as_u32 (no_of_elements f + 1)).
Proof.
  intros l n Hp. destruct (bf_contains_spec f k w Hp) as ([|] & E & Hb).
  - exists f, (the_bits w l), w. run E. cbn [negb]. repeat (split; [done|]). split; [by apply Hb|]. split; [done|]. split; [done|].
    split; [by left|]. intros Hn Hz. destruct (zero_rejects n (the_bits w l) k Hn Hz). by apply Hb.
  - destruct (bf_set_spec f k w Hp) as (f' & bits' & E' & -> & Hl & Hk & Hm).
    eexists _, bits', _. run E. cbn [negb]. split; [exact E'|]. do 4 (split; [done|]).
    split; [intros l' Hl'; by rewrite the_bits_put, decide_False|].
    split; [by rewrite the_bits_put, decide_True|]. repeat (split; [done|]). by split; [right|].
Qed.

(** Filters only gain keys. *)
Definition bits_grow_at (w w' : W) (l : nat) : Prop :=
  length (the_bits w' l) = length (the_bits w l) /\ forall n k, admits n (the_bits w l) k -> admits n (the_bits w' l) k.
Definition bits_grow (w w' : W) : Prop := forall l, bits_grow_at w w' l.

(** What an insertion does: the entry is added, and nothing outside the
    memtable's map and filter changes. *)
Record mem_inserted (w : W) (t : MemTable) (e : Entry) (t' : MemTable) (w' : W) : Prop := {
  mx_inv : mem_inv w' t';
  mx_entries : mt_entries t' = mt_entries t;
  mx_filter : bit_vec (bloom_filter t') = bit_vec (bloom_filter t);
  mx_size : mt_size t' = mt_size t + mem_entry_size (zlen (e_key e));
  mx_config : mt_config t' = mt_config t;
  mx_recent : get_most_recent_offset t' = Z.max (get_most_recent_offset t) (e_val_offset e);
  mx_lookup k : mem_lookup w' t' k = if decide (k = e_key e) then Some (value_of e) else mem_lookup w t k;
  mx_fs : w_fs w' = w_fs w;
  mx_next : w_next w' = w_next w;
  mx_ticks : w_ticks w' = w_ticks w;
  mx_maps l : l <> mt_entries t -> the_map w' l = the_map w l;
  mx_bits l : l <> bit_vec (bloom_filter t) -> the_bits w' l = the_bits w l;
  mx_hash : no_of_hash_func (bloom_filter t') = no_of_hash_func (bloom_filter t);
  mx_grow : bits_grow w w';
  mx_rate : false_positive_rate (bloom_filter t') = false_positive_rate (bloom_filter t);
  mx_count : no_of_elements (bloom_filter t') = no_of_elements (bloom_filter t) \/
    no_of_elements (bloom_filter t') = as_u32 (no_of_elements (bloom_filter t) + 1);
  mx_first : 0 < no_of_hash_func (bloom_filter t) -> Forall (eq false) (the_bits w (bit_vec (bloom_filter t))) ->
    no_of_elements (bloom_filter t') = as_u32 (no_of_elements (bloom_filter t) + 1);
}.

Lemma mem_insert_run w t e :
  mem_inv w t -> exists t' w', mem_insert t e w = (Ok t', w') /\ mem_inserted w t e t' w'.
Proof.
  intros [Hp Ha]. destruct (ensure_admits (bloom_filter t) (e_key e) w Hp)
    as (f' & bits' & w1 & E & Hm & Hf & Hx & Ht & Hbo & Hb & Hl & Hn & Hlen & Hk & Hmono & Hrate & Hcount & Hfirst).
  do 2 eexists. split.
  { unfold mem_insert. revert E. unfold mbind, io_bind.
    destruct (bf_contains (bloom_filter t) (e_key e) w) as [[p| |] w0]; try done. intros ->. reflexivity. }
  assert (forall k, sm_get k (the_map (put_map w1 (mt_entries t) (sm_insert (e_key e) (value_of e) (the_map w1 (mt_entries t)))) (mt_entries t))
    = if decide (k = e_key e) then Some (value_of e) else mem_lookup w t k) as Hget.
  { intros k. rewrite the_map_put, decide_True, sm_get_insert by done. unfold mem_lookup, the_map. by rewrite Hm. }
  split; try done.
  - split; cbn [bloom_filter mt_entries]; rewrite Hl, Hn; change (the_bits (put_map w1 _ _)) with (the_bits w1); rewrite Hb.
    + unfold probing_ok, zlen in *. by rewrite Hlen.
    + intros k. rewrite Hget. case_decide; [by subst|]. intros Hs. by apply Hmono, Ha.
  - unfold get_most_recent_offset. cbn [most_recent_entry]. case_decide; lia.
  - intros l Hne. rewrite the_map_put, decide_False by done. unfold the_map. by rewrite Hm.
  - intros l. unfold bits_grow_at. change (the_bits (put_map w1 _ _) l) with (the_bits w1 l). destruct (decide (l = bit_vec (bloom_filter t))) as [->|Hne]; [|by rewrite Hbo].
    rewrite Hb. by split.
Qed.

Lemma mem_update_run w t k v :
  mem_inv w t -> is_Some (mem_lookup w t k) ->
  exists w', (m ← read_map (mt_entries t); write_map (mt_entries t) (sm_insert k v m)) w = (Ok tt, w') /\
    w' = put_map w (mt_entries t) (sm_insert k v (the_map w (mt_entries t))) /\ mem_inv w' t /\
    (forall k', mem_lookup w' t k' = if decide (k' = k) then Some v else mem_lookup w t k').
Proof.
  intros [Hp Ha] Hk. eexists. split; [reflexivity|]. split; [done|].
  assert (forall k', sm_get k' (the_map (put_map w (mt_entries t) (sm_insert k v (the_map w (mt_entries t)))) (mt_entries t))
    = if decide (k' = k) then Some v else mem_lookup w t k') as Hget.
  { intros k'. by rewrite the_map_put, decide_True, sm_get_insert by done. }
  split; [|done]. split; [done|]. intros k'. rewrite Hget. case_decide; [subst; intros _; by apply Ha|apply Ha].
Qed.

(** What creating a memtable does: an empty memtable on fresh locations. *)
Record mem_created (w : W) (c : MemConfig) (t : MemTable) (w' : W) : Prop := {
  mc_inv : mem_inv w' t;
  mc_lookup k : mem_lookup w' t k = None;
  mc_size : mt_size t = 0;
  mc_config : mt_config t = c;
  mc_read_only : read_only t = false;
  mc_recent : get_most_recent_offset t = 0;
  mc_entries : (w_next w <= mt_entries t < w_next w')%nat;
  mc_filter : (w_next w <= bit_vec (bloom_filter t) < w_next w')%nat;
  mc_fs : w_fs w' = w_fs w;
  mc_ticks : w_ticks w' = S (S (w_ticks w));
  mc_maps l : (l < w_next w)%nat -> the_map w' l = the_map w l;
  mc_bits l : (l < w_next w)%nat -> the_bits w' l = the_bits w l;
  mc_zero : Forall (eq false) (the_bits w' (bit_vec (bloom_filter t)));
  mc_count : no_of_elements (bloom_filter t) = 0;
  mc_rate : false_positive_rate (bloom_filter t) = false_pos_rate c;
  mc_hash : no_of_hash_func (bloom_filter t) = no_of_bits (max_no_of_entries c) (false_pos_rate c) / max_no_of_entries c;
}.

(** The hash functions of a new filter *)
Definition hashes_of (c : MemConfig) : Z := no_of_bits (max_no_of_entries c) (false_pos_rate c) / max_no_of_entries c.

(** The filter of a memtable that is not empty counts what was inserted. *)
Record counted (t : MemTable) : Prop := {
  ct_elements : 1 <= no_of_elements (bloom_filter t) <= mt_size t;
  ct_rate : false_positive_rate (bloom_filter t) = false_pos_rate (mt_config t);
  ct_hash : no_of_hash_func (bloom_filter t) = hashes_of (mt_config t);
}.

Lemma mem_entry_size_pos n : 0 <= n -> 0 < mem_entry_size n.
Proof. unfold mem_entry_size, SIZE_OF_U32, SIZE_OF_U64, SIZE_OF_U8. lia. Qed.

Lemma counted_insert w t e t' w' : mem_inserted w t e t' w' -> counted t -> mt_size t + 1 < 2 ^ 32 -> counted t'.
Proof.
  intros X [C1 C2 C3] Hs. pose proof (mem_entry_size_pos (zlen (e_key e)) (zlen_nonneg _)).
  split; rewrite ?(mx_rate _ _ _ _ _ X), ?(mx_hash _ _ _ _ _ X), ?(mx_config _ _ _ _ _ X); try done. rewrite (mx_size _ _ _ _ _ X).
  destruct (mx_count _ _ _ _ _ X) as [-> | ->]; [lia|]. rewrite as_u32_id by (unfold is_u32; lia). lia.
Qed.

(** The filter of a memtable nothing was inserted in *)
Record blank (w : W) (t : MemTable) : Prop := {
  bl_bits : Forall (eq false) (the_bits w (bit_vec (bloom_filter t)));
  bl_count : no_of_elements (bloom_filter t) = 0;
  bl_rate : false_positive_rate (bloom_filter t) = false_pos_rate (mt_config t);
  bl_hash : no_of_hash_func (bloom_filter t) = hashes_of (mt_config t);
}.

Lemma created_blank w c t w' : mem_created w c t w' -> blank w' t.
Proof. intros C. split; try apply C; rewrite (mc_config _ _ _ _ C); apply C. Qed.

Lemma blank_frame w w' t : the_bits w' (bit_vec (bloom_filter t)) = the_bits w (bit_vec (bloom_filter t)) -> blank w t -> blank w' t.
Proof. intros E []. split; by rewrite ?E. Qed.

Lemma counted_first w t e t' w' : blank w t -> mem_inserted w t e t' w' -> 0 <= mt_size t -> 0 < hashes_of (mt_config t) -> counted t'.
Proof.
  intros [B1 B2 B3 B4] X Hs Hh. pose proof (mem_entry_size_pos (zlen (e_key e)) (zlen_nonneg _)).
  split; rewrite ?(mx_rate _ _ _ _ _ X), ?(mx_hash _ _ _ _ _ X), ?(mx_config _ _ _ _ _ X); try done.
  rewrite (mx_first _ _ _ _ _ X), B2, (mx_size _ _ _ _ _ X) by (done || by rewrite B4). change (as_u32 (0 + 1)) with 1. lia.
Qed.

Lemma mem_new_run c w :
  f64_ge0 (false_pos_rate c) = true -> 0 < mt_capacity c -> 0 < max_no_of_entries c < 2 ^ 32 ->
  exists t w', with_specified_capacity_and_rate (size_unit c) (mt_capacity c) (false_pos_rate c) w = (Ok t, w') /\
    mem_created w c t w'.
Proof.
  destruct c as [rate capacity unit]. cbn [false_pos_rate mt_capacity size_unit]. intros Hr Hc Hd.
  unfold with_specified_capacity_and_rate. rewrite Hr. cbn [negb]. rewrite decide_True by lia.
  unfold bf_new. rewrite Hr. cbn [negb]. rewrite decide_True by lia. set (e := max_no_of_entries _) in *.
  set (n := no_of_bits _ rate). rewrite as_u32_id by (unfold is_u32; lia).
  do 2 eexists. split; [reflexivity|]. split; try done; try (cbn; lia).
  - split; cbn [bloom_filter bit_vec no_of_hash_func mt_entries].
    + unfold the_bits. cbn. rewrite lookup_insert_eq. cbn. unfold calculate_no_of_hash_function, probing_ok.
      rewrite decide_False by lia. pose proof (no_of_bits_u32 e rate) as [Hb _]. fold n in Hb.
      destruct (decide (n = 0)) as [->|]; [left; by rewrite Z.div_0_l by lia|].
      right. unfold zlen. rewrite length_replicate. lia.
    + intros k. unfold the_map. cbn. rewrite lookup_insert_eq. cbn. rewrite sm_get_new. by intros [].
  - intros k. unfold mem_lookup, the_map. cbn. rewrite lookup_insert_eq. cbn. by rewrite sm_get_new.
  - intros l Hl. unfold the_map. cbn. rewrite lookup_insert_ne by lia. done.
  - intros l Hl. unfold the_bits. cbn. rewrite lookup_insert_ne by lia. done.
  - unfold the_bits. cbn. rewrite lookup_insert_eq. by apply Forall_replicate.
  - cbn. unfold calculate_no_of_hash_function. by rewrite decide_False by lia.
Qed.

(** ** Properties *)

(** [C17] [MemTable::insert] then [MemTable::get]: the inserted key returns the new
    value and every other key what it returned before; the filter invariant is
    kept, the size grows by the entry's bytes and the most recent offset is the
    maximum of those inserted. *)
Theorem mem_insert_get w t e :
  mem_inv w t ->
  exists t' w', mem_insert t e w = (Ok t', w') /\ mem_inv w' t' /\
    (forall k, mem_get t' k w' =
       (Ok (if decide (k = e_key e) then Some (value_of e) else mem_lookup w t k), w')) /\
    mt_size t' = mt_size t + mem_entry_size (zlen (e_key e)) /\
    get_most_recent_offset t' = Z.max (get_most_recent_offset t) (e_val_offset e).
Proof.
  intros Hi. destruct (mem_insert_run w t e Hi) as (t' & w' & E & []).
  exists t', w'. split; [done|]. split; [done|]. split; [|done]. intros k. by rewrite mem_get_lookup, mx_lookup0.
Qed.

(** [MemTable::update] and [MemTable::delete] overwrite a present key (the
    delete stamps the current time) and keep every other key; on a key the
    filter rejects they fail with [KeyNotFoundInMemTable] and change nothing. *)
Theorem mem_update_delete w t e :
  mem_inv w t ->
  (is_Some (mem_lookup w t (e_key e)) ->
   (exists w', mem_update t e w = (Ok tt, w') /\ mem_inv w' t /\
     (forall k, mem_lookup w' t k = if decide (k = e_key e) then Some (value_of e) else mem_lookup w t k)) /\
   (exists w', mem_delete t e w = (Ok tt, w') /\ mem_inv w' t /\
     (forall k, mem_lookup w' t k =
        if decide (k = e_key e) then Some (smv_new (e_val_offset e) (clock (w_ticks w)) (e_is_tombstone e))
        else mem_lookup w t k))) /\
  (bf_contains (bloom_filter t) (e_key e) w = (Ok false, w) ->
   mem_update t e w = (Err KeyNotFoundInMemTable, w) /\ mem_delete t e w = (Err KeyNotFoundInMemTable, w)).
Proof.
  intros Hi. split.
  - intros Hk. assert (bf_contains (bloom_filter t) (e_key e) w = (Ok true, w)) as E.
    { apply bf_contains_true; [apply Hi|]. by apply Hi. }
    split.
    + destruct (mem_update_run w t (e_key e) (value_of e) Hi Hk) as (w' & E' & _ & Hi' & Hg).
      exists w'. unfold mem_update. run E. split; [exact E'|done].
    + assert (mem_inv (tick w) t) as Hi2 by by destruct Hi.
      destruct (mem_update_run (tick w) t (e_key e)
        (smv_new (e_val_offset e) (clock (w_ticks w)) (e_is_tombstone e)) Hi2 Hk) as (w' & E' & _ & Hi' & Hg).
      exists w'. unfold mem_delete. run E. split; [exact E'|done].
  - intros E. unfold mem_update, mem_delete. split; by run E.
Qed.

(** [MemTable::new] returns an empty memtable satisfying the invariant when
    the capacity is at least 100 bytes, and panics below that (the filter would
    be sized for zero elements). *)
Theorem mem_new_spec capacity rate w :
  f64_ge0 rate = true -> 0 < capacity < 2 ^ 32 ->
  (capacity < 100 -> mem_new capacity rate w = (Panic, w)) /\
  (100 <= capacity -> exists t w', mem_new capacity rate w = (Ok t, w') /\ mem_inv w' t /\
     mt_size t = 0 /\ read_only t = false /\ (forall k, mem_get t k w' = (Ok None, w'))).
Proof.
  intros Hr Hc. unfold mem_new. split; intros Hc'.
  - unfold with_specified_capacity_and_rate, bf_new, max_no_of_entries. rewrite Hr. cbn [negb].
    rewrite decide_True by lia. cbn [size_unit mt_capacity as_bytes]. by rewrite (Z.div_small capacity 100) by lia.
  - destruct (mem_new_run (mkMemConfig rate capacity Bytes) w Hr) as (t & w' & E & []); [cbn; lia| |].
    { unfold max_no_of_entries. cbn [size_unit mt_capacity as_bytes]. split; [apply Z.div_str_pos; lia|apply Z.div_lt_upper_bound; lia]. }
    exists t, w'. split; [exact E|]. repeat (split; [done|]). intros k. by rewrite mem_get_lookup, mc_lookup0.
Qed.

(** [MemTable::clear] empties the skip map it shares: every memtable with the
    same entries (a clone made earlier) loses its contents as well. *)
Theorem mem_clear_empties_clones w t t2 t' w' k :
  mem_clear t w = (Ok t', w') -> mt_entries t2 = mt_entries t ->
  mem_lookup w' t k = None /\ mem_lookup w' t' k = None /\ mem_lookup w' t2 k = None /\ mt_size t' = 0.
Proof.
  intros E Et. unfold mem_clear in E. apply io_bind_Ok in E as ([] & w1 & [= <-] & E).
  apply io_bind_Ok in E as (bf & w2 & E & [= <- <-]). cbn [mt_size].
  assert (the_map w2 (mt_entries t) = sm_new) as Hm.
  { unfold bf_new in E. destruct (negb (f64_ge0 (false_pos_rate (mt_config t)))); [done|].
    case_decide; [|done]. injection E as _ <-. unfold the_map. cbn. by rewrite lookup_insert_eq. }
  unfold mem_lookup. cbn [mt_entries]. by rewrite Et, Hm, sm_get_new.
Qed.

(** [is_entry_within_range] accepts every key: for a range whose start is not
    above its end, no key is ever reported outside. *)
Theorem is_entry_within_range_vacuous k start end_ :
  key_leb start end_ = true -> is_entry_within_range k start end_ = true.
Proof.
  intros Hle%key_leb_spec. unfold is_entry_within_range.
  destruct (key_cmp k start) eqn:E1; [done| |done].
  assert (key_lt k end_) as E2. { destruct Hle as [Hlt| <-]; [by eapply key_lt_trans|done]. }
  unfold key_lt in E2. by rewrite E2.
Qed.
End memtable.

(** ** Witnesses *)
Section memtable_witnesses.
#[local] Existing Instance demo_platform.
#[local] Existing Instance demo_env.
#[local] Existing Instance sorted_list_skipmap.

Definition demo_mem_world : World slist :=
  mkWorld empty_fs
    {[ 0%nat := sm_insert [x61] (smv_new 3 1700000000000000000 false) sm_new ]}
    {[ 1%nat := replicate 16 true ]} 2 0.
Definition demo_mem : MemTable :=
  mkMem 0 (mkBF None 3 1 1 0 None) 14 1700000000000000000 false (entry_new [x61] 3 1700000000000000000 false)
    (mkMemConfig 0 1000 Bytes).

Lemma demo_mem_inv : mem_inv demo_mem_world demo_mem.
Proof. split; [by right; vm_compute|]. intros k _. apply demo_admits. Qed.

Lemma mem_insert_get_witness :
  exists t' w', mem_insert demo_mem (entry_new [x62] 9 1700000000000000000 false) demo_mem_world = (Ok t', w') /\
    mem_get t' [x61] w' = (Ok (Some (smv_new 3 1700000000000000000 false)), w').
Proof.
  destruct (mem_insert_get demo_mem_world demo_mem (entry_new [x62] 9 1700000000000000000 false) demo_mem_inv)
    as (t' & w' & E & _ & Hg & _). exists t', w'. split; [exact E|]. exact (Hg [x61]).
Defined.

Lemma mem_update_delete_witness :
  exists w', mem_update demo_mem (entry_new [x61] 9 1700000000000000000 false) demo_mem_world = (Ok tt, w') /\
    mem_inv w' demo_mem.
Proof.
  destruct (proj1 (mem_update_delete demo_mem_world demo_mem (entry_new [x61] 9 1700000000000000000 false) demo_mem_inv))
    as [(w' & E & Hi & _) _]; [vm_compute; by eexists|]. by exists w'.
Defined.

Lemma mem_new_spec_witness :
  mem_new 99 0 demo_mem_world = (Panic, demo_mem_world) /\
  exists t w', mem_new 1000 0 demo_mem_world = (Ok t, w') /\ mem_inv w' t.
Proof.
  split.
  - apply (mem_new_spec 99 0 demo_mem_world); [by vm_compute|lia|lia].
  - destruct (proj2 (mem_new_spec 1000 0 demo_mem_world ltac:(by vm_compute) ltac:(lia)) ltac:(lia))
      as (t & w' & E & Hi & _). by exists t, w'.
Defined.

Lemma mem_clear_empties_clones_witness :
  exists t' w', mem_clear demo_mem demo_mem_world = (Ok t', w') /\ mem_lookup w' demo_mem [x61] = None.
Proof.
  destruct (mem_clear demo_mem demo_mem_world) as [[t'| |] w'] eqn:E; [|vm_compute in E; discriminate..].
  exists t', w'. split; [reflexivity|].
  exact (proj1 (mem_clear_empties_clones demo_mem_world demo_mem demo_mem t' w' [x61] E eq_refl)).
Defined.

Lemma is_entry_within_range_vacuous_witness : is_entry_within_range [x7a] [x61] [x62] = true.
Proof. exact (is_entry_within_range_vacuous [x7a] [x61] [x62] eq_refl). Defined.
End memtable_witnesses.
