(* ===== verification/KeyRange.v ===== *)
(** * Key ranges of the SSTables ([src/key_range/range.rs])

    The index from SSTable directories to key ranges, consulted on every read.
    Both hash maps are shared through one handle; the map of ranges whose
    filters were just restored is installed by a task spawned after the search. *)

From stdpp Require Import prelude gmap strings list.
From Stdlib Require Import Strings.Byte ZArith Lia.
From S2P Require Import Prelude Consts SkipMap FileIO Types World Block Index Bloom SSTable.
Open Scope Z_scope.

Record Range := mkRangeEntry {
  r_smallest_key : list byte;
  r_biggest_key : list byte;
  r_sst : Table;
}.

Record KeyRange := mkKeyRange {
  key_ranges : gmap (list string) Range;
  restored_ranges : gmap (list string) Range;
}.

(** [KeyRange::new], [KeyRange::set], [KeyRange::remove] *)
Definition key_range_new : KeyRange := mkKeyRange ∅ ∅.
Definition key_range_set (kr : KeyRange) (sst_dir : list string) (smallest biggest : list byte) (t : Table)
    : KeyRange * bool :=
  (mkKeyRange (<[sst_dir := mkRangeEntry smallest biggest t]> (key_ranges kr)) (restored_ranges kr),
   bool_decide (is_Some (key_ranges kr !! sst_dir))).
Definition key_range_remove (kr : KeyRange) (sst_path : list string) : KeyRange * bool :=
  (mkKeyRange (delete sst_path (key_ranges kr)) (restored_ranges kr),
   bool_decide (is_Some (key_ranges kr !! sst_path))).

(** [searched_key >= range.smallest_key && searched_key <= range.biggest_key] *)
Definition in_range (k : list byte) (r : Range) : bool :=
  key_leb (r_smallest_key r) k && key_leb k (r_biggest_key r).

(** [KeyRange::update_key_range] *)
Definition update_key_range (kr : KeyRange) : KeyRange :=
  if decide (restored_ranges kr = ∅) then kr
  else mkKeyRange (map_fold (fun p r acc => <[p := r]> acc) (key_ranges kr) (restored_ranges kr)) ∅.

(** The task [filter_sstables_by_key_range] spawns: [clone_into] replaces the
    previously restored ranges. *)
Definition install_restored (kr : KeyRange) (restored_range_map : gmap (list string) Range) : KeyRange :=
  if decide (restored_range_map = ∅) then kr else mkKeyRange (key_ranges kr) restored_range_map.

Section key_range.
Context `{Env} {M : Type -> Type} `{SkipMap M}.
Abbreviation W := (World M).

(** [KeyRange::check_restored_key_ranges] *)
Fixpoint check_ranges (k : list byte) (rs : list Range) : io W Error (list Table) :=
  match rs with
  | [] => mret []
  | r :: rs' =>
      hit ← (if in_range k r
             then f ← io_lift (unwrap (t_filter (r_sst r))); bf_contains f k
             else mret false);
      ts ← check_ranges k rs';
      mret (if (hit : bool) then r_sst r :: ts else ts)
  end.
Definition check_restored_key_ranges (kr : KeyRange) (k : list byte) : io W Error (list Table) :=
  check_ranges k (hm_iter (restored_ranges kr)).*2.

(** Restoring the filter of a table found after a crash *)
Definition restore_range (r : Range) (filter : BloomFilter) : io W Error (Range * BloomFilter) :=
  f ← recover_meta filter;
  let f := bf_set_sst_dir f (Some (t_dir (r_sst r))) in
  sst ← load_entries_from_file (r_sst r);
  f ← build_filter_from_entries f (t_entries sst);
  _ ← write_map (t_entries sst) sm_new;
  mret (mkRangeEntry (r_smallest_key r) (r_biggest_key r) (t_with_filter sst (Some f)), f).

(** The body of the loop over [key_ranges]: the tables pushed and the restored
    map so far *)
Definition filter_body (kr : KeyRange) (k : list byte) (r : Range)
    (st : list Table * gmap (list string) Range) : io W Error (list Table * gmap (list string) Range) :=
  let '(filtered, restored) := st in
  let has_restored_ranges := bool_decide (restored_ranges kr <> ∅) in
  if has_restored_ranges && bool_decide (is_Some (restored_ranges kr !! t_dir (r_sst r))) then mret st else
  if in_range k r then
    f ← io_lift (unwrap (t_filter (r_sst r)));
    match bf_sst_dir f with
    | None =>
        '(r', f') ← restore_range r f;
        let restored' := <[t_dir (r_sst r') := r']> restored in
        hit ← bf_contains f' k;
        if (hit : bool) then mret (filtered ++ [r_sst r'], restored') else
        hit0 ← bf_contains f k;
        mret (if (hit0 : bool) then filtered ++ [r_sst r] else filtered, restored')
    | Some _ =>
        hit ← bf_contains f k;
        mret (if (hit : bool) then filtered ++ [r_sst r] else filtered, restored)
    end
  else mret st.

Fixpoint filter_loop (kr : KeyRange) (k : list byte) (rs : list Range)
    (st : list Table * gmap (list string) Range) : io W Error (list Table * gmap (list string) Range) :=
  match rs with
  | [] => mret st
  | r :: rs' => st' ← filter_body kr k r st; filter_loop kr k rs' st'
  end.

(** [KeyRange::filter_sstables_by_key_range]: the tables and the restored ranges
    the spawned task installs *)
Definition filter_sstables_by_key_range (kr : KeyRange) (k : list byte)
    : io W Error (list Table * gmap (list string) Range) :=
  filtered ← (if decide (restored_ranges kr <> ∅) then check_restored_key_ranges kr k else mret []);
  filter_loop kr k (hm_iter (key_ranges kr)).*2 (filtered, ∅).

(** [KeyRange::range_query_scan] *)
Definition range_query_scan (kr : KeyRange) (start_key end_key : list byte) : list Range :=
  List.filter (fun r =>
    (key_ltb (r_smallest_key r) start_key || bool_decide (r_smallest_key r = start_key))
    || (key_ltb end_key (r_biggest_key r) || bool_decide (r_biggest_key r = end_key)))
    (hm_iter (key_ranges kr)).*2.

(** ** Lemmas *)

(** The key lies between the bounds of the range, which belong to it. *)
Definition covers (k : list byte) (r : Range) : Prop :=
  (key_lt (r_smallest_key r) k \/ r_smallest_key r = k) /\ (key_lt k (r_biggest_key r) \/ k = r_biggest_key r).

Lemma in_range_covers k r : in_range k r = true <-> covers k r.
Proof. unfold in_range, covers. by rewrite andb_true_iff, !key_leb_spec. Qed.

(** A range in normal operation: its filter is in memory, can be probed, and
    admits every key of the map its table holds. *)
Definition live_range (w : W) (r : Range) (m : M SkipMapValue) : Prop :=
  exists f d, t_filter (r_sst r) = Some f /\ bf_sst_dir f = Some d /\
    probing_ok (no_of_hash_func f) (the_bits w (bit_vec f)) /\
    (forall k, is_Some (sm_get k m) ->
       covers k r /\ admits (no_of_hash_func f) (the_bits w (bit_vec f)) k).

Lemma filter_body_live kr k r m ts rest (w : W) :
  restored_ranges kr = ∅ -> live_range w r m ->
  exists hit : bool, filter_body kr k r (ts, rest) w = (Ok (if hit then ts ++ [r_sst r] else ts, rest), w) /\
    (hit = true -> covers k r) /\ (is_Some (sm_get k m) -> hit = true).
Proof.
  intros Hr (f & d & Hf & Hd & Hp & Ha). unfold filter_body. rewrite Hr, bool_decide_false by naive_solver.
  cbn [andb]. destruct (in_range k r) eqn:Ein.
  - rewrite Hf. run_simpl. rewrite Hd. destruct (bf_contains_spec f k w Hp) as (b & E & Hb). exists b.
    run E. split; [by destruct b|]. split; [by rewrite <- in_range_covers|]. intros Hk. apply Hb. by apply Ha.
  - exists false. split; [done|]. split; [done|]. intros Hk. destruct (Ha k Hk) as [Hc _]. apply in_range_covers in Hc. congruence.
Qed.

Lemma filter_loop_live kr k rs ts rest (w : W) :
  restored_ranges kr = ∅ -> Forall (fun r => exists m, live_range w r m) rs ->
  exists ts', filter_loop kr k rs (ts, rest) w = (Ok (ts ++ ts', rest), w) /\
    (forall t, t ∈ ts' -> exists r, r ∈ rs /\ t = r_sst r /\ covers k r) /\
    (forall r m, r ∈ rs -> live_range w r m -> is_Some (sm_get k m) -> r_sst r ∈ ts').
Proof.
  intros Hr Hl. revert ts. induction Hl as [|r rs [m0 Hlr] Hl IH]; intros ts.
  { exists []. rewrite app_nil_r. split; [done|]. split; set_solver. }
  destruct (filter_body_live kr k r m0 ts rest w Hr Hlr) as (hit & E & Hin & _). cbn [filter_loop]. run E.
  destruct (IH (if hit then ts ++ [r_sst r] else ts)) as (ts' & -> & Hsub & Hall).
  exists (if hit then r_sst r :: ts' else ts'). split; [destruct hit; by rewrite <- ?app_assoc|]. split.
  - intros t Ht. destruct hit; [apply elem_of_cons in Ht as [->|Ht]|]; [exists r; split; [left|auto]|..];
      destruct (Hsub t Ht) as (r' & ? & ?); exists r'; (split; [by right|done]).
  - intros r' m Hr' Hlive Hk. apply elem_of_cons in Hr' as [->|Hr'].
    + destruct (filter_body_live kr k r m ts rest w Hr Hlive) as (hit' & E' & _ & Hh).
      rewrite Hh in E' by done. rewrite E in E'. injection E' as E'.
      destruct hit; [left|]. exfalso. by apply (f_equal length) in E'; rewrite length_app in E'; simpl in E'; lia.
    + destruct hit; [right|]; by eapply Hall.
Qed.

(** [sel] is [tabs] without some of the tables whose map lacks the key. *)
Inductive kept (k : list byte) : list (Range * M SkipMapValue) -> list (Range * M SkipMapValue) -> Prop :=
  | kept_nil : kept k [] []
  | kept_take p tabs sel : kept k tabs sel -> kept k (p :: tabs) (p :: sel)
  | kept_drop p tabs sel : sm_get k p.2 = None -> kept k tabs sel -> kept k (p :: tabs) sel.

Lemma kept_elem k tabs sel p : kept k tabs sel -> p ∈ sel -> p ∈ tabs.
Proof. induction 1; set_solver. Qed.

Lemma filter_loop_kept kr k tabs ts rest (w : W) :
  restored_ranges kr = ∅ -> Forall (fun p => live_range w p.1 p.2) tabs ->
  exists sel, kept k tabs sel /\ filter_loop kr k tabs.*1 (ts, rest) w = (Ok (ts ++ (r_sst <$> sel.*1), rest), w).
Proof.
  intros Hr Hl. revert ts. induction Hl as [|[r m] tabs Hlr Hl IH]; intros ts.
  { exists []. cbn. rewrite app_nil_r. by split; [constructor|]. }
  destruct (filter_body_live kr k r m ts rest w Hr Hlr) as (hit & E & _ & Hh). cbn [filter_loop fmap list_fmap fst]. run E.
  destruct (IH (if hit then ts ++ [r_sst r] else ts)) as (sel & Hk & ->).
  destruct hit; [exists ((r, m) :: sel)|exists sel]; (split; [|by rewrite <- ?app_assoc]); [by constructor|].
  constructor; [|done]. cbn. destruct (sm_get k m) eqn:G; [|done]. by discriminate Hh.
Qed.

Lemma filter_sstables_kept kr k tabs (w : W) :
  restored_ranges kr = ∅ -> tabs.*1 = (hm_iter (key_ranges kr)).*2 -> Forall (fun p => live_range w p.1 p.2) tabs ->
  exists sel, kept k tabs sel /\ filter_sstables_by_key_range kr k w = (Ok (r_sst <$> sel.*1, ∅), w).
Proof.
  intros Hr Ht Hl. unfold filter_sstables_by_key_range. rewrite decide_False by naive_solver. run_simpl.
  rewrite <- Ht. by apply (filter_loop_kept kr k tabs [] ∅ w).
Qed.

Lemma update_key_range_lookup kr p :
  key_ranges (update_key_range kr) !! p =
  match restored_ranges kr !! p with Some r => Some r | None => key_ranges kr !! p end.
Proof.
  unfold update_key_range. case_decide as E; [by rewrite E, lookup_empty|]. cbn [key_ranges]. clear E.
  revert p. apply (map_fold_weak_ind (fun acc m => forall p, acc !! p = match m !! p with Some r => Some r | None => key_ranges kr !! p end)).
  - intros p. by rewrite lookup_empty.
  - intros i r m acc Hi IH p. destruct (decide (i = p)) as [->|]; [by rewrite !lookup_insert_eq|].
    by rewrite !lookup_insert_ne.
Qed.

(** A range that waits in [restored_ranges] comes back after its removal. *)
Lemma removed_range_returns kr p r :
  restored_ranges kr !! p = Some r ->
  key_ranges (update_key_range (key_range_remove kr p).1) !! p = Some r.
Proof. intros Hr. rewrite update_key_range_lookup. cbn [key_range_remove restored_ranges fst]. by rewrite Hr. Qed.

(** ** Properties *)


(** What restoring a range does *)
Record restored_as (w : W) (r : Range) (m : M SkipMapValue) (r' : Range) (f' : BloomFilter) (w' : W) : Prop := {
  ra_contains k : exists b, bf_contains f' k w' = (Ok b, w') /\ (is_Some (sm_get k m) -> b = true);
  ra_filter : t_filter (r_sst r') = Some f';
  ra_filter_dir : bf_sst_dir f' = Some (t_dir (r_sst r));
  ra_dropped : sm_iter (the_map w' (t_entries (r_sst r'))) = [];
  ra_fs : w_fs w' = w_fs w;
  ra_dir : t_dir (r_sst r') = t_dir (r_sst r);
  ra_data : data_file (r_sst r') = data_file (r_sst r);
  ra_index : index_file (r_sst r') = index_file (r_sst r);
  ra_ticks : w_ticks w' = w_ticks w;
  ra_grown : heap_ext w w';
  ra_new : (w_next w <= bit_vec f' < w_next w')%nat;
  ra_probing : probing_ok (no_of_hash_func f') (the_bits w' (bit_vec f'));
  ra_admits k : is_Some (sm_get k m) -> admits (no_of_hash_func f') (the_bits w' (bit_vec f')) k;
  ra_bounds : r_smallest_key r' = r_smallest_key r /\ r_biggest_key r' = r_biggest_key r;
}.

Lemma restore_range_run r g f0 p i m (w : W) :
  table_holds w (r_sst r) m -> bf_file_path g = Some p -> names (w_fs w) !! p = Some i ->
  content (w_fs w) i = bf_serialize f0 ->
  is_u32 (no_of_hash_func f0) -> is_u32 (no_of_elements f0) -> is_u64 (false_positive_rate f0) ->
  0 < no_of_bits (no_of_elements f0) (false_positive_rate f0) ->
  exists r' f' w', restore_range r g w = (Ok (r', f'), w') /\ restored_as w r m r' f' w'.
Proof.
  intros Hh Hp Hn Hc Hu1 Hu2 Hu3 Hpos. unfold restore_range.
  set (w1 := mkWorld (w_fs w) (w_maps w)
    (<[w_next w := replicate (Z.to_nat (no_of_bits (no_of_elements f0) (false_positive_rate f0))) false]> (w_bits w))
    (S (w_next w)) (w_ticks w)).
  assert (recover_meta g w = (Ok (mkBF (bf_sst_dir g) (no_of_hash_func f0) (no_of_elements f0) (w_next w)
    (false_positive_rate f0) (Some p)), w1)) as E1.
  { unfold recover_meta. rewrite Hp. unfold filter_file_recover, on_fs, mbind, io_bind, io_lift. cbn [w_fs].
    rewrite Hn. cbn [w_fs with_fs]. rewrite Hc, filter_recover_serialize by done. by destruct w. }
  run E1. destruct (load_entries_holds (r_sst r) m w1) as (sst & w2 & l & E2 & Hsst & Hl & Hfs & Hbits & Hm & _ & Hnx & Hmp & Hti).
  { by eapply table_holds_frame. }
  run E2. assert (t_entries sst = l) as Hte by (rewrite Hsst; done). rewrite Hte.
  match goal with |- context [build_filter_from_entries ?f _] => set (f1 := f) end.
  assert (probing_ok (no_of_hash_func f1) (the_bits w2 (bit_vec f1))) as Hprobe.
  { right. subst f1. unfold the_bits. rewrite Hbits. cbn. rewrite lookup_insert_eq. cbn. unfold zlen.
    rewrite length_replicate. lia. }
  destruct (bf_set_all_spec (sm_iter (the_map w2 l)).*1 f1 w2 Hprobe)
    as (f2 & b2 & E3 & Hnil & Hl2 & Hn2 & Hd2 & _ & _ & _ & Hlen & Hall & _).
  unfold build_filter_from_entries. rewrite io_step with (a := f2)
    (s' := match (sm_iter (the_map w2 l)).*1 with [] => w2 | _ => put_bits w2 (bit_vec f1) b2 end) by exact E3.
  do 3 eexists. split; [reflexivity|]. match goal with |- restored_as _ _ _ _ _ ?w => set (w3 := w) end.
  assert (the_bits w3 (bit_vec f1) = b2) as Hb.
  { subst w3. destruct ((sm_iter (the_map w2 l)).*1) eqn:El; [by rewrite Hnil|].
    unfold the_bits. cbn. by rewrite lookup_insert_eq. }
  assert (probing_ok (no_of_hash_func f2) (the_bits w3 (bit_vec f2))) as Hp2
    by (rewrite Hl2, Hn2, Hb; unfold probing_ok, zlen in *; by rewrite Hlen).
  assert (forall k, is_Some (sm_get k m) -> admits (no_of_hash_func f2) (the_bits w3 (bit_vec f2)) k) as Hadm.
  { intros k [v Hk]. rewrite Hl2, Hn2, Hb. rewrite Forall_forall in Hall. apply Hall. rewrite Hm, keys_fmap. apply sm_elem in Hk.
    apply list_elem_of_fmap. by exists (k, v). }
  assert (w_next w3 = S (S (w_next w))) as Hn3 by (subst w3; destruct ((sm_iter (the_map w2 l)).*1); exact Hnx).
  assert (w_fs w3 = w_fs w /\ w_ticks w3 = w_ticks w) as [Hfs3 Hti3] by (subst w3; destruct ((sm_iter (the_map w2 l)).*1); by split).
  split; [|done|by rewrite Hd2| | |by rewrite Hsst..| | |rewrite Hn3, Hl2; cbn; lia|done|done|done].
  - intros k. destruct (bf_contains_spec f2 k w3 Hp2) as (b & E & Hc2). exists b. split; [done|]. intros Hk. by apply Hc2, Hadm.
  - rewrite Hsst. cbn. subst w3. rewrite the_map_put. rewrite decide_True; [apply sm_iter_new|]. by rewrite Hsst in Hte.
  - exact Hfs3.
  - exact Hti3.
  - cbn in Hl. split; [done|done|lia| |]; intros l0 Hl0.
    + subst w3. rewrite the_map_put, decide_False by lia.
      assert (the_map w2 l0 = the_map w l0) as <-; [|by destruct ((sm_iter _).*1)]. unfold the_map. rewrite Hmp. cbn. by rewrite lookup_insert_ne by lia.
    + assert (the_bits w2 l0 = the_bits w l0) as <- by (unfold the_bits; rewrite Hbits; cbn; by rewrite lookup_insert_ne by lia).
      subst w3. destruct ((sm_iter (the_map w2 l)).*1); [done|]. transitivity (the_bits (put_bits w2 (bit_vec f1) b2) l0); [done|].
      rewrite the_bits_put, decide_False by (cbn; lia). done.
Qed.

(** [C27] Restoring a table's filter after a restart: from the filter metadata on
    disk and the data file, the rebuilt filter contains every key of the table,
    the entries loaded for it are dropped again, and the table's files and
    directory are unchanged. *)
Theorem restore_range_no_false_negatives r g f0 p i m (w : W) :
  table_holds w (r_sst r) m -> bf_file_path g = Some p -> names (w_fs w) !! p = Some i ->
  content (w_fs w) i = bf_serialize f0 ->
  is_u32 (no_of_hash_func f0) -> is_u32 (no_of_elements f0) -> is_u64 (false_positive_rate f0) ->
  0 < no_of_bits (no_of_elements f0) (false_positive_rate f0) ->
  exists r' f' w', restore_range r g w = (Ok (r', f'), w') /\
    (forall k, is_Some (sm_get k m) -> bf_contains f' k w' = (Ok true, w')) /\
    t_filter (r_sst r') = Some f' /\ bf_sst_dir f' = Some (t_dir (r_sst r)) /\
    sm_iter (the_map w' (t_entries (r_sst r'))) = [] /\ w_fs w' = w_fs w /\
    t_dir (r_sst r') = t_dir (r_sst r) /\ data_file (r_sst r') = data_file (r_sst r) /\
    index_file (r_sst r') = index_file (r_sst r).
Proof.
  intros Hh Hp Hn Hc Hu1 Hu2 Hu3 Hpos. destruct (restore_range_run r g f0 p i m w) as (r' & f' & w' & E & [R1 R2 R3 R4 R5 R6 R7 R8 _ _ _ _ _ _]); try done.
  exists r', f', w'. split; [done|]. split; [|done]. intros k Hk. destruct (R1 k) as (b & Eb & Hb). by rewrite <- (Hb Hk).
Qed.

(** [update_key_range] moves every restored range into [key_ranges], where it
    replaces the range of the same directory, and empties [restored_ranges];
    no other range changes. *)
Theorem update_key_range_spec kr p :
  key_ranges (update_key_range kr) !! p =
    match restored_ranges kr !! p with Some r => Some r | None => key_ranges kr !! p end /\
  restored_ranges (update_key_range kr) = ∅.
Proof.
  split; [apply update_key_range_lookup|]. unfold update_key_range. by case_decide.
Qed.

(** [range_query_scan] does not return the tables that overlap the queried
    range: a table strictly inside it is left out, and a table entirely below
    it is returned. *)
Theorem range_query_scan_wrong kr d r (start_key end_key : list byte) :
  key_ranges kr !! d = Some r ->
  (key_lt start_key (r_smallest_key r) -> key_lt (r_biggest_key r) end_key ->
   r ∉ range_query_scan kr start_key end_key) /\
  (key_lt (r_smallest_key r) start_key -> key_lt (r_biggest_key r) start_key ->
   r ∈ range_query_scan kr start_key end_key).
Proof.
  intros Hd. unfold range_query_scan. rewrite list_elem_of_In, filter_In, <- list_elem_of_In. split.
  - intros H1' H2' [_ Hf]. apply orb_true_iff in Hf as [Hf|Hf]; apply orb_true_iff in Hf as [Hf|Hf].
    + apply key_ltb_spec in Hf. by eapply key_lt_irrefl, key_lt_trans.
    + apply bool_decide_eq_true in Hf. rewrite Hf in H1'. by eapply key_lt_irrefl.
    + apply key_ltb_spec in Hf. by eapply key_lt_irrefl, key_lt_trans.
    + apply bool_decide_eq_true in Hf. rewrite Hf in H2'. by eapply key_lt_irrefl.
  - intros H1' H2'. split.
    + apply list_elem_of_fmap. exists (d, r). split; [done|]. by apply hm_iter_elem.
    + by apply key_ltb_spec in H1' as ->.
Qed.
End key_range.

(** ** Witnesses *)
Section key_range_witnesses.
#[local] Existing Instance demo_platform.
#[local] Existing Instance demo_env.
#[local] Existing Instance sorted_list_skipmap.

Definition demo_single : slist SkipMapValue := sm_insert [x61] (smv_new 5 1700000000000000000 false) sm_new.
Definition demo_live_filter : BloomFilter := mkBF (Some ["t"%string]) 3 1 1 0 (Some ["t"; "filter.db"]%string).
Definition demo_range : Range := mkRangeEntry [x61] [x62] (t_with_filter demo_table (Some demo_live_filter)).
Definition demo_kr : KeyRange := mkKeyRange {[ ["t"%string] := demo_range ]} ∅.
Definition demo_kr_world : World slist :=
  mkWorld empty_fs {[ 0%nat := demo_single ]} {[ 1%nat := replicate 16 true ]} 2 0.

Lemma demo_live : live_range demo_kr_world demo_range demo_single.
Proof.
  exists demo_live_filter, ["t"%string]. do 2 (split; [done|]). split; [by right; vm_compute|].
  intros k Hk. split; [|apply demo_admits]. unfold demo_single in Hk. rewrite sm_get_insert in Hk.
  case_decide as Hd; [by apply in_range_covers; rewrite Hd|]. rewrite sm_get_new in Hk. by destruct Hk.
Qed.


(** A table on disk whose filter is known only by its metadata file. *)
Definition demo_disk_blocks : list Block :=
  [mkBlock (be_of <$> (entry_of <$> sm_iter demo_single)) 18 1].
Definition demo_disk_world : World slist :=
  mkWorld (mkFS {[ 0%nat := data_bytes (blocks_entries demo_disk_blocks);
                   1%nat := index_bytes (idx_of 0 demo_disk_blocks);
                   2%nat := bf_serialize demo_live_filter ]}
             {[ ["t"; "filter.db"]%string := 2%nat ]} {[ []; ["t"%string] ]} 3) ∅ ∅ 2 0.

Lemma demo_disk_holds : table_holds demo_disk_world demo_table demo_single.
Proof.
  split.
  - split; [by vm_compute|repeat constructor; vm_compute; done|by vm_compute].
  - exists demo_disk_blocks. split; [repeat constructor; by vm_compute|]. by repeat split; vm_compute.
Qed.

Lemma restore_range_no_false_negatives_witness :
  exists r' f' w', restore_range (mkRangeEntry [x61] [x62] demo_table)
      (mkBF None 0 0 7 0 (Some ["t"; "filter.db"]%string)) demo_disk_world = (Ok (r', f'), w') /\
    bf_contains f' [x61] w' = (Ok true, w').
Proof.
  destruct (restore_range_no_false_negatives (mkRangeEntry [x61] [x62] demo_table)
    (mkBF None 0 0 7 0 (Some ["t"; "filter.db"]%string)) demo_live_filter ["t"; "filter.db"]%string 2 demo_single
    demo_disk_world demo_disk_holds) as (r' & f' & w' & E & Hk & _); [done..|].
  exists r', f', w'. split; [exact E|]. apply Hk. vm_compute. by eexists.
Defined.

Lemma range_query_scan_wrong_witness :
  (demo_range ∉ range_query_scan demo_kr [x60] [x63]) /\ (demo_range ∈ range_query_scan demo_kr [x63] [x64]).
Proof.
  split.
  - apply (proj1 (range_query_scan_wrong demo_kr ["t"%string] demo_range [x60] [x63] eq_refl)); reflexivity.
  - apply (proj2 (range_query_scan_wrong demo_kr ["t"%string] demo_range [x63] [x64] eq_refl)); reflexivity.
Defined.
End key_range_witnesses.
