(* ===== verification/RangeSearch.v ===== *)
(** * Searching key ranges with and without filters in memory

    After a restart the filter of a table is known by its file only; the first
    search that reaches such a range restores it and hands the restored range to
    a task. [filter_sstables_ready] covers every mixture of live, cold and
    already restored ranges: the search misses no table that has the key, and
    the ranges it restores may stand in for those they were restored from. *)

From stdpp Require Import prelude gmap strings list.
From Stdlib Require Import Strings.Byte ZArith Lia.
From S2P Require Import Prelude Consts SkipMap FileIO Types World Block Index Bloom SSTable KeyRange.
Open Scope Z_scope.

(** What recovery needs of a filter it reads back: it can be rebuilt and probed. *)
Definition filter_ok `{Platform} (f : BloomFilter) : Prop :=
  is_u32 (no_of_hash_func f) /\ is_u32 (no_of_elements f) /\ is_u64 (false_positive_rate f) /\
  0 < no_of_bits (no_of_elements f) (false_positive_rate f).

Section search.
Context `{Env} {M : Type -> Type} `{SkipMap M}.
Abbreviation W := (World M).
Abbreviation Tabs := (list (Range * M SkipMapValue)).
Implicit Types (w : W) (tabs : Tabs) (m : M SkipMapValue) (r : Range).

(** ** Ranges *)

(** The filter of a cold range is a file, and its handle admits every key. *)
Definition cold_filter w r (i : nat) : Prop :=
  exists g p f, t_filter (r_sst r) = Some g /\ bf_sst_dir g = None /\ no_of_hash_func g = 0 /\ bf_file_path g = Some p /\
    names (w_fs w) !! p = Some i /\ content (w_fs w) i = bf_serialize f /\ filter_ok f.

Definition cold_range w r m : Prop := (forall k, is_Some (sm_get k m) -> covers k r) /\ exists i, cold_filter w r i.

(** A range that can be searched for the keys of [m] *)
Record ready w r m : Prop := {
  rd_holds : table_holds w (r_sst r) m;
  rd_range : live_range w r m \/ cold_range w r m;
}.

(** [r'] is a range of the table of [r]. *)
Record stands_for (r' r : Range) : Prop := {
  sf_dir : t_dir (r_sst r') = t_dir (r_sst r);
  sf_data : data_file (r_sst r') = data_file (r_sst r);
  sf_index : index_file (r_sst r') = index_file (r_sst r);
}.

(** The filter of a range is in the heap. *)
Definition filter_below (n : nat) r : Prop := forall f, t_filter (r_sst r) = Some f -> (bit_vec f < n)%nat.

(** A range restored from [r] on the way from [w] to [w'] *)
Record restores w w' r m (r' : Range) : Prop := {
  rt_live : live_range w' r' m;
  rt_stands : stands_for r' r;
  rt_new f : t_filter (r_sst r') = Some f -> (w_next w <= bit_vec f < w_next w')%nat;
}.

Lemma live_grown w w' r m : heap_ext w w' -> filter_below (w_next w) r -> live_range w r m -> live_range w' r m.
Proof. intros Hg Hb (f & d & Hf & Hd & Hl). exists f, d. rewrite (hx_bits _ _ Hg) by by apply Hb. done. Qed.

Lemma restores_mono w0 w w1 w2 r m r' : heap_ext w0 w -> heap_ext w1 w2 -> restores w w1 r m r' -> restores w0 w2 r m r'.
Proof.
  intros G0 G2 [R1 R2 R3]. pose proof (hx_next _ _ G0). pose proof (hx_next _ _ G2). split; [|done|].
  - eapply live_grown; [done| |done]. intros f Hf. by apply R3.
  - intros f Hf. specialize (R3 f Hf). lia.
Qed.

Lemma holds_stands w w' r r' m : w_fs w' = w_fs w -> stands_for r' r -> table_holds w (r_sst r) m -> table_holds w' (r_sst r') m.
Proof. intros Ef [S1 S2 S3] Hh. eapply table_holds_frame; [exact Hh|done|done|by rewrite Ef..]. Qed.

Lemma stands_refl r : stands_for r r.
Proof. by split. Qed.

Lemma stands_trans r1 r2 r3 : stands_for r1 r2 -> stands_for r2 r3 -> stands_for r1 r3.
Proof. intros [] []. split; congruence. Qed.

Lemma stands_sym r r' : stands_for r r' -> stands_for r' r.
Proof. intros []. by split. Qed.

Lemma cold_grown w w' r m : heap_ext w w' -> cold_range w r m -> cold_range w' r m.
Proof. intros Hg [Hc (i & g & p & f & Hx)]. split; [done|]. exists i, g, p, f. by rewrite (hx_fs _ _ Hg). Qed.

(** Restoring a cold range *)
Lemma restore_cold w r m g i :
  t_filter (r_sst r) = Some g -> cold_filter w r i -> (forall k, is_Some (sm_get k m) -> covers k r) -> table_holds w (r_sst r) m ->
  exists r' f' w', restore_range r g w = (Ok (r', f'), w') /\ restored_as w r m r' f' w' /\ restores w w' r m r'.
Proof.
  intros Eg (g' & p & f & Eg' & Dg & Ng & Pg & Ni & Ci & (U1 & U2 & U3 & U4)) Hc Hh. assert (g' = g) as -> by congruence.
  destruct (restore_range_run r g f p i m w Hh Pg Ni Ci U1 U2 U3 U4) as (r' & f' & w' & E & Ha).
  exists r', f', w'. split; [done|]. split; [done|]. destruct Ha as [_ R2 R3 _ _ R6 R7 R8 _ _ R11 R12 R13 [B1 B2]]. split; [|by split|].
  - exists f', (t_dir (r_sst r)). do 3 (split; [done|]). intros k Hk. split; [|by apply R13].
    destruct (Hc k Hk). split; by rewrite ?B1, ?B2.
  - intros f0. rewrite R2. by intros [= <-].
Qed.

(** ** One range *)
Lemma filter_body_skip kr k r st w : is_Some (restored_ranges kr !! t_dir (r_sst r)) -> filter_body kr k r st w = (Ok st, w).
Proof.
  intros Hr. unfold filter_body. destruct st as [ts rest]. rewrite (bool_decide_true (restored_ranges kr <> ∅)).
  - by rewrite bool_decide_true.
  - intros E. rewrite E, lookup_empty in Hr. by destruct Hr.
Qed.

Lemma filter_body_ready kr k r m ts rest w :
  restored_ranges kr !! t_dir (r_sst r) = None -> ready w r m ->
  exists ts' rest' w', filter_body kr k r (ts, rest) w = (Ok (ts ++ ts', rest'), w') /\ heap_ext w w' /\
    ((ts' = [] /\ sm_get k m = None) \/ exists r', ts' = [r_sst r'] /\ stands_for r' r) /\
    (rest' = rest \/ exists r', restores w w' r m r' /\ rest' = <[t_dir (r_sst r) := r']> rest) /\
    (live_range w r m -> w' = w /\ rest' = rest).
Proof.
  intros Hr [Hh Hready]. unfold filter_body. rewrite Hr. rewrite (bool_decide_false (is_Some None)) by by intros [].
  rewrite andb_false_r. destruct (in_range k r) eqn:Ein.
  2: { exists [], rest, w. rewrite app_nil_r. split; [done|]. split; [done|]. split; [left|split; [by left|done]]. split; [done|].
       destruct (sm_get k m) eqn:Ek; [exfalso|done]. assert (covers k r) as Hc; [|apply in_range_covers in Hc; congruence].
       destruct Hready as [(f & d & _ & _ & _ & Ha)|[Hc _]]; [apply Ha|apply Hc]; by eexists. }
  destruct Hready as [(f & d & Hf & Hd & Hp & Ha)|[Hc [i Hi]]].
  - rewrite Hf. run_simpl. rewrite Hd. destruct (bf_contains_spec f k w Hp) as (b & E & Hb). run E.
    exists (if b then [r_sst r] else []), rest, w. split; [destruct b; by rewrite ?app_nil_r|]. split; [done|]. split; [|split; [by left|done]].
    destruct b; [right; exists r; split; [done|apply stands_refl]|left]. split; [done|].
    destruct (sm_get k m) eqn:Ek; [|done]. assert (false = true); [|done]. apply Hb, Ha. by eexists.
  - pose proof Hi as (g & p & f & Eg & Dg & Ng & _). rewrite Eg. run_simpl. rewrite Dg.
    destruct (restore_cold w r m g i Eg Hi Hc Hh) as (r' & f' & w' & E & Ha & Hrs). run E.
    destruct (ra_contains _ _ _ _ _ _ Ha k) as (b & Eb & Hb). cbn zeta. run Eb. rewrite (ra_dir _ _ _ _ _ _ Ha).
    assert (forall P : Prop, live_range w r m -> P) as Hlive by (intros P (f0 & d0 & Hf0 & Hd0 & _); congruence).
    pose proof (ra_grown _ _ _ _ _ _ Ha) as Hg. destruct b.
    + exists [r_sst r'], (<[t_dir (r_sst r) := r']> rest), w'. split; [done|]. split; [done|]. split; [right|split; [right; by eauto|apply Hlive]].
      exists r'. split; [done|apply Hrs].
    + assert (bf_contains g k w' = (Ok true, w')) as E0 by (unfold bf_contains; run_simpl; by rewrite Ng). run E0.
      exists [r_sst r], (<[t_dir (r_sst r) := r']> rest), w'. split; [done|]. split; [done|]. split; [right|split; [right; by eauto|apply Hlive]].
      exists r. split; [done|apply stands_refl].
Qed.

(** ** All ranges *)

(** The values of a key in the tables *)
Definition hits_in (k : list byte) tabs : list SkipMapValue := omap (fun p : Range * M SkipMapValue => sm_get k p.2) tabs.

Lemma hits_in_perm k tabs tabs' : tabs.*2 ≡ₚ tabs'.*2 -> hits_in k tabs ≡ₚ hits_in k tabs'.
Proof.
  intros Hp. assert (forall l : Tabs, hits_in k l = omap (fun m : M SkipMapValue => sm_get k m) l.*2) as E.
  { intros l. unfold hits_in. induction l as [|p l IH]; [done|]. cbn. by destruct (sm_get k p.2); rewrite IH. }
  by rewrite !E, Hp.
Qed.

Lemma hits_in_app k tabs tabs' : hits_in k (tabs ++ tabs') = hits_in k tabs ++ hits_in k tabs'.
Proof. unfold hits_in. apply omap_app. Qed.

Lemma hits_in_kept k tabs sel : kept k tabs sel -> hits_in k sel = hits_in k tabs.
Proof. unfold hits_in. induction 1 as [|p ? ? _ IH|p ? ? Hk _ IH]; [done|..]; cbn; [by rewrite IH|by rewrite Hk]. Qed.

(** The ranges restored from tables of the list *)
Definition from_tabs w w' tabs (rest : gmap (list string) Range) : Prop :=
  forall d r', rest !! d = Some r' -> exists r m, (r, m) ∈ tabs /\ t_dir (r_sst r) = d /\ restores w w' r m r'.

Lemma from_tabs_mono w0 w w1 w2 tabs tabs' rest :
  heap_ext w0 w -> heap_ext w1 w2 -> (forall p, p ∈ tabs -> p ∈ tabs') -> from_tabs w w1 tabs rest -> from_tabs w0 w2 tabs' rest.
Proof.
  intros G0 G2 Hsub Hf d r' Hd. destruct (Hf d r' Hd) as (r & m & Hin & Ed & Hr). exists r, m. split; [by apply Hsub|]. split; [done|]. by eapply restores_mono.
Qed.

Lemma ready_grown w w' r m :
  heap_ext w w' -> (live_range w r m -> filter_below (w_next w) r) -> ready w r m -> ready w' r m.
Proof.
  intros Hg Hb [Hh Hr]. split; [by eapply holds_stands; [apply Hg|apply stands_refl|]|].
  destruct Hr as [Hl|Hc]; [left; eapply live_grown; eauto|right; by eapply cold_grown].
Qed.

Definition unrestored (kr : KeyRange) (p : Range * M SkipMapValue) : Prop := restored_ranges kr !! t_dir (r_sst p.1) = None.
#[global] Instance unrestored_dec kr p : Decision (unrestored kr p).
Proof. unfold unrestored. apply _. Defined.

Definition tabs_ready w tabs : Prop :=
  Forall (fun p : Range * M SkipMapValue => ready w p.1 p.2 /\ (live_range w p.1 p.2 -> filter_below (w_next w) p.1)) tabs.

Lemma tabs_ready_grown w w' tabs : heap_ext w w' -> tabs_ready w tabs -> tabs_ready w' tabs.
Proof.
  intros Hg Ht. eapply Forall_impl; [exact Ht|]. intros p [Hr Hb]. pose proof (hx_next _ _ Hg). split; [by eapply ready_grown|]. intros Hl f Hf.
  destruct Hr as [_ [Hl'|[_ (i & g & q & f0 & Hg1 & Hg2 & _)]]]; [specialize (Hb Hl' f Hf); lia|].
  destruct Hl as (f' & d & E1 & E2 & _). congruence.
Qed.

Lemma filter_loop_ready kr k tabs ts rest w :
  tabs_ready w tabs ->
  exists sel rest' w', filter_loop kr k tabs.*1 (ts, rest) w = (Ok (ts ++ (r_sst <$> sel.*1), rest'), w') /\ heap_ext w w' /\
    Forall (fun p : Range * M SkipMapValue => table_holds w' (r_sst p.1) p.2) sel /\
    hits_in k sel = hits_in k (filter (unrestored kr) tabs) /\
    (forall d r', rest' !! d = Some r' -> rest !! d = Some r' \/ exists r m, (r, m) ∈ tabs /\ t_dir (r_sst r) = d /\ restores w w' r m r') /\
    (Forall (fun p => live_range w p.1 p.2) tabs -> w' = w /\ rest' = rest).
Proof.
  revert ts rest w. induction tabs as [|[r m] tabs IH]; intros ts rest w Hready.
  { exists [], rest, w. cbn. rewrite app_nil_r. split; [done|]. split; [done|]. split; [by apply Forall_nil|]. split; [done|]. split; [by left|done]. }
  pose proof Hready as [[Hr Hb] Htabs]%Forall_cons. cbn [filter_loop fmap list_fmap fst snd] in *. rewrite filter_cons.
  destruct (decide (unrestored kr (r, m))) as [Hu|Hu].
  2: { destruct (IH ts rest w Htabs) as (sel & rest' & w' & E & Hg & Hs & Hh & Hf & Hl). exists sel, rest', w'.
       run (filter_body_skip kr k r (ts, rest) w (proj1 (not_eq_None_Some _) Hu)). do 4 (split; [done|]). split.
       - intros d r' [?|(r0 & m0 & Hin & ?)]%Hf; [by left|right]. exists r0, m0. split; [by right|done].
       - intros [_ Hall]%Forall_cons. by apply Hl. }
  destruct (filter_body_ready kr k r m ts rest w Hu Hr) as (ts1 & rest1 & w1 & E1 & G1 & Hc1 & Hr1 & Hl1). run E1.
  destruct (IH (ts ++ ts1) rest1 w1 (tabs_ready_grown _ _ _ G1 Htabs)) as (sel & rest' & w' & -> & Hg & Hs & Hh & Hf & Hl).
  exists (match ts1 with [] => sel | t :: _ => (mkRangeEntry [] [] t, m) :: sel end), rest', w'.
  split; [|split; [by transitivity w1|split; [|split; [|split]]]].
  - destruct Hc1 as [[-> _]|(r' & -> & _)]; [by rewrite app_nil_r|by rewrite <- app_assoc].
  - destruct Hc1 as [[-> _]|(r' & -> & Hst)]; [done|]. constructor; [|done]. cbn. eapply holds_stands; [|exact Hst|apply Hr].
    by rewrite (hx_fs _ _ Hg), (hx_fs _ _ G1).
  - unfold hits_in in *. destruct Hc1 as [[-> Hk]|(r' & -> & _)]; cbn; [rewrite Hk|]; by rewrite Hh.
  - intros d r' [Hd|(r0 & m0 & Hin & Ed & Hrs)]%Hf.
    + destruct Hr1 as [->|(r1 & Hrs & ->)]; [by left|]. apply lookup_insert_Some in Hd as [[<- <-]|[_ Hd]]; [|by left].
      right. exists r, m. split; [by left|]. split; [done|]. eapply (restores_mono w w w1); [done|done|exact Hrs].
    + right. exists r0, m0. split; [by right|]. split; [done|]. by eapply (restores_mono w w1 w' w').
  - intros [Hlr Hall]%Forall_cons. cbn in Hlr. destruct (Hl1 Hlr) as [-> ->]. by apply Hl.
Qed.

(** ** Restored ranges *)
Lemma check_ranges_live k tabs w :
  Forall (fun p => live_range w p.1 p.2) tabs ->
  exists sel, kept k tabs sel /\ check_ranges k tabs.*1 w = (Ok (r_sst <$> sel.*1), w).
Proof.
  induction 1 as [|[r m] tabs (f & d & Hf & Hd & Hp & Ha) _ (sel & Hk & E)]; [exists []; split; [constructor|done]|].
  cbn [fmap list_fmap fst snd check_ranges] in *. destruct (in_range k r) eqn:Ein.
  - rewrite Hf. destruct (bf_contains_spec f k w Hp) as (b & Eb & Hb).
    assert ((io_lift (unwrap (Some f)) ≫= (fun f => bf_contains f k)) w = (Ok b, w)) as Ec by by run_simpl.
    run Ec. run E. destruct b; [exists ((r, m) :: sel); split; [by constructor|done]|]. exists sel. split; [|done]. constructor; [|done].
    cbn. destruct (sm_get k m) eqn:G; [|done]. assert (false = true); [|done]. apply Hb, Ha. by eexists.
  - run_simpl. run E. exists sel. split; [|done]. constructor; [|done]. cbn. destruct (sm_get k m) eqn:G; [|done].
    assert (covers k r) as Hc by (apply Ha; by eexists). apply in_range_covers in Hc. congruence.
Qed.

(** [rs] maps directories of tables of the list to ranges that may stand in. *)
Definition replaces w tabs (rs : gmap (list string) Range) : Prop :=
  forall d r', rs !! d = Some r' -> exists r m, (r, m) ∈ tabs /\ t_dir (r_sst r) = d /\ stands_for r' r /\ live_range w r' m.

(** The index and the list of its tables *)
Record indexed w (kr : KeyRange) tabs : Prop := {
  ix_tabs : tabs.*1 = (hm_iter (key_ranges kr)).*2;
  ix_keyed d r : key_ranges kr !! d = Some r -> t_dir (r_sst r) = d;
  ix_restored : replaces w tabs (restored_ranges kr);
}.

Lemma indexed_new w : indexed w key_range_new [].
Proof.
  split; [|by intros d r; cbn; rewrite lookup_empty|by intros d r; cbn; rewrite lookup_empty]. unfold hm_iter. cbn [key_ranges key_range_new]. rewrite map_to_list_empty.
  pose proof (hash_iter_perm (@nil (list string * Range))) as Hp. by apply Permutation_nil_r in Hp as ->.
Qed.

Definition dir_of (p : Range * M SkipMapValue) : list string := t_dir (r_sst p.1).

Lemma hm_iter_NoDup {V} (g : gmap (list string) V) : NoDup (hm_iter g).*1.
Proof. unfold hm_iter. rewrite hash_iter_perm. apply NoDup_fst_map_to_list. Qed.

Lemma indexed_dirs w kr tabs : indexed w kr tabs -> dir_of <$> tabs = (hm_iter (key_ranges kr)).*1.
Proof.
  intros [E Hk _]. transitivity ((fun r => t_dir (r_sst r)) <$> tabs.*1); [by rewrite <- list_fmap_compose|]. rewrite E, <- list_fmap_compose.
  apply list_fmap_ext. intros i [d r] Hi%list_elem_of_lookup_2. apply hm_iter_elem in Hi. cbn. by apply Hk.
Qed.

Lemma indexed_NoDup w kr tabs : indexed w kr tabs -> NoDup (dir_of <$> tabs).
Proof. intros Hi. rewrite (indexed_dirs _ _ _ Hi). apply hm_iter_NoDup. Qed.

Lemma indexed_lookup w kr tabs p : indexed w kr tabs -> p ∈ tabs -> is_Some (key_ranges kr !! dir_of p).
Proof.
  intros [E Hk _] Hp. assert (p.1 ∈ (hm_iter (key_ranges kr)).*2) as ([d r] & Er & Hr%hm_iter_elem)%list_elem_of_fmap
    by (rewrite <- E; apply list_elem_of_fmap; by exists p). cbn in Er. unfold dir_of. rewrite Er, (Hk _ _ Hr). by eexists.
Qed.

Lemma NoDup_key_inj {A B} (f : A -> B) (l : list A) x y : NoDup (f <$> l) -> x ∈ l -> y ∈ l -> f x = f y -> x = y.
Proof.
  rewrite NoDup_alt. intros Hnd [i Hx]%list_elem_of_lookup [j Hy]%list_elem_of_lookup E.
  assert (i = j) as ->; [|congruence]. apply (Hnd _ _ (f x)); rewrite list_lookup_fmap; [by rewrite Hx|by rewrite Hy, E].
Qed.

Lemma filter_true {A} (P : A -> Prop) `{forall x, Decision (P x)} (l : list A) : (forall x, x ∈ l -> P x) -> filter P l = l.
Proof. intros Hl. induction l as [|x l IH]; [done|]. rewrite filter_cons_True by (apply Hl; by left). f_equal. apply IH. intros y Hy. apply Hl. by right. Qed.

Lemma filter_false {A} (P : A -> Prop) `{forall x, Decision (P x)} (l : list A) : (forall x, x ∈ l -> ~ P x) -> filter P l = [].
Proof. intros Hl. induction l as [|x l IH]; [done|]. rewrite filter_cons_False by (apply Hl; by left). apply IH. intros y Hy. apply Hl. by right. Qed.

(** For a map over some of the directories, the same tables in the map's order *)
Lemma retab tabs (g : gmap (list string) Range) :
  NoDup (dir_of <$> tabs) -> (forall d r', g !! d = Some r' -> t_dir (r_sst r') = d /\ exists p, p ∈ tabs /\ dir_of p = d) ->
  exists tabs', tabs'.*1 = (hm_iter g).*2 /\ tabs'.*2 ≡ₚ (filter (fun p => is_Some (g !! dir_of p)) tabs).*2 /\
    forall p', p' ∈ tabs' -> exists p, p ∈ tabs /\ p.2 = p'.2 /\ dir_of p = dir_of p' /\ g !! dir_of p' = Some p'.1.
Proof.
  intros Hnd Hg. set (mp := list_to_map ((fun p => (dir_of p, p.2)) <$> tabs) : gmap (list string) (M SkipMapValue)).
  set (pick := fun d => default sm_new (mp !! d)).
  assert (forall p, p ∈ tabs -> pick (dir_of p) = p.2) as Hpick.
  { intros p Hp. unfold pick, mp. rewrite (elem_of_list_to_map_1 _ (dir_of p) p.2); [done| |].
    - by rewrite <- list_fmap_compose.
    - apply list_elem_of_fmap. by exists p. }
  exists ((fun q => (q.2, pick q.1)) <$> hm_iter g). split; [by rewrite <- list_fmap_compose|]. split.
  - assert ((hm_iter g).*1 ≡ₚ dir_of <$> filter (fun p => is_Some (g !! dir_of p)) tabs) as Hkeys.
    { apply NoDup_Permutation; [apply hm_iter_NoDup|by eapply (sublist_NoDup _ _ Hnd), fmap_sublist, sublist_filter|].
      intros d. rewrite !list_elem_of_fmap. split.
      - intros ([d' r'] & -> & Hin%hm_iter_elem). destruct (Hg _ _ Hin) as (_ & p & Hp & Ed). exists p. split; [done|].
        apply list_elem_of_filter. split; [by rewrite Ed; eexists|done].
      - intros (p & -> & [[r' Hr'] _]%list_elem_of_filter). exists (dir_of p, r'). split; [done|]. by apply hm_iter_elem. }
    rewrite <- list_fmap_compose. change ((pick ∘ fst <$> hm_iter g) ≡ₚ (filter (fun p => is_Some (g !! dir_of p)) tabs).*2).
    rewrite list_fmap_compose, Hkeys, <- list_fmap_compose. apply Permutation_refl', list_fmap_ext.
    intros i p Hi%list_elem_of_lookup_2. apply list_elem_of_filter in Hi as [_ Hi]. exact (Hpick p Hi).
  - intros p' ([d r'] & -> & Hin%hm_iter_elem)%list_elem_of_fmap. destruct (Hg _ _ Hin) as (Ed & p & Hp & Ep). exists p. cbn in *.
    unfold dir_of at 2 3. cbn. rewrite Ed. split; [done|]. split; [by rewrite <- (Hpick p Hp), Ep|done].
Qed.

Lemma replaces_elem w tabs rs d r' : replaces w tabs rs -> rs !! d = Some r' -> t_dir (r_sst r') = d /\ exists p, p ∈ tabs /\ dir_of p = d.
Proof. intros Hr Hd. destruct (Hr d r' Hd) as (r & m & Hin & Ed & Hs & _). split; [by rewrite (sf_dir _ _ Hs)|]. by exists (r, m). Qed.

(** The restored ranges as a list of tables *)
Lemma restored_tabs w tabs rs :
  NoDup (dir_of <$> tabs) -> replaces w tabs rs ->
  exists tabs', tabs'.*1 = (hm_iter rs).*2 /\ tabs'.*2 ≡ₚ (filter (fun p => is_Some (rs !! dir_of p)) tabs).*2 /\
    forall p', p' ∈ tabs' -> live_range w p'.1 p'.2 /\ exists p, p ∈ tabs /\ p.2 = p'.2 /\ stands_for p'.1 p.1.
Proof.
  intros Hnd Hr. destruct (retab tabs rs Hnd) as (tabs' & E1 & E2 & E3); [intros d r'; by apply (replaces_elem w)|].
  exists tabs'. split; [done|]. split; [done|]. intros p' Hp'. destruct (E3 p' Hp') as (p & Hp & Em & Ed & Hd).
  destruct (Hr _ _ Hd) as (r & m & Hin & Er & Hs & Hl). assert ((r, m) = p) as <- by (eapply NoDup_key_inj; [exact Hnd|done|done|]; by rewrite Ed).
  cbn in Em. subst m. split; [done|]. by exists (r, p'.2).
Qed.

Lemma filter_split {A} (P : A -> Prop) `{forall x, Decision (P x)} (l : list A) : l ≡ₚ filter (fun x => ~ P x) l ++ filter P l.
Proof.
  induction l as [|x l IH]; [done|]. rewrite !filter_cons. destruct (decide (P x)).
  - rewrite decide_False by tauto. rewrite <- Permutation_middle. by f_equiv.
  - rewrite decide_True by done. cbn. by f_equiv.
Qed.

(** [filter_sstables_by_key_range] *)
Lemma filter_sstables_ready kr k tabs w :
  indexed w kr tabs -> tabs_ready w tabs ->
  exists sel rest w', filter_sstables_by_key_range kr k w = (Ok (r_sst <$> sel.*1, rest), w') /\ heap_ext w w' /\
    Forall (fun p : Range * M SkipMapValue => table_holds w' (r_sst p.1) p.2) sel /\ hits_in k sel ≡ₚ hits_in k tabs /\
    (restored_ranges kr = ∅ -> hits_in k sel = hits_in k tabs) /\ from_tabs w w' tabs rest /\
    (Forall (fun p => live_range w p.1 p.2) tabs -> w' = w /\ rest = ∅).
Proof.
  intros Hi Hready. pose proof (indexed_NoDup _ _ _ Hi) as Hnd. destruct (restored_tabs w tabs _ Hnd (ix_restored _ _ _ Hi)) as (Rt & E1 & E2 & E3).
  destruct (check_ranges_live k Rt w) as (sel0 & Hk0 & Ec); [apply Forall_forall; intros p' Hp'; by apply E3|].
  assert ((if decide (restored_ranges kr <> ∅) then check_restored_key_ranges kr k else mret []) w = (Ok (r_sst <$> sel0.*1), w)) as E0.
  { case_decide as Er; [unfold check_restored_key_ranges; by rewrite <- E1|]. rewrite Er in E1. unfold hm_iter in E1.
    rewrite map_to_list_empty in E1. assert (Rt = []) as ->; [|by inversion Hk0]. apply (fmap_nil_inv fst). rewrite E1.
    pose proof (hash_iter_perm (@nil (list string * Range))) as Hp. by apply Permutation_nil_r in Hp as ->. }
  unfold filter_sstables_by_key_range. run E0. rewrite <- (ix_tabs _ _ _ Hi).
  destruct (filter_loop_ready kr k tabs (r_sst <$> sel0.*1) ∅ w Hready) as (sel & rest & w' & E & Hg & Hs & Hh & Hf & Hl).
  exists (sel0 ++ sel), rest, w'. split; [by rewrite E, !fmap_app|]. split; [done|]. split; [|split; [|split; [|split; [|done]]]].
  - apply Forall_app. split; [|done]. apply Forall_forall. intros p' Hp'%(kept_elem _ _ _ _ Hk0). destruct (E3 p' Hp') as (_ & p & Hp & Em & Hst).
    unfold tabs_ready in Hready. rewrite Forall_forall in Hready. eapply holds_stands; [apply Hg|exact Hst|]. rewrite <- Em. by apply Hready.
  - rewrite hits_in_app, (hits_in_kept _ _ _ Hk0), Hh, (hits_in_perm k Rt _ E2), <- hits_in_app. apply hits_in_perm. apply fmap_Permutation.
    rewrite (filter_split (fun p => is_Some (restored_ranges kr !! dir_of p)) tabs) at 3. rewrite Permutation_app_comm. f_equiv.
    apply Permutation_refl', list_filter_iff. intros p. unfold unrestored, dir_of. by rewrite eq_None_not_Some.
  - intros Er. rewrite hits_in_app, (hits_in_kept _ _ _ Hk0), Hh. assert (Rt = []) as ->.
    { apply (fmap_nil_inv snd), Permutation_nil_r. rewrite E2, Er. rewrite filter_false; [done|]. intros p _. rewrite lookup_empty. by intros []. }
    cbn. f_equal. apply filter_true. intros p _. unfold unrestored. by rewrite Er, lookup_empty.
  - intros d r' [Hd|?]%Hf; [by rewrite lookup_empty in Hd|done].
Qed.

(** ** [update_key_range] *)
Lemma update_key_range_restored kr : restored_ranges (update_key_range kr) = ∅.
Proof. unfold update_key_range. by case_decide. Qed.

Lemma update_key_range_tabs kr tabs w :
  indexed w kr tabs -> exists tabs', tabs'.*1 = (hm_iter (key_ranges (update_key_range kr))).*2 /\ tabs'.*2 ≡ₚ tabs.*2 /\
    (forall d r, key_ranges (update_key_range kr) !! d = Some r -> t_dir (r_sst r) = d) /\
    (forall d, is_Some (key_ranges (update_key_range kr) !! d) <-> is_Some (key_ranges kr !! d)) /\
    (restored_ranges kr = ∅ -> tabs' = tabs) /\
    forall p', p' ∈ tabs' -> p' ∈ tabs \/ exists r d, (r, p'.2) ∈ tabs /\ restored_ranges kr !! d = Some p'.1 /\ stands_for p'.1 r.
Proof.
  intros Hi. pose proof (indexed_NoDup _ _ _ Hi) as Hnd. pose proof (indexed_dirs _ _ _ Hi) as Hdirs. destruct Hi as [I1 I2 I3].
  assert (forall p, p ∈ tabs <-> p ∈ tabs /\ key_ranges kr !! dir_of p = Some p.1) as Hin.
  { intros p. split; [|tauto]. intros Hp. split; [done|]. assert (p.1 ∈ (hm_iter (key_ranges kr)).*2) as ([d r] & E & Hr)%list_elem_of_fmap
      by (rewrite <- I1; apply list_elem_of_fmap; by exists p). apply hm_iter_elem in Hr. cbn in E. unfold dir_of. rewrite E, (I2 _ _ Hr). done. }
  assert (forall d, is_Some (key_ranges kr !! d) -> exists p, p ∈ tabs /\ dir_of p = d) as Hex.
  { intros d [r Hd%hm_iter_elem]. assert (d ∈ dir_of <$> tabs) as (p & -> & Hp)%list_elem_of_fmap by (rewrite Hdirs; apply list_elem_of_fmap; by exists (d, r)).
    by exists p. }
  assert (forall d r, key_ranges (update_key_range kr) !! d = Some r -> t_dir (r_sst r) = d /\ exists p, p ∈ tabs /\ dir_of p = d) as Hk'.
  { intros d r. rewrite update_key_range_lookup. destruct (restored_ranges kr !! d) as [r'|] eqn:Er.
    - intros [= <-]. by eapply replaces_elem.
    - intros Hd. split; [by apply I2|]. apply Hex. by eexists. }
  destruct (decide (restored_ranges kr = ∅)) as [Er|Er].
  { exists tabs. unfold update_key_range. rewrite decide_True by done. split; [done|]. split; [done|]. split; [done|]. split; [done|]. split; [done|]. by left. }
  destruct (retab tabs (key_ranges (update_key_range kr)) Hnd Hk') as (tabs' & E1 & E2 & E3).
  exists tabs'. split; [done|]. split; [|split; [intros d r Hd; by apply (Hk' d r)|split; [|split; [done|]]]].
  - rewrite E2, filter_true; [done|]. intros p Hp. rewrite update_key_range_lookup. apply Hin in Hp as [_ Hp].
    destruct (restored_ranges kr !! _); [by eexists|]. by eexists.
  - intros d. rewrite update_key_range_lookup. destruct (restored_ranges kr !! d) as [r'|] eqn:Ed; [|done]. split; [intros _|by eexists].
    destruct (replaces_elem _ _ _ _ _ I3 Ed) as (_ & p & Hp & <-). apply Hin in Hp as [_ Hp]. by eexists.
  - intros p' Hp'. destruct (E3 p' Hp') as (p & Hp & Em & Ed & Hd). rewrite update_key_range_lookup in Hd.
    destruct (restored_ranges kr !! dir_of p') as [r'|] eqn:Er'.
    + injection Hd as ->. right. destruct (I3 _ _ Er') as (r & m & Hrm & Er0 & Hs & _). assert ((r, m) = p) as <- by (eapply NoDup_key_inj; [exact Hnd|done|done|]; by rewrite Ed).
      cbn in Em. subst m. by exists r, (dir_of p').
    + left. apply Hin in Hp as [Hp Hpd]. rewrite Ed, Hd in Hpd. injection Hpd as Hpd. by destruct p, p'; cbn in *; subst.
Qed.
End search.
