(* ===== verification/Bucket.v ===== *)
(** * Buckets of SSTables ([src/bucket/bucket_manager.rs], [src/compactors/insertor.rs])

    A bucket groups tables of similar size; the bucket map keeps buckets in
    insertion order ([IndexMap]). *)

From stdpp Require Import prelude gmap strings pretty list.
From Stdlib Require Import Strings.Byte ZArith Lia.
From S2P Require Import Prelude Consts SkipMap FileIO Types World Block Index Bloom SSTable MemTable.
Open Scope Z_scope.

(** ** What can be inserted to a bucket: the trait [InsertableToBucket] *)
Class InsertableToBucket (T : Type) := {
  get_entries : T -> nat;
  ins_size : T -> Z;
  get_filter : T -> outcome Error BloomFilter;
}.

Record TableInsertor := mkTI {
  ti_entries : nat;
  ti_size : Z;
  ti_filter : BloomFilter;
}.

#[export] Instance memtable_insertable : InsertableToBucket MemTable :=
  {| get_entries := mt_entries; ins_size := mt_size; get_filter t := Ok (bloom_filter t) |}.
#[export] Instance table_insertable : InsertableToBucket Table :=
  {| get_entries := t_entries; ins_size := t_size; get_filter t := unwrap (t_filter t) |}.
#[export] Instance insertor_insertable : InsertableToBucket TableInsertor :=
  {| get_entries := ti_entries; ins_size := ti_size; get_filter t := Ok (ti_filter t) |}.

Record Bucket := mkBucket {
  bk_id : string;
  bk_dir : list string;
  bk_size : Z;
  avarage_size : Z;
  sstables : list Table;
}.

Record BucketMap := mkBucketMap {
  bm_dir : list string;
  buckets : list (string * Bucket);
}.

Inductive InsertionType := New | Exisiting.

(** [IndexMap::insert]: an existing key keeps its place *)
Fixpoint im_insert (id : string) (b : Bucket) (l : list (string * Bucket)) : list (string * Bucket) :=
  match l with
  | [] => [(id, b)]
  | (id', b') :: l' => if decide (id = id') then (id', b) :: l' else (id', b') :: im_insert id b l'
  end.
Fixpoint im_get (id : string) (l : list (string * Bucket)) : option Bucket :=
  match l with
  | [] => None
  | (id', b) :: l' => if decide (id = id') then Some b else im_get id l'
  end.
(** [IndexMap::shift_remove] *)
Fixpoint im_shift_remove (id : string) (l : list (string * Bucket)) : list (string * Bucket) :=
  match l with
  | [] => []
  | (id', b) :: l' => if decide (id = id') then l' else (id', b) :: im_shift_remove id l'
  end.

(** ** [fits_into_bucket]

    [round53 n] is [n as f64] for a [usize]: round to nearest, ties to even, on a
    53-bit significand. Multiplying by [0.5] is exact; [1.5 * a] rounds [3a/2]. *)
Definition round53 (n : Z) : Z :=
  if decide (n < 2 ^ 53) then n else
  let e := Z.log2 n - 52 in
  let q := n / 2 ^ e in
  let r := n mod 2 ^ e in
  if decide (r > 2 ^ (e - 1) \/ (r = 2 ^ (e - 1) /\ Z.odd q = true)) then (q + 1) * 2 ^ e else q * 2 ^ e.

(** [avg as f64 * BUCKET_LOW < size as f64] *)
Definition above_low (avg size : Z) : bool := bool_decide (round53 avg < 2 * round53 size).
(** [(avg as f64 * BUCKET_HIGH) as usize]: the cast truncates and saturates *)
Definition bucket_high (avg : Z) : Z := Z.min (round53 (3 * round53 avg) / 2) (2 ^ 64 - 1).

(** [Bucket::fits_into_bucket] *)
Definition fits_into_bucket {T} `{InsertableToBucket T} (b : Bucket) (table : T) : bool :=
  (above_low (avarage_size b) (ins_size table) && bool_decide (ins_size table < bucket_high (avarage_size b)))
  || (bool_decide (ins_size table < MIN_SSTABLE_SIZE) && bool_decide (avarage_size b < MIN_SSTABLE_SIZE)).

(** [Bucket::sstable_count_exceeds_threshhold] *)
Definition sstable_count_exceeds_threshhold (b : Bucket) : bool := bool_decide (zlen (sstables b) >= MIN_TRESHOLD).

(** [BucketMap::is_balanced] *)
Definition is_balanced (bm : BucketMap) : bool :=
  negb (existsb (fun p => sstable_count_exceeds_threshhold p.2) (buckets bm)).

Section bucket.
Context `{Env} {M : Type -> Type} `{SkipMap M}.
Abbreviation W := (World M).

(** [TableInsertor::default], [from], [set_entries] *)
Definition ti_default : io W Error TableInsertor :=
  l ← alloc_map sm_new; f ← bf_default; mret (mkTI l 0 f).
Definition ti_from (entries : nat) (f : BloomFilter) : io W Error TableInsertor :=
  m ← read_map entries; mret (mkTI entries (entries_byte_size m) f).
Definition ti_set_entries (ti : TableInsertor) (entries : nat) : io W Error TableInsertor :=
  m ← read_map entries; mret (mkTI entries (entries_byte_size m) (ti_filter ti)).

(** [Bucket::new] *)
Definition bucket_new (dir : list string) : io W Error Bucket :=
  id ← gen_uuid;
  let dir := dir ++ [String.append "bucket" id] in
  _ ← on_fs (create_dir_all dir);
  mret (mkBucket id dir 0 0 []).

(** The sizes of the data files, by path; a missing file panics *)
Fixpoint sum_file_sizes (ssts : list Table) : io W Error Z :=
  match ssts with
  | [] => mret 0
  | s :: ssts' =>
      len ← io_unwrap (on_fs (path_len (file_path (data_file s))));
      rest ← sum_file_sizes ssts';
      mret (len + rest)
  end.

(** [Bucket::cal_average_size] *)
Definition cal_average_size (ssts : list Table) : io W Error Z :=
  match ssts with
  | [] => mret 0
  | _ => size ← sum_file_sizes ssts; mret (size / zlen ssts)
  end.

(** [Bucket::from] *)
Definition bucket_from (dir : list string) (id : string) (ssts : list Table) (avg : Z) : io W Error Bucket :=
  avg ← (if decide (avg = 0) then cal_average_size ssts else mret avg);
  mret (mkBucket id dir (zlen ssts * avg) avg ssts).

(** [Bucket::extract_sstables] *)
Definition extract_sstables (b : Bucket) : io W Error (list Table * Z) :=
  if decide (zlen (sstables b) < MIN_TRESHOLD) then mret ([], 0) else
  let extracted :=
    if decide (MAX_TRESHOLD <= zlen (sstables b)) then take (Z.to_nat MAX_TRESHOLD) (sstables b) else sstables b in
  average ← cal_average_size extracted;
  mret (extracted, average).

(** [BucketMap::new] *)
Definition bucket_map_new (dir : list string) : io W Error BucketMap :=
  _ ← on_fs (create_dir_all dir); mret (mkBucketMap dir []).

(** The directory of a new table: [sstable_<milliseconds>] *)
Definition sst_dir_name (t : DateTime) : string := String.append "sstable_" (pretty (timestamp_millis t)).

(** The part of [BucketMap::insert_to_bucket] that makes the table: new files, the
    shared entries, the filter, then the write *)
Definition make_table {T} `{InsertableToBucket T} (sst_dir : list string) (table : T) : io W Error Table :=
  sst ← table_new sst_dir;
  sst ← table_set_entries sst (get_entries table);
  filter ← io_lift (get_filter table);
  table_write_to_file (t_with_filter sst (Some filter)).

(** [BucketMap::insert_to_bucket] *)
Definition insert_to_bucket {T} `{InsertableToBucket T} (bm : BucketMap) (bucket : Bucket) (table : T)
    (insert_type : InsertionType) : io W Error (Table * BucketMap) :=
  created_at ← now;
  let sst_dir := bk_dir bucket ++ [sst_dir_name created_at] in
  sst ← make_table sst_dir table;
  let ssts := sstables bucket ++ [sst] in
  match insert_type with
  | New =>
      avg ← on_fs (path_len (file_path (data_file sst)));
      let bucket := mkBucket (bk_id bucket) (bk_dir bucket) (bk_size bucket) avg ssts in
      mret (sst, mkBucketMap (bm_dir bm) (im_insert (bk_id bucket) bucket (buckets bm)))
  | Exisiting =>
      let ssts := increase_hotness <$> ssts in
      avg ← cal_average_size ssts;
      let bucket := mkBucket (bk_id bucket) (bk_dir bucket) (avg * zlen ssts) avg ssts in
      mret (sst, mkBucketMap (bm_dir bm) (im_insert (bk_id bucket) bucket (buckets bm)))
  end.

(** [BucketMap::insert_to_appropriate_bucket] *)
Definition insert_to_appropriate_bucket {T} `{InsertableToBucket T} (bm : BucketMap) (table : T)
    : io W Error (Table * BucketMap) :=
  match List.find (fun p => fits_into_bucket p.2 table) (buckets bm) with
  | Some (_, bucket) => insert_to_bucket bm bucket table Exisiting
  | None => bucket ← bucket_new (bm_dir bm); insert_to_bucket bm bucket table New
  end.

(** [BucketMap::extract_imbalanced_buckets] *)
Fixpoint extract_loop (bs : list (string * Bucket)) : io W Error (list Bucket * list (string * list Table)) :=
  match bs with
  | [] => mret ([], [])
  | (bucket_id, bucket) :: bs' =>
      '(ssts, avg) ← extract_sstables bucket;
      '(imbalanced, to_delete) ← extract_loop bs';
      match ssts with
      | [] => mret (imbalanced, to_delete)
      | _ => mret (mkBucket bucket_id (bk_dir bucket) (avg * zlen ssts) avg ssts :: imbalanced,
                   (bucket_id, ssts) :: to_delete)
      end
  end.
Definition extract_imbalanced_buckets (bm : BucketMap) : io W Error (list Bucket * list (string * list Table)) :=
  extract_loop (buckets bm).

(** Deleting the directories of merged tables: false if one could not be removed *)
Fixpoint delete_sst_dirs (ssts : list Table) : io W Error bool :=
  match ssts with
  | [] => mret true
  | s :: ssts' => fun w =>
      if path_exists (w_fs w) (t_dir s) then
        match on_fs (remove_dir_all (t_dir s)) w with
        | (Ok _, w') => delete_sst_dirs ssts' w'
        | (_, w') => (_ ← delete_sst_dirs ssts'; mret false) w'
        end
      else delete_sst_dirs ssts' w
  end.

(** The loop of [BucketMap::delete_ssts]: the map, the buckets to delete and
    whether every table was removed *)
Fixpoint delete_loop (bm : BucketMap) (ssts_to_delete : list (string * list Table))
    : io W Error (BucketMap * list string * bool) :=
  match ssts_to_delete with
  | [] => mret (bm, [], true)
  | (bucket_id, ssts) :: rest =>
      '(bm, dead) ← (match im_get bucket_id (buckets bm) with
        | None => mret (bm, [])
        | Some bucket =>
            match drop (length ssts) (sstables bucket) with
            | [] => fun w => (Ok (bm, [bucket_id]), snd (on_fs (remove_dir_all (bk_dir bucket)) w))
            | remaining =>
                new_average ← cal_average_size remaining;
                let bucket' := mkBucket (bk_id bucket) (bk_dir bucket) (new_average * zlen remaining) new_average remaining in
                mret (mkBucketMap (bm_dir bm) (im_insert bucket_id bucket' (buckets bm)), [])
            end
        end);
      all ← delete_sst_dirs ssts;
      '(bm, dead', all') ← delete_loop bm rest;
      mret (bm, dead ++ dead', all && all')
  end.

(** [BucketMap::delete_ssts] *)
Definition delete_ssts (bm : BucketMap) (ssts_to_delete : list (string * list Table)) : io W Error (BucketMap * bool) :=
  '(bm, buckets_to_delete, all_ssts_deleted) ← delete_loop bm ssts_to_delete;
  mret (mkBucketMap (bm_dir bm) (fold_left (fun l id => im_shift_remove id l) buckets_to_delete (buckets bm)),
        all_ssts_deleted).

(** [BucketMap::clear_all]: failures are only logged *)
Fixpoint clear_dirs (bs : list (string * Bucket)) : io W Error unit :=
  match bs with
  | [] => mret tt
  | (_, b) :: bs' => fun w =>
      clear_dirs bs' (if path_exists (w_fs w) (bk_dir b) then (on_fs (remove_dir_all (bk_dir b)) w).2 else w)
  end.
Definition bm_clear_all (bm : BucketMap) : io W Error BucketMap :=
  _ ← clear_dirs (buckets bm); mret (mkBucketMap (bm_dir bm) []).

(** ** Lemmas *)

Lemma im_get_insert id id' b l :
  im_get id' (im_insert id b l) = if decide (id' = id) then Some b else im_get id' l.
Proof.
  induction l as [|[i b'] l IH]; simpl; [by case_decide|].
  destruct (decide (id = i)) as [->|]; simpl; repeat case_decide; subst; try done.
Qed.

Lemma with_fs_id (w : W) : with_fs w (w_fs w) = w.
Proof. by destruct w. Qed.

(** The data file of every table can be found by its path. *)
Definition files_named (fs : FS) (ssts : list Table) : Prop :=
  Forall (fun t => names fs !! file_path (data_file t) = Some (file (data_file t))) ssts.

Definition data_len (fs : FS) (t : Table) : Z := zlen (content fs (file (data_file t))).

Lemma path_len_named (w : W) t :
  names (w_fs w) !! file_path (data_file t) = Some (file (data_file t)) ->
  on_fs (path_len (file_path (data_file t))) w = (Ok (data_len (w_fs w) t), w).
Proof. intros Hn. unfold on_fs, path_len. rewrite Hn. by rewrite with_fs_id. Qed.

Lemma sum_file_sizes_named (w : W) ssts :
  files_named (w_fs w) ssts ->
  sum_file_sizes ssts w = (Ok (foldr (fun t acc => data_len (w_fs w) t + acc) 0 ssts), w).
Proof.
  intros Hn. induction Hn as [|t ssts Ht Hn IH]; [done|]. cbn [sum_file_sizes].
  run (io_unwrap_ok _ _ _ _ (path_len_named w t Ht)). by run IH.
Qed.

(** The average size of the data files, rounded down. *)
Definition average_len (fs : FS) (ssts : list Table) : Z :=
  foldr (fun t acc => data_len fs t + acc) 0 ssts / zlen ssts.

Lemma cal_average_size_named (w : W) ssts :
  files_named (w_fs w) ssts -> cal_average_size ssts w = (Ok (average_len (w_fs w) ssts), w).
Proof.
  intros Hn. unfold cal_average_size. destruct ssts as [|t ssts]; [done|]. by run (sum_file_sizes_named w (t :: ssts) Hn).
Qed.

Lemma files_named_hot fs ssts : files_named fs (increase_hotness <$> ssts) <-> files_named fs ssts.
Proof. unfold files_named. by rewrite Forall_fmap. Qed.

Lemma table_ready_adjust (w : W) t l z f :
  table_ready w t -> 0 <= z -> table_ready w (t_with_filter (t_with_size (t_with_entries t l) z) f).
Proof. intros [] Hz. by split. Qed.

Lemma entries_byte_size_nonneg (m : M SkipMapValue) : 0 <= entries_byte_size m.
Proof.
  unfold entries_byte_size. induction (sm_iter m) as [|p l IH]; cbn [foldr]; [done|].
  pose proof (zlen_nonneg p.1). unfold SIZE_OF_USIZE, SIZE_OF_U64, SIZE_OF_U8 in *. lia.
Qed.

Lemma names_four (d : list string) (n1 n2 n3 n4 : nat) (nm : gmap (list string) nat) p i :
  <[d ++ ["filter.db"%string] := n4]> (<[summary_file_path d := n3]>
    (<[index_file_path d := n2]> (<[data_file_path d := n1]> nm))) !! p = Some i ->
  (parent p = d /\ (i = n1 \/ i = n2 \/ i = n3 \/ i = n4)) \/ nm !! p = Some i.
Proof.
  intros [[<- <-]|[_ Hp]]%lookup_insert_Some; [left; rewrite parent_snoc; tauto|].
  apply lookup_insert_Some in Hp as [[<- <-]|[_ Hp]]; [left; unfold summary_file_path; rewrite parent_snoc; tauto|].
  apply lookup_insert_Some in Hp as [[<- <-]|[_ Hp]]; [left; unfold index_file_path; rewrite parent_snoc; tauto|].
  apply lookup_insert_Some in Hp as [[<- <-]|[_ Hp]]; [left; unfold data_file_path; rewrite parent_snoc; tauto|by right].
Qed.

(** The files of a table directory *)
Definition table_files : list string := ["data.db"; "index.db"; "summary.db"; "filter.db"]%string.

Lemma path_exists_spec fs q : path_exists fs q = true <-> (q ∈ dirs fs \/ is_Some (names fs !! q)).
Proof. unfold path_exists. by rewrite orb_true_iff, !bool_decide_eq_true. Qed.

Lemma names_four_name (d : list string) (n1 n2 n3 n4 : nat) (nm : gmap (list string) nat) p i :
  <[d ++ ["filter.db"%string] := n4]> (<[summary_file_path d := n3]>
    (<[index_file_path d := n2]> (<[data_file_path d := n1]> nm))) !! p = Some i ->
  (exists x, p = d ++ [x] /\ x ∈ table_files) \/ nm !! p = Some i.
Proof.
  unfold table_files. intros [[<- <-]|[_ Hp]]%lookup_insert_Some; [left; eexists; split; [done|set_solver]|].
  do 3 (apply lookup_insert_Some in Hp as [[<- <-]|[_ Hp]]; [left; eexists; split; [done|set_solver]|]). by right.
Qed.

Lemma names_four_is_Some (d : list string) (n1 n2 n3 n4 : nat) (nm : gmap (list string) nat) q :
  is_Some (<[d ++ ["filter.db"%string] := n4]> (<[summary_file_path d := n3]>
    (<[index_file_path d := n2]> (<[data_file_path d := n1]> nm))) !! q) <->
  is_Some (nm !! q) \/ exists x, q = d ++ [x] /\ x ∈ table_files.
Proof.
  split.
  - intros [i [Hq|Hq]%names_four_name]; [by right|left; by eexists].
  - rewrite !lookup_insert_is_Some'. intros [Hq|(x & -> & Hx)]; [tauto|]. unfold table_files in Hx.
    repeat (apply elem_of_cons in Hx as [->|Hx]; [unfold summary_file_path, index_file_path, data_file_path; tauto|]).
    by apply not_elem_of_nil in Hx.
Qed.

(** What making a table guarantees, for the caller and for everyone else. *)
Record made_table (w w' : W) (dir : list string) (loc : nat) (f : BloomFilter) (m : M SkipMapValue) (t : Table) : Prop := {
  md_holds : table_holds w' t m;
  md_dir : t_dir t = dir;
  md_entries : t_entries t = loc;
  md_filter : exists g, t_filter t = Some g /\ bit_vec g = bit_vec f /\ no_of_hash_func g = no_of_hash_func f /\
                bf_sst_dir g = Some (file_path (data_file t));
  md_summary : exists s, t_summary t = Some s /\ (smallest_key s, biggest_key s) = bounds_of m;
  md_named : names (w_fs w') !! file_path (data_file t) = Some (file (data_file t));
  md_listed : dir ∈ dirs (w_fs w');
  md_index : (file (index_file t) < next_inode (w_fs w'))%nat;
  md_new_inode : (next_inode (w_fs w) <= file (data_file t))%nat;
  md_new_index : (next_inode (w_fs w) <= file (index_file t))%nat;
  md_inodes : (next_inode (w_fs w) <= next_inode (w_fs w'))%nat;
  md_wf : fs_wf (w_fs w');
  md_names p i : names (w_fs w) !! p = Some i -> names (w_fs w') !! p = Some i;
  md_content j : (j < next_inode (w_fs w))%nat -> content (w_fs w') j = content (w_fs w) j;
  md_map l : (l < w_next w)%nat -> the_map w' l = the_map w l;
  md_bits l : the_bits w' l = the_bits w l;
  md_next : (w_next w <= w_next w')%nat;
  md_paths q : path_exists (w_fs w') q = true -> path_exists (w_fs w) q = true \/ q `prefix_of` dir \/
    exists x, q = dir ++ [x] /\ x ∈ table_files;
  md_dirs q : q ∈ dirs (w_fs w') <-> q ∈ dirs (w_fs w) \/ q `prefix_of` dir;
  md_files q : is_Some (names (w_fs w') !! q) <-> is_Some (names (w_fs w) !! q) \/ exists x, q = dir ++ [x] /\ x ∈ table_files;
  md_data_path : file_path (data_file t) = data_file_path dir;
  md_index_named : names (w_fs w') !! index_file_path dir = Some (file (index_file t));
  md_summary_file : exists i s, names (w_fs w') !! summary_file_path dir = Some i /\ content (w_fs w') i = summary_serialize s /\
    (smallest_key s, biggest_key s) = bounds_of m;
  md_filter_file : exists i, names (w_fs w') !! (dir ++ ["filter.db"%string]) = Some i /\ content (w_fs w') i = bf_serialize f;
  md_fresh q i : names (w_fs w') !! q = Some i -> names (w_fs w) !! q = Some i \/ (next_inode (w_fs w) <= i)%nat;
}.

Lemma make_table_spec {T} `{InsertableToBucket T} dir (x : T) f (w : W) :
  let m := the_map w (get_entries x) in
  fs_wf (w_fs w) -> path_exists (w_fs w) dir = false -> get_filter x = Ok f ->
  (get_entries x < w_next w)%nat -> storable m ->
  exists t w', make_table dir x w = (Ok t, w') /\ made_table w w' dir (get_entries x) f m t /\ w_ticks w' = S (w_ticks w).
Proof.
  intros m Hwf Hp Hf Hloc Hst.
  destruct (table_new_ready dir w Hwf Hp)
    as (t0 & w1 & E1 & Hdir & _ & _ & Hx1 & Hb1 & Hm1 & Hdf & Hif & Hr & _ & Hn1 & Hd1 & Hi1 & Hc1 & Ht1 & Hq1).
  assert (the_map w1 (get_entries x) = m) as Hmap.
  { unfold the_map. rewrite Hm1, lookup_insert_ne by lia. done. }
  unfold make_table. run E1. unfold table_set_entries. run_simpl. rewrite Hf, Hmap. run_simpl.
  match goal with |- context [table_write_to_file ?t] => set (t1 := t) end.
  destruct (table_write_holds t1 f w1) as (fs' & E2 & Hh & Hn2 & Hd2 & Hi2 & Hc2 & Hsf & Hff).
  { done. }
  { apply table_ready_adjust; [done|apply entries_byte_size_nonneg]. }
  { change (t_entries t1) with (get_entries x). by rewrite Hmap. }
  change (t_entries t1) with (get_entries x) in E2, Hh, Hsf. rewrite Hmap in E2, Hh, Hsf.
  do 2 eexists. split; [exact E2|]. change (t_dir t1) with (t_dir t0) in Hn2.
  change (data_file t1) with (data_file t0) in *. change (index_file t1) with (index_file t0) in *.
  rewrite Hdir, Hn1 in Hn2. rewrite Hdf, Hif in Hc2. cbn [file] in Hc2.
  assert (forall s s' : string, s <> s' -> dir ++ [s] <> dir ++ [s']) as Hne by (by intros s s' Hs [= E]%app_inv_head).
  split; [|exact Ht1]. split; cbn [w_fs with_fs t_dir t_entries written_table w_next].
  - done.
  - done.
  - done.
  - eexists. split; [done|]. done.
  - eexists. split; [done|]. by destruct (bounds_of m).
  - cbn [data_file written_table]. change (data_file t1) with (data_file t0). rewrite Hn2, Hdf. cbn [file_path file].
    unfold data_file_path, index_file_path, summary_file_path. rewrite !lookup_insert_ne by by apply Hne.
    by rewrite lookup_insert_eq.
  - rewrite Hd2, <- Hdir. apply (tr_dir _ _ Hr).
  - cbn [index_file written_table]. change (index_file t1) with (index_file t0). rewrite Hif. cbn [file]. lia.
  - cbn [data_file written_table]. change (data_file t1) with (data_file t0). rewrite Hdf. cbn [file]. lia.
  - cbn [index_file written_table]. change (index_file t1) with (index_file t0). rewrite Hif. cbn [file]. lia.
  - lia.
  - split; intros p i; rewrite Hn2; intros [[Hpar Hi]|Hp']%names_four; rewrite ?Hd2, ?Hi2, ?Hi1.
    + rewrite Hpar, <- Hdir. apply (tr_dir _ _ Hr).
    + apply Hd1. by eapply Hwf.
    + lia.
    + apply (wf_inode _ Hwf) in Hp'. lia.
  - intros p i Hpi. rewrite Hn2.
    assert (forall s, names (w_fs w) !! (dir ++ [s]) = None) as Hfresh.
    { intros s. apply wf_fresh_name; [done|]. by apply path_exists_false in Hp as [? _]. }
    unfold data_file_path, index_file_path, summary_file_path.
    rewrite !lookup_insert_ne; [done|..]; intros <-; by rewrite Hfresh in Hpi.
  - intros j Hj. rewrite Hc2 by lia. by apply Hc1.
  - intros l Hl. unfold the_map. cbn. rewrite Hm1, lookup_insert_ne by lia. done.
  - intros l. unfold the_bits. cbn. by rewrite Hb1.
  - lia.
  - intros q. rewrite !path_exists_spec, Hd2, Hn2. intros [[Hq|Hq]%Hq1|[i Hq]]; [by left; left|by right; left|].
    apply names_four_name in Hq as [Hq|Hq]; [by right; right|left; right; by exists i].
  - intros q. by rewrite Hd2.
  - intros q. rewrite Hn2. apply names_four_is_Some.
  - cbn [data_file written_table]. change (data_file t1) with (data_file t0). by rewrite Hdf.
  - cbn [index_file written_table]. change (index_file t1) with (index_file t0). rewrite Hn2, Hif. cbn [file].
    unfold index_file_path, summary_file_path. by rewrite !lookup_insert_ne, lookup_insert_eq by by apply Hne.
  - eexists _, _. split; [|split; [exact Hsf|]]; [|symmetry; apply surjective_pairing]. rewrite Hn2. unfold summary_file_path.
    by rewrite lookup_insert_ne, lookup_insert_eq by by apply Hne.
  - eexists. split; [|exact Hff]. by rewrite Hn2, lookup_insert_eq.
  - intros q i. rewrite Hn2. intros [[_ Hq]|Hq]%names_four; [right; lia|by left].
Qed.

(** ** The bucket map as a collection of tables *)

(** Tables up to their use counter. *)
Definition cool (t : Table) : Table :=
  mkTable (t_dir t) 0 (t_size t) (t_created_at t) (data_file t) (index_file t) (t_entries t) (t_filter t) (t_summary t).

Definition all_tables (l : list (string * Bucket)) : list Table := mjoin (sstables ∘ snd <$> l).
Definition bm_tables (bm : BucketMap) : list Table := all_tables (buckets bm).

Lemma all_tables_cons p l : all_tables (p :: l) = sstables p.2 ++ all_tables l.
Proof. done. Qed.

Record bm_wf (w : W) (bm : BucketMap) : Prop := {
  bw_ids : Forall (fun p => p.1 = bk_id p.2) (buckets bm);
  bw_nodup : NoDup (buckets bm).*1;
  bw_named : files_named (w_fs w) (bm_tables bm);
  bw_index : Forall (fun t => (file (index_file t) < next_inode (w_fs w))%nat) (bm_tables bm);
  bw_fs : fs_wf (w_fs w);
}.

Lemma im_get_elem id b l : im_get id l = Some b -> (id, b) ∈ l.
Proof.
  induction l as [|[i b'] l IH]; simpl; [done|]. case_decide; [intros [= ->]; subst; left|intros; right; auto].
Qed.

Lemma im_get_NoDup id b l : NoDup l.*1 -> (id, b) ∈ l -> im_get id l = Some b.
Proof.
  induction l as [|[i b'] l IH]; intros Hnd Hin; [set_solver|]. simpl. apply NoDup_cons in Hnd as [Hni Hnd].
  apply elem_of_cons in Hin as [[= -> ->]|Hin]; [by rewrite decide_True|].
  rewrite decide_False; [auto|]. intros ->. apply Hni, list_elem_of_fmap. by exists (i, b).
Qed.

Lemma im_insert_new id b l : id ∉ l.*1 -> im_insert id b l = l ++ [(id, b)].
Proof.
  induction l as [|[i b'] l IH]; [done|]. cbn. intros [Hn Hl]%not_elem_of_cons. rewrite decide_False by done. by rewrite IH.
Qed.

Lemma im_insert_all l l0 : NoDup (l0 ++ l).*1 -> foldl (fun l p => im_insert p.1 p.2 l) l0 l = l0 ++ l.
Proof.
  revert l0. induction l as [|[id b] l IH]; intros l0 Hnd; [by rewrite app_nil_r|]. cbn [foldl fst snd].
  rewrite fmap_app, fmap_cons in Hnd. pose proof Hnd as (_ & Hn & _)%NoDup_app. rewrite im_insert_new.
  - rewrite IH; by rewrite <- app_assoc, ?fmap_app, ?fmap_cons.
  - intros Hin. apply (Hn id Hin). by left.
Qed.

Lemma im_insert_keys id b l :
  (im_insert id b l).*1 = if decide (id ∈ l.*1) then l.*1 else l.*1 ++ [id].
Proof.
  induction l as [|[i b'] l IH]; [by rewrite decide_False by (simpl; set_solver)|].
  cbn [im_insert]. destruct (decide (id = i)) as [->|Hne]; rewrite !fmap_cons.
  - by rewrite decide_True by (simpl; set_solver).
  - rewrite IH. cbn [fst]. destruct (decide (id ∈ l.*1)).
    + by rewrite decide_True by set_solver.
    + by rewrite decide_False by set_solver.
Qed.

Lemma im_insert_Forall (P : string * Bucket -> Prop) id b l :
  P (id, b) -> Forall P l -> Forall P (im_insert id b l).
Proof.
  intros Hp Hl. induction Hl as [|[i b'] l Hb Hl IH]; simpl; [by repeat constructor|].
  case_decide; subst; by constructor.
Qed.

(** Replacing a bucket changes the collection by that bucket's tables only. *)
Lemma all_tables_insert id b l :
  all_tables (im_insert id b l) ≡ₚ
  match im_get id l with
  | Some b0 => sstables b ++ (all_tables (im_shift_remove id l))
  | None => sstables b ++ all_tables l
  end.
Proof.
  induction l as [|[i b'] l IH]; [done|]. cbn [im_insert im_get im_shift_remove].
  destruct (decide (id = i)) as [->|]; [done|]. rewrite all_tables_cons, IH.
  destruct (im_get id l); rewrite !all_tables_cons, !app_assoc; f_equiv; apply Permutation_app_comm.
Qed.

Lemma all_tables_get id b l :
  im_get id l = Some b -> all_tables l ≡ₚ sstables b ++ all_tables (im_shift_remove id l).
Proof.
  induction l as [|[i b'] l IH]; [done|]. cbn [im_get im_shift_remove]. case_decide; [by intros [= ->]|]. intros Hg.
  rewrite !all_tables_cons, (IH Hg), !app_assoc. f_equiv. apply Permutation_app_comm.
Qed.

Lemma cool_hot (ssts : list Table) : cool <$> (increase_hotness <$> ssts) = cool <$> ssts.
Proof. rewrite <- list_fmap_compose. by apply list_fmap_ext. Qed.

(** Facts about tables that do not mention the counter. *)
Lemma Forall_cool (P : Table -> Prop) l :
  (forall t, P (cool t) <-> P t) -> Forall P (cool <$> l) -> Forall P l.
Proof.
  intros Hp Hl. rewrite Forall_fmap in Hl. eapply Forall_impl; [exact Hl|]. intros t Ht. by apply Hp.
Qed.

Lemma files_named_mono fs fs' ssts :
  (forall p i, names fs !! p = Some i -> names fs' !! p = Some i) -> files_named fs ssts -> files_named fs' ssts.
Proof. intros Hn Hs. eapply Forall_impl; [exact Hs|]. simpl. auto. Qed.

Lemma average_len_hot fs (ssts : list Table) : average_len fs (increase_hotness <$> ssts) = average_len fs ssts.
Proof.
  unfold average_len, zlen. rewrite length_fmap. f_equal. induction ssts as [|t ssts IH]; [done|].
  cbn [fmap list_fmap foldr]. by rewrite <- IH.
Qed.

(** What [insert_to_bucket] does: a made table, appended to the bucket, whose
    average is recomputed from the files. *)
Lemma insert_to_bucket_run {T} `{InsertableToBucket T} bm b (x : T) ty f (w : W) :
  let m := the_map w (get_entries x) in
  let dir := bk_dir b ++ [sst_dir_name (clock (w_ticks w))] in
  fs_wf (w_fs w) -> files_named (w_fs w) (sstables b) -> path_exists (w_fs w) dir = false ->
  get_filter x = Ok f -> (get_entries x < w_next w)%nat -> storable m ->
  exists t w' b', insert_to_bucket bm b x ty w =
      (Ok (t, mkBucketMap (bm_dir bm) (im_insert (bk_id b) b' (buckets bm))), w') /\
    made_table w w' dir (get_entries x) f m t /\ bk_id b' = bk_id b /\ bk_dir b' = bk_dir b /\
    cool <$> sstables b' = (cool <$> sstables b) ++ [cool t] /\
    avarage_size b' = match ty with New => data_len (w_fs w') t
                      | Exisiting => average_len (w_fs w') (sstables b ++ [t]) end /\
    w_ticks w' = S (S (w_ticks w)).
Proof.
  intros m dir Hwf Hnm Hp Hf Hloc Hst.
  destruct (make_table_spec dir x f (tick w) Hwf Hp Hf Hloc Hst) as (t & w' & E & Hmd & Ht).
  assert (made_table w w' dir (get_entries x) f m t) as Hmd' by by destruct Hmd.
  unfold insert_to_bucket. run_simpl. fold dir. run E. destruct ty.
  - run (path_len_named w' t (md_named _ _ _ _ _ _ _ Hmd)). do 3 eexists. split; [reflexivity|].
    do 3 (split; [done|]). cbn [sstables]. split; [by rewrite fmap_app|by split].
  - assert (files_named (w_fs w') (sstables b ++ [t])) as Hall.
    { apply Forall_app. split; [|constructor; [apply Hmd|constructor]].
      eapply files_named_mono; [|exact Hnm]. intros p i Hpi. by apply (md_names _ _ _ _ _ _ _ Hmd'). }
    run (cal_average_size_named w' _ (proj2 (files_named_hot _ _) Hall)). do 3 eexists. split; [reflexivity|].
    do 3 (split; [done|]). cbn [sstables avarage_size]. by rewrite cool_hot, fmap_app, average_len_hot.
Qed.

(** A table that existed before keeps its files. *)
Lemma made_table_frame w w' dir l f m t t0 m0 :
  made_table w w' dir l f m t -> fs_wf (w_fs w) ->
  names (w_fs w) !! file_path (data_file t0) = Some (file (data_file t0)) ->
  (file (index_file t0) < next_inode (w_fs w))%nat -> table_holds w t0 m0 -> table_holds w' t0 m0.
Proof.
  intros Hmd Hwf Hn Hi Hh. eapply table_holds_frame; [exact Hh|done|done|..]; apply (md_content _ _ _ _ _ _ _ Hmd); [|done].
  by eapply wf_inode.
Qed.

(** ** Choosing a bucket *)

Lemma create_dir_all_wf p fs :
  fs_wf fs -> exists fs', create_dir_all p fs = (Ok tt, fs') /\ fs_wf fs' /\ names fs' = names fs /\
    inodes fs' = inodes fs /\ next_inode fs' = next_inode fs /\
    (forall s, path_exists fs (p ++ [s]) = false -> path_exists fs' (p ++ [s]) = false) /\
    (forall q, path_exists fs' q = true -> path_exists fs q = true \/ q `prefix_of` p) /\
    (dirs fs ⊆ dirs fs') /\ (forall q, q ∈ dirs fs' -> q ∈ dirs fs \/ q `prefix_of` p).
Proof.
  intros [Hp Hi]. unfold create_dir_all.
  destruct (path_exists fs p); eexists; (split; [reflexivity|]); [do 5 (split; [done|]); split; [by left|]; split; [done|by left]|].
  assert (forall q, q ∈ (list_to_set (prefixes p) ∪ dirs fs : gset (list string)) -> q ∈ dirs fs \/ q `prefix_of` p) as Hnew.
  { intros q [Hq|Hq]%elem_of_union; [right|by left]. apply elem_of_list_to_set in Hq. unfold prefixes in Hq.
    apply list_elem_of_fmap in Hq as (n & -> & _). exists (drop n p). by rewrite take_drop. }
  split; [|do 3 (split; [done|]); split; [|split; [|split; [cbn; by apply union_subseteq_r|exact Hnew]]]].
  - split; cbn [names dirs next_inode]; [|done]. intros q i Hq. apply elem_of_union_r. by eapply Hp.
  - intros s Hs. apply path_exists_false in Hs as [Hd Hn]. unfold path_exists. cbn [dirs names].
    rewrite !bool_decide_false; [done|by rewrite Hn; intros []|]. apply not_elem_of_union. split; [|done].
    rewrite elem_of_list_to_set. unfold prefixes. intros (n & E & _)%list_elem_of_fmap.
    apply (f_equal length) in E. rewrite length_app, length_take in E. simpl in E. lia.
  - intros q. rewrite !path_exists_spec. cbn [dirs names]. intros [[Hq|Hq]%Hnew|Hq]; [by left; left|by right|by left; right].
Qed.

Lemma find_bucket_elem {T} `{InsertableToBucket T} (x : T) bm id b :
  List.find (fun p => fits_into_bucket p.2 x) (buckets bm) = Some (id, b) -> (id, b) ∈ buckets bm.
Proof. intros [Hin _]%find_some. by apply list_elem_of_In. Qed.

(** No path of the file system or of the buckets mentions the name. *)
Record name_free (w : W) (bm : BucketMap) (x : string) : Prop := {
  nf_paths q : path_exists (w_fs w) q = true -> x ∉ q;
  nf_root : x ∉ bm_dir bm;
  nf_buckets : Forall (fun p => x ∉ bk_dir p.2) (buckets bm);
}.

Lemma name_free_path w bm x d : name_free w bm x -> path_exists (w_fs w) (d ++ [x]) = false.
Proof. intros Hf. destruct (path_exists _ _) eqn:E; [|done]. exfalso. apply (nf_paths _ _ _ Hf _ E). set_solver. Qed.

(** A name that is not one of an insertion that ends in [w']: a file's, a bucket's,
    or the new table's, which the last reading but one gave *)
Definition other_name (w' : W) (x : string) : Prop :=
  (x ∉ table_files) /\ (forall id, x <> String.append "bucket" id) /\
  (forall n, w_ticks w' = S (S n) -> x <> sst_dir_name (clock n)).

Lemma made_table_paths w w' dir l f m t x :
  made_table w w' dir l f m t -> x ∉ table_files -> x ∉ dir ->
  (forall q, path_exists (w_fs w) q = true -> x ∉ q) -> forall q, path_exists (w_fs w') q = true -> x ∉ q.
Proof.
  intros Hmd Hx Hd Hq q [?|[[r ->]|(y & -> & Hy)]]%(md_paths _ _ _ _ _ _ _ Hmd); [by apply Hq|set_solver|].
  rewrite not_elem_of_app. split; [done|]. set_solver.
Qed.

(** Everything a caller may rely on after a table was inserted. *)
Record inserted (w : W) (bm : BucketMap) (l : nat) (f : BloomFilter) (m : M SkipMapValue)
    (t : Table) (bm' : BucketMap) (w' : W) : Prop := {
  is_made : exists p n, made_table w w' (p ++ [sst_dir_name (clock n)]) l f m t /\ (n = w_ticks w \/ n = S (w_ticks w)) /\ w_ticks w' = S (S n);
  is_wf : bm_wf w' bm';
  is_tables : cool <$> bm_tables bm' ≡ₚ cool t :: (cool <$> bm_tables bm);
  is_kept t0 m0 : t0 ∈ bm_tables bm -> table_holds w t0 m0 -> table_holds w' t0 m0;
  is_free x : name_free w bm x -> other_name w' x -> name_free w' bm' x;
  is_ids id : im_get id (buckets bm) = None -> id <> new_uuid (w_ticks w) -> im_get id (buckets bm') = None;
  is_ticks : (2 + w_ticks w <= w_ticks w' <= 3 + w_ticks w)%nat;
  is_place : exists p n id b', made_table w w' (p ++ [sst_dir_name (clock n)]) l f m t /\ (n = w_ticks w \/ n = S (w_ticks w)) /\ w_ticks w' = S (S n) /\
    ((exists b, im_get id (buckets bm) = Some b /\ p = bk_dir b) \/
     (im_get id (buckets bm) = None /\ id = new_uuid (w_ticks w) /\ p = bm_dir bm ++ [String.append "bucket" id])) /\
    bm' = mkBucketMap (bm_dir bm) (im_insert id b' (buckets bm)) /\ bk_id b' = id /\ bk_dir b' = p /\
    cool <$> sstables b' = (cool <$> default [] (sstables <$> im_get id (buckets bm))) ++ [cool t];
}.

(** The same for a given bucket *)
Record placed (w : W) (bm : BucketMap) (b : Bucket) (l : nat) (f : BloomFilter) (m : M SkipMapValue)
    (t : Table) (bm' : BucketMap) (w' : W) : Prop := {
  pl_made : made_table w w' (bk_dir b ++ [sst_dir_name (clock (w_ticks w))]) l f m t;
  pl_wf : bm_wf w' bm';
  pl_tables : cool <$> bm_tables bm' ≡ₚ cool t :: (cool <$> bm_tables bm);
  pl_kept t0 m0 : t0 ∈ bm_tables bm -> table_holds w t0 m0 -> table_holds w' t0 m0;
  pl_free x : name_free w bm x -> x ∉ table_files -> x ∉ bk_dir b -> x <> sst_dir_name (clock (w_ticks w)) ->
    name_free w' bm' x;
  pl_ids id : im_get id (buckets bm) = None -> id <> bk_id b -> im_get id (buckets bm') = None;
  pl_ticks : w_ticks w' = S (S (w_ticks w));
  pl_map : exists b', bm' = mkBucketMap (bm_dir bm) (im_insert (bk_id b) b' (buckets bm)) /\ bk_id b' = bk_id b /\ bk_dir b' = bk_dir b /\
    cool <$> sstables b' = (cool <$> sstables b) ++ [cool t];
}.

Lemma insert_tables_perm bm b b' t :
  (im_get (bk_id b) (buckets bm) = Some b \/ im_get (bk_id b) (buckets bm) = None /\ sstables b = []) ->
  cool <$> sstables b' = (cool <$> sstables b) ++ [cool t] ->
  cool <$> all_tables (im_insert (bk_id b) b' (buckets bm)) ≡ₚ cool t :: (cool <$> bm_tables bm).
Proof.
  intros Hb Hc. rewrite all_tables_insert. unfold bm_tables. destruct Hb as [Hg|[Hg Hn]]; rewrite Hg.
  - rewrite (all_tables_get _ _ _ Hg), !fmap_app, Hc.
    rewrite <- app_assoc, (Permutation_app_comm (cool <$> sstables b)). cbn [app].
    rewrite <- (Permutation_app_comm (cool <$> sstables b)). done.
  - rewrite fmap_app, Hc, Hn. done.
Qed.

Lemma insert_to_bucket_inserted {T} `{InsertableToBucket T} bm b (x : T) ty f (w : W) :
  let m := the_map w (get_entries x) in
  bm_wf w bm ->
  (im_get (bk_id b) (buckets bm) = Some b \/ im_get (bk_id b) (buckets bm) = None /\ sstables b = []) ->
  path_exists (w_fs w) (bk_dir b ++ [sst_dir_name (clock (w_ticks w))]) = false ->
  get_filter x = Ok f -> (get_entries x < w_next w)%nat -> storable m ->
  exists t bm' w', insert_to_bucket bm b x ty w = (Ok (t, bm'), w') /\
    placed w bm b (get_entries x) f m t bm' w'.
Proof.
  intros m Hwf Hb Hp Hf Hloc Hst. pose proof Hwf as [Hids Hnd Hnamed Hidx Hfs].
  assert (files_named (w_fs w) (sstables b)) as Hnm.
  { destruct Hb as [Hg|[_ ->]]; [|constructor]. unfold files_named, bm_tables in Hnamed.
    rewrite (all_tables_get _ _ _ Hg), Forall_app in Hnamed. apply Hnamed. }
  destruct (insert_to_bucket_run bm b x ty f w Hfs Hnm Hp Hf Hloc Hst) as (t & w' & b' & E & Hmd & Hid & Hdir & Hc & _ & Ht).
  do 3 eexists. split; [exact E|]. pose proof (insert_tables_perm bm b b' t Hb Hc) as Hperm. split.
  - exact Hmd.
  - split; cbn [buckets]; [by apply im_insert_Forall| | | |apply Hmd].
    + rewrite im_insert_keys. case_decide; [done|]. apply NoDup_app. split; [done|]. split; [set_solver|apply NoDup_singleton].
    + apply Forall_cool; [done|]. unfold bm_tables. cbn [buckets]. rewrite Hperm. constructor; [apply Hmd|].
      apply Forall_fmap. eapply files_named_mono; [apply (md_names _ _ _ _ _ _ _ Hmd)|exact Hnamed].
    + apply Forall_cool; [done|]. unfold bm_tables. cbn [buckets].
      rewrite Hperm. constructor; [apply Hmd|]. apply Forall_fmap. eapply Forall_impl; [exact Hidx|].
      intros t0 Ht0. pose proof (wf_inode _ (md_wf _ _ _ _ _ _ _ Hmd) _ _ (md_named _ _ _ _ _ _ _ Hmd)).
      pose proof (md_new_inode _ _ _ _ _ _ _ Hmd). simpl in *. lia.
  - exact Hperm.
  - intros t0 m0 Hin Hh. unfold files_named in Hnamed. rewrite Forall_forall in Hnamed, Hidx.
    eapply made_table_frame; eauto.
  - intros y [Hy1 Hy2 Hy3] Hfiles Hbd Hn. split; cbn [bm_dir buckets]; [|done|].
    + eapply made_table_paths; [exact Hmd|done|set_solver|done].
    + apply im_insert_Forall; [cbn; by rewrite Hdir|done].
  - intros id Hg Hne. cbn [buckets]. by rewrite im_get_insert, decide_False.
  - exact Ht.
  - by exists b'.
Qed.

Lemma made_table_start (w w1 w' : W) dir l f m t :
  names (w_fs w1) = names (w_fs w) -> inodes (w_fs w1) = inodes (w_fs w) ->
  next_inode (w_fs w1) = next_inode (w_fs w) -> w_maps w1 = w_maps w -> w_bits w1 = w_bits w -> w_next w1 = w_next w ->
  (forall q, path_exists (w_fs w1) q = true -> path_exists (w_fs w) q = true \/ q `prefix_of` dir) ->
  (dirs (w_fs w) ⊆ dirs (w_fs w1)) -> (forall q, q ∈ dirs (w_fs w1) -> q ∈ dirs (w_fs w) \/ q `prefix_of` dir) ->
  made_table w1 w' dir l f m t -> made_table w w' dir l f m t.
Proof.
  intros En Ei Ex Em Eb El Hq Hsub Hnew []. split; try done; unfold content, the_map, the_bits in *;
    rewrite ?En, ?Ei, ?Ex, ?Em, ?Eb, ?El in *; try done.
  - intros q [[?|?]%Hq|?]%md_paths0; auto.
  - intros q. rewrite md_dirs0. split; [intros [?%Hnew|?]; tauto|intros [?%Hsub|?]; tauto].
Qed.

(** The whole of [insert_to_appropriate_bucket], for a directory name and an id
    not in use. *)
Lemma insert_appropriate_inserted {T} `{InsertableToBucket T} bm (x : T) f (w : W) :
  let m := the_map w (get_entries x) in
  bm_wf w bm -> get_filter x = Ok f -> (get_entries x < w_next w)%nat -> storable m ->
  (forall d n, n = w_ticks w \/ n = S (w_ticks w) -> path_exists (w_fs w) (d ++ [sst_dir_name (clock n)]) = false) ->
  im_get (new_uuid (w_ticks w)) (buckets bm) = None ->
  exists t bm' w', insert_to_appropriate_bucket bm x w = (Ok (t, bm'), w') /\
    inserted w bm (get_entries x) f m t bm' w'.
Proof.
  intros m Hwf Hf Hloc Hst Hfresh Hid. unfold insert_to_appropriate_bucket.
  destruct (List.find _ _) as [[id b]|] eqn:Efind.
  - apply find_bucket_elem in Efind. pose proof (bw_ids _ _ Hwf) as Hids. rewrite Forall_forall in Hids.
    assert (im_get (bk_id b) (buckets bm) = Some b) as Hg.
    { apply im_get_NoDup; [apply Hwf|]. pose proof (Hids _ Efind) as Hid0. simpl in Hid0. by rewrite <- Hid0. }
    destruct (insert_to_bucket_inserted bm b x Exisiting f w) as (t & bm' & w' & E & [P1 P2 P3 P4 P5 P6 P7 (b' & P8 & P9 & P10 & P11)]); auto.
    exists t, bm', w'. split; [exact E|]. split; try done; [by eexists _, _; split; [|split; [left|]]|..|lia|].
    + intros y Hy (Y1 & Y2 & Y3). apply P5; auto. pose proof (nf_buckets _ _ _ Hy) as Hb. rewrite Forall_forall in Hb.
      exact (Hb _ Efind).
    + intros i Hi _. apply P6; [done|]. intros ->. by rewrite Hg in Hi.
    + exists (bk_dir b), (w_ticks w), (bk_id b), b'. split; [done|]. split; [by left|]. split; [done|]. split; [left; by exists b|]. by rewrite Hg.
  - unfold bucket_new. set (b := mkBucket (new_uuid (w_ticks w)) (bm_dir bm ++ [String.append "bucket" (new_uuid (w_ticks w))]) 0 0 []).
    destruct (create_dir_all_wf (bk_dir b) (w_fs w) (bw_fs _ _ Hwf)) as (fs1 & E1 & Hwf1 & Hn1 & Hi1 & Hx1 & Hp1 & Hq1 & Hs1 & Hd1).
    assert ((id ← gen_uuid; let dir := bm_dir bm ++ [String.append "bucket" id] in
      _ ← on_fs (create_dir_all dir); mret (mkBucket id dir 0 0 [])) w = (Ok b, with_fs (tick w) fs1)) as Eb.
    { run_simpl. cbn zeta. by run (on_fs_ok _ (tick w) _ _ E1). }
    run Eb. destruct (insert_to_bucket_inserted bm b x New f (with_fs (tick w) fs1))
      as (t & bm' & w' & E & [Hmd P2 P3 P4 P5 P6 P7 (b' & P8 & P9 & P10 & P11)]); try done.
    + destruct Hwf. split; cbn; try done; unfold files_named in *; by rewrite ?Hn1, ?Hx1.
    + by right.
    + apply Hp1. apply Hfresh. by right.
    + assert (made_table w w' (bk_dir b ++ [sst_dir_name (clock (S (w_ticks w)))]) (get_entries x) f m t) as Hmd0.
      { eapply made_table_start; [..|exact Hmd]; try done; intros q Hq; [apply Hq1 in Hq|apply Hd1 in Hq]; (destruct Hq as [?|?]; [by left|right]; by apply prefix_app_r). }
      exists t, bm', w'. split; [exact E|]. cbn in P7. split; try done; [..|lia|].
      * eexists _, (S (w_ticks w)). split; [exact Hmd0|]. by split; [right|].
      * intros t0 m0 Hin Hh. apply P4; [done|]. eapply table_holds_frame; [exact Hh|done|done|..];
          unfold content; cbn; by rewrite Hi1.
      * intros y [Hy1 Hy2 Hy3] (Y1 & Y2 & Y3). assert (y ∉ bk_dir b) as Hyb.
        { unfold b. cbn [bk_dir]. rewrite not_elem_of_app. split; [done|]. intros E0%list_elem_of_singleton. by eapply Y2. }
        apply P5; auto. split; try done. intros q [?|[r Hr]]%Hq1; [by apply Hy1|].
        intros Hy. apply Hyb. rewrite Hr. apply elem_of_app. by left.
      * exists (bk_dir b), (S (w_ticks w)), (bk_id b), b'. split; [done|]. split; [by right|]. split; [done|]. split; [by right|]. by rewrite (Hid : im_get (bk_id b) _ = None).
Qed.

Lemma round53_small n : 0 <= n < 2 ^ 53 -> round53 n = n.
Proof. intros. unfold round53. by rewrite decide_True by lia. Qed.

(** The tables a bucket gives up for compaction. *)
Definition chosen (b : Bucket) : list Table := take 32 (sstables b).

Lemma extract_sstables_named (w : W) b :
  files_named (w_fs w) (sstables b) ->
  extract_sstables b w =
    (Ok (if sstable_count_exceeds_threshhold b then (chosen b, average_len (w_fs w) (chosen b)) else ([], 0)), w).
Proof.
  intros Hn. unfold extract_sstables, sstable_count_exceeds_threshhold, MIN_TRESHOLD, MAX_TRESHOLD, chosen, zlen.
  case_decide as E; [by rewrite bool_decide_false by lia|]. rewrite bool_decide_true by lia.
  assert ((if decide (32 <= Z.of_nat (length (sstables b))) then take (Z.to_nat 32) (sstables b) else sstables b)
    = take 32 (sstables b)) as -> by (case_decide; [done|by rewrite take_ge by lia]).
  run (cal_average_size_named w (take 32 (sstables b)) (Forall_take _ 32 _ Hn)). done.
Qed.

Definition imbalanced (l : list (string * Bucket)) : list (string * Bucket) :=
  List.filter (fun p => sstable_count_exceeds_threshhold p.2) l.

Lemma extract_loop_named (w : W) l :
  files_named (w_fs w) (all_tables l) ->
  extract_loop l w =
    (Ok ((fun p => mkBucket p.1 (bk_dir p.2) (average_len (w_fs w) (chosen p.2) * zlen (chosen p.2))
                     (average_len (w_fs w) (chosen p.2)) (chosen p.2)) <$> imbalanced l,
         (fun p => (p.1, chosen p.2)) <$> imbalanced l), w).
Proof.
  induction l as [|[id b] l IH]; intros Hn; [done|]. rewrite all_tables_cons in Hn.
  apply Forall_app in Hn as [Hb Hn]. cbn [extract_loop]. run (extract_sstables_named w b Hb).
  unfold imbalanced. cbn [List.filter snd]. destruct (sstable_count_exceeds_threshhold b) eqn:Et.
  - run (IH Hn). cbn [fmap list_fmap fst snd]. destruct (chosen b) as [|t ts] eqn:Ec; [|done].
    unfold sstable_count_exceeds_threshhold, MIN_TRESHOLD, chosen in *. apply bool_decide_eq_true in Et.
    destruct (sstables b); [unfold zlen in Et; simpl in Et; lia|done].
  - run (IH Hn). done.
Qed.

(** ** Properties *)

(** [C16] Inserting a memtable or a merged table into the bucket map makes exactly
    one new table, which holds the map inserted; every table of the map is still
    there (up to its use counter) and still holds what it held, and the bucket
    map stays well formed. *)
Theorem bucket_insert_spec {T} `{InsertableToBucket T} bm (x : T) f (w : W) :
  bm_wf w bm -> get_filter x = Ok f -> (get_entries x < w_next w)%nat -> storable (the_map w (get_entries x)) ->
  (forall d n, n = w_ticks w \/ n = S (w_ticks w) -> path_exists (w_fs w) (d ++ [sst_dir_name (clock n)]) = false) ->
  im_get (new_uuid (w_ticks w)) (buckets bm) = None ->
  exists t bm' w', insert_to_appropriate_bucket bm x w = (Ok (t, bm'), w') /\
    table_holds w' t (the_map w (get_entries x)) /\ bm_wf w' bm' /\
    cool <$> bm_tables bm' ≡ₚ cool t :: (cool <$> bm_tables bm) /\
    (forall t0 m0, t0 ∈ bm_tables bm -> table_holds w t0 m0 -> table_holds w' t0 m0).
Proof.
  intros Hwf Hf Hloc Hst Hfresh Hid.
  destruct (insert_appropriate_inserted bm x f w Hwf Hf Hloc Hst Hfresh Hid) as (t & bm' & w' & E & [(p & n & Hmd & _) ? ? ? _ _ _]).
  exists t, bm', w'. split; [done|]. split; [apply Hmd|done].
Qed.

(** Below 2^51 bytes the floating-point bucket test is exact: a table fits a
    bucket when its size is over half and under one and a half times the
    average, or when both are under 4 KiB. *)
Theorem fits_into_bucket_exact {T} `{InsertableToBucket T} b (x : T) :
  0 <= avarage_size b < 2 ^ 51 -> 0 <= ins_size x < 2 ^ 51 ->
  fits_into_bucket b x = true <->
    (avarage_size b < 2 * ins_size x /\ ins_size x < 3 * avarage_size b / 2) \/
    (ins_size x < 4096 /\ avarage_size b < 4096).
Proof.
  intros Ha Hs. unfold fits_into_bucket, above_low, bucket_high.
  rewrite !round53_small by (rewrite ?round53_small; lia).
  rewrite Z.min_l by (apply Z.div_le_upper_bound; lia). change MIN_SSTABLE_SIZE with 4096.
  by rewrite orb_true_iff, !andb_true_iff, !bool_decide_eq_true.
Qed.

(** Compaction candidates: exactly the buckets with at least four tables are
    extracted, each with its first 32 tables, in map order; and the map is
    balanced exactly when nothing is extracted. *)
Theorem extract_imbalanced_spec bm (w : W) :
  bm_wf w bm ->
  exists bs, extract_imbalanced_buckets bm w = (Ok (bs, (fun p => (p.1, chosen p.2)) <$> imbalanced (buckets bm)), w) /\
    sstables <$> bs = (fun p => chosen p.2) <$> imbalanced (buckets bm) /\
    bk_id <$> bs = (imbalanced (buckets bm)).*1 /\
    (is_balanced bm = true <-> bs = []).
Proof.
  intros Hwf. unfold extract_imbalanced_buckets. rewrite (extract_loop_named w _ (bw_named _ _ Hwf)).
  eexists. split; [reflexivity|]. rewrite <- !list_fmap_compose. do 2 (split; [done|]).
  unfold is_balanced, imbalanced. induction (buckets bm) as [|p l IH]; [done|]. cbn [existsb List.filter].
  destruct (sstable_count_exceeds_threshhold p.2); [done|]. exact IH.
Qed.
End bucket.

(** ** Witnesses *)
Section bucket_witnesses.
#[local] Existing Instance demo_platform.
#[local] Existing Instance demo_env.
#[local] Existing Instance sorted_list_skipmap.

Definition demo_insertor : TableInsertor := mkTI 0 18 (mkBF None 3 1 1 0 None).
Definition demo_bucket_world : World slist :=
  mkWorld empty_fs {[ 0%nat := sm_insert [x61] (smv_new 5 1700000000000000000 false) sm_new ]}
    {[ 1%nat := replicate 16 true ]} 2 0.
Definition demo_bm : BucketMap := mkBucketMap [] [].

Lemma demo_bm_wf : bm_wf demo_bucket_world demo_bm.
Proof.
  split; [by apply Forall_nil|by apply NoDup_nil|by apply Forall_nil|by apply Forall_nil|].
  split; intros p i; cbn [w_fs demo_bucket_world empty_fs names]; by rewrite lookup_empty.
Qed.

Lemma bucket_insert_spec_witness :
  exists t bm' w', insert_to_appropriate_bucket demo_bm demo_insertor demo_bucket_world = (Ok (t, bm'), w') /\
    table_holds w' t (the_map demo_bucket_world 0) /\ bm_wf w' bm'.
Proof.
  destruct (bucket_insert_spec demo_bm demo_insertor (mkBF None 3 1 1 0 None) demo_bucket_world)
    as (t & bm' & w' & E & Hh & Hwf & _).
  - exact demo_bm_wf.
  - reflexivity.
  - cbn. lia.
  - split; [by vm_compute|repeat constructor; vm_compute; done|by vm_compute].
  - intros d n _. unfold path_exists. rewrite !bool_decide_false; [done|..].
    + cbn [w_fs demo_bucket_world empty_fs names]. rewrite lookup_empty. by intros [].
    + cbn [w_fs demo_bucket_world empty_fs dirs]. intros E%elem_of_singleton. by destruct d.
  - reflexivity.
  - exists t, bm', w'. split; [exact E|]. split; [exact Hh|exact Hwf].
Defined.

Lemma fits_into_bucket_exact_witness :
  fits_into_bucket (mkBucket "b" [] 0 10000 []) (mkTI 0 12000 (mkBF None 0 0 0 0 None)) = true.
Proof.
  apply (fits_into_bucket_exact (mkBucket "b" [] 0 10000 []) (mkTI 0 12000 (mkBF None 0 0 0 0 None))); cbn.
  - lia.
  - lia.
  - left. split; [lia|]. by vm_compute.
Defined.

Lemma extract_imbalanced_spec_witness :
  exists bs, extract_imbalanced_buckets demo_bm demo_bucket_world = (Ok (bs, []), demo_bucket_world) /\
    (is_balanced demo_bm = true <-> bs = []).
Proof.
  destruct (extract_imbalanced_spec demo_bm demo_bucket_world demo_bm_wf) as (bs & E & _ & _ & Hb).
  exists bs. split; [exact E|exact Hb].
Defined.
End bucket_witnesses.
