(* ===== verification/Flush.v ===== *)
(** * Flushing memtables ([src/flush/flusher.rs])

    The bucket map and the key-range index are shared by the flusher, the
    compactor and the readers; [Db] is the world together with both. *)

From stdpp Require Import prelude gmap strings list.
From Stdlib Require Import Strings.Byte ZArith Lia.
From S2P Require Import Prelude Consts SkipMap FileIO Types World Block Index Bloom SSTable MemTable KeyRange Bucket.
Open Scope Z_scope.

Record Db (M : Type -> Type) := mkDb {
  db_world : World M;
  db_buckets : BucketMap;
  db_ranges : KeyRange;
}.
Arguments mkDb {M}.
Arguments db_world {M}.
Arguments db_buckets {M}.
Arguments db_ranges {M}.

Section flush.
Context `{Env} {M : Type -> Type} `{SkipMap M}.
Abbreviation W := (World M).

(** Run a step that only touches the world. *)
Definition on_world {A} (m : io W Error A) : io (Db M) Error A := fun d =>
  let '(r, w') := m (db_world d) in (r, mkDb w' (db_buckets d) (db_ranges d)).

(** [bucket_map.write().await.insert_to_appropriate_bucket(table)] *)
Definition db_insert {T} `{InsertableToBucket T} (x : T) : io (Db M) Error Table := fun d =>
  match insert_to_appropriate_bucket (db_buckets d) x (db_world d) with
  | (Ok (t, bm'), w') => (Ok t, mkDb w' bm' (db_ranges d))
  | (Err e, w') => (Err e, mkDb w' (db_buckets d) (db_ranges d))
  | (Panic, w') => (Panic, mkDb w' (db_buckets d) (db_ranges d))
  end.

(** [key_range.set(..)], [key_range.remove(..)] *)
Definition db_set_range (dir : list string) (smallest biggest : list byte) (t : Table) : io (Db M) Error unit :=
  io_modify (fun d => mkDb (db_world d) (db_buckets d) (key_range_set (db_ranges d) dir smallest biggest t).1).
Definition db_remove_range (dir : list string) : io (Db M) Error unit :=
  io_modify (fun d => mkDb (db_world d) (db_buckets d) (key_range_remove (db_ranges d) dir).1).

(** The steps [flush] and [run_compaction] share after an insertion: check the
    table, drop its entries from memory, index its key range *)
Definition publish (sst : Table) : io (Db M) Error unit :=
  match t_summary sst with
  | None => io_err TableSummaryIsNone
  | Some summary =>
      match t_filter sst with
      | None => io_err FilterNotProvidedForFlush
      | Some _ =>
          _ ← on_world (write_map (t_entries sst) sm_new);
          db_set_range (t_dir sst) (smallest_key summary) (biggest_key summary) sst
      end
  end.

(** [Flusher::flush] *)
Definition flush (table : MemTable) : io (Db M) Error unit :=
  m ← on_world (read_map (mt_entries table));
  if sm_is_empty m then io_err (FailedToInsertToBucket "Cannot flush an empty table") else
  sst ← db_insert table;
  publish sst.

(** ** Lemmas *)

(** The conditions of an insertion: a fresh directory name and a fresh id. *)
Record can_insert (d : Db M) : Prop := {
  ci_wf : bm_wf (db_world d) (db_buckets d);
  ci_dir p n : n = w_ticks (db_world d) \/ n = S (w_ticks (db_world d)) ->
    path_exists (w_fs (db_world d)) (p ++ [sst_dir_name (clock n)]) = false;
  ci_id : im_get (new_uuid (w_ticks (db_world d))) (buckets (db_buckets d)) = None;
}.

Lemma db_insert_run {T} `{InsertableToBucket T} (x : T) f d :
  let m := the_map (db_world d) (get_entries x) in
  can_insert d -> get_filter x = Ok f -> (get_entries x < w_next (db_world d))%nat -> storable m ->
  exists t bm' w', db_insert x d = (Ok t, mkDb w' bm' (db_ranges d)) /\
    inserted (db_world d) (db_buckets d) (get_entries x) f m t bm' w'.
Proof.
  intros m [Hwf Hdir Hid] Hf Hloc Hst.
  destruct (insert_appropriate_inserted (db_buckets d) x f (db_world d) Hwf Hf Hloc Hst Hdir Hid)
    as (t & bm' & w' & E & Hins).
  exists t, bm', w'. split; [|done]. unfold db_insert. by rewrite E.
Qed.

Lemma table_holds_put_map (w : W) l m' t m : table_holds w t m -> table_holds (put_map w l m') t m.
Proof. intros Hh. by eapply table_holds_frame. Qed.

(** A flush of a memtable with storable contents, step by step. *)
Lemma flush_run t d :
  let m := the_map (db_world d) (mt_entries t) in
  can_insert d -> (mt_entries t < w_next (db_world d))%nat -> storable m ->
  exists sst bm' w' s, flush t d =
      (Ok tt, mkDb (put_map w' (mt_entries t) sm_new) bm'
                (mkKeyRange (<[t_dir sst := mkRangeEntry (smallest_key s) (biggest_key s) sst]> (key_ranges (db_ranges d)))
                   (restored_ranges (db_ranges d)))) /\
    inserted (db_world d) (db_buckets d) (mt_entries t) (bloom_filter t) m sst bm' w' /\
    (smallest_key s, biggest_key s) = bounds_of m.
Proof.
  intros m Hci Hloc Hst. assert (get_filter t = Ok (bloom_filter t)) as Hf by done.
  destruct (db_insert_run t (bloom_filter t) d Hci Hf Hloc Hst)
    as (sst & bm' & w' & E & Hins). pose proof Hins as [(p0 & n0 & Hmd & _) _ _ _ _ _ _].
  destruct (md_summary _ _ _ _ _ _ _ Hmd) as (s & Hs & Hb).
  destruct (md_filter _ _ _ _ _ _ _ Hmd) as (g & Hg & _).
  exists sst, bm', w', s. split; [|done]. unfold flush. erewrite io_step; [|reflexivity]. fold m.
  assert (sm_is_empty m = false) as ->. { by apply storable_bounds in Hst as (? & ? & ? & ? & ? & ?). }
  assert (mkDb (db_world d) (db_buckets d) (db_ranges d) = d) as -> by by destruct d.
  run E. unfold publish. rewrite Hs, Hg, (md_entries _ _ _ _ _ _ _ Hmd). done.
Qed.

(** Keys of the map lie between its bounds. *)
Lemma bounds_cover (m : M SkipMapValue) k :
  is_Some (sm_get k m) -> key_leb (bounds_of m).1 k = true /\ key_leb k (bounds_of m).2 = true.
Proof.
  intros [v Hk]. apply sm_elem in Hk. pose proof (sm_iter_sorted m) as Hs. unfold bounds_of. split.
  - destruct (sm_iter m) as [|[k0 v0] l]; [set_solver|]. simpl. apply key_leb_spec.
    apply elem_of_cons in Hk as [[= -> ->]|Hk]; [by right|]. left.
    eapply sorted_keys_gt; [exact Hs|]. apply list_elem_of_fmap. by exists (k, v).
  - destruct (last (sm_iter m)) as [[kl vl]|] eqn:El; [|apply last_None in El; rewrite El in Hk; set_solver].
    simpl. apply key_leb_spec. assert (last (sm_iter m).*1 = Some kl) as El' by by rewrite fmap_last, El.
    pose proof (sorted_last_max _ _ Hs El') as Hm. rewrite Forall_forall in Hm.
    apply Hm, list_elem_of_fmap. by exists (k, v).
Qed.

(** The range recorded for a table that was made with a filter of its keys *)
Lemma made_range_live (w w' : W) dir l f m sst lo hi :
  made_table w w' dir l f m sst -> probing_ok (no_of_hash_func f) (the_bits w (bit_vec f)) ->
  (forall k, is_Some (sm_get k m) -> admits (no_of_hash_func f) (the_bits w (bit_vec f)) k) -> (lo, hi) = bounds_of m ->
  live_range (put_map w' l sm_new) (mkRangeEntry lo hi sst) m.
Proof.
  intros Hmd Hp Ha Hb. destruct (md_filter _ _ _ _ _ _ _ Hmd) as (g & Hg & Hgb & Hgn & Hgd).
  exists g, (file_path (data_file sst)). cbn [r_sst]. rewrite Hgb, Hgn. do 2 (split; [done|]).
  assert (the_bits (put_map w' l sm_new) (bit_vec f) = the_bits w (bit_vec f)) as -> by exact (md_bits _ _ _ _ _ _ _ Hmd _).
  split; [done|]. intros k' Hk'. split; [|by apply Ha].
  destruct (bounds_cover _ _ Hk') as [B1 B2]. rewrite <- Hb in B1, B2. by split; apply key_leb_spec.
Qed.

(** The range [flush] records for the table it made *)
Lemma flushed_range_live (w w' : W) dir t sst lo hi :
  let m := the_map w (mt_entries t) in
  made_table w w' dir (mt_entries t) (bloom_filter t) m sst -> mem_inv w t -> (lo, hi) = bounds_of m ->
  live_range (put_map w' (mt_entries t) sm_new) (mkRangeEntry lo hi sst) m.
Proof. intros m Hmd [Hp Ha] Hb. by eapply made_range_live. Qed.

(** ** Properties *)

(** [C15] Flushing a memtable moves its contents to disk and keeps them readable:
    the flush succeeds, the new table holds the memtable's map, so that a lookup
    in it answers every key, present or absent, as the memtable did, the
    key-range index gets a live range for it that covers and admits each of its
    keys, and every other table keeps what it held. *)
Theorem flush_publishes t d :
  let m := the_map (db_world d) (mt_entries t) in
  can_insert d -> (mt_entries t < w_next (db_world d))%nat -> mem_inv (db_world d) t -> storable m ->
  exists d' r dir, flush t d = (Ok tt, d') /\ key_ranges (db_ranges d') !! dir = Some r /\
    live_range (db_world d') r m /\ table_holds (db_world d') (r_sst r) m /\
    (forall k, sst_lookup (r_sst r) k (db_world d') = (Ok (found <$> mem_lookup (db_world d) t k), db_world d')) /\
    bm_wf (db_world d') (db_buckets d') /\
    (forall t0 m0, t0 ∈ bm_tables (db_buckets d) -> table_holds (db_world d) t0 m0 -> table_holds (db_world d') t0 m0).
Proof.
  intros m Hci Hloc Hinv Hst. destruct (flush_run t d Hci Hloc Hst) as (sst & bm' & w' & s & E & [(p0 & n0 & Hmd & _) Hwf _ Hkept _ _ _] & Hb).
  do 2 eexists. exists (t_dir sst). split; [exact E|]. cbn [db_ranges key_ranges db_world db_buckets].
  split; [apply lookup_insert_eq|]. pose proof (table_holds_put_map _ (mt_entries t) sm_new _ _ (md_holds _ _ _ _ _ _ _ Hmd)) as Hh. split; [|split; [|split; [|split]]].
  - by eapply flushed_range_live.
  - exact Hh.
  - intros k. apply (sst_lookup_holds _ _ _ _ Hh).
  - by destruct Hwf.
  - intros t0 m0 Hin Hh0. apply table_holds_put_map. by apply Hkept.
Qed.

(** Flushing clears the skip map that memtable, bucket table and indexed table
    share: afterwards the flushed memtable, which readers still consult, reports
    every key as absent, and the table kept in the bucket has no entries in
    memory. *)
Theorem flush_clears_shared_entries t d :
  can_insert d -> (mt_entries t < w_next (db_world d))%nat -> storable (the_map (db_world d) (mt_entries t)) ->
  exists d' sst, flush t d = (Ok tt, d') /\
    (forall k, mem_lookup (db_world d') t k = None) /\
    cool <$> bm_tables (db_buckets d') ≡ₚ cool sst :: (cool <$> bm_tables (db_buckets d)) /\
    table_holds (db_world d') sst (the_map (db_world d) (mt_entries t)) /\
    sm_iter (the_map (db_world d') (t_entries sst)) = [].
Proof.
  intros Hci Hloc Hst. destruct (flush_run t d Hci Hloc Hst) as (sst & bm' & w' & s & E & [(p0 & n0 & Hmd & _) _ Hperm _ _ _ _] & _).
  eexists. exists sst. split; [exact E|]. cbn [db_world db_buckets].
  split; [|split; [done|split]].
  - intros k. unfold mem_lookup. by rewrite the_map_put, decide_True, sm_get_new by done.
  - apply table_holds_put_map, Hmd.
  - by rewrite (md_entries _ _ _ _ _ _ _ Hmd), the_map_put, decide_True, sm_iter_new by done.
Qed.

(** An empty memtable is refused and nothing changes. *)
Theorem flush_empty_rejected t d :
  (forall k, mem_lookup (db_world d) t k = None) ->
  flush t d = (Err (FailedToInsertToBucket "Cannot flush an empty table"), d).
Proof.
  intros He. unfold flush. erewrite io_step; [|reflexivity]. apply sm_is_empty_spec in He as ->. by destruct d.
Qed.
End flush.

(** ** Witnesses *)
Section flush_witnesses.
#[local] Existing Instance demo_platform.
#[local] Existing Instance demo_env.
#[local] Existing Instance sorted_list_skipmap.

Definition demo_db : Db slist := mkDb demo_mem_world (mkBucketMap [] []) key_range_new.

Lemma demo_db_can_insert : can_insert demo_db.
Proof.
  split; [split; [by apply Forall_nil|by apply NoDup_nil|by apply Forall_nil|by apply Forall_nil|]|..].
  - split; intros p i; cbn [w_fs db_world demo_db demo_mem_world empty_fs names]; by rewrite lookup_empty.
  - intros p n _. unfold path_exists. rewrite !bool_decide_false; [done|..].
    + cbn [w_fs db_world demo_db demo_mem_world empty_fs names]. rewrite lookup_empty. by intros [].
    + cbn [w_fs db_world demo_db demo_mem_world empty_fs dirs]. intros E%elem_of_singleton. by destruct p.
  - reflexivity.
Qed.

Lemma demo_mem_storable : storable (the_map (db_world demo_db) (mt_entries demo_mem)).
Proof. split; [by vm_compute|repeat constructor; vm_compute; done|by vm_compute]. Qed.

Lemma flush_publishes_witness :
  exists d' r dir, flush demo_mem demo_db = (Ok tt, d') /\ key_ranges (db_ranges d') !! dir = Some r /\
    sst_lookup (r_sst r) [x61] (db_world d') = (Ok (Some (3, 1700000000000000000, false)), db_world d') /\
    sst_lookup (r_sst r) [x7a] (db_world d') = (Ok None, db_world d').
Proof.
  destruct (flush_publishes demo_mem demo_db demo_db_can_insert) as (d' & r & dir & E & Hr & _ & _ & Hl & _).
  - cbn. lia.
  - exact demo_mem_inv.
  - exact demo_mem_storable.
  - exists d', r, dir. split; [exact E|]. split; [exact Hr|]. split; [exact (Hl [x61])|exact (Hl [x7a])].
Defined.

Lemma flush_clears_shared_entries_witness :
  exists d', flush demo_mem demo_db = (Ok tt, d') /\ (forall k, mem_lookup (db_world d') demo_mem k = None).
Proof.
  destruct (flush_clears_shared_entries demo_mem demo_db demo_db_can_insert) as (d' & sst & E & Hk & _).
  - cbn. lia.
  - exact demo_mem_storable.
  - exists d'. split; [exact E|exact Hk].
Defined.

Definition demo_empty_mem : MemTable :=
  mkMem 5 (mkBF None 3 1 1 0 None) 0 0 false (entry_new [] 0 0 false) (mkMemConfig 0 1000 Bytes).

Lemma flush_empty_rejected_witness :
  flush demo_empty_mem demo_db = (Err (FailedToInsertToBucket "Cannot flush an empty table"), demo_db).
Proof. apply (flush_empty_rejected demo_empty_mem demo_db). intros k. by vm_compute. Defined.
End flush_witnesses.
