(* ===== verification/Compaction.v ===== *)
(** * Size-tiered compaction ([src/compactors/sized.rs], [compact.rs])

    The runner merges the tables of each over-full bucket into one table,
    inserts it into the bucket map and deletes the merged tables. *)

From stdpp Require Import prelude gmap strings list sorting.
From Stdlib Require Import Strings.Byte ZArith Lia.
From S2P Require Import Prelude Consts SkipMap FileIO Types World Block Index Bloom SSTable MemTable KeyRange Bucket Flush.
Open Scope Z_scope.

Inductive Strategy := STCS.

Record CompactConfig := mkCC {
  use_ttl : bool;
  entry_ttl : Z;
  tombstone_ttl : Z;
  flush_listener_interval : Z;
  background_interval : Z;
  tombstone_compaction_interval : Z;
  strategy : Strategy;
  filter_false_positive : Z;
}.

Record TtlParams := mkTtl { ttl_entry_ttl : Z; ttl_tombstone_ttl : Z }.
Record IntervalParams := mkIntervals {
  iv_background_interval : Z;
  iv_flush_listener_interval : Z;
  iv_tombstone_compaction_interval : Z;
}.

(** [Config::new] *)
Definition compact_config_new (ttl_enabled : bool) (ttl : TtlParams) (intervals : IntervalParams) (st : Strategy) (rate : Z) : CompactConfig :=
  mkCC ttl_enabled (ttl_entry_ttl ttl) (ttl_tombstone_ttl ttl) (iv_flush_listener_interval intervals)
    (iv_background_interval intervals) (iv_tombstone_compaction_interval intervals) st rate.

Record WriteTracker := mkTracker { actual : Z; expected : Z }.
Record MergePointer := mkPtr { ptr1 : nat; ptr2 : nat }.

Definition increment_ptr1 (p : MergePointer) : MergePointer := mkPtr (S (ptr1 p)) (ptr2 p).
Definition increment_ptr2 (p : MergePointer) : MergePointer := mkPtr (ptr1 p) (S (ptr2 p)).

(** [Box<dyn InsertableToBucket>]: what the merge passes around *)
Inductive DynInsertable := DynTable (t : Table) | DynInsertor (ti : TableInsertor).

#[export] Instance dyn_insertable : InsertableToBucket DynInsertable :=
  {| get_entries x := match x with DynTable t => get_entries t | DynInsertor ti => get_entries ti end;
     ins_size x := match x with DynTable t => ins_size t | DynInsertor ti => ins_size ti end;
     get_filter x := match x with DynTable t => get_filter t | DynInsertor ti => get_filter ti end |}.

Record MergedSSTable := mkMerged {
  ms_sstable : DynInsertable;
  ms_hotness : Z;
  ms_filter : BloomFilter;
}.

(** The tombstones met during a run: key to deletion time *)
Abbreviation Tombs := (gmap (list byte) Z).

Section compaction.
Context `{Env} {M : Type -> Type} `{SkipMap M} (cfg : CompactConfig).
Abbreviation W := (World M).

(** [entry.has_expired(ttl)], reading the clock *)
Definition expired (e : Entry) (ttl : Z) : io W Error bool := t ← now; mret (has_expired e ttl t).

(** [SizedTierRunner::tombstone_check] *)
Definition tombstone_check (tombstones : Tombs) (entry : Entry) (merged_entries : list Entry)
    : io W Error (Tombs * list Entry) :=
  '(tombstones, should_insert) ←
    (match tombstones !! e_key entry with
     | Some tomb_insert_time =>
         if decide (e_created_at entry > tomb_insert_time) then
           if e_is_tombstone entry then
             x ← expired entry (tombstone_ttl cfg);
             mret (<[e_key entry := e_created_at entry]> tombstones, negb x)
           else if use_ttl cfg then x ← expired entry (entry_ttl cfg); mret (tombstones, negb x)
           else mret (tombstones, true)
         else mret (tombstones, false)
     | None =>
         if e_is_tombstone entry then
           x ← expired entry (tombstone_ttl cfg);
           mret (<[e_key entry := e_created_at entry]> tombstones, negb x)
         else if use_ttl cfg then x ← expired entry (entry_ttl cfg); mret (tombstones, negb x)
         else mret (tombstones, true)
     end);
  mret (tombstones, if (should_insert : bool) then merged_entries ++ [entry] else merged_entries).

(** The three [while] loops of [merge_sstables]; an index out of range panics. *)
Fixpoint merge_loop (fuel : nat) (entries1 entries2 : list Entry) (ptr : MergePointer)
    (st : Tombs * list Entry) : io W Error (MergePointer * (Tombs * list Entry)) :=
  match fuel with
  | O => mret (ptr, st)
  | S fuel' =>
      if decide ((ptr1 ptr < length entries1)%nat /\ (ptr2 ptr < length entries2)%nat) then
        e1 ← io_lift (unwrap (entries1 !! ptr1 ptr));
        e2 ← io_lift (unwrap (entries2 !! ptr2 ptr));
        match key_cmp (e_key e1) (e_key e2) with
        | Lt => st' ← tombstone_check st.1 e1 st.2; merge_loop fuel' entries1 entries2 (increment_ptr1 ptr) st'
        | Eq =>
            st' ← (if decide (e_created_at e1 > e_created_at e2)
                   then tombstone_check st.1 e1 st.2 else tombstone_check st.1 e2 st.2);
            merge_loop fuel' entries1 entries2 (increment_ptr2 (increment_ptr1 ptr)) st'
        | Gt => st' ← tombstone_check st.1 e2 st.2; merge_loop fuel' entries1 entries2 (increment_ptr2 ptr) st'
        end
      else mret (ptr, st)
  end.

(** [while ptr < entries.len() { tombstone_check; ptr += 1 }] *)
Fixpoint drain_loop (fuel : nat) (entries : list Entry) (ptr : nat) (st : Tombs * list Entry)
    : io W Error (Tombs * list Entry) :=
  match fuel with
  | O => mret st
  | S fuel' =>
      if decide (ptr < length entries)%nat then
        e ← io_lift (unwrap (entries !! ptr));
        st' ← tombstone_check st.1 e st.2;
        drain_loop fuel' entries (S ptr) st'
      else mret st
  end.

(** The entry list of an insertable, in key order *)
Definition entry_list (m : M SkipMapValue) : list Entry := entry_of <$> sm_iter m.

(** [SizedTierRunner::merge_sstables] *)
Definition merge_sstables (tombstones : Tombs) (sst1 sst2 : DynInsertable) : io W Error (DynInsertable * Tombs) :=
  new_sst ← ti_default;
  m1 ← read_map (get_entries sst1);
  m2 ← read_map (get_entries sst2);
  let entries1 := entry_list m1 in
  let entries2 := entry_list m2 in
  '(ptr, st) ← merge_loop (length entries1 + length entries2) entries1 entries2 (mkPtr 0 0) (tombstones, []);
  st ← drain_loop (length entries1) entries1 (ptr1 ptr) st;
  st ← drain_loop (length entries2) entries2 (ptr2 ptr) st;
  let new_sst_map := sm_insert_all ((fun e => (e_key e, value_of e)) <$> st.2) sm_new in
  l ← alloc_map new_sst_map;
  new_sst ← ti_set_entries new_sst l;
  mret (DynInsertor new_sst, st.1).

(** The inner loop of [merge_ssts_in_buckets]: the tables after the first *)
Fixpoint merge_tables (tombstones : Tombs) (merged_sst : DynInsertable) (hot : Z) (tables : list Table)
    : io W Error (DynInsertable * Z * Tombs) :=
  match tables with
  | [] => mret (merged_sst, hot, tombstones)
  | sst :: tables' => fun w =>
      match load_entries_from_file sst w with
      | (Ok insertable_sst, w') =>
          ('(merged, tombstones') ← merge_sstables tombstones merged_sst (DynTable insertable_sst);
           merge_tables tombstones' merged (as_u64 (hot + hotness sst)) tables') w'
      | (Err e, w') => (Err (CompactionFailed e), w')
      | (Panic, w') => (Panic, w')
      end
  end.

(** [SizedTierRunner::merge_ssts_in_buckets] *)
Fixpoint merge_buckets (tombstones : Tombs) (bs : list Bucket) : io W Error (list MergedSSTable * Tombs) :=
  match bs with
  | [] => mret ([], tombstones)
  | bucket :: bs' =>
      first ← io_lift (unwrap (head (sstables bucket)));
      '(merged_sst, hot, tombstones) ← merge_tables tombstones (DynTable first) 0 (tail (sstables bucket));
      entries ← read_map (get_entries merged_sst);
      filter ← bf_new (filter_false_positive cfg) (sm_len entries);
      filter ← build_filter_from_entries filter (get_entries merged_sst);
      '(rest, tombstones) ← merge_buckets tombstones bs';
      mret (mkMerged merged_sst hot filter :: rest, tombstones)
  end.
Definition merge_ssts_in_buckets (tombstones : Tombs) (bs : list Bucket) : io W Error (list MergedSSTable * Tombs) :=
  '(merged, tombstones) ← merge_buckets tombstones bs;
  match merged with
  | [] => io_err (CompactionFailed MergeSSTContainsZeroEntries)
  | _ => mret (merged, tombstones)
  end.

(** Step 3 of [run_compaction]: insert and publish the merged tables *)
Fixpoint insert_merged (merged : list MergedSSTable) (tracker : WriteTracker) : io (Db M) Error WriteTracker :=
  match merged with
  | [] => mret tracker
  | ms :: merged' => fun d =>
      match ((table ← on_world (ti_from (get_entries (ms_sstable ms)) (ms_filter ms)); db_insert table) d) with
      | (Ok sst, d') =>
          (_ ← publish sst; insert_merged merged' (mkTracker (actual tracker + 1) (expected tracker))) d'
      | (Err e, d') => (Err (CompactionFailed e), d')
      | (Panic, d') => (Panic, d')
      end
  end.

(** [SizedTierRunner::clean_up_after_compaction] *)
Definition clean_up_after_compaction (ssts_to_delete : list (string * list Table)) : io (Db M) Error (option unit) :=
  fun d =>
    match delete_ssts (db_buckets d) ssts_to_delete (db_world d) with
    | (Ok (bm', true), w') =>
        (_ ← io_for (mjoin (snd <$> ssts_to_delete)) (fun s => db_remove_range (t_dir s)); mret (Some tt))
          (mkDb w' bm' (db_ranges d))
    | (Ok (bm', false), w') => (Ok None, mkDb w' bm' (db_ranges d))
    | (Err e, w') => (Err e, mkDb w' (db_buckets d) (db_ranges d))
    | (Panic, w') => (Panic, mkDb w' (db_buckets d) (db_ranges d))
    end.

(** Step 6 of [run_compaction]: delete the merged tables once all were written *)
Definition finish_round (tracker : WriteTracker) (ssts_to_remove : list (string * list Table)) (tombstones : Tombs)
    : io (Db M) Error (option Tombs) := fun d =>
  if decide (expected tracker = actual tracker) then
    match clean_up_after_compaction ssts_to_remove d with
    | (Ok None, d') => (Err (CompactionPartiallyFailed CompactionCleanupPartial), d')
    | (Ok (Some _), d') => (Ok (Some tombstones), d')
    | (Err e, d') => (Err (CompactionCleanup e), d')
    | (Panic, d') => (Panic, d')
    end
  else (Ok (Some tombstones), d).

(** One round of the loop of [run_compaction]: [None] when there was nothing to do *)
Definition compaction_round (tombstones : Tombs) : io (Db M) Error (option Tombs) := fun d =>
  match on_world (extract_imbalanced_buckets (db_buckets d)) d with
  | (Ok ([], _), d') => (Ok None, d')
  | (Ok (imbalanced_buckets, ssts_to_remove), d') =>
      match on_world (merge_ssts_in_buckets tombstones imbalanced_buckets) d' with
      | (Ok (merged_sstables, tombstones'), d'') =>
          (tracker ← insert_merged merged_sstables (mkTracker 0 (zlen merged_sstables));
           finish_round tracker ssts_to_remove tombstones') d''
      | (Err e, d'') => (Err (CompactionFailed e), d'')
      | (Panic, d'') => (Panic, d'')
      end
  | (Err e, d') => (Err e, d')
  | (Panic, d') => (Panic, d')
  end.

Fixpoint compaction_loop (fuel : nat) (tombstones : Tombs) : io (Db M) Error unit :=
  match fuel with
  | O => mret tt
  | S fuel' =>
      r ← compaction_round tombstones;
      match r with
      | None => mret tt
      | Some tombstones' => compaction_loop fuel' tombstones'
      end
  end.

(** [SizedTierRunner::run_compaction]. Every round replaces at least four tables
    by one per imbalanced bucket, so one round per table is enough. *)
Definition run_compaction : io (Db M) Error unit := fun d =>
  if is_balanced (db_buckets d) then (Ok tt, d)
  else compaction_loop (S (length (bm_tables (db_buckets d)))) ∅ d.

(** [Compactor::handle_compaction] *)
Definition handle_compaction : io (Db M) Error unit := match strategy cfg with STCS => run_compaction end.

(** ** Lemmas: the decision of [tombstone_check] *)

(** The world after [n] more readings of the clock. *)
Definition later (n : nat) (w : W) : W := mkWorld (w_fs w) (w_maps w) (w_bits w) (w_next w) (n + w_ticks w).

(** The entry is newer than a recorded deletion, and not expired at time [t]. *)
Definition passes (tombs : Tombs) (e : Entry) (t : DateTime) : bool :=
  match tombs !! e_key e with Some del => bool_decide (e_created_at e > del) | None => true end &&
  (if e_is_tombstone e then negb (has_expired e (tombstone_ttl cfg) t)
   else if use_ttl cfg then negb (has_expired e (entry_ttl cfg) t) else true).

(** The tombstones recorded after looking at the entry. *)
Definition note (tombs : Tombs) (e : Entry) : Tombs :=
  if e_is_tombstone e && match tombs !! e_key e with Some del => bool_decide (e_created_at e > del) | None => true end
  then <[e_key e := e_created_at e]> tombs else tombs.

(** An entry whose check does not read the clock *)
Definition quiet (e : Entry) : Prop := use_ttl cfg = false /\ e_is_tombstone e = false.

Lemma tombstone_check_run tombs e acc (w : W) :
  exists n, tombstone_check tombs e acc w =
    (Ok (note tombs e, if passes tombs e (clock (w_ticks w)) then acc ++ [e] else acc), later n w) /\ (quiet e -> n = 0%nat).
Proof.
  assert (later 0 w = w /\ later 1 w = tick w) as [E0 E1] by by destruct w.
  unfold tombstone_check, note, passes, mbind, io_bind, quiet.
  destruct (tombs !! e_key e) as [del|]; [case_decide as D; [rewrite bool_decide_true by done|rewrite bool_decide_false by done]|];
    destruct (e_is_tombstone e); cbn [andb]; try destruct (use_ttl cfg);
    first [exists 0%nat; rewrite E0; done | exists 1%nat; rewrite E1; split; [done|by intros []]].
Qed.

Lemma note_other tombs e k : k <> e_key e -> note tombs e !! k = tombs !! k.
Proof. intros. unfold note. destruct (_ && _); [by rewrite lookup_insert_ne|done]. Qed.

Lemma passes_ext (tombs tombs' : Tombs) e t :
  tombs' !! e_key e = tombs !! e_key e -> passes tombs' e t = passes tombs e t.
Proof. intros E. unfold passes. by rewrite E. Qed.

Lemma note_ext (tombs tombs' : Tombs) e :
  tombs' !! e_key e = tombs !! e_key e -> note tombs' e !! e_key e = note tombs e !! e_key e.
Proof. intros E. unfold note. rewrite E. destruct (_ && _); [by rewrite !lookup_insert_eq|done]. Qed.

(** Checking entries one after the other. *)
Fixpoint check_all (es : list Entry) (st : Tombs * list Entry) : io W Error (Tombs * list Entry) :=
  match es with
  | [] => mret st
  | e :: es' => st' ← tombstone_check st.1 e st.2; check_all es' st'
  end.

Abbreviation entries_sorted es := (StronglySorted key_lt (e_key <$> es)).

Lemma sorted_ne e es e' : entries_sorted (e :: es) -> e' ∈ es -> e_key e' <> e_key e.
Proof.
  rewrite fmap_cons. intros [_ Hall]%StronglySorted_inv Hin E. rewrite Forall_fmap, Forall_forall in Hall.
  specialize (Hall e' Hin). simpl in Hall. rewrite E in Hall. by apply key_lt_irrefl in Hall.
Qed.

Lemma later_later n n' w : later n (later n' w) = later (n + n') w.
Proof. unfold later. cbn. by rewrite Nat.add_assoc. Qed.

Lemma check_all_run es tombs acc (w : W) :
  entries_sorted es ->
  exists tombs' kept n, check_all es (tombs, acc) w = (Ok (tombs', acc ++ kept), later n w) /\
    kept `sublist_of` es /\ Forall (fun e => exists n, passes tombs e (clock n) = true) kept /\
    (forall e, e ∈ es -> (forall n, passes tombs e (clock n) = true) -> e ∈ kept) /\
    (forall e, e ∈ es -> tombs' !! e_key e = note tombs e !! e_key e) /\
    (forall k, k ∉ e_key <$> es -> tombs' !! k = tombs !! k) /\ (Forall quiet es -> n = 0%nat).
Proof.
  revert tombs acc w. induction es as [|e es IH]; intros tombs acc w Hs.
  { exists tombs, [], 0%nat. rewrite app_nil_r. cbn [check_all]. split; [by destruct w|].
    split; [constructor|]. split; [constructor|]. split; [set_solver|]. split; [set_solver|]. by split. }
  destruct (tombstone_check_run tombs e acc w) as (n0 & E0 & Hq0). cbn [check_all]. run E0. cbn [fst snd].
  pose proof Hs as [Hs' _]%StronglySorted_inv.
  destruct (IH (note tombs e) (if passes tombs e (clock (w_ticks w)) then acc ++ [e] else acc) (later n0 w) Hs')
    as (tombs' & kept & n1 & E1 & Hsub & Hkept & Hall & Hn & Ho & Hq1).
  assert (forall e', e' ∈ es -> note tombs e !! e_key e' = tombs !! e_key e') as Hother.
  { intros e' Hin. apply note_other. by eapply sorted_ne. }
  rewrite E1. exists tombs', (if passes tombs e (clock (w_ticks w)) then e :: kept else kept), (n1 + n0)%nat.
  rewrite later_later. split; [by destruct (passes _ _ _); rewrite <- ?app_assoc|].
  split; [by destruct (passes _ _ _); constructor|]. split; [|split; [|split; [|split]]].
  - assert (Forall (fun e => exists n, passes tombs e (clock n) = true) kept) as Hk.
    { apply Forall_forall. intros e' Hin. rewrite Forall_forall in Hkept. destruct (Hkept e' Hin) as [n Hp].
      exists n. rewrite <- Hp. symmetry. apply passes_ext, Hother. by eapply elem_of_sublist. }
    destruct (passes tombs e (clock (w_ticks w))) eqn:Ep; [constructor; eauto|done].
  - intros e' Hin Hp. apply elem_of_cons in Hin as [->|Hin]; [rewrite Hp; left|].
    assert (e' ∈ kept) by (apply Hall; [done|]; intros n; rewrite <- (Hp n); by apply passes_ext, Hother).
    destruct (passes tombs e _); [by right|done].
  - intros e' Hin. apply elem_of_cons in Hin as [->|Hin].
    + apply Ho. intros (e' & E & Hin)%list_elem_of_fmap. symmetry in E. revert E. by eapply sorted_ne.
    + rewrite Hn by done. by apply note_ext, Hother.
  - intros k Hk. rewrite fmap_cons, not_elem_of_cons in Hk. rewrite Ho by naive_solver. apply note_other. naive_solver.
  - intros [Hq Hqs]%Forall_cons. by rewrite Hq0, Hq1.
Qed.

(** ** Lemmas: the merge order *)

(** The entries the merge looks at: both lists in key order, of two entries with
    one key the newer (the second on a tie). *)
Fixpoint pick (l1 : list Entry) : list Entry -> list Entry :=
  fix aux (l2 : list Entry) : list Entry :=
    match l1, l2 with
    | [], _ => l2
    | _, [] => l1
    | a :: l1', b :: l2' =>
        match key_cmp (e_key a) (e_key b) with
        | Lt => a :: pick l1' l2
        | Eq => (if decide (e_created_at a > e_created_at b) then a else b) :: pick l1' l2'
        | Gt => b :: aux l2'
        end
    end.

Lemma pick_nil_l l : pick [] l = l.
Proof. by destruct l. Qed.
Lemma pick_nil_r l : pick l [] = l.
Proof. by destruct l. Qed.
Lemma pick_cons a l1 b l2 :
  pick (a :: l1) (b :: l2) =
  match key_cmp (e_key a) (e_key b) with
  | Lt => a :: pick l1 (b :: l2)
  | Eq => (if decide (e_created_at a > e_created_at b) then a else b) :: pick l1 l2
  | Gt => b :: pick (a :: l1) l2
  end.
Proof. done. Qed.

Lemma drain_loop_run fuel es p st (w : W) :
  (length es <= fuel + p)%nat -> drain_loop fuel es p st w = check_all (drop p es) st w.
Proof.
  revert p st w. induction fuel as [|fuel IH]; intros p st w Hf; [by rewrite drop_ge by lia|].
  cbn [drain_loop]. case_decide as D; [|by rewrite drop_ge by lia].
  apply lookup_lt_is_Some in D as [e He]. rewrite (drop_S _ _ _ He), He. run_simpl. cbn [check_all].
  unfold mbind, io_bind. destruct (tombstone_check st.1 e st.2 w) as [[st'| |] w']; [|done|done].
  apply IH. lia.
Qed.

(** The three loops of the merge check exactly the picked entries, in order: the
    fuel is enough and no index is out of range. *)
Lemma merge_loop_run fuel es1 es2 ptr st (w : W) :
  (length es1 - ptr1 ptr + (length es2 - ptr2 ptr) <= fuel)%nat ->
  ('(ptr', st') ← merge_loop fuel es1 es2 ptr st;
   st' ← drain_loop (length es1) es1 (ptr1 ptr') st';
   drain_loop (length es2) es2 (ptr2 ptr') st') w
  = check_all (pick (drop (ptr1 ptr) es1) (drop (ptr2 ptr) es2)) st w.
Proof.
  revert ptr st w. induction fuel as [|fuel IH]; intros [p1 p2] st w Hf; cbn [ptr1 ptr2] in *.
  { rewrite (drop_ge es1), (drop_ge es2) by lia. cbn [merge_loop]. run_simpl. cbn [ptr1 ptr2].
    unfold mbind, io_bind. rewrite (drain_loop_run _ es1) by lia. rewrite (drop_ge es1) by lia. cbn [check_all mret io_ret].
    rewrite drain_loop_run by lia. by rewrite drop_ge by lia. }
  cbn [merge_loop]. cbn [ptr1 ptr2]. case_decide as D.
  - destruct D as [D1 D2]. apply lookup_lt_is_Some in D1 as [a Ha]. apply lookup_lt_is_Some in D2 as [b Hb].
    rewrite (drop_S _ _ _ Ha), (drop_S _ _ _ Hb), pick_cons, <- (drop_S _ _ _ Ha), <- (drop_S _ _ _ Hb), Ha, Hb.
    pose proof (lookup_lt_Some _ _ _ Ha). pose proof (lookup_lt_Some _ _ _ Hb).
    unfold mbind, io_bind in IH |- *. cbn [io_lift unwrap].
    destruct (key_cmp (e_key a) (e_key b)); cbn [check_all]; unfold mbind, io_bind.
    + replace (if decide (e_created_at a > e_created_at b) then tombstone_check st.1 a st.2 else tombstone_check st.1 b st.2)
        with (tombstone_check st.1 (if decide (e_created_at a > e_created_at b) then a else b) st.2) by by case_decide.
      destruct (tombstone_check st.1 _ st.2 w) as [[st'| |] w']; [|done|done]. apply (IH (mkPtr (S p1) (S p2))). cbn. lia.
    + destruct (tombstone_check st.1 a st.2 w) as [[st'| |] w']; [|done|done]. apply (IH (mkPtr (S p1) p2)). cbn. lia.
    + destruct (tombstone_check st.1 b st.2 w) as [[st'| |] w']; [|done|done]. apply (IH (mkPtr p1 (S p2))). cbn. lia.
  - run_simpl. cbn [ptr1 ptr2]. unfold mbind, io_bind. rewrite (drain_loop_run _ es1) by lia.
    assert (drop p1 es1 = [] \/ drop p2 es2 = []) as [E|E].
    { destruct (decide (p1 < length es1)%nat); [right|left]; apply drop_ge; lia. }
    + rewrite E, pick_nil_l. cbn [check_all mret io_ret]. by rewrite drain_loop_run by lia.
    + rewrite E, pick_nil_r. destruct (check_all (drop p1 es1) st w) as [[st'| |] w']; [|done|done].
      rewrite drain_loop_run by lia. by rewrite E.
Qed.

(** ** Lemmas: what the merge computes *)

Definition binding (e : Entry) : list byte * SkipMapValue := (e_key e, value_of e).

(** The newer of two values, the second on a tie. *)
Definition newest (v1 v2 : option SkipMapValue) : option SkipMapValue :=
  match v1, v2 with
  | Some a, Some b => Some (if decide (smv_created_at a > smv_created_at b) then a else b)
  | Some a, None => Some a
  | None, _ => v2
  end.

Lemma bindings_keys es : (binding <$> es).*1 = e_key <$> es.
Proof. by rewrite <- list_fmap_compose. Qed.

Lemma entry_list_bindings (m : M SkipMapValue) : binding <$> entry_list m = sm_iter m.
Proof.
  unfold entry_list. rewrite <- list_fmap_compose. rewrite <- (list_fmap_id (sm_iter m)) at 2.
  apply list_fmap_ext. intros i [k [o t b]] _. done.
Qed.

Lemma entry_list_sorted (m : M SkipMapValue) : entries_sorted (entry_list m).
Proof. rewrite <- bindings_keys, entry_list_bindings. apply sm_iter_sorted. Qed.

Lemma pick_elem e l1 l2 : e ∈ pick l1 l2 -> e ∈ l1 \/ e ∈ l2.
Proof.
  revert l2. induction l1 as [|a l1 IH1]; intros l2; [rewrite pick_nil_l; by right|].
  induction l2 as [|b l2 IH2]; [rewrite pick_nil_r; by left|]. rewrite pick_cons.
  destruct (key_cmp (e_key a) (e_key b)); rewrite elem_of_cons.
  - intros [->|Hin]; [case_decide; [left|right]; left|]. destruct (IH1 _ Hin); [left|right]; by right.
  - intros [->|Hin]; [left; left|]. destruct (IH1 _ Hin); [left; by right|by right].
  - intros [->|Hin]; [right; left|]. destruct (IH2 Hin); [by left|right; by right].
Qed.

Lemma entries_sorted_cons e es :
  entries_sorted (e :: es) <-> entries_sorted es /\ (forall e', e' ∈ es -> key_lt (e_key e) (e_key e')).
Proof.
  rewrite fmap_cons. split.
  - intros [Hs Hall]%StronglySorted_inv. split; [done|]. rewrite Forall_fmap, Forall_forall in Hall. auto.
  - intros [Hs Hall]. constructor; [done|]. rewrite Forall_fmap, Forall_forall. auto.
Qed.

Lemma pick_sorted l1 l2 : entries_sorted l1 -> entries_sorted l2 -> entries_sorted (pick l1 l2).
Proof.
  revert l2. induction l1 as [|a l1 IH1]; intros l2 H1' H2'; [by rewrite pick_nil_l|].
  induction l2 as [|b l2 IH2]; [by rewrite pick_nil_r|]. rewrite pick_cons.
  pose proof H1' as [Hs1 Ha]%entries_sorted_cons. pose proof H2' as [Hs2 Hb]%entries_sorted_cons.
  destruct (key_cmp (e_key a) (e_key b)) eqn:C; apply entries_sorted_cons.
  - apply key_cmp_eq in C. split; [by apply IH1|]. intros e' [Hin|Hin]%pick_elem; case_decide;
      [by apply Ha|rewrite <- C; by apply Ha|rewrite C; by apply Hb|by apply Hb].
  - split; [by apply IH1|]. intros e' [Hin|Hin]%pick_elem; [by apply Ha|].
    apply elem_of_cons in Hin as [->|Hin]; [done|]. eapply key_lt_trans; [exact C|by apply Hb].
  - apply key_cmp_gt in C. split; [by apply IH2|]. intros e' [Hin|Hin]%pick_elem; [|by apply Hb].
    apply elem_of_cons in Hin as [->|Hin]; [done|]. eapply key_lt_trans; [exact C|by apply Ha].
Qed.

Lemma kfind_cons k e es :
  kfind k (binding <$> e :: es) = if decide (k = e_key e) then Some (value_of e) else kfind k (binding <$> es).
Proof. done. Qed.

Lemma kfind_absent e es : (forall e', e' ∈ es -> key_lt (e_key e) (e_key e')) -> kfind (e_key e) (binding <$> es) = None.
Proof.
  intros Hall. apply kfind_None. rewrite bindings_keys. intros (e' & E & Hin)%list_elem_of_fmap.
  specialize (Hall e' Hin). rewrite E in Hall. by apply key_lt_irrefl in Hall.
Qed.

Lemma pick_find k l1 l2 :
  entries_sorted l1 -> entries_sorted l2 ->
  kfind k (binding <$> pick l1 l2) = newest (kfind k (binding <$> l1)) (kfind k (binding <$> l2)).
Proof.
  revert l2. induction l1 as [|a l1 IH1]; intros l2 H1' H2'; [by rewrite pick_nil_l|].
  induction l2 as [|b l2 IH2]; [rewrite pick_nil_r; by destruct (kfind k (binding <$> a :: l1))|].
  pose proof H1' as [Hs1 Ha]%entries_sorted_cons. pose proof H2' as [Hs2 Hb]%entries_sorted_cons.
  rewrite pick_cons. destruct (key_cmp (e_key a) (e_key b)) eqn:C; rewrite !kfind_cons.
  - apply key_cmp_eq in C. rewrite IH1 by done.
    assert (e_key (if decide (e_created_at a > e_created_at b) then a else b) = e_key b) as -> by by case_decide.
    rewrite C. destruct (decide (k = e_key b)); [|done].
    cbn [newest value_of smv_new smv_created_at]. by case_decide.
  - rewrite IH1, kfind_cons by done. destruct (decide (k = e_key a)) as [->|]; [|done].
    rewrite decide_False by by apply key_lt_ne. rewrite kfind_absent; [done|].
    intros e' Hin. eapply key_lt_trans; [exact C|by apply Hb].
  - apply key_cmp_gt in C. rewrite IH2, kfind_cons by done. destruct (decide (k = e_key b)) as [->|]; [|done].
    rewrite decide_False by by apply key_lt_ne. rewrite kfind_absent; [done|].
    intros e' Hin. eapply key_lt_trans; [exact C|by apply Ha].
Qed.

Lemma sorted_sublist (kept es : list Entry) : kept `sublist_of` es -> entries_sorted es -> entries_sorted kept.
Proof.
  induction 1 as [|e l1 l2 Hsub IH|e l1 l2 Hsub IH]; intros Hs; [done|..];
    apply entries_sorted_cons in Hs as [Hs Hall]; [|by apply IH].
  apply entries_sorted_cons. split; [by apply IH|]. intros e' Hin. apply Hall. by eapply elem_of_sublist.
Qed.

(** Worlds that differ only in newly allocated maps and bits. *)
Record grown (w w' : W) : Prop := {
  gr_fs : w_fs w' = w_fs w;
  gr_map l : (l < w_next w)%nat -> the_map w' l = the_map w l;
  gr_bits l : (l < w_next w)%nat -> the_bits w' l = the_bits w l;
  gr_next : (w_next w <= w_next w')%nat;
}.

Lemma grown_refl w : grown w w.
Proof. by split. Qed.
Lemma grown_trans w1 w2 w3 : grown w1 w2 -> grown w2 w3 -> grown w1 w3.
Proof.
  intros [F1 M1 B1 N1] [F2 M2 B2 N2]. split; [congruence|..|lia]; intros l Hl;
    [rewrite M2, M1|rewrite B2, B1]; by lia || done.
Qed.
Lemma grown_later n w : grown w (later n w).
Proof. by split. Qed.
Lemma grown_alloc_map w m : grown w (mkWorld (w_fs w) (<[w_next w := m]> (w_maps w)) (w_bits w) (S (w_next w)) (w_ticks w)).
Proof. split; [done| |done|cbn; lia]. intros l Hl. unfold the_map. cbn. by rewrite lookup_insert_ne by lia. Qed.
Lemma grown_alloc_bits w b : grown w (mkWorld (w_fs w) (w_maps w) (<[w_next w := b]> (w_bits w)) (S (w_next w)) (w_ticks w)).
Proof. split; [done|done| |cbn; lia]. intros l Hl. unfold the_bits. cbn. by rewrite lookup_insert_ne by lia. Qed.

(** What a merge of two maps under recorded tombstones yields. *)
Record merged_map (tombs : Tombs) (m1 m2 r : M SkipMapValue) (tombs' : Tombs) : Prop := {
  mm_sound k v : sm_get k r = Some v ->
    newest (sm_get k m1) (sm_get k m2) = Some v /\ exists n, passes tombs (entry_of (k, v)) (clock n) = true;
  mm_complete k v : newest (sm_get k m1) (sm_get k m2) = Some v ->
    (forall n, passes tombs (entry_of (k, v)) (clock n) = true) -> sm_get k r = Some v;
  mm_tombs k : tombs' !! k =
    match newest (sm_get k m1) (sm_get k m2) with Some v => note tombs (entry_of (k, v)) !! k | None => tombs !! k end;
}.

Lemma kfind_entry k es v :
  entries_sorted es -> kfind k (binding <$> es) = Some v <-> entry_of (k, v) ∈ es.
Proof.
  intros Hs. assert (sorted_keys (binding <$> es)) as Hk by (unfold sorted_keys; by rewrite bindings_keys).
  split.
  - intros Hin%kfind_elem. apply list_elem_of_fmap in Hin as ([k' o t b] & [= -> ->] & Hin). exact Hin.
  - intros Hin. apply kfind_sorted; [done|]. apply list_elem_of_fmap. exists (entry_of (k, v)).
    split; [by destruct v|done].
Qed.

Lemma kept_merged tombs tombs' (m1 m2 : M SkipMapValue) kept :
  let es := pick (entry_list m1) (entry_list m2) in
  kept `sublist_of` es -> Forall (fun e => exists n, passes tombs e (clock n) = true) kept ->
  (forall e, e ∈ es -> (forall n, passes tombs e (clock n) = true) -> e ∈ kept) ->
  (forall e, e ∈ es -> tombs' !! e_key e = note tombs e !! e_key e) ->
  (forall k, k ∉ e_key <$> es -> tombs' !! k = tombs !! k) ->
  merged_map tombs m1 m2 (sm_insert_all (binding <$> kept) sm_new) tombs'.
Proof.
  intros es Hsub Hk Hall Hn Ho.
  assert (entries_sorted es) as Hs by (apply pick_sorted; apply entry_list_sorted).
  assert (entries_sorted kept) as Hsk by by eapply sorted_sublist.
  assert (forall k, newest (sm_get k m1) (sm_get k m2) = kfind k (binding <$> es)) as Hnew.
  { intros k. unfold es. rewrite pick_find by apply entry_list_sorted. by rewrite !entry_list_bindings, !sm_get_iter. }
  assert (forall k, sm_get k (sm_insert_all (binding <$> kept) (sm_new (M := M))) = kfind k (binding <$> kept)) as Hr.
  { intros k. rewrite sm_get_iter, sm_iter_insert_all; [done|]. unfold sorted_keys. by rewrite bindings_keys. }
  split.
  - intros k v. rewrite Hr, Hnew, !kfind_entry by done. intros Hin. split; [by eapply elem_of_sublist|].
    rewrite Forall_forall in Hk. by apply Hk.
  - intros k v. rewrite Hr, Hnew, !kfind_entry by done. by apply Hall.
  - intros k. rewrite Hnew. destruct (kfind k (binding <$> es)) as [v|] eqn:E.
    + apply kfind_entry in E; [|done]. exact (Hn _ E).
    + apply Ho. apply kfind_None in E. by rewrite bindings_keys in E.
Qed.

(** A map without deletions. *)
Definition no_tombstones (m : M SkipMapValue) : Prop :=
  forall k v, sm_get k m = Some v -> smv_is_tombstone v = false.

(** Without expiry and deletions a merge does not read the clock. *)
Lemma pick_quiet (m1 m2 : M SkipMapValue) :
  use_ttl cfg = false -> no_tombstones m1 -> no_tombstones m2 -> Forall quiet (pick (entry_list m1) (entry_list m2)).
Proof.
  intros Hu N1 N2. apply Forall_forall. intros e He. split; [done|].
  apply pick_elem in He as [He|He]; apply list_elem_of_fmap in He as ([k v] & -> & Hin%sm_elem); [by eapply N1|by eapply N2].
Qed.

Lemma merge_sstables_run tombs x1 x2 (w : W) :
  (get_entries x1 < w_next w)%nat -> (get_entries x2 < w_next w)%nat ->
  exists ti tombs' w', merge_sstables tombs x1 x2 w = (Ok (DynInsertor ti, tombs'), w') /\ grown w w' /\
    (w_next w <= ti_entries ti < w_next w')%nat /\
    merged_map tombs (the_map w (get_entries x1)) (the_map w (get_entries x2)) (the_map w' (ti_entries ti)) tombs' /\
    (use_ttl cfg = false -> no_tombstones (the_map w (get_entries x1)) -> no_tombstones (the_map w (get_entries x2)) -> w_ticks w' = w_ticks w).
Proof.
  intros L1 L2. unfold merge_sstables.
  assert (exists ti0 w1, ti_default w = (Ok ti0, w1) /\ grown w w1 /\ w_ticks w1 = w_ticks w) as (ti0 & w1 & E1 & G1 & T1).
  { do 2 eexists. split; [reflexivity|]. split; [|done]. eapply grown_trans; [apply (grown_alloc_map w)|apply grown_alloc_bits]. }
  run E1. do 2 run_simpl. rewrite !(gr_map _ _ G1) by done.
  set (m1 := the_map w (get_entries x1)). set (m2 := the_map w (get_entries x2)).
  destruct (check_all_run (pick (entry_list m1) (entry_list m2)) tombs [] w1) as (tombs' & kept & n & Ec & ? & ? & ? & ? & ? & Hq).
  { apply pick_sorted; apply entry_list_sorted. }
  rewrite <- (drop_0 (entry_list m1)), <- (drop_0 (entry_list m2)) in Ec.
  rewrite <- (merge_loop_run (length (entry_list m1) + length (entry_list m2)) (entry_list m1) (entry_list m2) (mkPtr 0 0)) in Ec
    by (cbn; lia).
  set (w2 := later n w1) in *. assert (grown w w2) as G2 by (eapply grown_trans; [exact G1|apply grown_later]).
  do 3 eexists. split.
  { revert Ec. unfold mbind, io_bind.
    destruct (merge_loop _ _ _ _ _ w1) as [[[ptr st]| |] w3]; [|done|done].
    destruct (drain_loop _ (entry_list m1) _ _ w3) as [[st1| |] w4]; [|done|done].
    destruct (drain_loop _ (entry_list m2) _ _ w4) as [[st2| |] w5]; [|done|done].
    intros [= -> ->]. reflexivity. }
  cbn [ti_entries fst snd app]. split; [eapply grown_trans; [exact G2|apply grown_alloc_map]|].
  split; [pose proof (gr_next _ _ G2); cbn in *; lia|]. split.
  - unfold the_map at 1. cbn. rewrite lookup_insert_eq. by apply kept_merged.
  - intros Hu N1 N2. cbn. rewrite Hq by by apply pick_quiet. exact T1.
Qed.

(** Loading a table adds one map, with the table's stored values. *)
Lemma load_grown t m (w : W) :
  table_holds w t m -> exists t' w', load_entries_from_file t w = (Ok t', w') /\ grown w w' /\
    (t_entries t' < w_next w')%nat /\
    (forall k, sm_get k (the_map w' (t_entries t')) = smv_stored <$> sm_get k m) /\ w_ticks w' = w_ticks w.
Proof.
  intros Hh. destruct (load_entries_holds _ _ _ Hh) as (t' & w' & l & E & Ht & Hl & Hf & Hb & Hm & _ & Hx & Hmaps & Htk).
  exists t', w'. split; [done|]. rewrite Ht. cbn [t_entries t_with_size t_with_entries]. split; [|split; [|split; [|done]]].
  - split; [done|..|lia].
    + intros l' Hl'. unfold the_map at 1. rewrite Hmaps, lookup_insert_ne by lia. done.
    + intros l' _. unfold the_bits. by rewrite Hb.
  - lia.
  - intros k. by rewrite !sm_get_iter, Hm, kfind_fmap.
Qed.

Lemma table_holds_grown (w w' : W) t m : grown w w' -> table_holds w t m -> table_holds w' t m.
Proof. intros [Hf _ _ _] Hh. eapply table_holds_frame; try done; by rewrite Hf. Qed.

(** One step of [merge_tables]. *)
Lemma merge_tables_step tombs x hot t ts m (w : W) :
  table_holds w t m -> (get_entries x < w_next w)%nat ->
  exists m2 y tombs' w', merge_tables tombs x hot (t :: ts) w =
      merge_tables tombs' (DynInsertor y) (as_u64 (hot + hotness t)) ts w' /\
    grown w w' /\ (w_next w <= ti_entries y < w_next w')%nat /\
    (forall k, sm_get k m2 = smv_stored <$> sm_get k m) /\
    merged_map tombs (the_map w (get_entries x)) m2 (the_map w' (ti_entries y)) tombs' /\
    (use_ttl cfg = false -> no_tombstones (the_map w (get_entries x)) -> no_tombstones m -> w_ticks w' = w_ticks w).
Proof.
  intros Hh Hx. destruct (load_grown t m w Hh) as (t' & w1 & E1 & G1 & L1 & Hm & T1).
  pose proof (gr_next _ _ G1).
  destruct (merge_sstables_run tombs x (DynTable t') w1) as (y & tombs' & w2 & E2 & G2 & L2 & Hmm & T2); [lia|done|].
  exists (the_map w1 (t_entries t')), y, tombs', w2. cbn [merge_tables]. rewrite E1. run E2.
  split; [done|]. split; [by eapply grown_trans|]. split; [lia|]. split; [done|]. rewrite (gr_map _ _ G1) in Hmm, T2 by done. split; [done|].
  intros Hu N1 N2. rewrite T2; [done|done|done|]. intros k v. cbn. rewrite Hm. intros (v0 & Hv & ->)%fmap_Some. cbn. by eapply N2.
Qed.

Lemma Forall2_grown (w w' : W) ts (ms : list (M SkipMapValue)) :
  grown w w' -> Forall2 (table_holds w) ts ms -> Forall2 (table_holds w') ts ms.
Proof. intros G Hf. eapply Forall2_impl; [exact Hf|]. intros t m. by apply table_holds_grown. Qed.

(** A merge never invents keys. *)
Lemma merge_tables_keys tombs x hot ts ms (w : W) :
  Forall2 (table_holds w) ts ms -> (get_entries x < w_next w)%nat ->
  exists y hot' tombs' w', merge_tables tombs x hot ts w = (Ok (y, hot', tombs'), w') /\ grown w w' /\
    (get_entries y < w_next w')%nat /\
    (forall k, sm_get k (the_map w (get_entries x)) = None -> Forall (fun m => sm_get k m = None) ms ->
       sm_get k (the_map w' (get_entries y)) = None).
Proof.
  revert tombs x hot ms w. induction ts as [|t ts IH]; intros tombs x hot ms w Hf Hx.
  { do 4 eexists. split; [reflexivity|]. split; [apply grown_refl|]. by split. }
  apply Forall2_cons_inv_l in Hf as (m & ms' & Hh & Hf & ->).
  destruct (merge_tables_step tombs x hot t ts m w Hh Hx) as (m2 & y1 & tombs1 & w1 & -> & G1 & [_ L1] & Hm2 & Hmm & _).
  destruct (IH tombs1 (DynInsertor y1) (as_u64 (hot + hotness t)) ms' w1 (Forall2_grown _ _ _ _ G1 Hf) L1)
    as (y & hot' & tombs' & w' & E & G & L & Hk).
  exists y, hot', tombs', w'. split; [done|]. split; [by eapply grown_trans|]. split; [done|].
  intros k Hxk Hms. apply Forall_cons in Hms as [Hmk Hms]. apply Hk; [|done].
  destruct (sm_get k (the_map w1 (get_entries (DynInsertor y1)))) as [v|] eqn:Ev; [|done].
  apply (mm_sound _ _ _ _ _ Hmm) in Ev as [Hn _]. by rewrite Hxk, Hm2, Hmk in Hn.
Qed.

Lemma passes_live tombs k v t :
  use_ttl cfg = false -> tombs !! k = None -> smv_is_tombstone v = false -> passes tombs (entry_of (k, v)) t = true.
Proof. intros Hu Hn Hv. unfold passes. cbn [entry_of entry_new e_key e_is_tombstone fst snd]. by rewrite Hn, Hv, Hu. Qed.

Lemma note_live tombs k v : smv_is_tombstone v = false -> note tombs (entry_of (k, v)) = tombs.
Proof. intros Hv. unfold note. cbn [entry_of entry_new e_is_tombstone snd]. by rewrite Hv. Qed.

Lemma newest_live v1 v2 v :
  newest v1 v2 = Some v -> (v1 = Some v \/ v2 = Some v).
Proof. destruct v1, v2; simpl; try case_decide; naive_solver. Qed.

(** Merging maps without deletions and without expiry keeps the newest values. *)
Lemma merged_map_live (tombs tombs' : Tombs) m1 m2 r :
  use_ttl cfg = false -> (forall k, tombs !! k = None) -> no_tombstones m1 -> no_tombstones m2 ->
  merged_map tombs m1 m2 r tombs' ->
  (forall k, sm_get k r = newest (sm_get k m1) (sm_get k m2)) /\ (forall k, tombs' !! k = None) /\ no_tombstones r.
Proof.
  intros Hu Ht N1 N2 [Hs Hc Hn].
  assert (forall k v, newest (sm_get k m1) (sm_get k m2) = Some v -> smv_is_tombstone v = false) as Hlive.
  { intros k v [Hv|Hv]%newest_live; [by eapply N1|by eapply N2]. }
  assert (forall k, sm_get k r = newest (sm_get k m1) (sm_get k m2)) as Hr.
  { intros k. destruct (newest (sm_get k m1) (sm_get k m2)) as [v|] eqn:En.
    - apply Hc; [done|]. intros n. apply passes_live; [done|done|by eapply Hlive].
    - destruct (sm_get k r) as [v|] eqn:Er; [|done]. apply Hs in Er as [En' _]. congruence. }
  split; [done|]. split.
  - intros k. rewrite Hn. destruct (newest _ _) as [v|] eqn:En; [|done]. by rewrite note_live by by eapply Hlive.
  - intros k v Hv. rewrite Hr in Hv. by eapply Hlive.
Qed.

(** The loop over the tables of a bucket, without deletions or expiry *)
Lemma merge_tables_live x hot ts ms (w : W) :
  use_ttl cfg = false -> (get_entries x < w_next w)%nat -> Forall2 (table_holds w) ts ms ->
  no_tombstones (the_map w (get_entries x)) -> Forall no_tombstones ms ->
  exists y hot' w', merge_tables ∅ x hot ts w = (Ok (y, hot', ∅), w') /\ grown w w' /\ w_ticks w' = w_ticks w /\
    (get_entries y < w_next w')%nat /\ (ts <> [] -> (w_next w <= get_entries y)%nat) /\
    (forall k, sm_get k (the_map w' (get_entries y)) =
       fold_left (fun acc m => newest acc (smv_stored <$> sm_get k m)) ms (sm_get k (the_map w (get_entries x)))).
Proof.
  intros Hu. revert x hot ms w. induction ts as [|t ts IH]; intros x hot ms w Hx Hf Nx Nms.
  { apply Forall2_nil_inv_l in Hf as ->. exists x, hot, w. split; [done|]. by split; [apply grown_refl|]. }
  apply Forall2_cons_inv_l in Hf as (m & ms' & Hh & Hf & ->). apply Forall_cons in Nms as [Nm Nms].
  destruct (merge_tables_step ∅ x hot t ts m w Hh Hx) as (m2 & y1 & tombs1 & w1 & -> & G1 & [L0 L1] & Hm2 & Hmm & T1).
  assert (no_tombstones m2) as N2.
  { intros k v. rewrite Hm2. intros (v0 & Hv & ->)%fmap_Some. simpl. by eapply Nm. }
  destruct (merged_map_live _ _ _ _ _ Hu (lookup_empty (M := gmap (list byte))) Nx N2 Hmm) as (Hr & Ht1 & Nr).
  assert (tombs1 = ∅) as -> by by apply map_empty.
  destruct (IH (DynInsertor y1) (as_u64 (hot + hotness t)) ms' w1 L1 (Forall2_grown _ _ _ _ G1 Hf) Nr Nms)
    as (y & hot' & w' & E & G & T & L & Ln & Hk).
  exists y, hot', w'. split; [done|]. split; [by eapply grown_trans|]. split; [by rewrite T, T1|]. split; [done|]. split.
  - intros _. pose proof (gr_next _ _ G1). destruct ts as [|t' ts]; [|specialize (Ln ltac:(done)); lia].
    cbn [merge_tables] in E. by injection E as <- _ _.
  - intros k. rewrite Hk. cbn [fold_left]. f_equal. rewrite <- Hm2. apply Hr.
Qed.

(** ** Properties *)

(** [C19] [merge_sstables] merges two tables by key: the result maps a key to the
    newer of the two versions (the second table's on a tie), unless that version
    is older than a recorded deletion or expired; it contains nothing else, and
    exactly the deletions met are recorded. The loops end within their bounds
    and no other map, bit vector or file changes. *)
Theorem merge_sstables_spec tombs x1 x2 (w : W) :
  (get_entries x1 < w_next w)%nat -> (get_entries x2 < w_next w)%nat ->
  exists ti tombs' w', merge_sstables tombs x1 x2 w = (Ok (DynInsertor ti, tombs'), w') /\ grown w w' /\
    merged_map tombs (the_map w (get_entries x1)) (the_map w (get_entries x2)) (the_map w' (ti_entries ti)) tombs'.
Proof.
  intros L1 L2. destruct (merge_sstables_run tombs x1 x2 w L1 L2) as (ti & tombs' & w' & ? & ? & _ & ? & _).
  by exists ti, tombs', w'.
Qed.

(** Compacting tables without deletions or expiry keeps, for every key, the
    newest version among the first table's entries in memory and the entries of
    the other tables on disk. *)
Theorem merge_tables_newest x hot ts ms (w : W) :
  use_ttl cfg = false -> (get_entries x < w_next w)%nat -> Forall2 (table_holds w) ts ms ->
  no_tombstones (the_map w (get_entries x)) -> Forall no_tombstones ms ->
  exists y hot' tombs' w', merge_tables ∅ x hot ts w = (Ok (y, hot', tombs'), w') /\ grown w w' /\
    (forall k, sm_get k (the_map w' (get_entries y)) =
       fold_left (fun acc m => newest acc (smv_stored <$> sm_get k m)) ms (sm_get k (the_map w (get_entries x)))).
Proof.
  intros Hu Hx Hf Nx Nms. destruct (merge_tables_live x hot ts ms w Hu Hx Hf Nx Nms) as (y & hot' & w' & E & G & _ & _ & _ & Hk).
  by exists y, hot', ∅, w'.
Qed.


(** A deletion marker is lost when its bucket has another table after it,
    however young it is: the next merge step compares the marker with its own
    recorded time and drops it. *)
Theorem compaction_drops_tombstone x hot ta tb ts ma mb ms k v (w : W) :
  (get_entries x < w_next w)%nat -> sm_get k (the_map w (get_entries x)) = None ->
  Forall2 (table_holds w) (ta :: tb :: ts) (ma :: mb :: ms) ->
  sm_get k ma = Some v -> smv_is_tombstone v = true -> Forall (fun m => sm_get k m = None) (mb :: ms) ->
  exists y hot' tombs' w', merge_tables ∅ x hot (ta :: tb :: ts) w = (Ok (y, hot', tombs'), w') /\
    sm_get k (the_map w' (get_entries y)) = None.
Proof.
  intros Hx Hxk Hf Hka Hv Hms. apply Forall2_cons_1 in Hf as [Ha Hf]. apply Forall2_cons_1 in Hf as [Hb Hf].
  apply Forall_cons in Hms as [Hkb Hms].
  destruct (merge_tables_step ∅ x hot ta (tb :: ts) ma w Ha Hx) as (m2 & y1 & tombs1 & w1 & -> & G1 & [_ L1] & Hm2 & Hmm1 & _).
  destruct (merge_tables_step tombs1 (DynInsertor y1) (as_u64 (hot + hotness ta)) tb ts mb w1 (table_holds_grown _ _ _ _ G1 Hb) L1)
    as (m3 & y2 & tombs2 & w2 & -> & G2 & [_ L2] & Hm3 & Hmm2 & _).
  destruct (merge_tables_keys tombs2 (DynInsertor y2) (as_u64 (as_u64 (hot + hotness ta) + hotness tb)) ts ms w2
    (Forall2_grown _ _ _ _ (grown_trans _ _ _ G1 G2) Hf) L2) as (y & hot' & tombs' & w' & E & _ & _ & Hk).
  exists y, hot', tombs', w'. split; [done|]. apply Hk; [|done].
  change (get_entries (DynInsertor y2)) with (ti_entries y2). change (get_entries (DynInsertor y1)) with (ti_entries y1) in *.
  pose proof (mm_tombs _ _ _ _ _ Hmm1 k) as Ht. rewrite Hxk, Hm2, Hka in Ht. cbn [newest fmap option_fmap option_map] in Ht.
  unfold note in Ht. cbn [entry_of entry_new e_is_tombstone e_key e_created_at fst snd smv_is_tombstone smv_created_at smv_stored] in Ht.
  rewrite Hv, lookup_empty in Ht. cbn [andb] in Ht. rewrite lookup_insert_eq in Ht.
  destruct (sm_get k (the_map w2 (ti_entries y2))) as [v2|] eqn:E2; [|done]. exfalso.
  apply (mm_sound _ _ _ _ _ Hmm2) in E2 as [Hn [n Hp]]. rewrite Hm3, Hkb in Hn. cbn [fmap option_fmap option_map] in Hn.
  destruct (sm_get k (the_map w1 (ti_entries y1))) as [v1|] eqn:E1; [|done]. injection Hn as <-.
  apply (mm_sound _ _ _ _ _ Hmm1) in E1 as [Hn _]. rewrite Hxk, Hm2, Hka in Hn. injection Hn as <-.
  unfold passes in Hp. cbn [entry_of entry_new e_key fst snd e_created_at smv_created_at smv_stored] in Hp. rewrite Ht in Hp.
  rewrite bool_decide_false in Hp by lia. done.
Qed.

(** When no entry of a bucket survives its merge, the run panics on the
    zero-element filter and never reaches [MergeSSTContainsZeroEntries]. *)
Theorem merge_empty_panics b bs t1 ts y hot tombs tombs' (w w' : W) :
  sstables b = t1 :: ts -> merge_tables tombs (DynTable t1) 0 ts w = (Ok (y, hot, tombs'), w') ->
  sm_iter (the_map w' (get_entries y)) = [] ->
  merge_ssts_in_buckets tombs (b :: bs) w = (Panic, w').
Proof.
  intros Hb Em He. unfold merge_ssts_in_buckets. erewrite io_step_panic; [done|]. cbn [merge_buckets]. rewrite Hb.
  cbn [head tail]. run_simpl. run Em. cbn beta iota. run_simpl. unfold sm_len. rewrite He.
  apply io_step_panic. unfold bf_new. by destruct (f64_ge0 _).
Qed.
End compaction.

(** ** Witnesses *)
Section compaction_witnesses.
#[local] Existing Instance demo_platform.
#[local] Existing Instance demo_env.
#[local] Existing Instance sorted_list_skipmap.

Definition demo_cc : CompactConfig := mkCC false 1000 100000000000 1 1 1 STCS 0.

(** A map of one key, and two tables on disk holding such maps. *)
Definition one (k : list byte) (tomb : bool) : slist SkipMapValue :=
  sm_insert k (smv_new 7 1700000000000000000 tomb) sm_new.
Definition one_block (m : slist SkipMapValue) : list Block :=
  [mkBlock (be_of <$> (entry_of <$> sm_iter m)) 18 1].
Definition disk_table (i : nat) : Table :=
  mkTable [] 0 18 0 (mkFileNode [] i FData) (mkFileNode [] (S i) FIndex) 9 None None.
Definition demo_two_world : World slist :=
  mkWorld (mkFS {[ 0%nat := data_bytes (blocks_entries (one_block (one [x61] true)));
                   1%nat := index_bytes (idx_of 0 (one_block (one [x61] true)));
                   2%nat := data_bytes (blocks_entries (one_block (one [x62] false)));
                   3%nat := index_bytes (idx_of 0 (one_block (one [x62] false))) ]} ∅ ∅ 4)
    {[ 5%nat := one [x63] false ]} ∅ 10 0.

Lemma one_get k tomb k' v : sm_get k' (one k tomb) = Some v -> smv_is_tombstone v = tomb.
Proof.
  unfold one. rewrite sm_get_insert, sm_get_new. case_decide; [by intros [= <-]|done].
Qed.

Lemma demo_holds_a : table_holds demo_two_world (disk_table 0) (one [x61] true).
Proof.
  split; [split; [by vm_compute|repeat constructor; vm_compute; done|by vm_compute]|].
  exists (one_block (one [x61] true)). split; [repeat constructor; by vm_compute|]. by repeat split; vm_compute.
Qed.
Lemma demo_holds_b : table_holds demo_two_world (disk_table 2) (one [x62] false).
Proof.
  split; [split; [by vm_compute|repeat constructor; vm_compute; done|by vm_compute]|].
  exists (one_block (one [x62] false)). split; [repeat constructor; by vm_compute|]. by repeat split; vm_compute.
Qed.

Lemma merge_sstables_spec_witness :
  exists ti tombs' w', merge_sstables demo_cc ∅ (DynTable (disk_table 0)) (DynInsertor (mkTI 5 0 demo_filter)) demo_two_world
      = (Ok (DynInsertor ti, tombs'), w') /\ grown demo_two_world w'.
Proof.
  destruct (merge_sstables_spec demo_cc ∅ (DynTable (disk_table 0)) (DynInsertor (mkTI 5 0 demo_filter)) demo_two_world)
    as (ti & tombs' & w' & E & G & _); [cbn; lia|cbn; lia|]. exists ti, tombs', w'. split; [exact E|exact G].
Defined.

Lemma merge_tables_newest_witness :
  exists y hot' tombs' w', merge_tables demo_cc ∅ (DynInsertor (mkTI 5 0 demo_filter)) 0 [disk_table 2] demo_two_world
      = (Ok (y, hot', tombs'), w') /\
    sm_get [x62] (the_map w' (get_entries y)) = Some (smv_new 7 1700000000000000000 false).
Proof.
  destruct (merge_tables_newest demo_cc (DynInsertor (mkTI 5 0 demo_filter)) 0 [disk_table 2] [one [x62] false] demo_two_world)
    as (y & hot' & tombs' & w' & E & _ & Hk).
  - reflexivity.
  - cbn. lia.
  - constructor; [exact demo_holds_b|constructor].
  - exact (one_get [x63] false).
  - constructor; [exact (one_get [x62] false)|constructor].
  - exists y, hot', tombs', w'. split; [exact E|]. rewrite Hk. by vm_compute.
Defined.


Lemma compaction_drops_tombstone_witness :
  exists y hot' tombs' w', merge_tables demo_cc ∅ (DynInsertor (mkTI 5 0 demo_filter)) 0 [disk_table 0; disk_table 2] demo_two_world
      = (Ok (y, hot', tombs'), w') /\ sm_get [x61] (the_map w' (get_entries y)) = None.
Proof.
  apply (compaction_drops_tombstone demo_cc (DynInsertor (mkTI 5 0 demo_filter)) 0 (disk_table 0) (disk_table 2) []
    (one [x61] true) (one [x62] false) [] [x61] (smv_new 7 1700000000000000000 true) demo_two_world).
  - cbn. lia.
  - by vm_compute.
  - constructor; [exact demo_holds_a|]. constructor; [exact demo_holds_b|constructor].
  - by vm_compute.
  - reflexivity.
  - constructor; [by vm_compute|constructor].
Defined.

Lemma merge_empty_panics_witness :
  merge_ssts_in_buckets demo_cc ∅ [mkBucket "b" [] 0 0 [disk_table 0]] demo_two_world = (Panic, demo_two_world).
Proof.
  apply (merge_empty_panics demo_cc (mkBucket "b" [] 0 0 [disk_table 0]) [] (disk_table 0) [] (DynTable (disk_table 0)) 0 ∅ ∅).
  - reflexivity.
  - reflexivity.
  - by vm_compute.
Defined.

(** Four memtables, one key each, flushed one after the other. *)
Definition demo_rate : Z := 4547007122018943789.
Definition demo_cc_rate : CompactConfig := mkCC false 1000 100000000000 1 1 1 STCS demo_rate.
Definition fill_and_flush (k : list byte) : io (Db slist) Error unit :=
  t ← on_world (mem_new 1000 demo_rate);
  t ← on_world (mem_insert t (entry_new k 7 1700000000000000000 false));
  flush t.
Definition four_flushes : io (Db slist) Error unit :=
  _ ← fill_and_flush [x61]; _ ← fill_and_flush [x62]; _ ← fill_and_flush [x63]; fill_and_flush [x64].
Definition new_db : Db slist := mkDb empty_world (mkBucketMap [] []) key_range_new.

(** Whether some table of the bucket map has the key. *)
Definition stored_somewhere (k : list byte) (d : Db slist) : bool :=
  existsb (fun t => match sst_lookup t k (db_world d) with (Ok (Some _), _) => true | _ => false end)
    (bm_tables (db_buckets d)).

(** End to end: flush four memtables and run the compaction they trigger. All
    four keys are on disk before it; it succeeds and merges the four tables into
    one; the key of the first table is gone. *)
Theorem compaction_loses_first_flush :
  exists d1 d2, four_flushes new_db = (Ok tt, d1) /\ run_compaction demo_cc_rate d1 = (Ok tt, d2) /\
    length (bm_tables (db_buckets d1)) = 4%nat /\ length (bm_tables (db_buckets d2)) = 1%nat /\
    (fun k => stored_somewhere k d1) <$> [[x61]; [x62]; [x63]; [x64]] = [true; true; true; true] /\
    (fun k => stored_somewhere k d2) <$> [[x61]; [x62]; [x63]; [x64]] = [false; true; true; true].
Proof.
  exists (four_flushes new_db).2, (run_compaction demo_cc_rate (four_flushes new_db).2).2.
  assert (Hfst : (four_flushes new_db).1 = Ok tt) by (vm_compute; reflexivity).
  assert (Hrun : (run_compaction demo_cc_rate (four_flushes new_db).2).1 = Ok tt) by (vm_compute; reflexivity).
  split; [by rewrite <- Hfst, <- surjective_pairing|].
  split; [by rewrite <- Hrun, <- surjective_pairing|].
  repeat split; vm_compute; reflexivity.
Qed.
End compaction_witnesses.
