(* ===== verification/CompactionRun.v ===== *)
(** * Whole compaction runs ([SizedTierRunner::run_compaction] of
    [src/compactors/sized.rs])

    The loop of [run_compaction] has no bound in the source. Here: every round
    that does not end it leaves at least three tables fewer, whatever the file
    system answers, so the loop ends; and when it ends without an error, no bucket
    is over-full. *)

From stdpp Require Import prelude gmap strings list.
From Stdlib Require Import Strings.Byte ZArith Lia.
From S2P Require Import Prelude Consts SkipMap FileIO Types World Block Index Bloom SSTable MemTable KeyRange Bucket Flush Compaction.
Open Scope nat_scope.

(** The bucket map as an [IndexMap] keyed by the buckets' ids *)
Record bm_keyed (bm : BucketMap) : Prop := {
  bkd_ids : Forall (fun p => p.1 = bk_id p.2) (buckets bm);
  bkd_nodup : NoDup (buckets bm).*1;
}.

(** ** Weighing a bucket map: the sum of a weight of each bucket's table count *)
Definition weigh (f : string -> nat -> nat) (l : list (string * Bucket)) : nat :=
  sum_list_with (fun p => f p.1 (length (sstables p.2))) l.

Lemma weigh_cons f p l : weigh f (p :: l) = f p.1 (length (sstables p.2)) + weigh f l.
Proof. done. Qed.

Lemma weigh_mono f g l : (forall id n, f id n <= g id n) -> weigh f l <= weigh g l.
Proof. intros Hle. induction l as [|p l IH]; [done|]. unfold weigh in *. simpl. specialize (Hle p.1 (length (sstables p.2))). lia. Qed.

Lemma weigh_agree f g l : (forall id n, id ∈ l.*1 -> f id n = g id n) -> weigh f l = weigh g l.
Proof.
  induction l as [|p l IH]; intros Hfg; [done|]. unfold weigh in *. simpl.
  rewrite Hfg by (simpl; set_solver). rewrite IH; [done|]. intros id n Hin. apply Hfg. simpl. set_solver.
Qed.

Lemma weigh_tables l : weigh (fun _ n => n) l = length (all_tables l).
Proof. induction l as [|p l IH]; [done|]. rewrite all_tables_cons, length_app, <- IH. done. Qed.

Lemma im_get_not_in id l : im_get id l = None <-> id ∉ l.*1.
Proof.
  induction l as [|[i b] l IH]; simpl; [set_solver|]. case_decide; [subst; set_solver|]. rewrite IH. set_solver.
Qed.

Lemma weigh_insert f id b l :
  weigh f (im_insert id b l) + from_option (fun b0 => f id (length (sstables b0))) 0 (im_get id l) =
  weigh f l + f id (length (sstables b)).
Proof.
  induction l as [|[i b'] l IH]; unfold weigh in *; simpl; [lia|].
  case_decide; subst; simpl; [lia|]. lia.
Qed.

(** Changing the weight of one bucket *)
Lemma weigh_change f g id b l :
  NoDup l.*1 -> im_get id l = Some b -> (forall id' n, id' <> id -> f id' n = g id' n) ->
  weigh f l + g id (length (sstables b)) = weigh g l + f id (length (sstables b)).
Proof.
  intros Hnd Hg Hfg. induction l as [|[i b'] l IH]; [done|]. rewrite fmap_cons in Hnd. apply NoDup_cons in Hnd as [Hni Hnd].
  simpl in Hg, Hni. case_decide; subst.
  - injection Hg as ->. assert (weigh f l = weigh g l) as E.
    { apply weigh_agree. intros id' n Hin. apply Hfg. by intros ->. }
    unfold weigh in *. simpl. lia.
  - specialize (IH Hnd Hg). unfold weigh in *. simpl. rewrite (Hfg i) by done. lia.
Qed.

(** What is left of a bucket once the buckets of [dead] are gone and [n id] tables
    are removed from each other bucket *)
Definition left_over (dead : list string) (n : string -> nat) (id : string) (k : nat) : nat :=
  if decide (id ∈ dead) then 0 else k - n id.
Lemma left_over_nil n id k : left_over [] n id k = k - n id.
Proof. unfold left_over. by rewrite decide_False by set_solver. Qed.

Definition none (_ : string) : nat := 0.

(** How many tables a removal list names for a bucket *)
Fixpoint named (rm : list (string * list Table)) (id : string) : nat :=
  match rm with
  | [] => 0
  | (id', ssts) :: rm' => if decide (id = id') then length ssts else named rm' id
  end.

Lemma named_not_in rm id : id ∉ rm.*1 -> named rm id = 0.
Proof. induction rm as [|[i ssts] rm IH]; [done|]. simpl. intros Hni. rewrite decide_False by set_solver. apply IH. set_solver. Qed.

Section runs.
Context `{Env} {M : Type -> Type} `{SkipMap M} (cfg : CompactConfig).
Abbreviation W := (World M).
Abbreviation D := (Db M).

(** ** Insertion *)
Lemma bm_keyed_insert bm id b :
  bm_keyed bm -> id = bk_id b -> bm_keyed (mkBucketMap (bm_dir bm) (im_insert id b (buckets bm))).
Proof.
  intros [Hi Hn] ->. split; cbn [buckets].
  - by apply im_insert_Forall.
  - rewrite im_insert_keys. case_decide; [done|]. apply NoDup_app. split_and!; [done|set_solver|apply NoDup_singleton].
Qed.

Lemma insert_to_bucket_weigh {T} `{InsertableToBucket T} bm b (x : T) ty (w : W) t bm' w' rm :
  bm_keyed bm -> (im_get (bk_id b) (buckets bm) = Some b \/ sstables b = []) ->
  insert_to_bucket bm b x ty w = (Ok (t, bm'), w') ->
  bm_keyed bm' /\ weigh (left_over [] rm) (buckets bm') <= S (weigh (left_over [] rm) (buckets bm)).
Proof.
  intros Hk Hb Hrun. unfold insert_to_bucket in Hrun.
  apply io_bind_Ok in Hrun as (c & w1 & _ & Hrun). apply io_bind_Ok in Hrun as (sst & w2 & _ & Hrun).
  assert (exists b', bk_id b' = bk_id b /\ length (sstables b') = S (length (sstables b)) /\
    bm' = mkBucketMap (bm_dir bm) (im_insert (bk_id b') b' (buckets bm))) as (b' & Hid & Hlen & ->).
  { destruct ty; apply io_bind_Ok in Hrun as (a & w3 & _ & Hrun); injection Hrun as <- <- <-;
      (eexists (mkBucket (bk_id b) (bk_dir b) _ _ _); split_and!; [done| |reflexivity]);
      cbn [sstables]; rewrite ?length_fmap, length_app; simpl; lia. }
  split; [by apply bm_keyed_insert|]. cbn [buckets].
  pose proof (weigh_insert (left_over [] rm) (bk_id b') b' (buckets bm)) as E.
  rewrite Hid in *. rewrite left_over_nil, Hlen in E.
  destruct Hb as [Hg|Hg]; rewrite Hg in E; cbn [from_option length] in E; [|lia].
  rewrite left_over_nil in E. lia.
Qed.

Lemma insert_weigh {T} `{InsertableToBucket T} bm (x : T) (w : W) t bm' w' rm :
  bm_keyed bm -> insert_to_appropriate_bucket bm x w = (Ok (t, bm'), w') ->
  bm_keyed bm' /\ weigh (left_over [] rm) (buckets bm') <= S (weigh (left_over [] rm) (buckets bm)).
Proof.
  intros Hk Hrun. unfold insert_to_appropriate_bucket in Hrun.
  destruct (List.find _ _) as [[id b]|] eqn:Hf.
  - eapply insert_to_bucket_weigh; [done| |done]. left. apply find_some in Hf as [Hin _].
    apply list_elem_of_In in Hin. destruct Hk as [Hi Hn]. rewrite Forall_forall in Hi.
    specialize (Hi _ Hin). simpl in Hi. subst id. by apply im_get_NoDup.
  - apply io_bind_Ok in Hrun as (b & w1 & Hb & Hrun). eapply insert_to_bucket_weigh; [done| |done]. right.
    unfold bucket_new in Hb. apply io_bind_Ok in Hb as (u & w2 & _ & Hb). apply io_bind_Ok in Hb as (v & w3 & _ & Hb).
    by injection Hb as <- _.
Qed.

Lemma on_world_Ok {A} (m : io W Error A) (d d' : D) a :
  on_world m d = (Ok a, d') -> db_buckets d' = db_buckets d.
Proof. unfold on_world. destruct (m (db_world d)). by intros [= _ <-]. Qed.

Lemma publish_buckets sst (d d' : D) u : publish sst d = (Ok u, d') -> db_buckets d' = db_buckets d.
Proof.
  unfold publish. destruct (t_summary sst); [|done]. destruct (t_filter sst); [|done].
  intros (v & d1 & E1 & E2)%io_bind_Ok. apply on_world_Ok in E1. by injection E2 as _ <-.
Qed.

Lemma insert_merged_weigh merged tr (d : D) tr' d' rm :
  bm_keyed (db_buckets d) -> insert_merged merged tr d = (Ok tr', d') ->
  bm_keyed (db_buckets d') /\ tr' = mkTracker (actual tr + zlen merged) (expected tr) /\
  weigh (left_over [] rm) (buckets (db_buckets d')) <= length merged + weigh (left_over [] rm) (buckets (db_buckets d)).
Proof.
  revert tr d. induction merged as [|ms merged IH]; intros tr d Hk Hrun; cbn [insert_merged] in Hrun.
  { injection Hrun as <- <-. split_and!; [done| |done]. destruct tr. cbn. f_equal. unfold zlen. simpl. lia. }
  match type of Hrun with context [?m d] => destruct (m d) as [[sst|e|] d1] eqn:E1 end; [|done|done].
  apply io_bind_Ok in E1 as (ti & d2 & E2 & E1). apply on_world_Ok in E2.
  unfold db_insert in E1. destruct (insert_to_appropriate_bucket _ _ _) as [[[t bm']|e|] w'] eqn:Ei; [|done|done].
  injection E1 as -> <-. rewrite E2 in Ei. destruct (insert_weigh _ _ _ _ _ _ rm Hk Ei) as [Hk' Hw].
  apply io_bind_Ok in Hrun as (u & d3 & E3 & Hrun). apply publish_buckets in E3. cbn in E3.
  destruct (IH _ d3 ltac:(by rewrite E3) Hrun) as (Hk3 & -> & Hw3). rewrite E3 in Hw3.
  split_and!; [done| |simpl; lia]. cbn. f_equal. unfold zlen. simpl. lia.
Qed.

(** ** Extraction and merging *)
Lemma extract_sstables_Ok b (w w' : W) ssts avg :
  extract_sstables b w = (Ok (ssts, avg), w') ->
  ssts = if sstable_count_exceeds_threshhold b then chosen b else [].
Proof.
  unfold extract_sstables, sstable_count_exceeds_threshhold, MIN_TRESHOLD, MAX_TRESHOLD, chosen, zlen. intros Hrun.
  case_decide; [rewrite bool_decide_false by lia; by injection Hrun as <- _ _|]. rewrite bool_decide_true by lia.
  apply io_bind_Ok in Hrun as (a & w1 & _ & Hrun). injection Hrun as <- _ _.
  case_decide; [done|]. by rewrite take_ge by lia.
Qed.

Lemma exceeds_length b : sstable_count_exceeds_threshhold b = true -> 4 <= length (chosen b).
Proof.
  unfold sstable_count_exceeds_threshhold, MIN_TRESHOLD, chosen, zlen. intros Hb%bool_decide_eq_true.
  rewrite length_take. lia.
Qed.

Lemma extract_loop_Ok l (w w' : W) bs rm :
  extract_loop l w = (Ok (bs, rm), w') ->
  rm = (fun p => (p.1, chosen p.2)) <$> imbalanced l /\ length bs = length (imbalanced l).
Proof.
  revert w w' bs rm. induction l as [|[id b] l IH]; intros w w' bs rm Hrun; cbn [extract_loop] in Hrun.
  { by injection Hrun as <- <- _. }
  apply io_bind_Ok in Hrun as ([ssts avg] & w1 & E1 & Hrun). apply extract_sstables_Ok in E1.
  apply io_bind_Ok in Hrun as ([bs' rm'] & w2 & E2 & Hrun). destruct (IH _ _ _ _ E2) as [-> Hl].
  unfold imbalanced in *. cbn [List.filter snd]. destruct (sstable_count_exceeds_threshhold b) eqn:Eb.
  - pose proof (exceeds_length b Eb). subst ssts. destruct (chosen b) as [|t ts] eqn:Ec; [simpl in *; lia|].
    injection Hrun as <- <- _. split; [by rewrite fmap_cons; cbn [fst snd]; rewrite Ec|simpl; by rewrite Hl].
  - subst ssts. by injection Hrun as <- <- _.
Qed.

Lemma merge_buckets_length tombs bs (w w' : W) merged tombs' :
  merge_buckets cfg tombs bs w = (Ok (merged, tombs'), w') -> length merged = length bs.
Proof.
  revert tombs w w' merged tombs'. induction bs as [|b bs IH]; intros tombs w w' merged tombs' Hrun; cbn [merge_buckets] in Hrun.
  { by injection Hrun as <- _ _. }
  apply io_bind_Ok in Hrun as (t & w1 & _ & Hrun). apply io_bind_Ok in Hrun as ([[y h] ts] & w2 & _ & Hrun).
  apply io_bind_Ok in Hrun as (m & w3 & _ & Hrun). apply io_bind_Ok in Hrun as (f & w4 & _ & Hrun).
  apply io_bind_Ok in Hrun as (f' & w5 & _ & Hrun). apply io_bind_Ok in Hrun as ([rest ts'] & w6 & E & Hrun).
  injection Hrun as <- _ _. simpl. by rewrite (IH _ _ _ _ _ E).
Qed.

(** ** Deletion *)
Lemma bm_keyed_shrink bm id b b' :
  bm_keyed bm -> im_get id (buckets bm) = Some b -> bk_id b' = bk_id b ->
  bm_keyed (mkBucketMap (bm_dir bm) (im_insert id b' (buckets bm))).
Proof.
  intros Hk Hg Hid. apply bm_keyed_insert; [done|]. rewrite Hid. apply im_get_elem in Hg.
  pose proof (bkd_ids _ Hk) as Hi. rewrite Forall_forall in Hi. by apply Hi in Hg.
Qed.

(** One bucket of the removal list: its tables are dropped, or it is marked dead *)
Lemma delete_step_weigh id ssts rm bm bm1 dead gone :
  bm_keyed bm -> id ∉ rm.*1 ->
  (bm1 = bm /\ (im_get id (buckets bm) = None \/ dead = [id])) \/
  (dead = [] /\ exists b b', im_get id (buckets bm) = Some b /\ bk_id b' = bk_id b /\
    sstables b' = drop (length ssts) (sstables b) /\ bm1 = mkBucketMap (bm_dir bm) (im_insert id b' (buckets bm))) ->
  bm_keyed bm1 /\ weigh (left_over (gone ++ dead) (named rm)) (buckets bm1) <=
                 weigh (left_over gone (named ((id, ssts) :: rm))) (buckets bm).
Proof.
  intros Hk Hni [[-> Hc]|(-> & b & b' & Hg & Hid & Hs & ->)].
  - split; [done|]. destruct Hc as [Hg| ->].
    + transitivity (weigh (left_over gone (named rm)) (buckets bm)).
      * apply weigh_mono. intros id' n. unfold left_over. repeat case_decide; (lia || set_solver).
      * apply Nat.eq_le_incl, weigh_agree. intros id' n Hin. unfold left_over. simpl. apply im_get_not_in in Hg.
        by rewrite (decide_False (P := id' = id)) by set_solver.
    + apply weigh_mono. intros id' n. unfold left_over. simpl. repeat case_decide; (lia || set_solver).
  - split; [by eapply bm_keyed_shrink|]. rewrite app_nil_r. cbn [buckets].
    assert (forall id' n, id' <> id -> left_over gone (named rm) id' n = left_over gone (named ((id, ssts) :: rm)) id' n) as Ho.
    { intros id' n Hne. unfold left_over. simpl. by rewrite (decide_False (P := id' = id)). }
    pose proof (weigh_insert (left_over gone (named rm)) id b' (buckets bm)) as E. rewrite Hg in E. cbn [from_option] in E.
    pose proof (weigh_change _ _ id b (buckets bm) (bkd_nodup _ Hk) Hg Ho) as E'.
    rewrite Hs, length_drop in E. unfold left_over at 2 4 in E. unfold left_over at 2 4 in E'.
    pose proof (named_not_in rm id Hni) as E0.
    assert (named ((id, ssts) :: rm) id = length ssts) as E1 by (simpl; by rewrite (decide_True (P := id = id))).
    destruct (decide (id ∈ gone)); lia.
Qed.

Lemma delete_loop_weigh rm bm (w w' : W) bm' dead all_deleted gone :
  bm_keyed bm -> NoDup rm.*1 -> delete_loop bm rm w = (Ok (bm', dead, all_deleted), w') ->
  bm_keyed bm' /\
  weigh (left_over (gone ++ dead) none) (buckets bm') <= weigh (left_over gone (named rm)) (buckets bm).
Proof.
  revert bm w w' dead all_deleted gone. induction rm as [|[id ssts] rm IH]; intros bm w w' dead all_deleted gone Hk Hnd Hrun;
    cbn [delete_loop] in Hrun.
  { injection Hrun as <- <- _ _. split; [done|]. by rewrite app_nil_r. }
  rewrite fmap_cons in Hnd. apply NoDup_cons in Hnd as [Hni Hnd]. cbn [fst] in Hni.
  apply io_bind_Ok in Hrun as ([bm1 dead1] & w1 & E1 & Hrun). apply io_bind_Ok in Hrun as (b1 & w2 & _ & Hrun).
  apply io_bind_Ok in Hrun as ([[bm2 dead2] b2] & w3 & E3 & Hrun). injection Hrun as <- <- _ _.
  destruct (delete_step_weigh id ssts rm bm bm1 dead1 gone Hk Hni) as [Hk1 Hw1].
  { destruct (im_get id (buckets bm)) as [b|] eqn:Hg; [|left; by injection E1 as <- <- _; auto].
    destruct (drop (length ssts) (sstables b)) as [|t ts] eqn:Ed; [left; injection E1 as <- <- _; auto|right].
    apply io_bind_Ok in E1 as (avg & w4 & _ & E1). injection E1 as <- <- _.
    split; [done|]. exists b. eexists. split_and!; [done| | |reflexivity]; done. }
  destruct (IH _ _ _ _ _ (gone ++ dead1) Hk1 Hnd E3) as [Hk2 Hw2]. rewrite app_assoc. split; [done|lia].
Qed.

Lemma im_shift_remove_NoDup id l : NoDup l.*1 -> NoDup (im_shift_remove id l).*1.
Proof.
  intros Hnd. apply (sublist_NoDup _ _ Hnd). clear Hnd.
  induction l as [|[i b] l IH]; [done|]. simpl. case_decide; by constructor.
Qed.

Lemma bm_keyed_removes dead bm :
  bm_keyed bm -> bm_keyed (mkBucketMap (bm_dir bm) (fold_left (fun l id => im_shift_remove id l) dead (buckets bm))).
Proof.
  intros [Hi Hn]. destruct bm as [dir l]. cbn [buckets bm_dir] in *. revert l Hi Hn.
  induction dead as [|id dead IH]; intros l Hi Hn; [done|]. apply (IH (im_shift_remove id l)); [|by apply im_shift_remove_NoDup].
  clear -Hi. induction Hi as [|[i b] l Hb Hi IH]; [done|]. simpl. case_decide; [done|by constructor].
Qed.

Lemma shift_remove_weigh id dead l :
  NoDup l.*1 -> weigh (left_over dead none) (im_shift_remove id l) <= weigh (left_over (id :: dead) none) l.
Proof.
  induction l as [|[i b] l IH]; [done|]. rewrite fmap_cons. intros [Hni Hnd]%NoDup_cons. simpl in Hni. simpl. case_decide.
  - subst i. transitivity (weigh (left_over (id :: dead) none) l); [|unfold weigh; simpl; lia].
    apply Nat.eq_le_incl, weigh_agree. intros id' n Hin. unfold left_over.
    repeat case_decide; set_solver.
  - specialize (IH Hnd). unfold weigh in *. simpl. unfold left_over at 1 3. repeat case_decide; (lia || set_solver).
Qed.

Lemma fold_remove_weigh dead l :
  NoDup l.*1 -> length (all_tables (fold_left (fun l id => im_shift_remove id l) dead l)) <= weigh (left_over dead none) l.
Proof.
  revert l. induction dead as [|id dead IH]; intros l Hnd; simpl.
  - rewrite <- weigh_tables. apply weigh_mono. intros id n. rewrite left_over_nil. unfold none. lia.
  - etransitivity; [apply IH|by apply shift_remove_weigh].
    by apply im_shift_remove_NoDup.
Qed.

Lemma delete_ssts_weigh rm bm (w w' : W) bm' b :
  bm_keyed bm -> NoDup rm.*1 -> delete_ssts bm rm w = (Ok (bm', b), w') ->
  bm_keyed bm' /\ length (bm_tables bm') <= weigh (left_over [] (named rm)) (buckets bm).
Proof.
  intros Hk Hnd Hrun. unfold delete_ssts in Hrun. apply io_bind_Ok in Hrun as ([[bm1 dead] all_deleted] & w1 & E & Hrun).
  injection Hrun as <- _ _. destruct (delete_loop_weigh _ _ _ _ _ _ _ [] Hk Hnd E) as [Hk1 Hw]. simpl in Hw.
  split; [by apply bm_keyed_removes|]. etransitivity; [|exact Hw]. apply fold_remove_weigh, Hk1.
Qed.

Lemma clean_up_weigh rm (d d' : D) :
  bm_keyed (db_buckets d) -> NoDup rm.*1 -> clean_up_after_compaction rm d = (Ok (Some tt), d') ->
  bm_keyed (db_buckets d') /\ length (bm_tables (db_buckets d')) <= weigh (left_over [] (named rm)) (buckets (db_buckets d)).
Proof.
  intros Hk Hnd Hrun. unfold clean_up_after_compaction in Hrun.
  destruct (delete_ssts _ _ _) as [[[bm' []]|e|] w'] eqn:E; [|done..].
  apply delete_ssts_weigh in E; [|done|done]. apply io_bind_Ok in Hrun as (u & d1 & Hfor & Hrun). injection Hrun as <-.
  assert (db_buckets d1 = bm') as -> ; [|done]. clear E.
  change bm' with (db_buckets (mkDb w' bm' (db_ranges d))). revert Hfor. generalize (mkDb w' bm' (db_ranges d)).
  induction (mjoin (snd <$> rm)) as [|s l IH]; intros d0 Hfor; [by injection Hfor as _ <-|].
  cbn [io_for] in Hfor. apply io_bind_Ok in Hfor as (v & d2 & E2 & Hfor). apply IH in Hfor. by injection E2 as _ <-.
Qed.

(** ** A round *)

(** The tables taken from a map with distinct ids are counted once each *)
Lemma weigh_named l :
  NoDup l.*1 ->
  weigh (left_over [] (named ((fun p => (p.1, chosen p.2)) <$> imbalanced l))) l + 4 * length (imbalanced l) <=
  length (all_tables l).
Proof.
  induction l as [|[id b] l IH]; [done|]. rewrite fmap_cons. intros [Hni Hnd]%NoDup_cons. cbn [fst] in Hni.
  specialize (IH Hnd). rewrite all_tables_cons, length_app. cbn [snd].
  set (rm := fun l => (fun p : string * Bucket => (p.1, chosen p.2)) <$> imbalanced l). change (_ <$> imbalanced l) with (rm l) in IH.
  assert (forall id', named (rm ((id, b) :: l)) id' =
    if decide (id' = id) then (if sstable_count_exceeds_threshhold b then length (chosen b) else 0) else named (rm l) id') as Hr.
  { intros id'. unfold rm, imbalanced. cbn [List.filter snd]. destruct (sstable_count_exceeds_threshhold b); [done|].
    case_decide; [|done]. subst id'. apply named_not_in. intros (p & -> & Hin)%list_elem_of_fmap. apply Hni.
    apply list_elem_of_fmap in Hin as (q & -> & Hin). apply list_elem_of_fmap. exists q. split; [done|].
    apply list_elem_of_In, filter_In in Hin as [Hin _]. by apply list_elem_of_In. }
  assert (weigh (left_over [] (named (rm ((id, b) :: l)))) l = weigh (left_over [] (named (rm l))) l) as E.
  { apply weigh_agree. intros id' n Hin. rewrite !left_over_nil, Hr, decide_False; [done|]. by intros ->. }
  rewrite weigh_cons. cbn [fst snd]. change (_ <$> imbalanced ((id, b) :: l)) with (rm ((id, b) :: l)).
  rewrite E, left_over_nil, Hr, decide_True by done.
  assert (length (imbalanced ((id, b) :: l)) = (if sstable_count_exceeds_threshhold b then 1 else 0) + length (imbalanced l))
    as -> by (unfold imbalanced; simpl; by case_match).
  destruct (sstable_count_exceeds_threshhold b) eqn:Eb; [|lia].
  pose proof (exceeds_length b Eb). assert (length (chosen b) <= length (sstables b)) by (unfold chosen; rewrite length_take; lia).
  lia.
Qed.

Lemma imbalanced_ids l : NoDup l.*1 -> NoDup ((fun p : string * Bucket => (p.1, chosen p.2)) <$> imbalanced l).*1.
Proof.
  intros Hnd. rewrite <- list_fmap_compose. apply (sublist_NoDup _ _ Hnd). clear Hnd.
  induction l as [|[id b] l IH]; [done|]. unfold imbalanced in *. simpl. case_match; by constructor.
Qed.

(** A round that goes on leaves at least three tables fewer *)
Lemma round_shrinks tombs (d d' : D) tombs' :
  bm_keyed (db_buckets d) -> compaction_round cfg tombs d = (Ok (Some tombs'), d') ->
  bm_keyed (db_buckets d') /\ length (bm_tables (db_buckets d')) + 3 <= length (bm_tables (db_buckets d)).
Proof.
  intros Hk Hrun. unfold compaction_round in Hrun.
  destruct (on_world _ d) as [[[bs rm]|e|] d1] eqn:E1; [|done..]. destruct bs as [|b bs]; [done|].
  pose proof (on_world_Ok _ _ _ _ E1) as Hb1. unfold on_world in E1.
  destruct (extract_imbalanced_buckets _ _) as [[p|e|] w1] eqn:Ex; [|done..]. injection E1 as -> _.
  apply extract_loop_Ok in Ex as [-> Hlen].
  destruct (on_world _ d1) as [[[merged ts]|e|] d2] eqn:E2; [|done..].
  pose proof (on_world_Ok _ _ _ _ E2) as Hb2. unfold on_world in E2.
  destruct (merge_ssts_in_buckets _ _ _ _) as [[q|e|] w2] eqn:Em; [|done..]. injection E2 as -> _.
  unfold merge_ssts_in_buckets in Em. apply io_bind_Ok in Em as ([merged' ts'] & w3 & Em & Em').
  assert (merged' = merged) as -> by (destruct merged'; [done|by injection Em' as <- _ _]).
  apply merge_buckets_length in Em. rewrite Hb1 in Hb2.
  apply io_bind_Ok in Hrun as (tr & d3 & Ei & Hrun).
  eapply (insert_merged_weigh _ _ _ _ _ (named ((fun p => (p.1, chosen p.2)) <$> imbalanced (buckets (db_buckets d)))))
    in Ei as (Hk3 & -> & Hw); [|by rewrite Hb2]. rewrite Hb2 in Hw.
  unfold finish_round in Hrun. cbn [actual expected] in Hrun. rewrite decide_True in Hrun by lia.
  destruct (clean_up_after_compaction _ d3) as [[[[]|]|e|] d4] eqn:Ec; [|done..]. injection Hrun as _ <-.
  apply clean_up_weigh in Ec as [Hk4 Hw4]; [|done|by apply imbalanced_ids, Hk]. split; [done|].
  pose proof (weigh_named _ (bkd_nodup _ Hk)). unfold bm_tables at 2. cbn [length] in Hlen, Em. lia.
Qed.

(** ** The loop *)

(** The unbounded loop: how it ends, from a state of the tombstones and the database *)
Inductive compaction_ends : Tombs -> D -> outcome Error unit * D -> Prop :=
  | ends_done tombs d d' : compaction_round cfg tombs d = (Ok None, d') -> compaction_ends tombs d (Ok tt, d')
  | ends_error tombs d e d' : compaction_round cfg tombs d = (Err e, d') -> compaction_ends tombs d (Err e, d')
  | ends_panic tombs d d' : compaction_round cfg tombs d = (Panic, d') -> compaction_ends tombs d (Panic, d')
  | ends_next tombs d tombs' d' r :
      compaction_round cfg tombs d = (Ok (Some tombs'), d') -> compaction_ends tombs' d' r -> compaction_ends tombs d r.

Lemma compaction_loop_ends fuel tombs (d : D) :
  bm_keyed (db_buckets d) -> length (bm_tables (db_buckets d)) < fuel -> compaction_ends tombs d (compaction_loop cfg fuel tombs d).
Proof.
  revert tombs d. induction fuel as [|fuel IH]; intros tombs d Hk Hlt; [lia|]. cbn [compaction_loop].
  unfold mbind at 1, io_bind at 1. destruct (compaction_round cfg tombs d) as [[[tombs'|]|e|] d'] eqn:E.
  - destruct (round_shrinks _ _ _ _ Hk E) as [Hk' Hl]. eapply ends_next; [exact E|]. apply IH; [done|lia].
  - by apply ends_done.
  - by apply ends_error.
  - by apply ends_panic.
Qed.

Lemma is_balanced_imbalanced bm : is_balanced bm = true <-> imbalanced (buckets bm) = [].
Proof.
  unfold is_balanced, imbalanced. induction (buckets bm) as [|p l IH]; [done|]. simpl. by destruct (sstable_count_exceeds_threshhold p.2).
Qed.

Lemma extract_loop_balanced l (w : W) : imbalanced l = [] -> extract_loop l w = (Ok ([], []), w).
Proof.
  induction l as [|[id b] l IH]; intros Hi; [done|]. unfold imbalanced in *. cbn [List.filter snd] in Hi.
  destruct (sstable_count_exceeds_threshhold b) eqn:Eb; [done|]. cbn [extract_loop].
  unfold sstable_count_exceeds_threshhold, MIN_TRESHOLD in Eb. apply bool_decide_eq_false in Eb.
  assert (extract_sstables b w = (Ok ([], 0%Z), w)) as E by (unfold extract_sstables, MIN_TRESHOLD; by rewrite decide_True by lia).
  run E. by run (IH Hi).
Qed.

Lemma round_balanced tombs (d : D) : is_balanced (db_buckets d) = true -> compaction_round cfg tombs d = (Ok None, d).
Proof.
  intros Hb%is_balanced_imbalanced. unfold compaction_round, on_world, extract_imbalanced_buckets.
  rewrite (extract_loop_balanced _ _ Hb). by destruct d.
Qed.

Lemma round_done tombs (d d' : D) :
  compaction_round cfg tombs d = (Ok None, d') -> db_buckets d' = db_buckets d /\ is_balanced (db_buckets d) = true.
Proof.
  unfold compaction_round. intros Hrun. destruct (on_world _ d) as [[[bs rm]|e|] d1] eqn:E1; [|done..].
  pose proof (on_world_Ok _ _ _ _ E1) as Hb. unfold on_world in E1.
  destruct (extract_imbalanced_buckets _ _) as [[p|e|] w1] eqn:Ex; [|done..]. injection E1 as -> _.
  apply extract_loop_Ok in Ex as [_ Hlen]. destruct bs as [|b bs].
  - injection Hrun as <-. split; [done|]. apply is_balanced_imbalanced. by destruct (imbalanced _).
  - exfalso. destruct (on_world _ d1) as [[[m ts]|e|] d2]; [|done..].
    apply io_bind_Ok in Hrun as (tr & d3 & _ & Hrun). unfold finish_round in Hrun. case_decide; [|done].
    by destruct (clean_up_after_compaction _ d3) as [[[u|]|e|] d4].
Qed.

Lemma compaction_ends_balanced tombs (d : D) r :
  compaction_ends tombs d r -> bm_keyed (db_buckets d) -> r.1 = Ok tt ->
  is_balanced (db_buckets r.2) = true /\ bm_keyed (db_buckets r.2) /\
  length (bm_tables (db_buckets r.2)) <= length (bm_tables (db_buckets d)).
Proof.
  induction 1 as [tombs d d' E|tombs d e d' E|tombs d d' E|tombs d tombs' d' r E Hends IH]; intros Hk Hr; cbn [fst snd] in *;
    [|done|done|].
  - by apply round_done in E as [-> E].
  - destruct (round_shrinks _ _ _ _ Hk E) as [Hk' Hl]. destruct (IH Hk' Hr) as (? & ? & ?). split_and!; [done|done|lia].
Qed.

(** ** Properties *)

(** [C20] Compaction ends and balances. For every database whose buckets are keyed
    by their ids, whatever files are missing or damaged, the unbounded loop of
    [run_compaction] reaches the modelled result: each round that continues
    leaves at least three tables fewer. If that result is not an error, no bucket
    has four or more tables left, and there are no more tables than before. *)
Theorem run_compaction_terminates (d : D) :
  bm_keyed (db_buckets d) ->
  compaction_ends ∅ d (run_compaction cfg d) /\
  ((run_compaction cfg d).1 = Ok tt ->
     is_balanced (db_buckets (run_compaction cfg d).2) = true /\ bm_keyed (db_buckets (run_compaction cfg d).2) /\
     length (bm_tables (db_buckets (run_compaction cfg d).2)) <= length (bm_tables (db_buckets d))).
Proof.
  intros Hk. assert (compaction_ends ∅ d (run_compaction cfg d)) as He.
  { unfold run_compaction. destruct (is_balanced (db_buckets d)) eqn:Eb.
    - by apply ends_done, round_balanced.
    - apply compaction_loop_ends; [done|lia]. }
  split; [done|]. by apply (compaction_ends_balanced ∅).
Qed.
End runs.

(** ** Witnesses *)
Section run_witnesses.
#[local] Existing Instance demo_platform.
#[local] Existing Instance demo_env.
#[local] Existing Instance sorted_list_skipmap.

Lemma run_compaction_terminates_witness :
  let d := (four_flushes new_db).2 in
  is_balanced (db_buckets d) = false /\ is_balanced (db_buckets (run_compaction demo_cc_rate d).2) = true.
Proof.
  cbv zeta. split; [vm_compute; reflexivity|].
  apply (run_compaction_terminates demo_cc_rate (four_flushes new_db).2).
  - split; apply (bool_decide_unpack _); vm_compute; exact I.
  - vm_compute. reflexivity.
Defined.
End run_witnesses.
