(* ===== verification/Compactor.v ===== *)
(** * The compactor's background tasks ([src/compactors/compact.rs], [Compactor])

    The flush listener and the maintenance worker share the bucket map, the key
    ranges and a state flag behind a mutex. Each is a loop of steps, and a step
    relation interleaves them with arbitrary other changes of the database. A run
    of [handle_compaction] is one step on the database it finds; what the flush
    channel (a crate) answers is any of its documented results. *)

From stdpp Require Import prelude gmap strings list relations.
From Stdlib Require Import Strings.Byte ZArith Lia.
From S2P Require Import Prelude Consts SkipMap FileIO Types World Block Index Bloom SSTable MemTable KeyRange Bucket Flush Compaction.
Open Scope Z_scope.

Inductive CompState := Sleep | Active.

(** What [rx.try_recv()] answers: a signal or one of the channel's errors *)
Inductive TryRecv := Received | Overflowed (n : N) | Closed | Empty.

(** Where a task's loop is: before its next check, inside [handle_compaction],
    or ended by a panic. *)
Inductive TaskPc := Waiting | Compacting | Ended.

Record Compactor (M : Type -> Type) := mkCompactor {
  co_db : Db M;
  is_active : CompState;
  listener : TaskPc;
  worker : TaskPc;
}.
Arguments mkCompactor {M}.
Arguments co_db {M}.
Arguments is_active {M}.
Arguments listener {M}.
Arguments worker {M}.

#[export] Instance CompState_eq_dec : EqDecision CompState.
Proof. solve_decision. Defined.
#[export] Instance TaskPc_eq_dec : EqDecision TaskPc.
Proof. solve_decision. Defined.

Section compactor.
Context `{Env} {M : Type -> Type} `{SkipMap M} (cfg : CompactConfig).
Abbreviation C := (Compactor M).

(** [Compactor::new] around the shared handles *)
Definition compactor_new (d : Db M) : C := mkCompactor d Sleep Waiting Waiting.

(** One iteration of the flush listener up to [handle_compaction]: the signal is
    received before the state is checked, and is lost when a compaction runs *)
Definition listener_check (signal : TryRecv) (c : C) : C :=
  match is_active c with
  | Sleep =>
      match signal with
      | Received => mkCompactor (co_db c) Active Compacting (worker c)
      | _ => c
      end
  | Active => c
  end.

(** The rest of the iteration; an error skips the reset of the state *)
Definition listener_finish (c : C) : C :=
  match handle_compaction cfg (co_db c) with
  | (Ok _, d) => mkCompactor d Sleep Waiting (worker c)
  | (Err _, d) => mkCompactor d (is_active c) Waiting (worker c)
  | (Panic, d) => mkCompactor d (is_active c) Ended (worker c)
  end.

(** One iteration of the maintenance worker *)
Definition worker_check (c : C) : C :=
  match is_active c with
  | Sleep => mkCompactor (co_db c) Active (listener c) Compacting
  | Active => c
  end.
Definition worker_finish (c : C) : C :=
  match handle_compaction cfg (co_db c) with
  | (Panic, d) => mkCompactor d (is_active c) (listener c) Ended
  | (_, d) => mkCompactor d Sleep (listener c) Waiting
  end.

(** Interleavings; [co_other] is any other change of the database. *)
Inductive co_step : C -> C -> Prop :=
  | co_listener_check c signal : listener c = Waiting -> co_step c (listener_check signal c)
  | co_listener_finish c : listener c = Compacting -> co_step c (listener_finish c)
  | co_worker_check c : worker c = Waiting -> co_step c (worker_check c)
  | co_worker_finish c : worker c = Compacting -> co_step c (worker_finish c)
  | co_other c d : co_step c (mkCompactor d (is_active c) (listener c) (worker c)).

(** ** Properties *)
Record co_inv (c : C) : Prop := {
  ci_sleep : is_active c = Sleep -> listener c <> Compacting /\ worker c <> Compacting;
  ci_one : ~ (listener c = Compacting /\ worker c = Compacting);
}.

Lemma co_step_inv c c' : co_step c c' -> co_inv c -> co_inv c'.
Proof.
  intros Hs [I1 I2]. destruct Hs as [c signal Hl|c Hl|c Hw|c Hw|c d]; [..|by split].
  - unfold listener_check. destruct (is_active c) eqn:Ea; [destruct signal|]; split; cbn; intuition congruence.
  - unfold listener_finish. destruct (handle_compaction cfg (co_db c)) as [[]]; split; cbn; intuition congruence.
  - unfold worker_check. destruct (is_active c) eqn:Ea; split; cbn; intuition congruence.
  - unfold worker_finish. destruct (handle_compaction cfg (co_db c)) as [[]]; split; cbn; intuition congruence.
Qed.

Lemma co_inv_new d : co_inv (compactor_new d).
Proof. split; cbn; intuition congruence. Qed.

Lemma co_steps_inv c c' : rtc co_step c c' -> co_inv c -> co_inv c'.
Proof. induction 1; eauto using co_step_inv. Qed.

(** The state after a failed listener run: active, and nobody compacting *)
Record co_stuck (c : C) : Prop := {
  cs_active : is_active c = Active;
  cs_listener : listener c <> Compacting;
  cs_worker : worker c <> Compacting;
}.

Lemma co_step_stuck c c' : co_step c c' -> co_stuck c -> co_stuck c'.
Proof.
  intros Hs [S1 S2 S3]. destruct Hs as [c signal Hl|c Hl|c Hw|c Hw|c d]; try done.
  - unfold listener_check. rewrite S1. by split.
  - unfold worker_check. by rewrite S1.
Qed.

(** Mutual exclusion: in every interleaving of the flush listener, the
    maintenance worker and other activity, whatever the flush channel answers, at most one task is
    inside [handle_compaction], and none while the state is [Sleep]. *)
Theorem compaction_exclusive d c :
  rtc co_step (compactor_new d) c ->
  ~ (listener c = Compacting /\ worker c = Compacting) /\
  (is_active c = Sleep -> listener c <> Compacting /\ worker c <> Compacting).
Proof. intros Hs. by destruct (co_steps_inv _ _ Hs (co_inv_new d)). Qed.

(** [C36] A compaction that fails in the flush listener, by an error or a panic,
    leaves the state [Active] for good: from then on, in every interleaving,
    neither task ever compacts again. *)
Theorem compaction_stuck_after_error d c r d' c' :
  rtc co_step (compactor_new d) c -> listener c = Compacting ->
  handle_compaction cfg (co_db c) = (r, d') -> (forall u, r <> Ok u) ->
  rtc co_step (listener_finish c) c' ->
  is_active c' = Active /\ listener c' <> Compacting /\ worker c' <> Compacting.
Proof.
  intros Hr Hl He Hn Hs. destruct (co_steps_inv _ _ Hr (co_inv_new d)) as [I1 I2].
  assert (co_stuck (listener_finish c)) as Hst.
  { unfold listener_finish. rewrite He.
    destruct r as [u|e|]; [by destruct (Hn u)|split; cbn; [|done|intuition congruence]..];
      (destruct (is_active c); [|done]; by destruct (I1 eq_refl)). }
  assert (co_stuck c') as []; [|done]. clear -Hs Hst. induction Hs; eauto using co_step_stuck.
Qed.
End compactor.

(** ** Witnesses *)
Section compactor_witnesses.
#[local] Existing Instance demo_platform.
#[local] Existing Instance demo_env.
#[local] Existing Instance sorted_list_skipmap.

(** A bucket of four tables whose data files hold a torn entry *)
Definition torn_world : World slist :=
  mkWorld (mkFS {[ 0%nat := [x01; x02] ]} {[ ["torn"%string] := 0%nat ]} {[ [] ]} 1) ∅ ∅ 0 0.
Definition torn_table (n : nat) : Table :=
  mkTable ["t"%string] 1 10 0 (mkFileNode ["torn"%string] 0 FData) (mkFileNode ["torn"%string] 0 FIndex) n None None.
Definition torn_db : Db slist :=
  mkDb torn_world (mkBucketMap [] [("b"%string, mkBucket "b" ["b"%string] 40 10 (torn_table <$> [0; 1; 2; 3]%nat))]) key_range_new.
Definition compacting_torn : Compactor slist := mkCompactor torn_db Active Compacting Waiting.

Lemma compacting_torn_reached : rtc (co_step demo_cc) (compactor_new torn_db) compacting_torn.
Proof. eapply rtc_l; [apply (co_listener_check _ _ Received); reflexivity|]. apply rtc_refl. Qed.

Lemma compaction_exclusive_witness : ~ (listener compacting_torn = Compacting /\ worker compacting_torn = Compacting).
Proof. exact (proj1 (compaction_exclusive demo_cc torn_db compacting_torn compacting_torn_reached)). Defined.

Lemma compaction_stuck_after_error_witness :
  exists e d', handle_compaction demo_cc torn_db = (Err e, d') /\
    is_active (worker_check (listener_finish demo_cc compacting_torn)) = Active.
Proof.
  destruct (handle_compaction demo_cc torn_db) as [[u|e|] d'] eqn:E; [vm_compute in E; discriminate| |vm_compute in E; discriminate].
  exists e, d'. split; [reflexivity|].
  apply (compaction_stuck_after_error demo_cc torn_db compacting_torn (Err e) d' (worker_check (listener_finish demo_cc compacting_torn))
    compacting_torn_reached eq_refl E); [discriminate|].
  apply rtc_once, co_worker_check. unfold listener_finish. cbn [co_db compacting_torn]. rewrite E. reflexivity.
Defined.
End compactor_witnesses.
