(* ===== verification/Config.v ===== *)
(** * Configuration and keyspace names ([src/cfg/config.rs], [src/db/keyspace.rs])

    The builders run on an open store and change its [config] only; a failed
    [assert!] is [Panic]. Durations are nanoseconds. *)

From stdpp Require Import prelude gmap strings list.
From Stdlib Require Import Strings.Byte ZArith Lia.
From S2P Require Import Prelude Consts Compaction.
Open Scope Z_scope.

Record Config := mkConfig {
  cfg_false_positive_rate : Z;
  cfg_allow_prefetch : bool;
  cfg_prefetch_size : Z;
  cfg_write_buffer_size : Z;
  max_buffer_write_number : Z;
  cfg_enable_ttl : bool;
  cfg_entry_ttl : Z;
  cfg_tombstone_ttl : Z;
  cfg_compactor_flush_listener_interval : Z;
  cfg_background_compaction_interval : Z;
  cfg_tombstone_compaction_interval : Z;
  cfg_compaction_strategy : Strategy;
  cfg_online_gc_interval : Z;
  cfg_gc_chunk_size : Z;
  cfg_open_files_limit : Z;
}.

(** [Duration::from_millis], [Duration::from_secs], [as_millis], [as_secs] *)
Definition from_millis (n : Z) : Z := n * 1000000.
Definition from_secs (n : Z) : Z := n * 1000000000.
Definition as_millis (d : Z) : Z := d / 1000000.
Definition as_secs (d : Z) : Z := d / 1000000000.

(** [src/consts/mod.rs] *)
Definition DEFAULT_FALSE_POSITIVE_RATE : Z := 4547007122018943789. (* 1e-4 *)
Definition DEFAULT_TOMBSTONE_COMPACTION_INTERVAL : Z := from_millis (5 * 86400000).
Definition DEFAULT_COMPACTION_INTERVAL : Z := from_millis (1000 * 60 * 60).
Definition DEFAULT_COMPACTION_FLUSH_LISTNER_INTERVAL : Z := from_millis (1000 * 60 * 5).
Definition DEFAULT_ONLINE_GC_INTERVAL : Z := from_millis (10 * 1000 * 60 * 60).
Definition ENTRY_TTL : Z := from_millis (365 * 86400000).
Definition DEFAULT_TOMBSTONE_TTL : Z := from_millis (120 * 86400000).

Definition DEFAULT_ENABLE_TTL : bool := false.
Definition DEFAULT_ALLOW_PREFETCH : bool := true.
Definition DEFAULT_PREFETCH_SIZE : Z := 10.

(** [get_open_file_limit], by target *)
Inductive TargetOs := Windows | Macos | OtherOs.
Definition get_open_file_limit (os : TargetOs) : Z := match os with OtherOs => 900 | Windows => 400 | Macos => 150 end.

(** [Config::default] on Linux *)
Definition config_default : Config :=
  mkConfig DEFAULT_FALSE_POSITIVE_RATE DEFAULT_ALLOW_PREFETCH DEFAULT_PREFETCH_SIZE WRITE_BUFFER_SIZE DEFAULT_MAX_WRITE_BUFFER_NUMBER DEFAULT_ENABLE_TTL ENTRY_TTL
    DEFAULT_TOMBSTONE_TTL DEFAULT_COMPACTION_FLUSH_LISTNER_INTERVAL DEFAULT_COMPACTION_INTERVAL
    DEFAULT_TOMBSTONE_COMPACTION_INTERVAL STCS DEFAULT_ONLINE_GC_INTERVAL GC_CHUNK_SIZE (get_open_file_limit OtherOs).

(** [assert!(b)] *)
Definition assert (b : bool) : outcome Error unit := if b then Ok tt else Panic.

Definition with_false_positive_rate (c : Config) (rate : Z) : outcome Error Config :=
  _ ← assert (f64_gt0 rate);
  Ok (mkConfig rate (cfg_allow_prefetch c) (cfg_prefetch_size c) (cfg_write_buffer_size c) (max_buffer_write_number c)
    (cfg_enable_ttl c) (cfg_entry_ttl c) (cfg_tombstone_ttl c) (cfg_compactor_flush_listener_interval c)
    (cfg_background_compaction_interval c) (cfg_tombstone_compaction_interval c) (cfg_compaction_strategy c)
    (cfg_online_gc_interval c) (cfg_gc_chunk_size c) (cfg_open_files_limit c)).

Definition with_allow_prefetch (c : Config) (allow : bool) : outcome Error Config :=
  Ok (mkConfig (cfg_false_positive_rate c) allow (cfg_prefetch_size c) (cfg_write_buffer_size c)
    (max_buffer_write_number c) (cfg_enable_ttl c) (cfg_entry_ttl c) (cfg_tombstone_ttl c)
    (cfg_compactor_flush_listener_interval c) (cfg_background_compaction_interval c)
    (cfg_tombstone_compaction_interval c) (cfg_compaction_strategy c) (cfg_online_gc_interval c) (cfg_gc_chunk_size c)
    (cfg_open_files_limit c)).

Definition with_prefetch_size (c : Config) (size : Z) : outcome Error Config :=
  _ ← assert (cfg_allow_prefetch c && bool_decide (size > 0));
  Ok (mkConfig (cfg_false_positive_rate c) (cfg_allow_prefetch c) size (cfg_write_buffer_size c)
    (max_buffer_write_number c) (cfg_enable_ttl c) (cfg_entry_ttl c) (cfg_tombstone_ttl c)
    (cfg_compactor_flush_listener_interval c) (cfg_background_compaction_interval c)
    (cfg_tombstone_compaction_interval c) (cfg_compaction_strategy c) (cfg_online_gc_interval c) (cfg_gc_chunk_size c)
    (cfg_open_files_limit c)).

Definition with_write_buffer_size (c : Config) (size : Z) : outcome Error Config :=
  _ ← assert (bool_decide (size >= 50));
  Ok (mkConfig (cfg_false_positive_rate c) (cfg_allow_prefetch c) (cfg_prefetch_size c) (as_bytes Kilobytes size)
    (max_buffer_write_number c) (cfg_enable_ttl c) (cfg_entry_ttl c) (cfg_tombstone_ttl c)
    (cfg_compactor_flush_listener_interval c) (cfg_background_compaction_interval c)
    (cfg_tombstone_compaction_interval c) (cfg_compaction_strategy c) (cfg_online_gc_interval c) (cfg_gc_chunk_size c)
    (cfg_open_files_limit c)).

Definition with_max_buffer_write_number (c : Config) (number : Z) : outcome Error Config :=
  _ ← assert (bool_decide (number > 0));
  Ok (mkConfig (cfg_false_positive_rate c) (cfg_allow_prefetch c) (cfg_prefetch_size c) (cfg_write_buffer_size c)
    number (cfg_enable_ttl c) (cfg_entry_ttl c) (cfg_tombstone_ttl c)
    (cfg_compactor_flush_listener_interval c) (cfg_background_compaction_interval c)
    (cfg_tombstone_compaction_interval c) (cfg_compaction_strategy c) (cfg_online_gc_interval c) (cfg_gc_chunk_size c)
    (cfg_open_files_limit c)).

Definition with_enable_ttl (c : Config) (enable : bool) : outcome Error Config :=
  Ok (mkConfig (cfg_false_positive_rate c) (cfg_allow_prefetch c) (cfg_prefetch_size c) (cfg_write_buffer_size c)
    (max_buffer_write_number c) enable (cfg_entry_ttl c) (cfg_tombstone_ttl c)
    (cfg_compactor_flush_listener_interval c) (cfg_background_compaction_interval c)
    (cfg_tombstone_compaction_interval c) (cfg_compaction_strategy c) (cfg_online_gc_interval c) (cfg_gc_chunk_size c)
    (cfg_open_files_limit c)).

Definition with_entry_ttl (c : Config) (ttl : Z) : outcome Error Config :=
  _ ← assert (cfg_enable_ttl c && bool_decide (as_millis ttl >= as_millis (from_secs (3 * 24 * 60 * 60))));
  Ok (mkConfig (cfg_false_positive_rate c) (cfg_allow_prefetch c) (cfg_prefetch_size c) (cfg_write_buffer_size c)
    (max_buffer_write_number c) (cfg_enable_ttl c) ttl (cfg_tombstone_ttl c)
    (cfg_compactor_flush_listener_interval c) (cfg_background_compaction_interval c)
    (cfg_tombstone_compaction_interval c) (cfg_compaction_strategy c) (cfg_online_gc_interval c) (cfg_gc_chunk_size c)
    (cfg_open_files_limit c)).

Definition with_tombstone_ttl (c : Config) (ttl : Z) : outcome Error Config :=
  _ ← assert (bool_decide (as_millis ttl >= as_millis (from_secs (10 * 24 * 60 * 60))));
  Ok (mkConfig (cfg_false_positive_rate c) (cfg_allow_prefetch c) (cfg_prefetch_size c) (cfg_write_buffer_size c)
    (max_buffer_write_number c) (cfg_enable_ttl c) (cfg_entry_ttl c) ttl
    (cfg_compactor_flush_listener_interval c) (cfg_background_compaction_interval c)
    (cfg_tombstone_compaction_interval c) (cfg_compaction_strategy c) (cfg_online_gc_interval c) (cfg_gc_chunk_size c)
    (cfg_open_files_limit c)).

Definition with_compactor_flush_listener_interval (c : Config) (interval : Z) : outcome Error Config :=
  _ ← assert (bool_decide (as_millis interval >= as_millis (from_secs (2 * 60))));
  Ok (mkConfig (cfg_false_positive_rate c) (cfg_allow_prefetch c) (cfg_prefetch_size c) (cfg_write_buffer_size c)
    (max_buffer_write_number c) (cfg_enable_ttl c) (cfg_entry_ttl c) (cfg_tombstone_ttl c)
    interval (cfg_background_compaction_interval c)
    (cfg_tombstone_compaction_interval c) (cfg_compaction_strategy c) (cfg_online_gc_interval c) (cfg_gc_chunk_size c)
    (cfg_open_files_limit c)).

Definition with_background_compaction_interval (c : Config) (interval : Z) : outcome Error Config :=
  _ ← assert (bool_decide (as_millis interval >= as_millis (from_secs (5 * 60))));
  Ok (mkConfig (cfg_false_positive_rate c) (cfg_allow_prefetch c) (cfg_prefetch_size c) (cfg_write_buffer_size c)
    (max_buffer_write_number c) (cfg_enable_ttl c) (cfg_entry_ttl c) (cfg_tombstone_ttl c)
    (cfg_compactor_flush_listener_interval c) interval
    (cfg_tombstone_compaction_interval c) (cfg_compaction_strategy c) (cfg_online_gc_interval c) (cfg_gc_chunk_size c)
    (cfg_open_files_limit c)).

Definition with_tombstone_compaction_interval (c : Config) (interval : Z) : outcome Error Config :=
  _ ← assert (bool_decide (as_millis interval >= as_millis (from_secs (10 * 24 * 60 * 60))));
  Ok (mkConfig (cfg_false_positive_rate c) (cfg_allow_prefetch c) (cfg_prefetch_size c) (cfg_write_buffer_size c)
    (max_buffer_write_number c) (cfg_enable_ttl c) (cfg_entry_ttl c) (cfg_tombstone_ttl c)
    (cfg_compactor_flush_listener_interval c) (cfg_background_compaction_interval c)
    interval (cfg_compaction_strategy c) (cfg_online_gc_interval c) (cfg_gc_chunk_size c)
    (cfg_open_files_limit c)).

Definition with_compaction_strategy (c : Config) (s : Strategy) : outcome Error Config :=
  Ok (mkConfig (cfg_false_positive_rate c) (cfg_allow_prefetch c) (cfg_prefetch_size c) (cfg_write_buffer_size c)
    (max_buffer_write_number c) (cfg_enable_ttl c) (cfg_entry_ttl c) (cfg_tombstone_ttl c)
    (cfg_compactor_flush_listener_interval c) (cfg_background_compaction_interval c)
    (cfg_tombstone_compaction_interval c) s (cfg_online_gc_interval c) (cfg_gc_chunk_size c)
    (cfg_open_files_limit c)).

Definition with_online_gc_interval (c : Config) (interval : Z) : outcome Error Config :=
  _ ← assert (bool_decide (as_secs interval >= as_secs (from_secs (60 * 60))));
  Ok (mkConfig (cfg_false_positive_rate c) (cfg_allow_prefetch c) (cfg_prefetch_size c) (cfg_write_buffer_size c)
    (max_buffer_write_number c) (cfg_enable_ttl c) (cfg_entry_ttl c) (cfg_tombstone_ttl c)
    (cfg_compactor_flush_listener_interval c) (cfg_background_compaction_interval c)
    (cfg_tombstone_compaction_interval c) (cfg_compaction_strategy c) interval (cfg_gc_chunk_size c)
    (cfg_open_files_limit c)).

Definition with_gc_chunk_size (c : Config) (size : Z) : outcome Error Config :=
  _ ← assert (bool_decide (size >= 50));
  Ok (mkConfig (cfg_false_positive_rate c) (cfg_allow_prefetch c) (cfg_prefetch_size c) (cfg_write_buffer_size c)
    (max_buffer_write_number c) (cfg_enable_ttl c) (cfg_entry_ttl c) (cfg_tombstone_ttl c)
    (cfg_compactor_flush_listener_interval c) (cfg_background_compaction_interval c)
    (cfg_tombstone_compaction_interval c) (cfg_compaction_strategy c) (cfg_online_gc_interval c) (as_bytes Kilobytes size)
    (cfg_open_files_limit c)).

(** ** Keyspace names *)

(** [VALID_CHARACTERS.contains(c)]; every valid character is one byte, so the
    characters of the UTF-8 string are compared bytewise *)
Definition valid_character (b : byte) : bool :=
  let n := byte_val b in
  bool_decide (97 <= n <= 122) || bool_decide (65 <= n <= 90) || bool_decide (48 <= n <= 57)
  || bool_decide (n = 95) || bool_decide (n = 45).

Definition is_valid_keyspace_name (s : list byte) : bool :=
  if decide (s = []) then false else
  if decide (zlen s > MAX_KEY_SPACE_SIZE) then false else
  if decide (zlen s > 255) then false else
  forallb valid_character s.

(** ** Properties of the configuration *)

(** The setting each builder guards, as it is checked when it is set. *)
Record config_guarded (c : Config) : Prop := {
  cg_rate : f64_gt0 (cfg_false_positive_rate c) = true;
  cg_buffer : 50 * KB <= cfg_write_buffer_size c;
  cg_number : 0 < max_buffer_write_number c;
  cg_tombstone : from_secs (10 * 24 * 60 * 60) <= cfg_tombstone_ttl c;
  cg_listener : from_secs (2 * 60) <= cfg_compactor_flush_listener_interval c;
  cg_background : from_secs (5 * 60) <= cfg_background_compaction_interval c;
  cg_gc : from_secs (60 * 60) <= cfg_online_gc_interval c;
}.

(** A call of a builder (sizes in kilobytes that fit a [usize] in bytes). *)
Inductive config_step (c : Config) : outcome Error Config -> Prop :=
  | step_rate r : config_step c (with_false_positive_rate c r)
  | step_prefetch b : config_step c (with_allow_prefetch c b)
  | step_prefetch_size n : config_step c (with_prefetch_size c n)
  | step_buffer n : 0 <= n * KB < 2 ^ 64 -> config_step c (with_write_buffer_size c n)
  | step_number n : config_step c (with_max_buffer_write_number c n)
  | step_ttl b : config_step c (with_enable_ttl c b)
  | step_entry_ttl d : config_step c (with_entry_ttl c d)
  | step_tombstone_ttl d : config_step c (with_tombstone_ttl c d)
  | step_listener d : config_step c (with_compactor_flush_listener_interval c d)
  | step_background d : config_step c (with_background_compaction_interval c d)
  | step_tombstone d : config_step c (with_tombstone_compaction_interval c d)
  | step_strategy s : config_step c (with_compaction_strategy c s)
  | step_gc d : config_step c (with_online_gc_interval c d)
  | step_chunk n : 0 <= n * KB < 2 ^ 64 -> config_step c (with_gc_chunk_size c n).

Inductive config_reachable : Config -> Prop :=
  | reach_default : config_reachable config_default
  | reach_step c c' : config_reachable c -> config_step c (Ok c') -> config_reachable c'.

Lemma assert_Ok {A} (b : bool) (r : A) c : (_ ← assert b; Ok r) = Ok c -> b = true /\ r = c.
Proof. destruct b; [intros [= ->]; done|done]. Qed.

Lemma as_millis_ge a b : as_millis a >= as_millis (from_secs b) -> from_secs b <= a.
Proof. unfold as_millis, from_secs. intros. Z.to_euclidean_division_equations. lia. Qed.
Lemma as_secs_ge a b : as_secs a >= as_secs (from_secs b) -> from_secs b <= a.
Proof. unfold as_secs, from_secs. intros. Z.to_euclidean_division_equations. lia. Qed.

Lemma config_step_guarded c c' : config_step c (Ok c') -> config_guarded c -> config_guarded c'.
Proof.
  intros Hs [G1 G2 G3 G4 G5 G6 G7]. remember (Ok c') as r eqn:E. destruct Hs; try (apply assert_Ok in E as [Ha <-]);
    try (injection E as <-); split; cbn; try done;
    try (apply bool_decide_eq_true in Ha; try apply as_millis_ge in Ha; try apply as_secs_ge in Ha; unfold as_bytes; try lia).
  rewrite as_u64_id by (unfold is_u64; lia). unfold KB in *. lia.
Qed.



(** [is_valid_keyspace_name] accepts exactly the names of 1 to 255 characters
    from the alphanumerics, underscore and dash. *)
Lemma is_valid_keyspace_name_exact s :
  is_valid_keyspace_name s = true <-> 1 <= zlen s <= 255 /\ Forall (fun b => valid_character b = true) s.
Proof.
  unfold is_valid_keyspace_name, MAX_KEY_SPACE_SIZE. rewrite Forall_forall.
  destruct (decide (s = [])) as [->|Hne]; [rewrite zlen_nil; split; [done|lia]|].
  assert (0 < zlen s) by by apply zlen_pos. repeat case_decide; try (split; [done|lia]).
  rewrite forallb_forall. setoid_rewrite list_elem_of_In. split; [intros; split; [lia|done]|by intros []].
Qed.
