(* ===== verification/Store.v ===== *)
(** * The data store ([src/db/store.rs], [DataStore])

    User operations change the store in place and spawn background tasks; the
    tasks are kept in a list and run one at a time, in any order. *)

From stdpp Require Import prelude gmap strings list.
From Stdlib Require Import Strings.Byte ZArith Lia.
From S2P Require Import Prelude Consts SkipMap FileIO Types World VLog Block Index Bloom SSTable Meta MemTable.
From S2P Require Import KeyRange Bucket Flush Compaction Config.
Open Scope Z_scope.

(** [std::str::from_utf8] accepts exactly the well-formed sequences. *)
Definition in_bytes (lo hi : Z) (b : byte) : bool := bool_decide (lo <= byte_val b <= hi).
Definition cont (b : byte) : bool := in_bytes 128 191 b.

Fixpoint utf8_valid (bs : list byte) : bool :=
  match bs with
  | [] => true
  | b0 :: r =>
      if in_bytes 0 127 b0 then utf8_valid r
      else if in_bytes 194 223 b0 then
        match r with b1 :: r' => cont b1 && utf8_valid r' | _ => false end
      else if in_bytes 224 239 b0 then
        match r with
        | b1 :: b2 :: r' =>
            (if bool_decide (b0 = xe0) then in_bytes 160 191 b1
             else if bool_decide (b0 = xed) then in_bytes 128 159 b1 else cont b1)
            && cont b2 && utf8_valid r'
        | _ => false
        end
      else if in_bytes 240 244 b0 then
        match r with
        | b1 :: b2 :: b3 :: r' =>
            (if bool_decide (b0 = xf0) then in_bytes 144 191 b1
             else if bool_decide (b0 = xf4) then in_bytes 128 143 b1 else cont b1)
            && cont b2 && cont b3 && utf8_valid r'
        | _ => false
        end
      else false
  end.

Record DirPath := mkDirPath {
  dp_root : list string;
  dp_val_log : list string;
  dp_buckets : list string;
  dp_meta : list string;
}.

(** [DirPath::build] *)
Definition dir_path_build (root : list string) : DirPath :=
  mkDirPath root (root ++ ["v_log"%string]) (root ++ ["buckets"%string]) (root ++ ["meta"%string]).

(** [DataStore::validate_size] *)
Definition validate_size (k : list byte) (val : option (list byte)) : outcome Error unit :=
  if decide (k = []) then Err KeySizeNone else
  if decide (zlen k > MAX_KEY_SIZE) then Err KeyMaxSizeExceeded else
  match val with
  | None => Ok tt
  | Some v =>
      if decide (v = []) then Err ValueSizeNone else
      if decide (zlen v > MAX_VALUE_SIZE) then Err ValMaxSizeExceeded else Ok tt
  end.

(** [DataStore::found_in_table] *)
Definition found_in_table (insert_time lowest_insert_date : DateTime) : bool :=
  bool_decide (insert_time > lowest_insert_date).

(** The tasks the store spawns. *)
Inductive Task :=
  | TGcInsert (gc_table : nat) (e : Entry)
  | TGcHead (head_offset : Z)
  | TWriteMeta (m : Meta)
  | TFlush (id : list byte) (t : MemTable)
  | TRestored (restored_range_map : gmap (list string) Range).

Record PunchMarker := mkPunch {
  punch_hole_start_offset : Z;
  punch_hole_length : Z;
}.

(** The store. [gc_tables] is the heap of shared GC memtables: [gc_table] is the
    store's handle and [gc_own_table] the collector's ([GC::table]). *)
Record DataStore (M : Type -> Type) := mkDS {
  ds_db : Db M;
  active_memtable : MemTable;
  val_log : ValueLog;
  ds_meta : Meta;
  read_only_memtables : M MemTable;
  gc_updated_entries : nat;
  gc_tables : gmap nat MemTable;
  gc_table : nat;
  gc_log : ValueLog;
  punch_marker : PunchMarker;
  flush_stream : gset (list byte);
  ds_config : Config;
  flush_signal : bool;
  tasks : list Task;
  gc_own_table : nat;
  gc_chunk_size : Z;
}.
Arguments mkDS {M}.
Arguments ds_db {M}.
Arguments active_memtable {M}.
Arguments val_log {M}.
Arguments ds_meta {M}.
Arguments read_only_memtables {M}.
Arguments gc_updated_entries {M}.
Arguments gc_tables {M}.
Arguments gc_table {M}.
Arguments gc_log {M}.
Arguments punch_marker {M}.
Arguments flush_stream {M}.
Arguments ds_config {M}.
Arguments flush_signal {M}.
Arguments tasks {M}.
Arguments gc_own_table {M}.
Arguments gc_chunk_size {M}.

Section store.
Context `{Env} {M : Type -> Type} `{SkipMap M}.
Abbreviation W := (World M).
Abbreviation S := (DataStore M).

Definition ds_world (s : S) : W := db_world (ds_db s).

(** Field updates *)
Definition with_db (s : S) (d : Db M) : S :=
  mkDS d (active_memtable s) (val_log s) (ds_meta s) (read_only_memtables s) (gc_updated_entries s) (gc_tables s)
    (gc_table s) (gc_log s) (punch_marker s) (flush_stream s) (ds_config s) (flush_signal s) (tasks s)
    (gc_own_table s) (gc_chunk_size s).
Definition with_active (s : S) (t : MemTable) : S :=
  mkDS (ds_db s) t (val_log s) (ds_meta s) (read_only_memtables s) (gc_updated_entries s) (gc_tables s)
    (gc_table s) (gc_log s) (punch_marker s) (flush_stream s) (ds_config s) (flush_signal s) (tasks s)
    (gc_own_table s) (gc_chunk_size s).
Definition with_val_log (s : S) (v : ValueLog) : S :=
  mkDS (ds_db s) (active_memtable s) v (ds_meta s) (read_only_memtables s) (gc_updated_entries s) (gc_tables s)
    (gc_table s) (gc_log s) (punch_marker s) (flush_stream s) (ds_config s) (flush_signal s) (tasks s)
    (gc_own_table s) (gc_chunk_size s).
Definition with_meta (s : S) (m : Meta) : S :=
  mkDS (ds_db s) (active_memtable s) (val_log s) m (read_only_memtables s) (gc_updated_entries s) (gc_tables s)
    (gc_table s) (gc_log s) (punch_marker s) (flush_stream s) (ds_config s) (flush_signal s) (tasks s)
    (gc_own_table s) (gc_chunk_size s).
Definition with_read_only (s : S) (m : M MemTable) : S :=
  mkDS (ds_db s) (active_memtable s) (val_log s) (ds_meta s) m (gc_updated_entries s) (gc_tables s)
    (gc_table s) (gc_log s) (punch_marker s) (flush_stream s) (ds_config s) (flush_signal s) (tasks s)
    (gc_own_table s) (gc_chunk_size s).
Definition with_gc (s : S) (ts : gmap nat MemTable) (h : nat) (l : ValueLog) : S :=
  mkDS (ds_db s) (active_memtable s) (val_log s) (ds_meta s) (read_only_memtables s) (gc_updated_entries s) ts
    h l (punch_marker s) (flush_stream s) (ds_config s) (flush_signal s) (tasks s)
    (gc_own_table s) (gc_chunk_size s).
Definition with_flush (s : S) (f : gset (list byte)) (sig : bool) : S :=
  mkDS (ds_db s) (active_memtable s) (val_log s) (ds_meta s) (read_only_memtables s) (gc_updated_entries s) (gc_tables s)
    (gc_table s) (gc_log s) (punch_marker s) f (ds_config s) sig (tasks s)
    (gc_own_table s) (gc_chunk_size s).
Definition with_tasks (s : S) (ts : list Task) : S :=
  mkDS (ds_db s) (active_memtable s) (val_log s) (ds_meta s) (read_only_memtables s) (gc_updated_entries s) (gc_tables s)
    (gc_table s) (gc_log s) (punch_marker s) (flush_stream s) (ds_config s) (flush_signal s) ts
    (gc_own_table s) (gc_chunk_size s).
Definition with_config (s : S) (c : Config) : S :=
  mkDS (ds_db s) (active_memtable s) (val_log s) (ds_meta s) (read_only_memtables s) (gc_updated_entries s) (gc_tables s)
    (gc_table s) (gc_log s) (punch_marker s) (flush_stream s) c (flush_signal s) (tasks s)
    (gc_own_table s) (gc_chunk_size s).
Definition with_punch (s : S) (m : PunchMarker) : S :=
  mkDS (ds_db s) (active_memtable s) (val_log s) (ds_meta s) (read_only_memtables s) (gc_updated_entries s) (gc_tables s)
    (gc_table s) (gc_log s) m (flush_stream s) (ds_config s) (flush_signal s) (tasks s)
    (gc_own_table s) (gc_chunk_size s).

(** Run a step of the world, of the files, of the shared maps. *)
Definition in_db {A} (m : io (Db M) Error A) : io S Error A := fun s =>
  let '(r, d') := m (ds_db s) in (r, with_db s d').
Definition in_world {A} (m : io W Error A) : io S Error A := in_db (on_world m).
Definition gets {A} (f : S -> A) : io S Error A := fun s => (Ok (f s), s).
Definition modify (f : S -> S) : io S Error unit := fun s => (Ok tt, f s).

(** [tokio::spawn] *)
Definition spawn (t : Task) : io S Error unit := modify (fun s => with_tasks s (tasks s ++ [t])).

(** [DataStore::get_value_from_vlog] *)
Definition get_value_from_vlog (offset : Z) (created_at : DateTime) : io S Error (option UserEntry) :=
  v ← gets val_log;
  res ← in_world (on_fs (vlog_get v offset));
  mret (match res with
        | Some (value, is_tombstone) => if (is_tombstone : bool) then None else Some (mkUserEntry value created_at)
        | None => None
        end).

(** [DataStore::search_gc_entries] *)
Definition search_gc_entries (k : list byte) : io S Error (option UserEntry) :=
  l ← gets gc_updated_entries;
  gc_entries ← in_world (read_map l);
  if sm_is_empty gc_entries then mret None else
  match sm_get k gc_entries with
  | Some val => if smv_is_tombstone val then mret None
                else get_value_from_vlog (smv_val_offset val) (smv_created_at val)
  | None => mret None
  end.

(** The newest hit of a search: offset, time, deleted *)
Definition newer (best : Z * DateTime * bool) (hit : Z * DateTime * bool) : Z * DateTime * bool :=
  if decide (hit.1.2 > best.1.2) then hit else best.

(** The loop of [get] over the read-only memtables *)
Fixpoint search_read_only (k : list byte) (ts : list MemTable) (best : Z * DateTime * bool)
    : io W Error (Z * DateTime * bool) :=
  match ts with
  | [] => mret best
  | t :: ts' =>
      r ← mem_get t k;
      search_read_only k ts'
        (match r with
         | Some v => newer best (smv_val_offset v, smv_created_at v, smv_is_tombstone v)
         | None => best
         end)
  end.

(** The loop of [search_key_in_sstables] *)
Fixpoint search_ssts (k : list byte) (ssts : list Table) (best : Z * DateTime * bool)
    : io W Error (Z * DateTime * bool) :=
  match ssts with
  | [] => mret best
  | sst :: ssts' =>
      r ← sst_lookup sst k;
      search_ssts k ssts' (match r with Some hit => newer best hit | None => best end)
  end.

(** What a search ends with *)
Definition conclude (best : Z * DateTime * bool) (otherwise : io S Error (option UserEntry))
    : io S Error (option UserEntry) :=
  let '(offset, insert_time, is_deleted) := best in
  if found_in_table insert_time default_datetime then
    if (is_deleted : bool) then mret None else get_value_from_vlog offset insert_time
  else otherwise.

(** [DataStore::search_key_in_sstables] *)
Definition search_key_in_sstables (k : list byte) (ssts : list Table) : io S Error (option UserEntry) :=
  best ← in_world (search_ssts k ssts (VLOG_START_OFFSET, default_datetime, false));
  conclude best (mret None).

(** The last part of [DataStore::get]: the tables the key ranges name *)
Definition get_from_tables (k : list byte) : io S Error (option UserEntry) :=
  kr ← gets (fun s => db_ranges (ds_db s));
  '(ssts, restored) ← in_world (filter_sstables_by_key_range kr k);
  _ ← (if decide (restored = ∅) then mret tt else spawn (TRestored restored));
  match ssts with
  | [] => mret None
  | _ => search_key_in_sstables k ssts
  end.

(** [DataStore::get] *)
Definition store_get (k : list byte) : io S Error (option UserEntry) :=
  _ ← io_lift (validate_size k None);
  hit ← search_gc_entries k;
  match hit with
  | Some val => mret (Some val)
  | None =>
      active ← gets active_memtable;
      r ← in_world (mem_get active k);
      match r with
      | Some val =>
          if smv_is_tombstone val then mret None
          else get_value_from_vlog (smv_val_offset val) (smv_created_at val)
      | None =>
          ro ← gets read_only_memtables;
          best ← in_world (search_read_only k (sm_iter ro).*2 (VLOG_START_OFFSET, default_datetime, false));
          conclude best (get_from_tables k)
      end
  end.

(** [DataStore::reset_memtables] *)
Definition reset_memtables : io S Error unit :=
  c ← gets (fun s => mt_config (active_memtable s));
  active ← in_world (with_specified_capacity_and_rate (size_unit c) (mt_capacity c) (false_pos_rate c));
  _ ← modify (fun s => with_active s active);
  gc ← in_world (with_specified_capacity_and_rate (size_unit c) (mt_capacity c) (false_pos_rate c));
  modify (fun s => let h := fresh (dom (gc_tables s)) in with_gc s (<[h := gc]> (gc_tables s)) h (gc_log s)).

(** [DataStore::flush_read_only_memtables] *)
Fixpoint flush_tables (ts : list (list byte * MemTable)) : io S Error unit :=
  match ts with
  | [] => mret tt
  | (id, t) :: ts' =>
      stream ← gets flush_stream;
      _ ← (if decide (id ∈ stream) then mret tt else
             _ ← modify (fun s => with_flush s ({[ id ]} ∪ flush_stream s) (flush_signal s));
             spawn (TFlush id t));
      flush_tables ts'
  end.
Definition flush_read_only_memtables : io S Error unit :=
  ro ← gets read_only_memtables; flush_tables (sm_iter ro).

(** [DataStore::update_meta_background]: the task writes a copy of the metadata. *)
Definition update_meta_background : io S Error unit := m ← gets ds_meta; spawn (TWriteMeta m).

(** [DataStore::migrate_memtable_to_read_only] *)
Definition migrate_memtable_to_read_only : io S Error unit :=
  active ← gets active_memtable;
  let head_offset := get_most_recent_offset active in
  _ ← modify (fun s => with_val_log s (vlog_set_head (val_log s) head_offset));
  m ← gets ds_meta;
  m ← in_world (update_last_modified (meta_set_head m head_offset));
  _ ← modify (fun s => with_meta s m);
  _ ← spawn (TGcHead head_offset);
  t ← in_world now;
  let head_entry := entry_new HEAD_ENTRY_KEY head_offset t false in
  active ← in_world (mem_insert active head_entry);
  let active := mark_readonly active in
  _ ← modify (fun s => with_active s active);
  _ ← update_meta_background;
  ro ← gets read_only_memtables;
  _ ← (if sm_is_empty ro then modify (fun s => with_flush s ∅ (flush_signal s)) else mret tt);
  id ← in_world generate_table_id;
  _ ← modify (fun s => with_read_only s (sm_insert id active (read_only_memtables s)));
  n ← gets (fun s => sm_len (read_only_memtables s));
  limit ← gets (fun s => max_buffer_write_number (ds_config s));
  _ ← (if decide (n >= limit) then flush_read_only_memtables else mret tt);
  reset_memtables.

(** [GC::punch_holes]: the byte range reads as zeros afterwards; [fallocate]
    refuses an empty range *)
Definition punch_holes (p : list string) (offset len : Z) : io FS Error unit := fun fs =>
  match names fs !! p with
  | None => (Err (FileOpen p NotFound), fs)
  | Some i =>
      if decide (offset < 0 \/ len <= 0) then (Err (GCErrorFailedToPunchHoleInVlogFile OtherIO), fs) else
      let bs := content fs i in
      let a := Z.to_nat offset in
      let hole := Nat.min (Z.to_nat len) (length bs - a) in
      (Ok tt, set_inode fs i (take a bs ++ replicate hole x00 ++ drop (a + hole) bs))
  end.

(** [GC::free_unused_space] *)
Definition free_unused_space : io S Error (Z * Z) :=
  l ← gets gc_updated_entries;
  m ← in_world (read_map l);
  if negb (sm_is_empty m) then io_err GCErrorAttemptToRemoveUnsyncedEntries else
  v ← gets gc_log;
  marker ← gets punch_marker;
  _ ← in_world (on_fs (punch_holes (file_path (vlog_file v)) (punch_hole_start_offset marker) (punch_hole_length marker)));
  let v := vlog_set_tail v (tail_offset v + punch_hole_length marker) in
  _ ← modify (fun s => with_gc s (gc_tables s) (gc_table s) v);
  mret (head_offset v, tail_offset v).

(** Inserting the entries GC collected *)
Fixpoint insert_entries (t : MemTable) (es : list Entry) : io W Error MemTable :=
  match es with
  | [] => mret t
  | e :: es' => t' ← mem_insert t e; insert_entries t' es'
  end.

(** [DataStore::sync_gc_update_with_store] *)
Definition sync_gc_update_with_store : io S Error unit :=
  l ← gets gc_updated_entries;
  m ← in_world (read_map l);
  active ← gets active_memtable;
  active ← in_world (insert_entries active (entry_of <$> sm_iter m));
  _ ← modify (fun s => with_active s active);
  _ ← in_world (write_map l sm_new);
  '(updated_head, updated_tail) ← free_unused_space;
  mt ← gets ds_meta;
  mt ← in_world (update_last_modified (meta_set_tail (meta_set_head mt updated_head) updated_tail));
  _ ← modify (fun s => with_meta s mt);
  modify (fun s => with_val_log s (vlog_set_tail (vlog_set_head (val_log s) updated_head) updated_tail)).

(** [DataStore::put] *)
Definition store_put (k val : list byte) : io S Error bool :=
  _ ← io_lift (validate_size k (Some val));
  l ← gets gc_updated_entries;
  gc ← in_world (read_map l);
  _ ← (if sm_is_empty gc then mret tt else sync_gc_update_with_store);
  _ ← in_db (io_modify (fun d => mkDb (db_world d) (db_buckets d) (update_key_range (db_ranges d))));
  is_tombstone ← io_lift (if utf8_valid val then Ok (bool_decide (val = TOMB_STONE_MARKER)) else Panic);
  created_at ← in_world now;
  v ← gets val_log;
  '(v_offset, v) ← in_world (on_fs (vlog_append v k val created_at is_tombstone));
  _ ← modify (fun s => with_val_log s v);
  let entry := entry_new k v_offset created_at is_tombstone in
  active ← gets active_memtable;
  _ ← (if is_full active HEAD_KEY_SIZE then migrate_memtable_to_read_only else mret tt);
  active ← gets active_memtable;
  active ← in_world (mem_insert active entry);
  _ ← modify (fun s => with_active s active);
  h ← gets gc_table;
  _ ← spawn (TGcInsert h entry);
  mret true.

(** [DataStore::delete], [DataStore::update] *)
Definition store_delete (k : list byte) : io S Error bool :=
  _ ← io_lift (validate_size k None);
  _ ← store_get k;
  store_put k TOMB_STONE_MARKER.
Definition store_update (k val : list byte) : io S Error bool :=
  _ ← io_lift (validate_size k (Some val));
  _ ← store_get k;
  store_put k val.

(** Running a spawned task; errors are only logged *)
Definition run_task (t : Task) : io S Error unit := fun s =>
  match t with
  | TGcInsert h e =>
      match gc_tables s !! h with
      | None => (Ok tt, s)
      | Some table =>
          (table' ← in_world (mem_insert table e);
           modify (fun s => with_gc s (<[h := table']> (gc_tables s)) (gc_table s) (gc_log s))) s
      end
  | TGcHead o => (Ok tt, with_gc s (gc_tables s) (gc_table s) (vlog_set_head (gc_log s) o))
  | TWriteMeta m => in_world (meta_write m) s
  | TFlush id table =>
      match in_db (flush table) s with
      | (Ok _, s') => (Ok tt, with_flush (with_read_only s' (sm_remove id (read_only_memtables s'))) (flush_stream s') true)
      | (Err _, s') => (Ok tt, s')
      | (Panic, s') => (Ok tt, s')
      end
  | TRestored rs => (Ok tt, with_db s (mkDb (ds_world s) (db_buckets (ds_db s)) (install_restored (db_ranges (ds_db s)) rs)))
  end.
End store.

(** ** Settings that nothing reads

    A change [g] of the state that commutes with a statement is invisible to
    it. *)
Create HintDb commutes.

Section commutes.
Context `{Env} {M : Type -> Type} `{SkipMap M}.
Abbreviation S := (DataStore M).
Implicit Types (g : S -> S).

Definition commutes {A} g (m : io S Error A) : Prop := forall s, m (g s) = ((m s).1, g (m s).2).

Lemma commutes_bind {A B} g (m : io S Error A) (f : A -> io S Error B) :
  commutes g m -> (forall a, commutes g (f a)) -> commutes g (m ≫= f).
Proof.
  intros Hm Hf s. unfold mbind, io_bind. rewrite Hm. destruct (m s) as [[a| |] s']; cbn; [apply Hf|done|done].
Qed.
Lemma commutes_ret {A} g (a : A) : commutes g (mret a).
Proof. done. Qed.
Lemma commutes_lift {A} g (o : outcome Error A) : commutes g (io_lift o).
Proof. done. Qed.
Lemma commutes_err {A} g e : commutes (A := A) g (io_err e).
Proof. done. Qed.
Lemma commutes_gets {A} g (f : S -> A) : (forall s, f (g s) = f s) -> commutes g (gets f).
Proof. intros Hf s. unfold gets. by rewrite Hf. Qed.
Lemma commutes_modify g f : (forall s, f (g s) = g (f s)) -> commutes g (modify f).
Proof. intros Hf s. unfold modify. by rewrite Hf. Qed.
Lemma commutes_if {A} g (b : bool) (m1 m2 : io S Error A) :
  commutes g m1 -> commutes g m2 -> commutes g (if b then m1 else m2).
Proof. by destruct b. Qed.
Lemma commutes_decide {A} g (P Q : Prop) (d : {P} + {Q}) (m1 m2 : io S Error A) :
  commutes g m1 -> commutes g m2 -> commutes g (if d then m1 else m2).
Proof. by destruct d. Qed.
End commutes.
#[export] Hint Resolve commutes_bind commutes_ret commutes_lift commutes_err commutes_gets commutes_modify
  commutes_if commutes_decide : commutes.

Section write_buffer.
Context `{Env} {M : Type -> Type} `{SkipMap M}.
Abbreviation S := (DataStore M).

(** [with_write_buffer_size] on an open store *)
Definition set_write_buffer_size (n : Z) (s : S) : S :=
  match with_write_buffer_size (ds_config s) n with Ok c => with_config s c | _ => s end.

Lemma set_buffer_cases n (s : S) : n >= 50 ->
  set_write_buffer_size n s = with_config s (mkConfig (cfg_false_positive_rate (ds_config s)) (cfg_allow_prefetch (ds_config s))
    (cfg_prefetch_size (ds_config s)) (as_bytes Kilobytes n) (max_buffer_write_number (ds_config s)) (cfg_enable_ttl (ds_config s))
    (cfg_entry_ttl (ds_config s)) (cfg_tombstone_ttl (ds_config s)) (cfg_compactor_flush_listener_interval (ds_config s))
    (cfg_background_compaction_interval (ds_config s)) (cfg_tombstone_compaction_interval (ds_config s))
    (cfg_compaction_strategy (ds_config s)) (cfg_online_gc_interval (ds_config s)) (cfg_gc_chunk_size (ds_config s))
    (cfg_open_files_limit (ds_config s))).
Proof. intros Hn. unfold set_write_buffer_size, with_write_buffer_size. by rewrite bool_decide_true. Qed.

Context (n : Z) (Hn : n >= 50).
Abbreviation g := (set_write_buffer_size n).

Lemma commutes_world {A} (m : io (World M) Error A) : commutes g (in_world m).
Proof.
  intros s. rewrite !set_buffer_cases by done. unfold in_world, in_db, on_world. cbn.
  by destruct (m (db_world (ds_db s))) as [[] w].
Qed.
Lemma commutes_db {A} (m : io (Db M) Error A) : commutes g (in_db m).
Proof. intros s. rewrite !set_buffer_cases by done. unfold in_db. cbn. by destruct (m (ds_db s)) as [[] d]. Qed.

#[local] Hint Resolve commutes_world commutes_db : commutes.
(** Field accesses see through the change by computation. *)
#[local] Hint Extern 2 (forall s, _ = _) => (intros ?; rewrite ?set_buffer_cases by done; reflexivity) : commutes.
#[local] Hint Extern 3 (forall x, commutes _ _) => (let y := fresh in intros y) : commutes.
#[local] Hint Extern 3 (commutes _ (match ?x with _ => _ end)) => (destruct x) : commutes.

Lemma commutes_spawn t : commutes g (spawn t).
Proof. unfold spawn. auto with commutes. Qed.
#[local] Hint Resolve commutes_spawn : commutes.

Lemma commutes_flush_tables ts : commutes g (flush_tables ts).
Proof. induction ts as [|[id t] ts IH]; cbn [flush_tables]; auto 20 with commutes. Qed.
#[local] Hint Resolve commutes_flush_tables : commutes.

Lemma commutes_free : commutes g free_unused_space.
Proof. unfold free_unused_space. auto 30 with commutes. Qed.
Lemma commutes_reset : commutes g reset_memtables.
Proof. unfold reset_memtables. auto 30 with commutes. Qed.
Lemma commutes_flush : commutes g flush_read_only_memtables.
Proof. unfold flush_read_only_memtables. auto 30 with commutes. Qed.
Lemma commutes_meta : commutes g update_meta_background.
Proof. unfold update_meta_background. auto with commutes. Qed.
#[local] Hint Resolve commutes_free commutes_reset commutes_flush commutes_meta : commutes.

Lemma commutes_migrate : commutes g migrate_memtable_to_read_only.
Proof. unfold migrate_memtable_to_read_only. auto 60 with commutes. Qed.
Lemma commutes_sync : commutes g sync_gc_update_with_store.
Proof. unfold sync_gc_update_with_store. auto 60 with commutes. Qed.
#[local] Hint Resolve commutes_migrate commutes_sync : commutes.

Lemma commutes_put k val : commutes g (store_put k val).
Proof. unfold store_put. auto 60 with commutes. Qed.
End write_buffer.
