(* ===== verification/StoreInv.v ===== *)
(** * The store's view and invariant

    [store_view] is the map a client sees: the newest binding of a key over the
    active memtable, the read-only memtables and the SSTables, with its value
    read from the log. [store_inv] is the invariant under which [get] returns
    it; the lemmas show that appending to the log, inserting into the active
    memtable and moving the active memtable out of the way preserve it. *)

From stdpp Require Import prelude gmap strings list.
From Stdlib Require Import Strings.Byte ZArith Lia.
From S2P Require Import Prelude Consts SkipMap FileIO Types World VLog Block Index Bloom SSTable Meta MemTable.
From S2P Require Import KeyRange RangeSearch Bucket Flush Compaction Config Store.
Open Scope Z_scope.

(** A hit: log offset, time, deleted. *)
Abbreviation Hit := (Z * DateTime * bool)%type.

Definition hit_of (v : SkipMapValue) : Hit := (smv_val_offset v, smv_created_at v, smv_is_tombstone v).

(** Nothing found yet *)
Definition no_hit : Hit := (VLOG_START_OFFSET, default_datetime, false).

Definition newest (hits : list Hit) : Hit := fold_left newer hits no_hit.

(** What a search over a list of hits ends with *)
Definition best_hit (hits : list Hit) : option Hit :=
  if found_in_table (newest hits).1.2 default_datetime then Some (newest hits) else None.

(** No other hit of the list is later. *)
Definition is_newest (h : Hit) (hits : list Hit) : Prop := h ∈ hits /\ forall h' : Hit, h' ∈ hits -> h'.1.2 <= h.1.2.

Lemma newest_max (hits : list Hit) (b : Hit) :
  (fold_left newer hits b = b \/ fold_left newer hits b ∈ hits) /\ b.1.2 <= (fold_left newer hits b).1.2 /\
  forall h' : Hit, h' ∈ hits -> h'.1.2 <= (fold_left newer hits b).1.2.
Proof.
  revert b. induction hits as [|x hits IH]; intros b; cbn [fold_left].
  { split; [by left|]. split; [done|]. by intros h' ?%not_elem_of_nil. }
  destruct (IH (newer b x)) as (Hin & Hb & Hall). assert (b.1.2 <= (newer b x).1.2 /\ x.1.2 <= (newer b x).1.2) as [Hb' Hx].
  { unfold newer. case_decide; lia. }
  split; [|split; [lia|]].
  - destruct Hin as [->|Hin]; [|right; by right]. unfold newer. case_decide; [right; by left|by left].
  - intros h' [->|Hh']%elem_of_cons; [lia|by apply Hall].
Qed.

Lemma best_hit_newest hits h : best_hit hits = Some h -> is_newest h hits.
Proof.
  unfold best_hit, newest. destruct (newest_max hits no_hit) as (Hin & _ & Hall).
  case_match eqn:E; [|done]. intros [= <-]. split; [|done]. destruct Hin as [En|]; [|done].
  rewrite En in E. unfold found_in_table in E. apply bool_decide_eq_true in E. cbn in E. lia.
Qed.

Lemma best_hit_none hits (h : Hit) : best_hit hits = None -> h ∈ hits -> h.1.2 <= default_datetime.
Proof.
  unfold best_hit, newest, found_in_table. destruct (newest_max hits no_hit) as (_ & _ & Hall).
  case_match eqn:E; [done|]. intros _ Hh%Hall. apply bool_decide_eq_false in E. lia.
Qed.

Lemma newest_strict (h : Hit) (hits : list Hit) (b : Hit) :
  b = h \/ (b.1.2 < h.1.2 /\ h ∈ hits) -> (forall h' : Hit, h' ∈ hits -> h' = h \/ h'.1.2 < h.1.2) ->
  fold_left newer hits b = h.
Proof.
  revert b. induction hits as [|x hits IH]; intros b Hb Hall; [by destruct Hb as [?|[_ ?%not_elem_of_nil]]|]. cbn [fold_left]. apply IH; [|intros h' Hh'; apply Hall; by right].
  unfold newer. destruct (Hall x ltac:(left)) as [->|Hx].
  - left. case_decide; [done|]. destruct Hb as [->|[? _]]; [done|lia].
  - destruct Hb as [->|[Hb Hin]]; [left; by rewrite decide_False by lia|].
    apply elem_of_cons in Hin as [->|Hin]; [lia|]. right. split; [by case_decide|done].
Qed.

Lemma best_hit_strict (h : Hit) (hits : list Hit) :
  default_datetime < h.1.2 -> h ∈ hits -> (forall h' : Hit, h' ∈ hits -> h' = h \/ h'.1.2 < h.1.2) ->
  best_hit hits = Some h.
Proof.
  intros Hd Hin Hall. unfold best_hit, newest. rewrite (newest_strict h) by (done || right; done).
  unfold found_in_table. by rewrite bool_decide_true by lia.
Qed.

(** Hits of the same time are the same hit. *)
Definition consistent (hits : list Hit) : Prop := forall h h' : Hit, h ∈ hits -> h' ∈ hits -> h.1.2 = h'.1.2 -> h = h'.

Lemma best_hit_max hits h : consistent hits -> is_newest h hits -> default_datetime < h.1.2 -> best_hit hits = Some h.
Proof.
  intros Hc [Hin Hmax] Hd. apply best_hit_strict; [done..|]. intros h' Hh'.
  destruct (decide (h'.1.2 = h.1.2)); [left; by apply Hc|right]. pose proof (Hmax h' Hh'). lia.
Qed.

Lemma best_hit_pos hits h : best_hit hits = Some h -> default_datetime < h.1.2.
Proof.
  unfold best_hit, found_in_table. case_match eqn:E; [|done]. intros [= <-]. apply bool_decide_eq_true in E. lia.
Qed.

(** Two lists whose later hits agree have the same best hit. *)
Lemma best_hit_same hits hits' :
  consistent hits -> consistent hits' ->
  (forall h, default_datetime < h.1.2 -> is_newest h hits <-> is_newest h hits') -> best_hit hits = best_hit hits'.
Proof.
  intros Hnd Hnd' Hiff. destruct (best_hit hits) as [h|] eqn:E.
  - symmetry. pose proof (best_hit_pos _ _ E) as Hp. apply best_hit_max; [done| |done]. by apply Hiff, best_hit_newest.
  - destruct (best_hit hits') as [h|] eqn:E'; [|done]. pose proof (best_hit_pos _ _ E') as Hp.
    apply best_hit_newest, Hiff in E'; [|done]. apply best_hit_max in E'; [congruence|done..].
Qed.

#[export] Instance consistent_perm : Proper ((≡ₚ) ==> iff) consistent.
Proof. intros l l' E. unfold consistent. by setoid_rewrite E. Qed.

Lemma best_hit_perm hits hits' : hits ≡ₚ hits' -> consistent hits -> best_hit hits = best_hit hits'.
Proof.
  intros E Hc. apply best_hit_same; [done|by rewrite <- E|]. intros h _. unfold is_newest. by setoid_rewrite E.
Qed.

(** The value behind a hit *)
Definition read_hit (es : list ValueLogEntry) (h : Hit) : option UserEntry :=
  if h.2 then None else
  e ← entry_at es h.1.1;
  if vle_is_tombstone e then None else Some (mkUserEntry (vle_value e) h.1.2).

(** What the store needs of its environment, for the first [N] readings: a
    reading of the clock is later than every earlier one and than the default
    date, and no table id is drawn twice. *)
Record orderly `{Env} (N : nat) : Prop := {
  clock_positive n : (n < N)%nat -> default_datetime < clock n;
  clock_increases n m : (n < m < N)%nat -> clock n < clock m;
  ids_distinct n m : (n < m < N)%nat -> new_table_id m <> new_table_id n;
}.

(** A memtable configuration from which a memtable can be made. *)
Record config_ok (c : MemConfig) : Prop := {
  co_rate : f64_ge0 (false_pos_rate c) = true;
  co_capacity : 0 < mt_capacity c;
  co_elements : 0 < max_no_of_entries c < 2 ^ 32;
}.

Create HintDb ext.

Section view.
Context `{Env} {M : Type -> Type} `{SkipMap M} (N : nat).
Abbreviation W := (World M).
Abbreviation S := (DataStore M).
Implicit Types (s : S) (w : W) (tabs : list (Range * M SkipMapValue)) (es : list ValueLogEntry).

Definition ro_hits w (ro : M MemTable) (k : list byte) : list Hit :=
  omap (fun t => hit_of <$> mem_lookup w t k) (sm_iter ro).*2.
Definition sst_hits tabs (k : list byte) : list Hit :=
  omap (fun p : Range * M SkipMapValue => found <$> sm_get k p.2) tabs.

Definition lookup_hit w (active : MemTable) (ro : M MemTable) tabs (k : list byte) : option Hit :=
  match mem_lookup w active k with
  | Some v => Some (hit_of v)
  | None => match best_hit (ro_hits w ro k) with
            | Some h => Some h
            | None => best_hit (sst_hits tabs k)
            end
  end.

Definition store_hit s tabs (k : list byte) : option Hit :=
  lookup_hit (ds_world s) (active_memtable s) (read_only_memtables s) tabs k.

(** The map the store implements *)
Definition store_view s es tabs (k : list byte) : option UserEntry := store_hit s tabs k ≫= read_hit es.

(** ** Invariant *)

(** A memtable's locations are allocated, and none is the active memtable's. *)
Record mem_apart w (a t : MemTable) : Prop := {
  ma_entries : mt_entries t <> mt_entries a;
  ma_filter : bit_vec (bloom_filter t) <> bit_vec (bloom_filter a);
  ma_entries_lt : (mt_entries t < w_next w)%nat;
  ma_filter_lt : (bit_vec (bloom_filter t) < w_next w)%nat;
}.

(** The filter of a range is in the heap and not the active memtable's. *)
Definition filter_apart w (a : MemTable) (r : Range) : Prop :=
  forall f, t_filter (r_sst r) = Some f -> bit_vec f <> bit_vec (bloom_filter a) /\ (bit_vec f < w_next w)%nat.

(** An indexed table: it holds the map, its filter is in memory or can be
    restored, and neither its files nor its filter are the log's or the active
    memtable's. *)
Record tab_ok w (v : ValueLog) (a : MemTable) (p : Range * M SkipMapValue) : Prop := {
  tk_ready : ready w p.1 p.2;
  tk_data : file (data_file (r_sst p.1)) <> file (vlog_file v);
  tk_index : file (index_file (r_sst p.1)) <> file (vlog_file v);
  tk_filter : live_range w p.1 p.2 -> filter_apart w a p.1;
  tk_cold i : cold_filter w p.1 i -> i <> file (vlog_file v);
}.

(** Times in a memtable are in the past. *)
Definition in_past w (t : MemTable) : Prop :=
  forall k v, mem_lookup w t k = Some v -> forall n, (w_ticks w <= n < N)%nat -> smv_created_at v < clock n.

(** A read-only memtable under its id. *)
Record ro_ok w (a : MemTable) (id : list byte) (t : MemTable) : Prop := {
  rk_inv : mem_inv w t;
  rk_apart : mem_apart w a t;
  rk_past : in_past w t;
  rk_id n : (w_ticks w <= n < N)%nat -> new_table_id n <> id;
}.

Record store_inv s es tabs : Prop := {
  si_log : vlog_rep (w_fs (ds_world s)) (val_log s) es;
  si_gc : sm_is_empty (the_map (ds_world s) (gc_updated_entries s)) = true;
  si_gc_apart : gc_updated_entries s <> mt_entries (active_memtable s) /\
    (gc_updated_entries s < w_next (ds_world s))%nat;
  si_active : mem_inv (ds_world s) (active_memtable s);
  si_active_lt : (mt_entries (active_memtable s) < w_next (ds_world s))%nat /\
    (bit_vec (bloom_filter (active_memtable s)) < w_next (ds_world s))%nat;
  si_active_past : in_past (ds_world s) (active_memtable s);
  si_config : config_ok (mt_config (active_memtable s));
  si_ro id t : sm_get id (read_only_memtables s) = Some t -> ro_ok (ds_world s) (active_memtable s) id t;
  si_newer k v : k <> HEAD_ENTRY_KEY -> mem_lookup (ds_world s) (active_memtable s) k = Some v ->
    default_datetime < smv_created_at v /\
    forall h, h ∈ ro_hits (ds_world s) (read_only_memtables s) k -> h.1.2 < smv_created_at v;
  si_index : indexed (ds_world s) (db_ranges (ds_db s)) tabs;
  si_spares d r : restored_ranges (db_ranges (ds_db s)) !! d = Some r -> filter_apart (ds_world s) (active_memtable s) r;
  si_order k : k <> HEAD_ENTRY_KEY -> restored_ranges (db_ranges (ds_db s)) <> ∅ -> consistent (sst_hits tabs k);
  si_tabs : Forall (tab_ok (ds_world s) (val_log s) (active_memtable s)) tabs;
  si_logged k h : k <> HEAD_ENTRY_KEY -> store_hit s tabs k = Some h -> h.2 = false -> is_Some (entry_at es h.1.1);
}.

(** ** Running statements in the store *)
Definition set_world s w : S := with_db s (mkDb w (db_buckets (ds_db s)) (db_ranges (ds_db s))).

Lemma in_world_run {A} (m : io W Error A) s r w' :
  m (ds_world s) = (r, w') -> in_world m s = (r, set_world s w').
Proof. intros E. unfold in_world, in_db, on_world. fold (ds_world s). by rewrite E. Qed.

Lemma set_world_id s : set_world s (ds_world s) = s.
Proof. by destruct s as [[]]. Qed.

Lemma in_world_pure {A} (m : io W Error A) s r :
  m (ds_world s) = (r, ds_world s) -> in_world m s = (r, s).
Proof. intros E. rewrite (in_world_run _ _ _ _ E). by rewrite set_world_id. Qed.

Lemma search_read_only_run w k ts b :
  Forall (mem_inv w) ts ->
  search_read_only k ts b w = (Ok (fold_left newer (omap (fun t => hit_of <$> mem_lookup w t k) ts) b), w).
Proof.
  intros Hts. revert b. induction Hts as [|t ts Ht _ IH]; intros b; [done|]. cbn [search_read_only].
  run (mem_get_lookup w t k Ht). rewrite IH. cbn [omap list_omap]. by destruct (mem_lookup w t k).
Qed.

Lemma search_ssts_run w k tabs b :
  Forall (fun p => table_holds w (r_sst p.1) p.2) tabs ->
  search_ssts k (r_sst <$> tabs.*1) b w = (Ok (fold_left newer (sst_hits tabs k) b), w).
Proof.
  intros Hts. revert b. induction Hts as [|[r m] tabs Ht _ IH]; intros b; [done|].
  cbn [search_ssts fmap list_fmap fst]. run (sst_lookup_holds _ _ k w Ht). rewrite IH.
  unfold sst_hits. cbn [omap list_omap snd]. by destruct (sm_get k m).
Qed.

Lemma sst_hits_in k tabs : sst_hits tabs k = found <$> hits_in k tabs.
Proof. unfold sst_hits, hits_in. induction tabs as [|p tabs IH]; [done|]. cbn. rewrite IH. by destruct (sm_get k p.2). Qed.

Lemma sst_hits_perm k tabs tabs' : tabs'.*2 ≡ₚ tabs.*2 -> sst_hits tabs' k ≡ₚ sst_hits tabs k.
Proof. intros Hp. by rewrite !sst_hits_in, (hits_in_perm k _ _ Hp). Qed.

(** ** Reading *)
Lemma get_value_run s es h :
  vlog_rep (w_fs (ds_world s)) (val_log s) es -> (h.2 = false -> is_Some (entry_at es h.1.1)) ->
  (if h.2 then mret None else get_value_from_vlog h.1.1 h.1.2) s = (Ok (read_hit es h), s).
Proof.
  intros Hr He. destruct h as [[o t] []]; [done|]. cbn in *. destruct (He eq_refl) as [e Hat].
  unfold get_value_from_vlog. run_simpl. erewrite io_step.
  2: { apply in_world_pure. rewrite (on_fs_ok _ _ _ _ (vlog_get_at _ _ _ _ _ Hr Hat)). by destruct (ds_world s). }
  unfold read_hit. cbn. rewrite Hat. cbn. by destruct (vle_is_tombstone e).
Qed.

Lemma conclude_run s es hits other :
  vlog_rep (w_fs (ds_world s)) (val_log s) es ->
  (forall h, best_hit hits = Some h -> h.2 = false -> is_Some (entry_at es h.1.1)) ->
  conclude (newest hits) other s =
  match best_hit hits with Some h => (Ok (read_hit es h), s) | None => other s end.
Proof.
  intros Hr He. pose proof (get_value_run s es (newest hits) Hr) as G. unfold conclude, best_hit in *.
  destruct (newest hits) as [[o t] d] eqn:E. cbn in *. destruct (found_in_table t default_datetime); [|done].
  apply G. exact (He (o, t, d) eq_refl).
Qed.

Lemma search_gc_run s k :
  sm_is_empty (the_map (ds_world s) (gc_updated_entries s)) = true ->
  search_gc_entries k s = (Ok None, s).
Proof.
  intros Hg. unfold search_gc_entries. run_simpl. erewrite io_step by (by apply in_world_pure). by rewrite Hg.
Qed.

(** [get], given what its last part does *)
Lemma store_get_parts s es k hits s' :
  let w := ds_world s in
  let hit := match mem_lookup w (active_memtable s) k with
             | Some v => Some (hit_of v)
             | None => match best_hit (ro_hits w (read_only_memtables s) k) with Some h => Some h | None => best_hit hits end
             end in
  validate_size k None = Ok tt -> sm_is_empty (the_map w (gc_updated_entries s)) = true -> mem_inv w (active_memtable s) ->
  (forall id t, sm_get id (read_only_memtables s) = Some t -> mem_inv w t) -> vlog_rep (w_fs w) (val_log s) es ->
  (forall h, hit = Some h -> h.2 = false -> is_Some (entry_at es h.1.1)) ->
  (mem_lookup w (active_memtable s) k = None -> best_hit (ro_hits w (read_only_memtables s) k) = None ->
   get_from_tables k s = (Ok (best_hit hits ≫= read_hit es), s')) ->
  exists s'', store_get k s = (Ok (hit ≫= read_hit es), s'') /\ (s'' = s \/ s'' = s').
Proof.
  intros w hit Hk Hg Ha Hro Hr Hlog Htab. unfold store_get. rewrite Hk. run_simpl. run (search_gc_run s k Hg). run_simpl.
  erewrite io_step by by apply in_world_pure, mem_get_lookup. unfold hit in *. fold w.
  destruct (mem_lookup w (active_memtable s) k) as [v|].
  { exists s. split; [|by left]. apply (get_value_run s es (hit_of v) Hr). by apply Hlog. }
  run_simpl. erewrite io_step; [|apply in_world_pure, search_read_only_run].
  2: { apply Forall_forall. intros t ([id t'] & -> & Hin)%list_elem_of_fmap. by apply (Hro id t'), sm_elem. }
  fold no_hit w (ro_hits w (read_only_memtables s) k). fold (newest (ro_hits w (read_only_memtables s) k)).
  rewrite (conclude_run s es); [|done|].
  2: { intros h Eh. apply Hlog. by rewrite Eh. }
  destruct (best_hit (ro_hits w _ k)) as [h|] eqn:Eb; [by exists s; split; [|left]|]. exists s'. split; [by apply Htab|by right].
Qed.

(** The search of the selected tables *)
Lemma search_selected s es k sel :
  vlog_rep (w_fs (ds_world s)) (val_log s) es -> Forall (fun p => table_holds (ds_world s) (r_sst p.1) p.2) sel ->
  (forall h, best_hit (sst_hits sel k) = Some h -> h.2 = false -> is_Some (entry_at es h.1.1)) ->
  match r_sst <$> sel.*1 with [] => mret None | _ => search_key_in_sstables k (r_sst <$> sel.*1) end s =
    (Ok (best_hit (sst_hits sel k) ≫= read_hit es), s).
Proof.
  intros Hr Hh Hlog. destruct sel as [|p sel]; [done|]. cbn [fmap list_fmap]. unfold search_key_in_sstables.
  erewrite io_step; [|apply in_world_pure; by apply (search_ssts_run _ k (p :: sel))].
  fold no_hit. fold (newest (sst_hits (p :: sel) k)). rewrite (conclude_run s es); [|done|exact Hlog].
  by destruct (best_hit _).
Qed.

(** The state after a search that restored the ranges [rest] *)
Definition restore_tasks (rest : gmap (list string) Range) : list Task := if decide (rest = ∅) then [] else [TRestored rest].
Definition searched s tabs s' : Prop :=
  exists w' rest, heap_ext (ds_world s) w' /\ from_tabs (ds_world s) w' tabs rest /\ s' = with_tasks (set_world s w') (tasks s ++ restore_tasks rest).

(** Every filter is in memory. *)
Definition warm s tabs : Prop := Forall (fun p => live_range (ds_world s) p.1 p.2) tabs.

Lemma searched_refl s tabs : searched s tabs s.
Proof.
  exists (ds_world s), ∅. split; [done|]. split; [by intros d r; rewrite lookup_empty|].
  unfold restore_tasks. rewrite decide_True, app_nil_r by done. by destruct s as [[]].
Qed.

(** The part of [get] that searches tables *)
Lemma get_from_tables_run s es tabs k :
  vlog_rep (w_fs (ds_world s)) (val_log s) es -> indexed (ds_world s) (db_ranges (ds_db s)) tabs -> tabs_ready (ds_world s) tabs ->
  (restored_ranges (db_ranges (ds_db s)) <> ∅ -> consistent (sst_hits tabs k)) ->
  (forall h, best_hit (sst_hits tabs k) = Some h -> h.2 = false -> is_Some (entry_at es h.1.1)) ->
  exists s', get_from_tables k s = (Ok (best_hit (sst_hits tabs k) ≫= read_hit es), s') /\ searched s tabs s' /\ (warm s tabs -> s' = s).
Proof.
  intros Hr Hx Hready Hord Hlog.
  destruct (filter_sstables_ready _ k tabs (ds_world s) Hx Hready) as (sel & rest & w' & E & Hg & Hs & Hh & Hh' & Hf & Hw).
  assert (best_hit (sst_hits sel k) = best_hit (sst_hits tabs k)) as Hb.
  { destruct (decide (restored_ranges (db_ranges (ds_db s)) = ∅)) as [Er|Er]; [by rewrite !sst_hits_in, Hh'|].
    symmetry. apply best_hit_perm; [by rewrite !sst_hits_in, Hh|by apply Hord]. }
  unfold get_from_tables. run_simpl. erewrite io_step by (apply in_world_run; exact E). cbn beta iota.
  set (s1 := with_tasks (set_world s w') (tasks s ++ restore_tasks rest)).
  assert ((if decide (rest = ∅) then mret tt else spawn (TRestored rest)) (set_world s w') = (Ok tt, s1)) as Es.
  { unfold s1, restore_tasks. case_decide; [rewrite app_nil_r; by destruct s as [[]]|done]. }
  run Es. exists s1. split; [|split; [exists w', rest; exact (conj Hg (conj Hf eq_refl))|]].
  - rewrite <- Hb. apply search_selected.
    + change (vlog_rep (w_fs w') (val_log s) es). by rewrite (hx_fs _ _ Hg).
    + exact Hs.
    + by rewrite Hb.
  - intros [-> ->]%Hw. unfold s1, restore_tasks. rewrite decide_True, app_nil_r, set_world_id by done. by destruct s.
Qed.

Lemma tabs_ok_ready w v a tabs : Forall (tab_ok w v a) tabs -> tabs_ready w tabs.
Proof. intros Ht. eapply Forall_impl; [exact Ht|]. intros p [T1 T2 T3 T4 T5]. split; [done|]. intros Hl f Hf. by apply T4. Qed.

Lemma store_get_hit s es tabs k :
  store_inv s es tabs -> validate_size k None = Ok tt ->
  (mem_lookup (ds_world s) (active_memtable s) k = None -> best_hit (ro_hits (ds_world s) (read_only_memtables s) k) = None -> restored_ranges (db_ranges (ds_db s)) <> ∅ -> consistent (sst_hits tabs k)) ->
  (forall h, store_hit s tabs k = Some h -> h.2 = false -> is_Some (entry_at es h.1.1)) ->
  exists s', store_get k s = (Ok (store_view s es tabs k), s') /\ searched s tabs s' /\ (warm s tabs -> s' = s).
Proof.
  intros Hi Hk Hord Hlog.
  set (reached := mem_lookup (ds_world s) (active_memtable s) k = None /\ best_hit (ro_hits (ds_world s) (read_only_memtables s) k) = None).
  assert (exists s', (reached ->
    get_from_tables k s = (Ok (best_hit (sst_hits tabs k) ≫= read_hit es), s')) /\ searched s tabs s' /\ (warm s tabs -> s' = s)) as (s' & E & Hse & Hw).
  { destruct (decide reached) as [[R1 R2]|]; [|exists s; split; [done|split; [apply searched_refl|done]]].
    destruct (get_from_tables_run s es tabs k) as (s' & E & ?); [apply Hi|apply Hi|by eapply tabs_ok_ready, Hi|by apply Hord| |by exists s'].
    intros h Hh. apply Hlog. unfold store_hit, lookup_hit. by rewrite R1, R2. }
  destruct (store_get_parts s es k (sst_hits tabs k) s' Hk (si_gc _ _ _ Hi) (si_active _ _ _ Hi)) as (s'' & E' & Hs).
  - intros id t Ht. apply (si_ro _ _ _ Hi id t Ht).
  - apply Hi.
  - exact Hlog.
  - intros R1 R2. by apply E.
  - exists s''. split; [exact E'|]. destruct Hs as [-> | ->]; [split; [apply searched_refl|done]|by split].
Qed.

Lemma store_get_run s es tabs k :
  store_inv s es tabs -> validate_size k None = Ok tt -> k <> HEAD_ENTRY_KEY ->
  exists s', store_get k s = (Ok (store_view s es tabs k), s') /\ searched s tabs s' /\ (warm s tabs -> s' = s).
Proof. intros Hi Hk Hne. apply store_get_hit; [done|done|intros _ _; by apply (si_order _ _ _ Hi)|]. intros h. by apply (si_logged _ _ _ Hi). Qed.

(** ** Frames *)

(** The world grew, and only the active memtable and the log changed. *)
Record world_ext w (a : MemTable) (v : ValueLog) w' : Prop := {
  we_next : (w_next w <= w_next w')%nat;
  we_ticks : (w_ticks w <= w_ticks w')%nat;
  we_maps l : (l < w_next w)%nat -> l <> mt_entries a -> the_map w' l = the_map w l;
  we_bits l : (l < w_next w)%nat -> l <> bit_vec (bloom_filter a) -> the_bits w' l = the_bits w l;
  we_content i : i <> file (vlog_file v) -> content (w_fs w') i = content (w_fs w) i;
  we_names p i : names (w_fs w) !! p = Some i -> names (w_fs w') !! p = Some i;
}.

(** The next active memtable: the same locations, or new ones. *)
Definition active_next w (a a' : MemTable) : Prop :=
  (mt_entries a' = mt_entries a /\ bit_vec (bloom_filter a') = bit_vec (bloom_filter a)) \/
  (w_next w <= mt_entries a' /\ w_next w <= bit_vec (bloom_filter a'))%nat.

Lemma mem_inv_frame w w' t :
  the_map w' (mt_entries t) = the_map w (mt_entries t) ->
  the_bits w' (bit_vec (bloom_filter t)) = the_bits w (bit_vec (bloom_filter t)) ->
  mem_inv w t -> mem_inv w' t.
Proof. intros Em Eb [Hp Ha]. split; rewrite Eb; [done|]. intros k. rewrite Em. apply Ha. Qed.

Lemma ext_lookup w a v w' t k :
  world_ext w a v w' -> mem_apart w a t -> mem_lookup w' t k = mem_lookup w t k.
Proof. intros He []. unfold mem_lookup. by rewrite (we_maps _ _ _ _ He). Qed.

Lemma ext_ro w a v w' a' id t :
  world_ext w a v w' -> active_next w a a' -> ro_ok w a id t -> ro_ok w' a' id t.
Proof.
  intros He Ha [Hi Hp Ht Hid]. split.
  - destruct Hp. apply (mem_inv_frame w); [by apply He..|done].
  - pose proof (we_next _ _ _ _ He). destruct Hp. destruct Ha as [[E1 E2]|[E1 E2]]; split; rewrite ?E1, ?E2; lia || done.
  - intros k x. rewrite (ext_lookup _ _ _ _ _ _ He Hp). intros Hx n Hn. apply (Ht k x Hx).
    pose proof (we_ticks _ _ _ _ He). lia.
  - intros n Hn. apply Hid. pose proof (we_ticks _ _ _ _ He). lia.
Qed.

Lemma live_range_frame w w' r m :
  (forall f, t_filter (r_sst r) = Some f -> the_bits w' (bit_vec f) = the_bits w (bit_vec f)) ->
  live_range w r m -> live_range w' r m.
Proof. intros Eb (f & d & Hf & Hd & Hl). exists f, d. by rewrite (Eb f Hf). Qed.

(** *** Frames of cold filters *)
Lemma cold_filter_inj w r i i' : cold_filter w r i -> cold_filter w r i' -> i = i'.
Proof. intros (g & p & f & G1 & G2 & G3 & G4 & G5 & _) (g' & p' & f' & G1' & G2' & G3' & G4' & G5' & _). congruence. Qed.

Lemma live_not_cold w w' r m i : live_range w r m -> cold_filter w' r i -> False.
Proof. intros (f & d & Hf & Hd & _) (g & p & f' & G1 & G2 & _). congruence. Qed.

Lemma cold_filter_frame w w' r i :
  (forall p, names (w_fs w) !! p = Some i -> names (w_fs w') !! p = Some i) -> content (w_fs w') i = content (w_fs w) i ->
  cold_filter w r i -> cold_filter w' r i.
Proof. intros Hn Hc (g & p & f & G1 & G2 & G3 & G4 & G5 & G6 & G7). exists g, p, f. rewrite Hc. repeat (split; [by auto|]). done. Qed.

(** A filter that is cold later was cold before. *)
Lemma cold_filter_back w w' r m i :
  ready w r m -> (forall p i, names (w_fs w) !! p = Some i -> names (w_fs w') !! p = Some i) -> cold_filter w' r i -> cold_filter w r i.
Proof.
  intros [_ [Hl|[_ [i0 Hi0]]]] Hn Hc; [by destruct (live_not_cold _ _ _ _ _ Hl Hc)|].
  destruct Hi0 as (g & p & f & G1 & G2 & G3 & G4 & G5 & G6 & G7). pose proof (Hn _ _ G5).
  destruct Hc as (g' & p' & f' & G1' & G2' & G3' & G4' & G5' & _). assert (i0 = i) as -> by congruence. by exists g, p, f.
Qed.

Lemma filter_apart_next w a w' a' r :
  (w_next w <= w_next w')%nat -> active_next w a a' -> filter_apart w a r -> filter_apart w' a' r.
Proof. intros Hn Ha Hf f E. destruct (Hf f E). destruct Ha as [[_ ->]|[_ ?]]; (split; [|lia]); [done|lia]. Qed.

Lemma live_ext w a v w' r m : world_ext w a v w' -> filter_apart w a r -> live_range w r m -> live_range w' r m.
Proof. intros He Hf. apply live_range_frame. intros f E. destruct (Hf f E). by apply He. Qed.

Lemma ext_tab w a v w' a' v' p :
  world_ext w a v w' -> active_next w a a' -> vlog_file v' = vlog_file v -> tab_ok w v a p -> tab_ok w' v' a' p.
Proof.
  intros He Ha Ev [Hr Hd Hx Hf Hc]. split; rewrite ?Ev; try done.
  - destruct Hr as [Hh Hr]. split; [eapply table_holds_frame; [exact Hh|done|done|..]; by apply He|].
    destruct Hr as [Hl|[Hcov [i Hi]]]; [left; eapply live_ext; eauto|right]. split; [done|]. exists i.
    eapply cold_filter_frame; [|by apply He, Hc|done]. intros q. apply He.
  - intros Hl. eapply filter_apart_next; [apply He|done|]. apply Hf. destruct Hr as [_ [?|[_ [i Hi]]]]; [done|by destruct (live_not_cold _ _ _ _ _ Hl Hi)].
  - intros i Hi. apply Hc. eapply cold_filter_back; [exact Hr|apply He|done].
Qed.

Lemma ext_index w a v w' kr tabs :
  world_ext w a v w' -> (forall d r, restored_ranges kr !! d = Some r -> filter_apart w a r) -> indexed w kr tabs -> indexed w' kr tabs.
Proof.
  intros He Hs [I1 I2 I3]. split; [done|done|]. intros d r' Hd. destruct (I3 d r' Hd) as (r & m & ? & ? & ? & Hl). exists r, m.
  repeat (split; [done|]). eapply live_ext; eauto.
Qed.

Lemma ro_hits_elem w ro k h :
  h ∈ ro_hits w ro k <-> exists id t x, sm_get id ro = Some t /\ mem_lookup w t k = Some x /\ h = hit_of x.
Proof.
  unfold ro_hits. rewrite list_elem_of_omap. split.
  - intros (t & ([id t'] & -> & Hin)%list_elem_of_fmap & (x & Hx & ->)%fmap_Some).
    exists id, t', x. by apply sm_elem in Hin.
  - intros (id & t & x & Hg%sm_elem & Hx & ->). exists t. rewrite Hx. split; [|done].
    apply list_elem_of_fmap. by exists (id, t).
Qed.

Lemma ext_ro_hits w a v w' (ro : M MemTable) k :
  world_ext w a v w' -> (forall id t, sm_get id ro = Some t -> mem_apart w a t) ->
  ro_hits w' ro k = ro_hits w ro k.
Proof.
  intros He Hr. unfold ro_hits. apply list_omap_ext, Forall_Forall2_diag, Forall_forall. intros t ([id t'] & -> & Hin)%list_elem_of_fmap.
  apply sm_elem in Hin. by rewrite (ext_lookup _ _ _ _ _ _ He (Hr _ _ Hin)).
Qed.

(** The invariant survives a step that extends the world, replaces the active
    memtable and adds read-only memtables. *)
Lemma store_inv_ext s s' es es' tabs :
  let w := ds_world s in let w' := ds_world s' in let a := active_memtable s in let a' := active_memtable s' in
  store_inv s es tabs -> world_ext w a (val_log s) w' -> active_next w a a' ->
  vlog_file (val_log s') = vlog_file (val_log s) -> gc_updated_entries s' = gc_updated_entries s ->
  db_ranges (ds_db s') = db_ranges (ds_db s) -> vlog_rep (w_fs w') (val_log s') es' ->
  mem_inv w' a' -> (mt_entries a' < w_next w')%nat /\ (bit_vec (bloom_filter a') < w_next w')%nat -> in_past w' a' ->
  mt_config a' = mt_config a ->
  (forall id t, sm_get id (read_only_memtables s') = Some t ->
     sm_get id (read_only_memtables s) = Some t \/ ro_ok w' a' id t) ->
  (forall k v, k <> HEAD_ENTRY_KEY -> mem_lookup w' a' k = Some v -> default_datetime < smv_created_at v /\
     forall h, h ∈ ro_hits w' (read_only_memtables s') k -> h.1.2 < smv_created_at v) ->
  (forall k h, k <> HEAD_ENTRY_KEY -> store_hit s' tabs k = Some h -> h.2 = false -> is_Some (entry_at es' h.1.1)) ->
  store_inv s' es' tabs.
Proof.
  intros w w' a a' Hi He Ha Ev Eg Er Hr Hm Hlt Hp Hcf Hro Hnew Hlog.
  destruct (si_gc_apart _ _ _ Hi) as [G1 G2]. split; rewrite ?Eg, ?Er; try done; try apply Hi.
  - fold w'. rewrite (we_maps _ _ _ _ He) by done. apply Hi.
  - pose proof (we_next _ _ _ _ He) as Hn. unfold a', w', w in *. destruct Ha as [[E _]|[E _]]; [rewrite E|]; (split; [|lia]); [done|lia].
  - fold a' in Hcf |- *. rewrite Hcf. apply Hi.
  - intros id t [Ht|Ht]%Hro; [|done]. eapply ext_ro; [done|done|]. by apply (si_ro _ _ _ Hi).
  - eapply ext_index; [exact He|apply Hi|apply Hi].
  - intros d r Hd. eapply filter_apart_next; [apply He|exact Ha|]. by apply (si_spares _ _ _ Hi d).
  - eapply Forall_impl; [apply Hi|]. intros p. by apply ext_tab.
Qed.

(** What the invariant and the view look at. *)
Definition core s := (ds_db s, active_memtable s, val_log s, read_only_memtables s, gc_updated_entries s).

Lemma core_hit s s' tabs k : core s' = core s -> store_hit s' tabs k = store_hit s tabs k.
Proof. unfold core, store_hit, ds_world. by intros [= -> -> _ -> _]. Qed.

Lemma core_inv s s' es tabs : core s' = core s -> store_inv s es tabs -> store_inv s' es tabs.
Proof.
  intros Ec Hi. pose proof Ec as [= E1 E2 E3 E4 E5].
  destruct Hi; split; unfold ds_world in *; rewrite ?E1, ?E2, ?E3, ?E4, ?E5; try done.
  intros k h Hk. rewrite (core_hit _ _ _ _ Ec). by apply si_logged0.
Qed.

(** *** Searching and refreshing the index *)
Lemma ext_heap w w' a v : heap_ext w w' -> world_ext w a v w'.
Proof.
  intros Hg. split; [apply Hg|by rewrite (hx_ticks _ _ Hg)|..].
  - intros l Hl _. by apply Hg.
  - intros l Hl _. by apply Hg.
  - intros i _. by rewrite (hx_fs _ _ Hg).
  - intros p i. by rewrite (hx_fs _ _ Hg).
Qed.

Lemma searched_world s tabs s' : searched s tabs s' -> heap_ext (ds_world s) (ds_world s') /\
  core s' = (mkDb (ds_world s') (db_buckets (ds_db s)) (db_ranges (ds_db s)), active_memtable s, val_log s, read_only_memtables s, gc_updated_entries s).
Proof. intros (w' & rest & Hg & _ & ->). by split. Qed.

Lemma searched_hit s es tabs s' tabs' k : store_inv s es tabs -> searched s tabs s' -> store_hit s' tabs' k = store_hit s tabs' k.
Proof.
  intros Hi Hs. apply searched_world in Hs as [Hg [= E1 E2 E3 E4 E5]]. unfold store_hit, lookup_hit. rewrite E2, E4.
  rewrite (ext_ro_hits _ _ _ _ _ k (ext_heap _ _ (active_memtable s) (val_log s) Hg)) by (intros id t Ht; apply (si_ro _ _ _ Hi _ _ Ht)).
  unfold mem_lookup. by rewrite (hx_maps _ _ Hg) by apply Hi.
Qed.

Lemma searched_inv s es tabs s' : store_inv s es tabs -> searched s tabs s' -> store_inv s' es tabs.
Proof.
  intros Hi Hs. pose proof (fun k => searched_hit s es tabs s' tabs k Hi Hs) as Hh. apply searched_world in Hs as [Hg [= E1 E2 E3 E4 E5]].
  pose proof (ext_heap _ _ (active_memtable s) (val_log s) Hg) as He. pose proof (hx_next _ _ Hg).
  apply (store_inv_ext s s' es es tabs); rewrite ?E2, ?E3, ?E4, ?E5; try done.
  - by left.
  - by rewrite E1.
  - rewrite (hx_fs _ _ Hg). apply Hi.
  - destruct (si_active_lt _ _ _ Hi). apply (mem_inv_frame (ds_world s)); [by apply Hg|by apply Hg|apply Hi].
  - destruct (si_active_lt _ _ _ Hi). lia.
  - intros k v. unfold mem_lookup. rewrite (hx_maps _ _ Hg), (hx_ticks _ _ Hg) by apply Hi. apply (si_active_past _ _ _ Hi).
  - by left.
  - intros k v Hk. rewrite (ext_ro_hits _ _ _ _ _ k He) by (intros id t Ht; apply (si_ro _ _ _ Hi _ _ Ht)).
    unfold mem_lookup. rewrite (hx_maps _ _ Hg) by apply Hi. by apply (si_newer _ _ _ Hi).
  - intros k h Hk. rewrite Hh. by apply (si_logged _ _ _ Hi).
Qed.

(** Another list of the same tables *)
Record retabled w tabs tabs' : Prop := {
  re_maps : tabs'.*2 ≡ₚ tabs.*2;
  re_tabs p : p ∈ tabs' -> p ∈ tabs \/ exists r, (r, p.2) ∈ tabs /\ stands_for p.1 r /\ live_range w p.1 p.2;
  re_back p : p ∈ tabs -> exists p', p' ∈ tabs' /\ p'.2 = p.2 /\ stands_for p'.1 p.1;
}.

(** The state after [update_key_range] *)
Definition refreshed s : S := with_db s (mkDb (ds_world s) (db_buckets (ds_db s)) (update_key_range (db_ranges (ds_db s)))).

Lemma refresh_inv s es tabs :
  store_inv s es tabs -> exists tabs', store_inv (refreshed s) es tabs' /\ retabled (ds_world s) tabs tabs' /\
    (forall k, k <> HEAD_ENTRY_KEY -> store_hit (refreshed s) tabs' k = store_hit s tabs k) /\
    (restored_ranges (db_ranges (ds_db s)) = ∅ -> refreshed s = s /\ tabs' = tabs).
Proof.
  intros Hi. destruct (update_key_range_tabs _ _ _ (si_index _ _ _ Hi)) as (tabs' & E1 & E2 & E3 & E4 & E5 & E6).
  exists tabs'. pose proof (indexed_NoDup _ _ _ (si_index _ _ _ Hi)) as Hnd. assert (forall k, k <> HEAD_ENTRY_KEY -> store_hit (refreshed s) tabs' k = store_hit s tabs k) as Hh.
  { intros k Hk. unfold store_hit, lookup_hit. cbn. destruct (decide (restored_ranges (db_ranges (ds_db s)) = ∅)) as [Er|Er]; [by rewrite E5|].
    rewrite (best_hit_perm (sst_hits tabs k) (sst_hits tabs' k)); [done|by rewrite (sst_hits_perm k _ _ E2)|by apply (si_order _ _ _ Hi)]. }
  assert (retabled (ds_world s) tabs tabs') as Hre.
  { split; [done|..].
    - intros p [?|(r & d & Hin & Hd & Hst)]%E6; [by left|right]. exists r. split; [done|]. split; [done|].
      destruct (ix_restored _ _ _ (si_index _ _ _ Hi) _ _ Hd) as (r0 & m0 & Hin0 & Ed & Hst0 & Hl).
      assert ((r0, m0) = (r, p.2)) as [= -> ->]; [|done]. eapply NoDup_key_inj; [exact Hnd|done|done|].
      unfold dir_of. cbn. by rewrite <- (sf_dir _ _ Hst), <- (sf_dir _ _ Hst0).
    - intros p Hp. destruct (proj2 (E4 (dir_of p))) as [r Hr]; [by eapply indexed_lookup, Hp; apply Hi|].
      assert (r ∈ tabs'.*1) as ([r' m] & -> & Hin)%list_elem_of_fmap by (rewrite E1; apply list_elem_of_fmap; exists (dir_of p, r); split; [done|by apply hm_iter_elem]).
      cbn in *. exists (r', m). split; [done|]. pose proof (E3 _ _ Hr) as Ed.
      destruct (E6 _ Hin) as [Ht|(r0 & d & Ht & _ & Hst)]; cbn in *; (assert (p = (_, m)) as -> by (eapply NoDup_key_inj; [exact Hnd|done|exact Ht|]; unfold dir_of in *; cbn; congruence || by rewrite <- (sf_dir _ _ Hst))).
      + split; [done|apply stands_refl].
      + done. }
  pose proof (si_tabs _ _ _ Hi) as Hts. rewrite Forall_forall in Hts.
  split; [|split; [done|split; [done|]]].
  - split; try apply Hi.
    + split; [done|done|]. intros d r. cbn. by rewrite update_key_range_restored, lookup_empty.
    + intros d r. cbn. by rewrite update_key_range_restored, lookup_empty.
    + intros k _. cbn. by rewrite update_key_range_restored.
    + apply Forall_forall. intros p Hp. destruct (E6 p Hp) as [?|(r & d & Hin & Hd & Hst)]; [by apply Hts|].
      destruct (re_tabs _ _ _ Hre p Hp) as [?|(r' & _ & _ & Hl)]; [by apply Hts|]. destruct (Hts _ Hin) as [T1 T2 T3 T4 T5]. cbn in *.
      split; rewrite ?(sf_data _ _ Hst), ?(sf_index _ _ Hst); try done.
      * split; [by eapply holds_stands; [|exact Hst|apply T1]|by left].
      * intros _. by apply (si_spares _ _ _ Hi d).
      * intros i Hc. by destruct (live_not_cold _ _ _ _ _ Hl Hc).
    + intros k h Hk. rewrite Hh by done. by apply (si_logged _ _ _ Hi).
  - intros Er. split; [|by apply E5]. unfold refreshed, update_key_range. rewrite decide_True by done. by destruct s as [[? ? []]].
Qed.

(** *** Steps that extend the world *)
Lemma ext_trans w1 w2 w3 a v : world_ext w1 a v w2 -> world_ext w2 a v w3 -> world_ext w1 a v w3.
Proof.
  intros [A1 A2 A3 A4 A5 A6] [B1 B2 B3 B4 B5 B6]. split; [lia|lia|..].
  - intros l Hl Hn. rewrite B3 by (done || lia). by apply A3.
  - intros l Hl Hn. rewrite B4 by (done || lia). by apply A4.
  - intros i Hn. rewrite B5 by done. by apply A5.
  - intros p i Hp. by apply B6, A6.
Qed.

Lemma ext_tick w a v : world_ext w a v (tick w).
Proof. split; done || (cbn; lia). Qed.

Lemma ext_inserted w a e a' w' v : mem_inserted w a e a' w' -> world_ext w a v w'.
Proof.
  intros Hx. split; [by rewrite (mx_next _ _ _ _ _ Hx)|by rewrite (mx_ticks _ _ _ _ _ Hx)|..].
  - intros l _. apply Hx.
  - intros l _. apply Hx.
  - intros i _. by rewrite (mx_fs _ _ _ _ _ Hx).
  - intros p i. by rewrite (mx_fs _ _ _ _ _ Hx).
Qed.

Lemma ext_created w c t w' a v : mem_created w c t w' -> world_ext w a v w'.
Proof.
  intros Hc. destruct (mc_entries _ _ _ _ Hc). split; [lia|rewrite (mc_ticks _ _ _ _ Hc); lia|..].
  - intros l Hl _. by apply Hc.
  - intros l Hl _. by apply Hc.
  - intros i _. by rewrite (mc_fs _ _ _ _ Hc).
  - intros p i. by rewrite (mc_fs _ _ _ _ Hc).
Qed.

#[local] Hint Resolve ext_tick ext_inserted ext_created : ext.

(** Of the files, a step changed the log's contents at most. *)
Record log_only s s' : Prop := {
  lo_file : vlog_file (val_log s') = vlog_file (val_log s);
  lo_names : names (w_fs (ds_world s')) = names (w_fs (ds_world s));
  lo_dirs : dirs (w_fs (ds_world s')) = dirs (w_fs (ds_world s));
  lo_next : next_inode (w_fs (ds_world s')) = next_inode (w_fs (ds_world s));
  lo_content i : i <> file (vlog_file (val_log s)) -> content (w_fs (ds_world s')) i = content (w_fs (ds_world s)) i;
}.

Lemma log_only_trans s1 s2 s3 : log_only s1 s2 -> log_only s2 s3 -> log_only s1 s3.
Proof.
  intros [A1 A2 A3 A4 A5] [B1 B2 B3 B4 B5]. split; [congruence..|]. intros i Hi. rewrite B5 by by rewrite A1. by apply A5.
Qed.

Lemma log_only_same s s' :
  vlog_file (val_log s') = vlog_file (val_log s) -> w_fs (ds_world s') = w_fs (ds_world s) -> log_only s s'.
Proof. intros Ev Ef. by split; rewrite ?Ef. Qed.

(** *** Appending to the log *)
Lemma tick_append_inv s es tabs k val :
  let e b := vle_new (zlen k) (zlen val) k val (clock (w_ticks (ds_world s))) b in
  store_inv s es tabs -> (forall b, valid_entry (e b)) ->
  forall b, exists v' fs', let s' := with_val_log (set_world s (with_fs (tick (ds_world s)) fs')) v' in
    vlog_append (val_log s) k val (clock (w_ticks (ds_world s))) b (w_fs (ds_world s)) = (Ok (zlen (log_bytes es), v'), fs') /\
    store_inv s' (es ++ [e b]) tabs /\ (forall k', store_hit s' tabs k' = store_hit s tabs k') /\ log_only s s'.
Proof.
  intros e Hi Hv b. destruct (vlog_append_run _ _ _ k val (clock (w_ticks (ds_world s))) b (si_log _ _ _ Hi) (Hv b))
    as (v' & fs' & E & Hr & Hf & _ & _ & Hc & Hnm & Hdr & Hnx).
  exists v', fs'. intros s'. split; [exact E|]. assert (forall k', store_hit s' tabs k' = store_hit s tabs k') as Hh by done.
  split; [|by split]. apply (store_inv_ext s s' es); try done; try apply Hi.
  - split; try done; cbn; [lia|]. intros p i. by rewrite Hnm.
  - by left.
  - apply (mem_inv_frame (ds_world s)); [done|done|apply Hi].
  - intros k' x Hx n Hn. apply (si_active_past _ _ _ Hi k' x Hx). cbn in Hn. lia.
  - by left.
  - intros k' h Hk'. rewrite Hh. intros Hs Ht. destruct (si_logged _ _ _ Hi k' h Hk' Hs Ht) as [x Hx].
    exists x. by apply entry_at_app.
Qed.

(** *** Inserting into the active memtable *)
Lemma active_insert_inv s es tabs e :
  let w := ds_world s in
  store_inv s es tabs ->
  (forall n, (w_ticks w <= n < N)%nat -> e_created_at e < clock n) ->
  (e_key e <> HEAD_ENTRY_KEY -> default_datetime < e_created_at e /\
     (forall h, h ∈ ro_hits w (read_only_memtables s) (e_key e) -> h.1.2 < e_created_at e) /\
     (e_is_tombstone e = false -> is_Some (entry_at es (e_val_offset e)))) ->
  exists a' w', let s' := with_active (set_world s w') a' in
    mem_insert (active_memtable s) e w = (Ok a', w') /\ mem_inserted w (active_memtable s) e a' w' /\
    store_inv s' es tabs /\
    (forall k, store_hit s' tabs k = if decide (k = e_key e) then Some (hit_of (value_of e)) else store_hit s tabs k).
Proof.
  intros w Hi Hpast Hkey. destruct (mem_insert_run w (active_memtable s) e (si_active _ _ _ Hi)) as (a' & w' & E & Hx).
  exists a', w'. intros s'. split; [done|]. split; [done|].
  pose proof (ext_inserted _ _ _ _ _ (val_log s) Hx) as He.
  assert (forall k, ro_hits w' (read_only_memtables s) k = ro_hits w (read_only_memtables s) k) as Hro.
  { intros k. eapply ext_ro_hits; [exact He|]. intros id t Ht. by apply (si_ro _ _ _ Hi id t Ht). }
  assert (forall k, store_hit s' tabs k = if decide (k = e_key e) then Some (hit_of (value_of e)) else store_hit s tabs k) as Hh.
  { intros k. unfold store_hit, lookup_hit. cbn. fold w. rewrite (mx_lookup _ _ _ _ _ Hx), Hro. by case_decide. }
  split; [|done]. apply (store_inv_ext s s' es); try done; cbn; fold w; try apply Hx.
  - left. split; apply Hx.
  - rewrite (mx_fs _ _ _ _ _ Hx). apply Hi.
  - rewrite (mx_entries _ _ _ _ _ Hx), (mx_filter _ _ _ _ _ Hx), (mx_next _ _ _ _ _ Hx). apply Hi.
  - intros k v. rewrite (mx_lookup _ _ _ _ _ Hx), (mx_ticks _ _ _ _ _ Hx). case_decide; [intros [= <-]; apply Hpast|].
    by apply (si_active_past _ _ _ Hi).
  - by left.
  - intros k v Hk. rewrite (mx_lookup _ _ _ _ _ Hx), Hro. case_decide as Ek; [|by apply (si_newer _ _ _ Hi)].
    subst k. intros [= <-]. by destruct (Hkey Hk) as (? & ? & _).
  - intros k h Hk. rewrite Hh. case_decide as Ek; [|by apply (si_logged _ _ _ Hi)].
    subst k. intros [= <-]. by apply Hkey.
Qed.

(** *** Moving the active memtable *)

(** What a step on the active memtable leaves alone or adds to *)
Definition rest s := (file_handle (ds_meta s), gc_tables s, flush_stream s, tasks s, ds_config s).

(** The flush tasks for the memtables that have none yet *)
Fixpoint enqueue (ts : list (list byte * MemTable)) (st : gset (list byte)) : gset (list byte) * list Task :=
  match ts with
  | [] => (st, [])
  | (id, t) :: ts' =>
      if decide (id ∈ st) then enqueue ts' st else
      let q := enqueue ts' ({[ id ]} ∪ st) in (q.1, TFlush id t :: q.2)
  end.

Lemma flush_tables_run ts s :
  exists s', flush_tables ts s = (Ok tt, s') /\ core s' = core s /\ ds_meta s' = ds_meta s /\
    rest s' = (file_handle (ds_meta s), gc_tables s, (enqueue ts (flush_stream s)).1, tasks s ++ (enqueue ts (flush_stream s)).2, ds_config s).
Proof.
  revert s. induction ts as [|[id t] ts IH]; intros s.
  { exists s. unfold rest. cbn. by rewrite app_nil_r. }
  cbn [flush_tables enqueue]. run_simpl.
  case_decide; (erewrite io_step; [|reflexivity]); [apply IH|].
  match goal with |- context [flush_tables ts ?x] => destruct (IH x) as (s' & E & C & Em & Er) end. exists s'.
  do 3 (split; [done|]). rewrite Er. cbn. by rewrite <- app_assoc.
Qed.

Lemma reset_memtables_run s :
  config_ok (mt_config (active_memtable s)) ->
  exists s' w1 g h, reset_memtables s = (Ok tt, s') /\
    mem_created (ds_world s) (mt_config (active_memtable s)) (active_memtable s') w1 /\
    mem_created w1 (mt_config (active_memtable s)) g (ds_world s') /\
    core s' = (mkDb (ds_world s') (db_buckets (ds_db s)) (db_ranges (ds_db s)), active_memtable s', val_log s,
               read_only_memtables s, gc_updated_entries s) /\ ds_meta s' = ds_meta s /\
    rest s' = (file_handle (ds_meta s), <[h := g]> (gc_tables s), flush_stream s, tasks s, ds_config s) /\ gc_tables s !! h = None.
Proof.
  intros [Hr Hc Hn]. destruct (mem_new_run (mt_config (active_memtable s)) (ds_world s) Hr Hc Hn) as (a & w1 & E1 & C1).
  destruct (mem_new_run (mt_config (active_memtable s)) w1 Hr Hc Hn) as (g & w2 & E2 & C2).
  unfold reset_memtables. run_simpl. erewrite io_step; [|apply in_world_run; exact E1]. run_simpl.
  erewrite io_step; [|by apply in_world_run]. eexists _, w1, g, (fresh (dom (gc_tables s))).
  split; [reflexivity|]. split; [exact C1|]. split; [exact C2|]. do 3 (split; [done|]). apply not_elem_of_dom, is_fresh.
Qed.

(** The entry that records the log head *)
Definition head_entry s : Entry :=
  entry_new HEAD_ENTRY_KEY (get_most_recent_offset (active_memtable s)) (clock (Datatypes.S (w_ticks (ds_world s)))) false.

(** The stream and the tasks after the move: the list of read-only memtables is
    [ro] before and [ro'] after. *)
Definition queued (limit : Z) (ro ro' : M MemTable) (st : gset (list byte)) : gset (list byte) * list Task :=
  let st := if sm_is_empty ro then ∅ else st in
  if decide (sm_len ro' >= limit) then enqueue (sm_iter ro') st else (st, []).

Record migrated s s' (a1 : MemTable) (w1 : W) : Prop := {
  mg_inserted : mem_inserted (tick (tick (ds_world s))) (active_memtable s) (head_entry s) a1 w1;
  mg_created : exists w2 g h, mem_created (tick w1) (mt_config a1) (active_memtable s') w2 /\
    mem_created w2 (mt_config a1) g (ds_world s') /\ gc_tables s' = <[h := g]> (gc_tables s) /\ gc_tables s !! h = None;
  mg_ro : read_only_memtables s' = sm_insert (new_table_id (w_ticks w1)) (mark_readonly a1) (read_only_memtables s);
  mg_ranges : db_ranges (ds_db s') = db_ranges (ds_db s);
  mg_buckets : db_buckets (ds_db s') = db_buckets (ds_db s);
  mg_log : val_log s' = vlog_set_head (val_log s) (get_most_recent_offset (active_memtable s));
  mg_gc : gc_updated_entries s' = gc_updated_entries s;
  mg_meta : v_log_head (ds_meta s') = get_most_recent_offset (active_memtable s);
  mg_meta_file : file_handle (ds_meta s') = file_handle (ds_meta s);
  mg_config : ds_config s' = ds_config s;
  mg_created_at : m_created_at (ds_meta s') = m_created_at (ds_meta s);
  mg_queue : exists m, file_handle m = file_handle (ds_meta s) /\ v_log_head m = get_most_recent_offset (active_memtable s) /\
    m_created_at m = m_created_at (ds_meta s) /\ (exists n, last_modified m = clock n) /\
    let q := queued (max_buffer_write_number (ds_config s)) (read_only_memtables s) (read_only_memtables s') (flush_stream s) in
    flush_stream s' = q.1 /\
    tasks s' = tasks s ++ [TGcHead (get_most_recent_offset (active_memtable s)); TWriteMeta m] ++ q.2;
}.

Lemma clear_stream_run (b : bool) s :
  exists s', (if b then modify (fun s => with_flush s ∅ (flush_signal s)) else mret tt) s = (Ok tt, s') /\
    core s' = core s /\ ds_meta s' = ds_meta s /\
    rest s' = (file_handle (ds_meta s), gc_tables s, if b then ∅ else flush_stream s, tasks s, ds_config s).
Proof. destruct b; eexists; (split; [reflexivity|by split]). Qed.

Lemma flush_if_run {P Q : Prop} (b : {P} + {Q}) s :
  let q := if b then enqueue (sm_iter (read_only_memtables s)) (flush_stream s) else (flush_stream s, []) in
  exists s', (if b then flush_read_only_memtables else mret tt) s = (Ok tt, s') /\
    core s' = core s /\ ds_meta s' = ds_meta s /\
    rest s' = (file_handle (ds_meta s), gc_tables s, q.1, tasks s ++ q.2, ds_config s).
Proof.
  destruct b; [apply flush_tables_run|]. exists s. unfold rest. cbn. by rewrite app_nil_r.
Qed.

Lemma migrate_run s :
  mem_inv (ds_world s) (active_memtable s) -> config_ok (mt_config (active_memtable s)) ->
  exists s' a1 w1, migrate_memtable_to_read_only s = (Ok tt, s') /\ migrated s s' a1 w1.
Proof.
  intros Hi Hc. assert (mem_inv (tick (tick (ds_world s))) (active_memtable s)) as Hi2 by by apply (mem_inv_frame (ds_world s)).
  destruct (mem_insert_run _ _ (head_entry s) Hi2) as (a1 & w1 & E & Hx).
  unfold migrate_memtable_to_read_only. do 7 run_simpl.
  erewrite io_step; [|apply in_world_run; exact E]. run_simpl. unfold update_meta_background. run_simpl.
  match goal with |- context [mbind _ (gets read_only_memtables) ?x] => set (s1 := x) end.
  assert (core s1 = (mkDb w1 (db_buckets (ds_db s)) (db_ranges (ds_db s)), mark_readonly a1,
    vlog_set_head (val_log s) (get_most_recent_offset (active_memtable s)), read_only_memtables s, gc_updated_entries s) /\
    v_log_head (ds_meta s1) = get_most_recent_offset (active_memtable s) /\ m_created_at (ds_meta s1) = m_created_at (ds_meta s) /\
    exists m, (file_handle m = file_handle (ds_meta s) /\ v_log_head m = get_most_recent_offset (active_memtable s) /\
      m_created_at m = m_created_at (ds_meta s) /\ exists n, last_modified m = clock n) /\
    rest s1 = (file_handle (ds_meta s), gc_tables s, flush_stream s,
      tasks s ++ [TGcHead (get_most_recent_offset (active_memtable s)); TWriteMeta m], ds_config s)) as (C1 & M1 & K1 & m & (Hm1 & Hm2 & Hm3 & Hm4) & R1).
  { do 3 (split; [reflexivity|]). eexists. split; [|unfold rest, s1; cbn; rewrite <- app_assoc; reflexivity].
    do 3 (split; [done|]). by eexists. }
  clearbody s1. run_simpl.
  destruct (clear_stream_run (sm_is_empty (read_only_memtables s1)) s1) as (s2 & E2 & C2 & M2 & R2). run E2.
  rewrite C1 in C2. rewrite <- M2 in M1, K1. pose proof C1 as [= _ _ _ D0 _]. rewrite D0 in R2. pose proof C2 as [= D1 D2 D3 D4 D5]. do 2 run_simpl.
  match goal with |- context [mbind _ (gets (fun s0 => sm_len _)) ?x] => set (s3 := x) end.
  assert (core s3 = (mkDb (tick w1) (db_buckets (ds_db s)) (db_ranges (ds_db s)), mark_readonly a1,
    vlog_set_head (val_log s) (get_most_recent_offset (active_memtable s)),
    sm_insert (new_table_id (w_ticks w1)) (mark_readonly a1) (read_only_memtables s), gc_updated_entries s) /\
    ds_meta s3 = ds_meta s2 /\ rest s3 = rest s2) as (C3 & M3 & R3).
  { unfold s3, core, ds_world. cbn. by rewrite D1, D2, D3, D4, D5. }
  clearbody s3. do 2 run_simpl. pose proof C3 as [= _ _ _ D6 _].
  match goal with |- context [if ?d is left _ then _ else _] => destruct (flush_if_run d s3) as (s4 & E4 & C4 & M4 & R4) end.
  run E4. rewrite C3 in C4. rewrite <- M3, <- M4 in M1, K1. pose proof C4 as [= F1 F2 F3 F4 F5].
  destruct (reset_memtables_run s4) as (s' & w2 & g & h & E5 & G1 & G2 & C5 & M5 & R5 & Hh).
  { rewrite F2. change (mt_config (mark_readonly a1)) with (mt_config a1). by rewrite (mx_config _ _ _ _ _ Hx). }
  exists s', a1, w1. split; [exact E5|]. injection C5 as I1 I3 I4 I5.
  unfold ds_world in G1. rewrite F1, F2 in G1. rewrite F2 in G2. rewrite F1 in I1. rewrite F4 in I4.
  injection R1 as P1 P2 P3 P4 P5. injection R2 as Q1 Q2 Q3 Q4 Q5. injection R3 as S1 S2 S3 S4 S5.
  injection R4 as T1 T2 T3 T4 T5. injection R5 as U1 U2 U3 U4 U5.
  split; [done| |congruence|by rewrite I1|by rewrite I1|congruence|congruence|congruence|congruence|congruence|congruence|].
  - exists w2, g, h. do 2 (split; [done|]). split; [congruence|]. congruence.
  - exists m. do 4 (split; [done|]). rewrite I4. unfold queued.
    rewrite U3, U4, T3, T4, S4, Q4, P4, D6, S3, Q3, P3, S5, Q5, P5. rewrite <- app_assoc.
    destruct (decide (sm_len _ >= _)); split; reflexivity.
Qed.


(** The moved memtable in the final world: still readable and out of the way. *)
Lemma migrated_old s s' es tabs a1 w1 :
  orderly N -> store_inv s es tabs -> migrated s s' a1 w1 ->
  ro_ok (ds_world s') (active_memtable s') (new_table_id (w_ticks w1)) (mark_readonly a1) /\
  (forall k, mem_lookup (ds_world s') (mark_readonly a1) k =
     if decide (k = HEAD_ENTRY_KEY) then Some (value_of (head_entry s)) else mem_lookup (ds_world s) (active_memtable s) k).
Proof.
  intros Ho Hi [Hx (w2 & g & ? & C1 & C2 & _) _ _ _ _ _ _ _ _ _]. destruct (si_active_lt _ _ _ Hi) as [L1 L2].
  assert (world_ext (tick w1) (active_memtable s') (val_log s) (ds_world s')) as He.
  { apply (ext_trans _ w2); eauto with ext. }
  assert (ro_ok (tick w1) (active_memtable s') (new_table_id (w_ticks w1)) (mark_readonly a1)) as Hok.
  { pose proof (mx_next _ _ _ _ _ Hx). pose proof (mx_ticks _ _ _ _ _ Hx) as Ht. cbn in *. split.
    - apply (mem_inv_frame w1); [done|done|]. destruct (mx_inv _ _ _ _ _ Hx). by split.
    - destruct (mc_entries _ _ _ _ C1), (mc_filter _ _ _ _ C1). cbn in *.
      split; cbn; rewrite ?(mx_entries _ _ _ _ _ Hx), ?(mx_filter _ _ _ _ _ Hx); lia.
    - intros k v. change (mem_lookup (tick w1) (mark_readonly a1) k) with (mem_lookup w1 a1 k).
      rewrite (mx_lookup _ _ _ _ _ Hx). cbn. rewrite Ht. intros Hv n Hn. case_decide.
      + injection Hv as <-. cbn. apply (clock_increases _ Ho). lia.
      + apply (si_active_past _ _ _ Hi _ _ Hv). lia.
    - intros n Hn. apply (ids_distinct _ Ho). cbn in Hn. lia. }
  split; [eapply ext_ro; [exact He|by left|done]|]. intros k.
  rewrite (ext_lookup _ _ _ _ _ _ He (rk_apart _ _ _ _ Hok)). exact (mx_lookup _ _ _ _ _ Hx k).
Qed.

Lemma migrated_ext s s' a1 w1 : migrated s s' a1 w1 ->
  world_ext (ds_world s) (active_memtable s) (val_log s) (ds_world s').
Proof.
  intros [Hx (w2 & g & ? & C1 & C2 & _) _ _ _ _ _ _ _ _ _]. do 2 (eapply ext_trans; [apply ext_tick|]).
  apply (ext_trans _ w1); [eauto with ext|]. apply (ext_trans _ (tick w1)); [eauto with ext|].
  apply (ext_trans _ w2); eauto with ext.
Qed.

(** The new active memtable is empty. *)
Lemma migrated_active s s' a1 w1 : migrated s s' a1 w1 ->
  mem_inv (ds_world s') (active_memtable s') /\ (forall k, mem_lookup (ds_world s') (active_memtable s') k = None) /\
  (w_next (ds_world s) <= mt_entries (active_memtable s') < w_next (ds_world s'))%nat /\
  (w_next (ds_world s) <= bit_vec (bloom_filter (active_memtable s')) < w_next (ds_world s'))%nat /\
  mt_config (active_memtable s') = mt_config (active_memtable s) /\ w_fs (ds_world s') = w_fs (ds_world s).
Proof.
  intros [Hx (w2 & g & ? & C1 & C2 & _) _ _ _ _ _ _ _ _ _]. pose proof (mx_next _ _ _ _ _ Hx) as Hn.
  pose proof (mc_entries _ _ _ _ C1). pose proof (mc_filter _ _ _ _ C1). pose proof (mc_entries _ _ _ _ C2). cbn in *.
  split; [apply (mem_inv_frame w2); [apply C2; lia|apply C2; lia|apply C1]|].
  split; [intros k; unfold mem_lookup; rewrite (mc_maps _ _ _ _ C2) by lia; apply C1|].
  split; [lia|]. split; [lia|]. split; [by rewrite (mc_config _ _ _ _ C1), (mx_config _ _ _ _ _ Hx)|].
  by rewrite (mc_fs _ _ _ _ C2), (mc_fs _ _ _ _ C1); cbn; rewrite (mx_fs _ _ _ _ _ Hx).
Qed.

(** Where the hits of the read-only memtables come from. *)
Lemma migrated_hits s s' es tabs a1 w1 k h :
  orderly N -> store_inv s es tabs -> migrated s s' a1 w1 -> k <> HEAD_ENTRY_KEY ->
  h ∈ ro_hits (ds_world s') (read_only_memtables s') k ->
  (exists v, mem_lookup (ds_world s) (active_memtable s) k = Some v /\ h = hit_of v) \/
  h ∈ ro_hits (ds_world s) (read_only_memtables s) k.
Proof.
  intros Ho Hi Hm Hk (id & t & x & Ht & Hx & ->)%ro_hits_elem. rewrite (mg_ro _ _ _ _ Hm), sm_get_insert in Ht.
  case_decide.
  - injection Ht as <-. destruct (migrated_old _ _ _ _ _ _ Ho Hi Hm) as [_ Hl].
    rewrite Hl, decide_False in Hx by done. left. by exists x.
  - right. apply ro_hits_elem. exists id, t, x. split; [done|]. split; [|done].
    by rewrite <- (ext_lookup _ _ _ _ _ _ (migrated_ext _ _ _ _ Hm) (rk_apart _ _ _ _ (si_ro _ _ _ Hi _ _ Ht))).
Qed.

Lemma migrated_ticks s s' a1 w1 : migrated s s' a1 w1 ->
  (w_ticks (ds_world s) <= w_ticks (ds_world s') <= w_ticks (ds_world s) + 7)%nat.
Proof.
  intros [Hx (w2 & g & ? & C1 & C2 & _) _ _ _ _ _ _ _ _ _]. rewrite (mc_ticks _ _ _ _ C2), (mc_ticks _ _ _ _ C1). cbn.
  rewrite (mx_ticks _ _ _ _ _ Hx). cbn. lia.
Qed.

Lemma migrated_hit s s' es tabs a1 w1 k :
  orderly N -> store_inv s es tabs -> (w_ticks (ds_world s) + 8 <= N)%nat -> migrated s s' a1 w1 -> k <> HEAD_ENTRY_KEY ->
  store_hit s' tabs k = store_hit s tabs k.
Proof.
  intros Ho Hi HN Hm Hk. destruct (migrated_old _ _ _ _ _ _ Ho Hi Hm) as [Hok Hl].
  destruct (migrated_active _ _ _ _ Hm) as (_ & Hnone & _). unfold store_hit, lookup_hit. rewrite Hnone.
  destruct (mem_lookup (ds_world s) (active_memtable s) k) as [v|] eqn:Ev.
  - destruct (si_newer _ _ _ Hi k v Hk Ev) as [Hd Hlt]. rewrite (best_hit_strict (hit_of v)); [done|done|..].
    + apply ro_hits_elem. eexists _, _, v. rewrite (mg_ro _ _ _ _ Hm), sm_get_insert, decide_True by done.
      split; [done|]. by rewrite Hl, decide_False.
    + intros h' [(v' & Ev' & ->)|Hin]%(migrated_hits _ _ _ _ _ _ _ _ Ho Hi Hm Hk).
      * left. congruence.
      * right. by apply Hlt.
  - assert (ro_hits (ds_world s') (read_only_memtables s') k = ro_hits (ds_world s) (read_only_memtables s) k) as ->; [|done].
    rewrite <- (ext_ro_hits _ _ _ _ _ k (migrated_ext _ _ _ _ Hm)) by (intros id t Ht; apply (si_ro _ _ _ Hi _ _ Ht)).
    unfold ro_hits. rewrite (mg_ro _ _ _ _ Hm), sm_iter_insert. apply omap_sl_insert.
    + intros ([id t] & Eid & Hin)%list_elem_of_fmap. apply sm_elem in Hin. cbn in Eid.
      destruct (si_ro _ _ _ Hi _ _ Hin) as [_ _ _ Hid]. eapply Hid; [|exact Eid].
      rewrite (mx_ticks _ _ _ _ _ (mg_inserted _ _ _ _ Hm)). cbn. lia.
    + by rewrite Hl, decide_False, Ev by done.
Qed.

Lemma migrated_inv s s' es tabs a1 w1 :
  orderly N -> store_inv s es tabs -> (w_ticks (ds_world s) + 8 <= N)%nat -> migrated s s' a1 w1 -> store_inv s' es tabs.
Proof.
  intros Ho Hi HN Hm. destruct (migrated_old _ _ _ _ _ _ Ho Hi Hm) as [Hok _].
  destruct (migrated_active _ _ _ _ Hm) as (Hinv & Hnone & L1 & L2 & Hc & Hfs).
  apply (store_inv_ext s s' es); try done; try apply Hm.
  - by eapply migrated_ext.
  - right. lia.
  - by rewrite (mg_log _ _ _ _ Hm).
  - rewrite (mg_log _ _ _ _ Hm). destruct (si_log _ _ _ Hi) as [Rc Rs Rv]. split; try done. by rewrite Hfs.
  - lia.
  - intros k v. by rewrite Hnone.
  - intros id t. rewrite (mg_ro _ _ _ _ Hm), sm_get_insert. case_decide; [|by left]. intros [= <-]. subst. by right.
  - intros k v _. by rewrite Hnone.
  - intros k h Hk. rewrite (migrated_hit _ _ _ _ _ _ _ Ho Hi HN Hm Hk). by apply (si_logged _ _ _ Hi).
Qed.
End view.
#[export] Hint Resolve ext_tick ext_inserted ext_created : ext.
