(* ===== verification/StoreSpec.v ===== *)
(** * The store as a map

    Under [store_inv], [get] returns the view of the key and [put], [update] and
    [delete] change it at that key only, whether or not the active memtable has
    to be moved out of the way first; sequences of calls answer as a key-value
    map does. *)

From stdpp Require Import prelude gmap strings list.
From Stdlib Require Import Strings.Byte ZArith Lia.
From S2P Require Import Prelude Consts SkipMap FileIO Types World VLog Block Index Bloom SSTable Meta MemTable.
From S2P Require Import KeyRange RangeSearch Bucket Flush Compaction Config Store StoreInv.
Open Scope Z_scope.

Section clients.
Context `{Env} {M : Type -> Type} `{SkipMap M} (N : nat).
Abbreviation W := (World M).
Abbreviation S := (DataStore M).
Implicit Types (s : S) (w : W) (tabs : list (Range * M SkipMapValue)) (es : list ValueLogEntry).

(** *** Writing *)

(** What a client may write and read back: accepted by [validate_size], UTF-8,
    and short enough for the single [read] call that loads a value. *)
Record writable (k val : list byte) : Prop := {
  wr_size : validate_size k (Some val) = Ok tt;
  wr_utf8 : utf8_valid val = true;
  wr_read : zlen val <= max_buf_size;
  wr_u32 : is_u32 (zlen val);
}.

Definition log_entry (k val : list byte) (t : DateTime) : ValueLogEntry :=
  vle_new (zlen k) (zlen val) k val t (bool_decide (val = TOMB_STONE_MARKER)).

Lemma writable_entry k val t b : writable k val -> valid_time t -> valid_entry (vle_new (zlen k) (zlen val) k val t b).
Proof.
  intros [Hs _ Hr Hu] Ht. unfold validate_size in Hs. pose proof max_buf_size_ge. pose proof (zlen_nonneg k).
  repeat case_decide; try done. unfold MAX_KEY_SIZE in *. repeat split; cbn; try done; try lia; apply Hu || apply Ht.
Qed.

(** The steps of a write: make room in the active memtable, ... *)
Definition room_made s s' : Prop :=
  (s' = s /\ is_full (active_memtable s) HEAD_KEY_SIZE = false) \/
  (is_full (active_memtable s) HEAD_KEY_SIZE = true /\ exists a1 w1, migrated s s' a1 w1).

(** ... insert the logged entry, ... *)
Definition put_trace s es tabs (e : Entry) s' : Prop :=
  exists s1 a w, room_made s s1 /\ store_inv N s1 es tabs /\ mem_inserted (ds_world s1) (active_memtable s1) e a w /\
    s' = with_tasks (with_active (set_world s1 w) a) (tasks s1 ++ [TGcInsert (gc_table s1) e]).

(** ... after appending it to the log. *)
Definition wrote s es tabs (k val : list byte) s' : Prop :=
  let t := clock (w_ticks (ds_world s)) in
  exists v' fs', let s0 := with_val_log (set_world s (with_fs (tick (ds_world s)) fs')) v' in
    log_only s s0 /\ store_inv N s0 (es ++ [log_entry k val t]) tabs /\
    put_trace s0 (es ++ [log_entry k val t]) tabs
      (entry_new k (zlen (log_bytes es)) t (bool_decide (val = TOMB_STONE_MARKER))) s'.

(** Before that: reads may have restored filters, and [put] brings the index up to
    date. *)
Definition prepared s tabs s1 tabs1 : Prop :=
  exists s0, searched s tabs s0 /\ s1 = refreshed s0 /\ retabled (ds_world s0) tabs tabs1.

Lemma prepared_world s tabs s1 tabs1 : prepared s tabs s1 tabs1 -> heap_ext (ds_world s) (ds_world s1) /\
  (active_memtable s1, val_log s1, read_only_memtables s1, gc_updated_entries s1, db_buckets (ds_db s1), rest s1) =
  (active_memtable s, val_log s, read_only_memtables s, gc_updated_entries s, db_buckets (ds_db s),
   (file_handle (ds_meta s), gc_tables s, flush_stream s, tasks s1, ds_config s)).
Proof. intros (s0 & (w' & rest & Hg & _ & ->) & -> & _). by split. Qed.

Lemma prepared_log s tabs s1 tabs1 : prepared s tabs s1 tabs1 -> log_only s s1.
Proof. intros [Hg [= _ Ev _ _ _ _]]%prepared_world. apply log_only_same; [by rewrite Ev|apply Hg]. Qed.

Lemma prepare_run s es tabs s0 :
  store_inv N s es tabs -> searched s tabs s0 -> exists tabs1, prepared s tabs (refreshed s0) tabs1 /\ store_inv N (refreshed s0) es tabs1 /\
    forall k, k <> HEAD_ENTRY_KEY -> store_hit (refreshed s0) tabs1 k = store_hit s tabs k.
Proof.
  intros Hi Hs. destruct (refresh_inv N s0 es tabs (searched_inv N _ _ _ _ Hi Hs)) as (tabs1 & Hi1 & Hre & Hh & _).
  exists tabs1. split; [by exists s0|]. split; [done|]. intros k Hk. rewrite Hh by done. by eapply searched_hit.
Qed.

Lemma retabled_nil w tabs : retabled (M := M) w [] tabs -> tabs = [].
Proof. intros [Hp _]. apply Permutation_nil_r in Hp. by apply fmap_nil_inv in Hp. Qed.

(** Moving the active memtable out of the way if it is full *)
Lemma make_room_run s es tabs :
  orderly N -> store_inv N s es tabs -> (w_ticks (ds_world s) + 8 <= N)%nat ->
  exists s', (if is_full (active_memtable s) HEAD_KEY_SIZE then migrate_memtable_to_read_only else mret tt) s = (Ok tt, s') /\
    store_inv N s' es tabs /\ (forall k, k <> HEAD_ENTRY_KEY -> store_hit s' tabs k = store_hit s tabs k) /\
    (w_ticks (ds_world s) <= w_ticks (ds_world s') <= w_ticks (ds_world s) + 7)%nat /\
    (forall k h, k <> HEAD_ENTRY_KEY -> h ∈ ro_hits (ds_world s') (read_only_memtables s') k ->
       (exists v, mem_lookup (ds_world s) (active_memtable s) k = Some v /\ h = hit_of v) \/
       h ∈ ro_hits (ds_world s) (read_only_memtables s) k) /\ log_only s s' /\ room_made s s'.
Proof.
  intros Ho Hi HN. unfold room_made. destruct (is_full _ _) eqn:Efull.
  - destruct (migrate_run s (si_active _ _ _ _ Hi) (si_config _ _ _ _ Hi)) as (s' & a1 & w1 & E & Hm).
    exists s'. split; [exact E|]. split; [by eapply migrated_inv|]. split; [intros k; by eapply migrated_hit|].
    split; [by apply (migrated_ticks _ _ _ _ Hm)|]. split; [intros k h; by eapply migrated_hits|].
    split; [|right; split; [done|by exists a1, w1]]. apply log_only_same; [by rewrite (mg_log _ _ _ _ Hm)|apply (migrated_active _ _ _ _ Hm)].
  - exists s. split; [done|]. split; [done|]. split; [done|]. split; [lia|]. split; [intros k h _; by right|]. split; [by apply log_only_same|by left].
Qed.

Lemma update_ranges_run s :
  in_db (io_modify (fun d => mkDb (db_world d) (db_buckets d) (update_key_range (db_ranges d)))) s = (Ok tt, refreshed s).
Proof. done. Qed.

(** The second half of [put]: insert the logged entry. *)
Definition put_entry (e : Entry) : io S Error bool :=
  active ← gets active_memtable;
  _ ← (if is_full active HEAD_KEY_SIZE then migrate_memtable_to_read_only else mret tt);
  active ← gets active_memtable;
  active ← in_world (mem_insert active e);
  _ ← modify (fun s => with_active s active);
  h ← gets gc_table;
  _ ← spawn (TGcInsert h e);
  mret true.

Lemma put_entry_run s es tabs e :
  orderly N -> store_inv N s es tabs -> (w_ticks (ds_world s) + 8 <= N)%nat -> default_datetime < e_created_at e ->
  (forall n, (w_ticks (ds_world s) <= n < N)%nat -> e_created_at e < clock n) ->
  (forall k v, mem_lookup (ds_world s) (active_memtable s) k = Some v -> smv_created_at v < e_created_at e) ->
  (forall k (h : Hit), h ∈ ro_hits (ds_world s) (read_only_memtables s) k -> h.1.2 < e_created_at e) ->
  (e_is_tombstone e = false -> is_Some (entry_at es (e_val_offset e))) ->
  exists s', put_entry e s = (Ok true, s') /\ store_inv N s' es tabs /\
    (w_ticks (ds_world s) <= w_ticks (ds_world s') <= w_ticks (ds_world s) + 7)%nat /\
    (forall k, k <> HEAD_ENTRY_KEY -> store_hit s' tabs k =
       if decide (k = e_key e) then Some (hit_of (value_of e)) else store_hit s tabs k) /\ log_only s s' /\
    put_trace s es tabs e s'.
Proof.
  intros Ho Hi HN Hd Hn Ha Hr Hl. destruct (make_room_run s es tabs Ho Hi HN) as (s1 & E1 & Hi1 & Hh1 & Ht & Hro & Hlo & Hroom).
  destruct (active_insert_inv N s1 es tabs e Hi1) as (a & w & E2 & Hx & Hi2 & Hh2).
  { intros n Hn'. apply Hn. lia. }
  { intros Hk. split; [done|]. split; [|done]. intros h [(v & Hv & ->)|Hin]%(Hro _ _ Hk); [by eapply Ha|by eapply Hr]. }
  unfold put_entry. run_simpl. run E1. run_simpl. erewrite io_step by (by apply in_world_run). do 3 run_simpl.
  eexists. split; [reflexivity|]. split; [by eapply core_inv; [|exact Hi2]|].
  split; [cbn; rewrite (mx_ticks _ _ _ _ _ Hx); lia|]. split.
  - intros k Hk. rewrite (core_hit (with_active (set_world s1 w) a)), Hh2 by done. case_decide; [done|]. by apply Hh1.
  - split; [apply (log_only_trans _ s1); [done|]; by apply log_only_same; [|exact (mx_fs _ _ _ _ _ Hx)]|].
    by exists s1, a, w.
Qed.

Lemma append_put_run s es tabs k val :
  orderly N -> store_inv N s es tabs -> (w_ticks (ds_world s) + 9 <= N)%nat -> writable k val ->
  let t := clock (w_ticks (ds_world s)) in let es' := es ++ [log_entry k val t] in
  exists v' fs' s', let s1 := with_val_log (set_world s (with_fs (tick (ds_world s)) fs')) v' in
    vlog_append (val_log s) k val t (bool_decide (val = TOMB_STONE_MARKER)) (w_fs (ds_world s)) = (Ok (zlen (log_bytes es), v'), fs') /\
    put_entry (entry_new k (zlen (log_bytes es)) t (bool_decide (val = TOMB_STONE_MARKER))) s1 = (Ok true, s') /\ store_inv N s' es' tabs /\
    (w_ticks (ds_world s) < w_ticks (ds_world s') <= w_ticks (ds_world s) + 8)%nat /\
    (forall k', k' <> HEAD_ENTRY_KEY -> store_hit s' tabs k' =
       if decide (k' = k) then Some (zlen (log_bytes es), t, bool_decide (val = TOMB_STONE_MARKER))
       else store_hit s tabs k') /\ log_only s s' /\ wrote s es tabs k val s'.
Proof.
  intros Ho Hi HN Hw t es'.
  destruct (tick_append_inv N s es tabs k val Hi (fun b => writable_entry k val _ b Hw (clock_valid _))
    (bool_decide (val = TOMB_STONE_MARKER))) as (v' & fs' & E & Hi1 & Hh1 & Hlo1). exists v', fs'.
  set (s1 := with_val_log (set_world s (with_fs (tick (ds_world s)) fs')) v') in *.
  set (e := entry_new k (zlen (log_bytes es)) t (bool_decide (val = TOMB_STONE_MARKER))).
  destruct (put_entry_run s1 es' tabs e Ho Hi1) as (s' & E' & Hi' & Ht' & Hh' & Hlo' & Htr).
  - cbn. lia.
  - apply (clock_positive _ Ho). lia.
  - intros n Hn. apply (clock_increases _ Ho). cbn in Hn. lia.
  - intros k' v Hv. apply (si_active_past _ _ _ _ Hi k' v Hv). lia.
  - intros k' h (id & m & x & Hm & Hx & ->)%ro_hits_elem. apply (rk_past _ _ _ _ _ (si_ro _ _ _ _ Hi id m Hm) k' x Hx). lia.
  - intros _. eexists. apply entry_at_end.
  - exists s'. split; [done|]. split; [exact E'|]. split; [done|]. split; [cbn in Ht'; lia|].
    split; [intros k' Hk'; by rewrite Hh', Hh1|]. split; [by apply (log_only_trans _ s1)|by exists v', fs'].
Qed.

Lemma store_put_run s es tabs k val :
  orderly N -> store_inv N s es tabs -> (w_ticks (ds_world s) + 9 <= N)%nat -> writable k val ->
  let t := clock (w_ticks (ds_world s)) in let es' := es ++ [log_entry k val t] in
  exists s' tabs', store_put k val s = (Ok true, s') /\ store_inv N s' es' tabs' /\
    (w_ticks (ds_world s) < w_ticks (ds_world s') <= w_ticks (ds_world s) + 8)%nat /\
    (forall k', k' <> HEAD_ENTRY_KEY -> store_hit s' tabs' k' =
       if decide (k' = k) then Some (zlen (log_bytes es), t, bool_decide (val = TOMB_STONE_MARKER))
       else store_hit s tabs k') /\ log_only s s' /\ retabled (ds_world s) tabs tabs' /\ store_inv N (refreshed s) es tabs' /\ wrote (refreshed s) es tabs' k val s'.
Proof.
  intros Ho Hi HN Hw t es'. unfold store_put. rewrite (wr_size _ _ Hw). run_simpl. run_simpl.
  erewrite io_step by (by apply in_world_pure). rewrite (si_gc _ _ _ _ Hi). run_simpl.
  run (update_ranges_run s). rewrite (wr_utf8 _ _ Hw). do 3 run_simpl.
  destruct (refresh_inv N s es tabs Hi) as (tabs' & Hi1 & Hre & Hh & _).
  destruct (append_put_run (refreshed s) es tabs' k val Ho Hi1 HN Hw) as (v' & fs' & s' & E & E' & Hi' & Ht & Hh' & Hlo & Htr).
  erewrite io_step. 2: { apply in_world_run. apply on_fs_ok. exact E. } cbn beta iota. run_simpl.
  exists s', tabs'. split; [exact E'|]. split; [done|]. split; [done|]. split; [|split; [by destruct Hlo|exact (conj Hre (conj Hi1 Htr))]].
  intros k' Hk'. rewrite Hh' by done. destruct (decide (k' = k)); [reflexivity|exact (Hh k' Hk')].
Qed.

Lemma read_hit_app es es' h :
  (h.2 = false -> is_Some (entry_at es h.1.1)) -> read_hit (es ++ es') h = read_hit es h.
Proof.
  intros Hl. unfold read_hit. destruct (h.2); [done|]. destruct (Hl eq_refl) as [e He].
  by rewrite He, (entry_at_app _ _ _ _ He).
Qed.

(** What a write makes a client see *)
Definition written (val : list byte) (t : DateTime) : option UserEntry :=
  if decide (val = TOMB_STONE_MARKER) then None else Some (mkUserEntry val t).

Lemma put_view_run s es tabs k val :
  orderly N -> store_inv N s es tabs -> (w_ticks (ds_world s) + 9 <= N)%nat -> writable k val ->
  let es' := es ++ [log_entry k val (clock (w_ticks (ds_world s)))] in
  exists s' tabs', store_put k val s = (Ok true, s') /\ store_inv N s' es' tabs' /\ log_only s s' /\
    (w_ticks (ds_world s) < w_ticks (ds_world s') <= w_ticks (ds_world s) + 8)%nat /\
    (forall k', k' <> HEAD_ENTRY_KEY -> store_view s' es' tabs' k' =
       if decide (k' = k) then written val (clock (w_ticks (ds_world s))) else store_view s es tabs k') /\
    retabled (ds_world s) tabs tabs' /\ store_inv N (refreshed s) es tabs' /\ wrote (refreshed s) es tabs' k val s'.
Proof.
  intros Ho Hi HN Hw es'. destruct (store_put_run s es tabs k val Ho Hi HN Hw) as (s' & tabs' & E & Hi' & Ht & Hh & Hlo & Htr).
  exists s', tabs'. do 4 (split; [done|]). split; [|done]. intros k' Hk'. unfold store_view, es'. rewrite Hh by done.
  destruct (decide (k' = k)).
  - unfold written, read_hit. cbn [mbind option_bind fst snd]. rewrite entry_at_end. cbn [mbind option_bind log_entry vle_new vle_is_tombstone].
    case_decide; [by rewrite bool_decide_true|by rewrite bool_decide_false].
  - destruct (store_hit s tabs k') as [h|] eqn:Eh; [|done]. cbn. apply read_hit_app. by apply (si_logged _ _ _ _ Hi k').
Qed.

(** ** Clients as sequences of calls *)
Inductive Op :=
  | OpPut (k val : list byte)
  | OpUpdate (k val : list byte)
  | OpDelete (k : list byte)
  | OpGet (k : list byte).

Inductive Resp :=
  | RDone (b : bool)
  | RVal (v : option (list byte)).

Definition exec (op : Op) : io S Error Resp :=
  match op with
  | OpPut k val => b ← store_put k val; mret (RDone b)
  | OpUpdate k val => b ← store_update k val; mret (RDone b)
  | OpDelete k => b ← store_delete k; mret (RDone b)
  | OpGet k => r ← store_get k; mret (RVal (ue_val <$> r))
  end.

Fixpoint exec_all (ops : list Op) : io S Error (list Resp) :=
  match ops with
  | [] => mret []
  | op :: ops' => r ← exec op; rs ← exec_all ops'; mret (r :: rs)
  end.

(** The reference: a finite map. *)
Abbreviation KV := (list byte -> option (list byte)).

Definition kv_put (m : KV) (k val : list byte) : KV := fun k' =>
  if decide (k' = k) then (if decide (val = TOMB_STONE_MARKER) then None else Some val) else m k'.

Definition kv_step (m : KV) (op : Op) : Resp * KV :=
  match op with
  | OpPut k val | OpUpdate k val => (RDone true, kv_put m k val)
  | OpDelete k => (RDone true, kv_put m k TOMB_STONE_MARKER)
  | OpGet k => (RVal (m k), m)
  end.

Fixpoint kv_run (m : KV) (ops : list Op) : list Resp * KV :=
  match ops with
  | [] => ([], m)
  | op :: ops' => let '(r, m1) := kv_step m op in let '(rs, m2) := kv_run m1 ops' in (r :: rs, m2)
  end.

(** Calls the reference speaks of: writable, and not on the reserved key *)
Definition op_ok (op : Op) : Prop :=
  match op with
  | OpPut k val | OpUpdate k val => writable k val /\ k <> HEAD_ENTRY_KEY
  | OpDelete k | OpGet k => validate_size k None = Ok tt /\ k <> HEAD_ENTRY_KEY
  end.

(** The store represents a reference map. *)
Definition represents s es tabs (m : KV) : Prop :=
  store_inv N s es tabs /\ forall k, k <> HEAD_ENTRY_KEY -> ue_val <$> store_view s es tabs k = m k.

Lemma validate_key k val : validate_size k (Some val) = Ok tt -> validate_size k None = Ok tt.
Proof. unfold validate_size. by repeat case_decide. Qed.

Lemma tombstone_writable k : validate_size k None = Ok tt -> writable k TOMB_STONE_MARKER.
Proof.
  intros Hk. pose proof max_buf_size_ge. split; try done. change (zlen TOMB_STONE_MARKER) with 1. lia.
Qed.

(** What the entries of a log do to a map *)
Definition log_step (m : KV) (e : ValueLogEntry) : KV := fun k =>
  if decide (k = vle_key e) then (if vle_is_tombstone e then None else Some (vle_value e)) else m k.
Definition log_map (m : KV) (ws : list ValueLogEntry) : KV := fold_left log_step ws m.

Lemma log_step_put m k val t k' : log_step m (log_entry k val t) k' = kv_put m k val k'.
Proof.
  unfold log_step, kv_put. cbn [log_entry vle_new vle_key vle_value vle_is_tombstone].
  case_decide; [|done]. by case_decide; [rewrite bool_decide_true|rewrite bool_decide_false].
Qed.

#[global] Instance log_map_proper : Proper (pointwise_relation _ eq ==> eq ==> pointwise_relation _ eq) log_map.
Proof.
  intros m m' Hm ws ? <-. revert m m' Hm. induction ws as [|e ws IH]; intros m m' Hm; [done|].
  cbn. apply IH. intros k. unfold log_step. by rewrite (Hm k).
Qed.

#[global] Instance kv_step_proper : Proper (pointwise_relation _ eq ==> eq ==> pointwise_relation _ eq) (fun m op => (kv_step m op).2).
Proof. intros m m' Hm op ? <- k. destruct op; cbn; unfold kv_put; by rewrite ?(Hm k). Qed.

Lemma kv_run_cons m op ops : (kv_run m (op :: ops)).2 = (kv_run (kv_step m op).2 ops).2.
Proof. cbn. destruct (kv_step m op) as [r m1]. cbn. by destruct (kv_run m1 ops). Qed.

Lemma kv_run_app m ops ops' : (kv_run m (ops ++ ops')).2 = (kv_run (kv_run m ops).2 ops').2.
Proof. revert m. induction ops as [|op ops IH]; intros m; [done|]. cbn [app]. by rewrite !kv_run_cons, IH. Qed.

Lemma kv_run_app_fst m ops ops' : (kv_run m (ops ++ ops')).1 = (kv_run m ops).1 ++ (kv_run (kv_run m ops).2 ops').1.
Proof.
  revert m. induction ops as [|op ops IH]; intros m; [done|]. cbn. destruct (kv_step m op) as [x m1]. specialize (IH m1).
  destruct (kv_run m1 (ops ++ ops')) as [xs m2], (kv_run m1 ops) as [ys m3]. cbn in *. by rewrite IH.
Qed.

#[global] Instance kv_run_proper : Proper (pointwise_relation _ eq ==> eq ==> pointwise_relation _ eq) (fun m ops => (kv_run m ops).2).
Proof.
  intros m m' Hm ops ? <-. revert m m' Hm. induction ops as [|op ops IH]; intros m m' Hm; [done|].
  rewrite !kv_run_cons. apply IH. by apply kv_step_proper.
Qed.

(** The keys a sequence of calls writes *)
Fixpoint written_keys (ops : list Op) : list (list byte) :=
  match ops with
  | [] => []
  | (OpPut k _ | OpUpdate k _ | OpDelete k) :: ops' => k :: written_keys ops'
  | OpGet _ :: ops' => written_keys ops'
  end.

(** The entries [ws] are what the calls added to the log. *)
Record logged (ops : list Op) s s' (ws : list ValueLogEntry) : Prop := {
  wo_only : log_only s s';
  wo_map m k : log_map m ws k = (kv_run m ops).2 k;
  wo_keys : vle_key <$> ws = written_keys ops;
  wo_time : Forall (fun e => exists n, (w_ticks (ds_world s) <= n < w_ticks (ds_world s'))%nat /\ vle_created_at e = clock n) ws;
  wo_ticks : (w_ticks (ds_world s) <= w_ticks (ds_world s') <= w_ticks (ds_world s) + 8 * length ops)%nat;
}.

Lemma logged_nil s : logged [] s s [].
Proof. split; [by apply log_only_same|done|done|done|lia]. Qed.

Lemma logged_app ops ops' s1 s2 s3 ws ws' :
  logged ops s1 s2 ws -> logged ops' s2 s3 ws' -> logged (ops ++ ops') s1 s3 (ws ++ ws').
Proof.
  intros [A1 A2 A3 A4 A5] [B1 B2 B3 B4 B5]. split.
  - by eapply log_only_trans.
  - intros m k. unfold log_map. rewrite fold_left_app, kv_run_app. fold (log_map m ws). fold (log_map (log_map m ws) ws').
    rewrite B2. apply (kv_run_proper _ _ (A2 m) _ _ eq_refl).
  - rewrite fmap_app, A3, B3. clear. induction ops as [|[] ops IH]; cbn; by rewrite ?IH.
  - apply Forall_app. split; eapply Forall_impl; [exact A4| |exact B4|]; intros e (n & Hn & ->); exists n; (split; [lia|done]).
  - rewrite length_app. lia.
Qed.

Lemma searched_represents s es tabs m s0 : represents s es tabs m -> searched s tabs s0 -> represents s0 es tabs m.
Proof.
  intros [Hi Hm] Hs. split; [by eapply searched_inv|]. intros k Hk. unfold store_view. rewrite (searched_hit N s es tabs s0) by done. by apply Hm.
Qed.

(** What a call did to the store *)
Definition put_trace_of s es tabs (k val : list byte) s' tabs' : Prop := exists s1, prepared s tabs s1 tabs' /\ store_inv N s1 es tabs' /\ wrote s1 es tabs' k val s'.

Definition op_trace (op : Op) s es tabs s' tabs' : Prop :=
  match op with
  | OpPut k val | OpUpdate k val => put_trace_of s es tabs k val s' tabs'
  | OpDelete k => put_trace_of s es tabs k TOMB_STONE_MARKER s' tabs'
  | OpGet _ => searched s tabs s' /\ tabs' = tabs
  end.

(** A write after a read *)
Lemma represents_put s es tabs m s0 k val op :
  orderly N -> represents s es tabs m -> searched s tabs s0 -> (w_ticks (ds_world s) + 9 <= N)%nat -> writable k val ->
  (forall m0, kv_step m0 op = (RDone true, kv_put m0 k val)) -> written_keys [op] = [k] ->
  let ws := [log_entry k val (clock (w_ticks (ds_world s)))] in
  exists s' tabs', store_put k val s0 = (Ok true, s') /\ represents s' (es ++ ws) tabs' (kv_put m k val) /\ logged [op] s s' ws /\
    put_trace_of s es tabs k val s' tabs'.
Proof.
  intros Ho Hr Hs HN Hw Hop Hkey ws. destruct (searched_represents _ _ _ _ _ Hr Hs) as [Hi Hm].
  destruct (searched_world _ _ _ Hs) as [Hg [= E1 E2 E3 E4 E5]]. pose proof (hx_ticks _ _ Hg) as Htk.
  destruct (put_view_run s0 es tabs k val Ho Hi ltac:(lia) Hw) as (s' & tabs' & E & Hi' & Hlo & Ht & Hv & Hre & Hi1 & Htr). rewrite Htk in *.
  exists s', tabs'. split; [done|]. split; [split; [done|]|split; [split; try done|]].
  - intros k' Hk'. rewrite Hv by done. unfold kv_put, written. destruct (decide (k' = k)); [by case_decide|by apply Hm].
  - eapply log_only_trans; [|exact Hlo]. apply log_only_same; [by rewrite E3|apply Hg].
  - intros m0 k'. rewrite kv_run_cons, Hop. apply log_step_put.
  - constructor; [|done]. exists (w_ticks (ds_world s)). split; [lia|done].
  - cbn. lia.
  - exists (refreshed s0). split; [by exists s0|done].
Qed.

(** The log entries of a call at a time *)
Definition op_entries (op : Op) (t : DateTime) : list ValueLogEntry :=
  match op with
  | OpPut k val | OpUpdate k val => [log_entry k val t]
  | OpDelete k => [log_entry k TOMB_STONE_MARKER t]
  | OpGet _ => []
  end.

Lemma exec_run s es tabs m op :
  orderly N -> represents s es tabs m -> (w_ticks (ds_world s) + 9 <= N)%nat -> op_ok op ->
  let ws := op_entries op (clock (w_ticks (ds_world s))) in
  exists s' tabs', exec op s = (Ok (kv_step m op).1, s') /\ represents s' (es ++ ws) tabs' (kv_step m op).2 /\ logged [op] s s' ws /\
    op_trace op s es tabs s' tabs'.
Proof.
  intros Ho Hr HN Hop. destruct op as [k val|k val|k|k]; destruct Hop as [Hw Hk]; cbn [exec kv_step fst snd op_entries].
  - destruct (represents_put s es tabs m s k val (OpPut k val) Ho Hr (searched_refl _ _) HN Hw) as (s' & tabs' & E & R); [done..|]. exists s', tabs'. by run E.
  - destruct (store_get_run N s es tabs k (proj1 Hr) (validate_key _ _ (wr_size _ _ Hw)) Hk) as (s0 & E0 & Hs & _).
    destruct (represents_put s es tabs m s0 k val (OpUpdate k val) Ho Hr Hs HN Hw) as (s' & tabs' & E & R); [done..|]. exists s', tabs'.
    unfold store_update. rewrite (wr_size _ _ Hw). erewrite io_step; [split; [reflexivity|exact R]|]. run_simpl. run E0. exact E.
  - destruct (store_get_run N s es tabs k (proj1 Hr) Hw Hk) as (s0 & E0 & Hs & _).
    destruct (represents_put s es tabs m s0 k _ (OpDelete k) Ho Hr Hs HN (tombstone_writable k Hw)) as (s' & tabs' & E & R); [done..|].
    exists s', tabs'. unfold store_delete. rewrite Hw. erewrite io_step; [split; [reflexivity|exact R]|]. run_simpl. run E0. exact E.
  - destruct (store_get_run N s es tabs k (proj1 Hr) Hw Hk) as (s0 & E0 & Hs & _). exists s0, tabs. rewrite app_nil_r. run E0. cbn. rewrite (proj2 Hr) by done.
    destruct (searched_world _ _ _ Hs) as [Hg [= E1 E2 E3 E4 E5]]. pose proof (hx_ticks _ _ Hg) as Htk.
    split; [done|]. split; [by eapply searched_represents|]. split; [|done]. split; [|done|done|done|cbn; lia].
    apply log_only_same; [by rewrite E3|apply Hg].
Qed.

Lemma exec_all_run ops s es tabs m :
  orderly N -> represents s es tabs m -> (w_ticks (ds_world s) + 8 * length ops + 1 <= N)%nat -> Forall op_ok ops ->
  exists s' tabs' ws, exec_all ops s = (Ok (kv_run m ops).1, s') /\ represents s' (es ++ ws) tabs' (kv_run m ops).2 /\
    logged ops s s' ws /\ (tabs = [] -> tabs' = []).
Proof.
  intros Ho. revert s es tabs m. induction ops as [|op ops IH]; intros s es tabs m Hr HN Hops.
  { exists s, tabs, []. rewrite app_nil_r. split; [done|]. split; [done|]. split; [apply logged_nil|done]. }
  apply Forall_cons in Hops as [Hop Hops]. cbn [length] in HN.
  destruct (exec_run s es tabs m op Ho Hr ltac:(lia) Hop) as (s1 & tabs1 & E1 & R1 & L1 & Htr). set (ws1 := op_entries op _) in *.
  pose proof (wo_ticks _ _ _ _ L1) as T1. cbn [length] in T1.
  destruct (IH s1 (es ++ ws1) tabs1 (kv_step m op).2 R1 ltac:(lia) Hops) as (s2 & tabs2 & ws2 & E2 & R2 & L2 & Hn).
  exists s2, tabs2, (ws1 ++ ws2). rewrite app_assoc. split; [|split; [|split; [exact (logged_app [op] ops _ _ _ _ _ L1 L2)|]]].
  - cbn [exec_all kv_run]. run E1. run E2. destruct (kv_step m op) as [r m1]. cbn [fst snd] in *.
    by destruct (kv_run m1 ops).
  - by rewrite kv_run_cons.
  - intros ->. apply Hn. destruct op; cbn in Htr; first [by destruct Htr as [_ ->]|destruct Htr as (s0 & (s00 & _ & _ & Hre) & _); by eapply retabled_nil].
Qed.

Lemma migrated_head_hit s s' es tabs a1 w1 :
  orderly N -> store_inv N s es tabs -> (w_ticks (ds_world s) + 8 <= N)%nat -> migrated s s' a1 w1 ->
  store_hit s' tabs HEAD_ENTRY_KEY = Some (hit_of (value_of (head_entry s))) /\
  best_hit (ro_hits (ds_world s') (read_only_memtables s') HEAD_ENTRY_KEY) = Some (hit_of (value_of (head_entry s))).
Proof.
  intros Ho Hi HN Hm. destruct (migrated_old N _ _ _ _ _ _ Ho Hi Hm) as [Hok Hl].
  destruct (migrated_active _ _ _ _ Hm) as (_ & Hnone & _). unfold store_hit, lookup_hit. rewrite Hnone.
  assert (best_hit (ro_hits (ds_world s') (read_only_memtables s') HEAD_ENTRY_KEY) = Some (hit_of (value_of (head_entry s)))) as ->; [|done].
  apply best_hit_strict.
  - cbn. apply (clock_positive _ Ho). lia.
  - apply ro_hits_elem. eexists _, _, _. rewrite (mg_ro _ _ _ _ Hm), sm_get_insert, decide_True by done.
    split; [done|]. by rewrite Hl, decide_True.
  - intros h' (id & t & x & Ht & Hx & ->)%ro_hits_elem. rewrite (mg_ro _ _ _ _ Hm), sm_get_insert in Ht.
    destruct (decide (id = _)); [injection Ht as <-; rewrite Hl, decide_True in Hx by done; injection Hx as <-; by left|].
    right. destruct (si_ro _ _ _ _ Hi _ _ Ht) as [_ Hap Hp _].
    rewrite (ext_lookup _ _ _ _ _ _ (migrated_ext _ _ _ _ Hm) Hap) in Hx. apply (Hp _ _ Hx). lia.
Qed.

(** ** Properties *)

(** [C4] The store is a map. From any state that satisfies the invariant, a
    sequence of [put], [update], [delete] and [get] calls on valid keys and
    values answers exactly as a key-value map does, and ends in a state that
    represents the map's final contents; memtables that fill up on the way are
    moved to the read-only list without a visible effect. *)
Theorem store_refines_map ops s es tabs m :
  orderly N -> represents s es tabs m -> (w_ticks (ds_world s) + 8 * length ops + 1 <= N)%nat -> Forall op_ok ops ->
  exists s' es' tabs', exec_all ops s = (Ok (kv_run m ops).1, s') /\ represents s' es' tabs' (kv_run m ops).2.
Proof.
  intros Ho Hr HN Hops. destruct (exec_all_run ops s es tabs m Ho Hr HN Hops) as (s' & tabs' & ws & E & R & _). by eexists s', _, tabs'.
Qed.


(** [C5] [DataStore::put] keeps the invariant, makes the value readable under its
    key with the time of the call (the value ["*"] makes the key absent), and
    leaves every other key as it was, also when the active memtable is full. *)
Theorem store_put_view s es tabs k val :
  orderly N -> store_inv N s es tabs -> (w_ticks (ds_world s) + 9 <= N)%nat -> writable k val ->
  exists s' es' tabs', store_put k val s = (Ok true, s') /\ store_inv N s' es' tabs' /\ tabs'.*2 ≡ₚ tabs.*2 /\
    (forall k', k' <> HEAD_ENTRY_KEY -> store_view s' es' tabs' k' =
       if decide (k' = k) then written val (clock (w_ticks (ds_world s))) else store_view s es tabs k').
Proof.
  intros Ho Hi HN Hw. destruct (put_view_run s es tabs k val Ho Hi HN Hw) as (s' & tabs' & E & Hi' & _ & _ & Hv & Hre & _).
  eexists s', _, tabs'. split; [done|]. split; [done|]. split; [apply Hre|done].
Qed.

(** [C33] Moving the active memtable stores the log head under the key ["head"],
    which clients may use too: afterwards [get("head")] returns the value
    written last, whatever the client stored there. *)
Theorem migrate_shadows_head s es tabs e :
  orderly N -> store_inv N s es tabs -> (w_ticks (ds_world s) + 8 <= N)%nat ->
  entry_at es (get_most_recent_offset (active_memtable s)) = Some e -> vle_is_tombstone e = false ->
  exists s' s'', migrate_memtable_to_read_only s = (Ok tt, s') /\ store_get HEAD_ENTRY_KEY s' =
    (Ok (Some (mkUserEntry (vle_value e) (clock (Datatypes.S (w_ticks (ds_world s)))))), s'').
Proof.
  intros Ho Hi HN He Ht. destruct (migrate_run s (si_active _ _ _ _ Hi) (si_config _ _ _ _ Hi)) as (s' & a1 & w1 & E & Hm).
  pose proof (migrated_head_hit _ _ _ _ _ _ Ho Hi HN Hm) as [Hh Hro]. exists s'.
  destruct (store_get_hit N s' es tabs HEAD_ENTRY_KEY) as (s'' & G & _); [by eapply migrated_inv|done| | |].
  - intros _ E0. by rewrite Hro in E0.
  - rewrite Hh. intros h [= <-] _. by exists e.
  - exists s''. split; [done|]. rewrite G. unfold store_view. rewrite Hh. unfold read_hit. cbn. by rewrite He; cbn; rewrite Ht.
Qed.

(** [C21] [put] refuses an empty or over-long key or value with the matching error
    and changes nothing. On a value that is not UTF-8 it panics; nothing is logged
    then, and the state differs only by the restored ranges it had put into the
    index before. *)
Theorem store_put_rejects s es tabs k val :
  store_inv N s es tabs ->
  (k = [] -> store_put k val s = (Err KeySizeNone, s)) /\
  (zlen k > MAX_KEY_SIZE -> store_put k val s = (Err KeyMaxSizeExceeded, s)) /\
  (k <> [] -> zlen k <= MAX_KEY_SIZE -> val = [] -> store_put k val s = (Err ValueSizeNone, s)) /\
  (k <> [] -> zlen k <= MAX_KEY_SIZE -> zlen val > MAX_VALUE_SIZE -> store_put k val s = (Err ValMaxSizeExceeded, s)) /\
  (validate_size k (Some val) = Ok tt -> utf8_valid val = false -> store_put k val s = (Panic, refreshed s)).
Proof.
  intros Hi. unfold store_put. repeat split.
  - by intros ->.
  - intros Hk. unfold validate_size. destruct (decide (k = [])) as [->|]; [done|]. by rewrite decide_True.
  - intros Hk Hl ->. unfold validate_size. by rewrite !decide_False by (done || lia).
  - intros Hk Hl Hv. unfold validate_size. rewrite !(decide_False (P := _ = [])), decide_False by (done || lia).
    rewrite decide_False, decide_True by (done || (intros ->; done)). done.
  - intros Hv Hu. rewrite Hv, Hu. run_simpl. run_simpl. erewrite io_step by (by apply in_world_pure).
    rewrite (si_gc _ _ _ _ Hi). run_simpl. by run (update_ranges_run s).
Qed.

(** [with_write_buffer_size] has no effect on an open store: writes before
    and after the call behave the same, memtables keep the capacity they were
    opened with. *)
Theorem write_buffer_size_ignored n s k val :
  n >= 50 ->
  store_put k val (set_write_buffer_size n s) = ((store_put k val s).1, set_write_buffer_size n (store_put k val s).2).
Proof. intros Hn. by apply commutes_put. Qed.
End clients.

(** ** Witnesses *)
Section store_witnesses.
#[local] Existing Instance demo_platform.
#[local] Existing Instance demo_env.
#[local] Existing Instance sorted_list_skipmap.

Lemma demo_orderly : orderly 1000.
Proof.
  split.
  - intros n Hn. cbn. unfold default_datetime. lia.
  - intros n m Hn. cbn. lia.
  - intros n m Hn E. change (to_le 8 (Z.of_nat m) = to_le 8 (Z.of_nat n)) in E. apply (f_equal from_le) in E. rewrite !from_to_le_8 in E by (unfold is_u64; lia). lia.
Qed.

(** An open store with an empty log: the active memtable on locations 0 and 1,
    the collected entries on 2. *)
Definition demo_log_node : FileNode := mkFileNode ["v_log"%string; "val_log.bin"%string] 0 FValueLog.
Definition demo_store_world : World slist :=
  mkWorld (mkFS {[ 0%nat := [] ]} {[ file_path demo_log_node := 0%nat ]} {[ []; ["v_log"%string] ]} 1)
    {[ 0%nat := sm_new; 2%nat := sm_new ]} {[ 1%nat := replicate 16 true ]} 3 0.
Definition demo_active (capacity : Z) : MemTable :=
  mkMem 0 (mkBF None 3 1 1 0 None) 0 0 false (entry_new [] 0 0 false) (mkMemConfig 0 capacity Bytes).
Definition demo_config (limit : Z) : Config :=
  mkConfig 0 true 10 1000 limit false 0 0 0 0 0 STCS 0 1000 900.
Definition demo_store (capacity limit : Z) : DataStore slist :=
  mkDS (mkDb demo_store_world (mkBucketMap ["buckets"%string] []) key_range_new) (demo_active capacity)
    (mkVLog demo_log_node 0 0 0) (mkMeta (mkFileNode ["meta.bin"%string] 1 FMeta) 0 0 0 0) sm_new 2 ∅ 0
    (mkVLog demo_log_node 0 0 0) (mkPunch 0 0) ∅ (demo_config limit) false [] 0 1000.

Lemma demo_lookup capacity limit k : mem_lookup (ds_world (demo_store capacity limit)) (demo_active capacity) k = None.
Proof. done. Qed.

Lemma demo_store_inv capacity limit :
  100 <= capacity < 2 ^ 32 -> store_inv 1000 (demo_store capacity limit) [] [].
Proof.
  intros Hc. split; try done.
  - cbn. lia.
  - split; [by right; vm_compute|]. intros k [? E]. done.
  - cbn. lia.
  - split; [done|cbn; lia|]. unfold max_no_of_entries.
    cbn [demo_store active_memtable demo_active mt_config size_unit mt_capacity as_bytes]. split; [apply Z.div_str_pos; lia|apply Z.div_lt_upper_bound; lia].
Qed.

Lemma demo_represents capacity limit :
  100 <= capacity < 2 ^ 32 -> represents 1000 (demo_store capacity limit) [] [] (fun _ => None).
Proof. intros Hc. split; [by apply demo_store_inv|done]. Qed.

(** Enough writes to fill the active memtable *)
Definition demo_ops : list Op :=
  [OpPut [x61] [x31]] ++ replicate 7 (OpPut [x62] [x32]) ++
  [OpGet [x61]; OpUpdate [x61] [x33]; OpGet [x61]; OpDelete [x61]; OpGet [x61]; OpGet [x62]].

Lemma demo_ops_ok : Forall op_ok demo_ops.
Proof. repeat constructor; done. Qed.

Lemma store_refines_map_witness :
  exists s' es' tabs', exec_all demo_ops (demo_store 100 2) =
    (Ok (replicate 8 (RDone true) ++ [RVal (Some [x31]); RDone true; RVal (Some [x33]); RDone true; RVal None; RVal (Some [x32])]), s') /\
    represents 1000 s' es' tabs' (kv_run (fun _ => None) demo_ops).2.
Proof.
  destruct (store_refines_map 1000 demo_ops (demo_store 100 2) [] [] (fun _ => None) demo_orderly) as (s' & es' & tabs' & E & R).
  - by apply demo_represents.
  - cbn. lia.
  - exact demo_ops_ok.
  - exists s', es', tabs'. split; [exact E|exact R].
Defined.

(** The store after some writes, in the middle of a history. *)
Definition demo_written : DataStore slist := (exec_all (take 8 demo_ops) (demo_store 100 2)).2.

Lemma demo_written_inv : exists es, represents 1000 demo_written es [] (kv_run (fun _ => None) (take 8 demo_ops)).2.
Proof.
  destruct (exec_all_run 1000 (take 8 demo_ops) (demo_store 100 2) [] [] (fun _ => None) demo_orderly) as (s' & tabs' & ws & E & R & _ & Hn).
  - by apply demo_represents.
  - cbn. lia.
  - apply Forall_take, demo_ops_ok.
  - rewrite Hn in R by done. exists ws. unfold demo_written. rewrite E. exact R.
Qed.

Lemma demo_key_valid : validate_size [x61] None = Ok tt.
Proof. reflexivity. Qed.


Lemma demo_writable : writable [x61] [x39].
Proof. by split. Qed.

Lemma store_put_view_witness :
  exists s' es' tabs', store_put [x61] [x39] (demo_store 100 2) = (Ok true, s') /\
    store_view s' es' tabs' [x61] = Some (mkUserEntry [x39] 1700000000000000000).
Proof.
  destruct (store_put_view 1000 (demo_store 100 2) [] [] [x61] [x39] demo_orderly) as (s' & es' & tabs' & E & _ & _ & Hv).
  - by apply demo_store_inv.
  - cbn. lia.
  - exact demo_writable.
  - exists s', es', tabs'. split; [exact E|exact (Hv [x61] ltac:(done))].
Defined.

Lemma store_put_rejects_witness :
  store_put [] [x31] (demo_store 100 2) = (Err KeySizeNone, demo_store 100 2) /\
  store_put [x61] [xff] (demo_store 100 2) = (Panic, demo_store 100 2).
Proof.
  split.
  - by apply (store_put_rejects 1000 (demo_store 100 2) [] [] [] [x31] (demo_store_inv 100 2 ltac:(lia))).
  - by apply (store_put_rejects 1000 (demo_store 100 2) [] [] [x61] [xff] (demo_store_inv 100 2 ltac:(lia))).
Defined.


(** A client value under the reserved key, then another write. *)
Definition demo_head1 : DataStore slist := (store_put HEAD_ENTRY_KEY [x38] (demo_store 100 2)).2.
Definition demo_head2 : DataStore slist := (store_put [x61] [x39] demo_head1).2.
Definition demo_head_log : list ValueLogEntry :=
  [log_entry HEAD_ENTRY_KEY [x38] 1700000000000000000; log_entry [x61] [x39] 1700000000001000000].

Lemma demo_head_inv : store_inv 1000 demo_head2 demo_head_log [].
Proof.
  destruct (store_put_run 1000 (demo_store 100 2) [] [] HEAD_ENTRY_KEY [x38] demo_orderly) as (s1 & tabs1 & E1 & I1 & T1 & _ & _ & R1 & _);
    [by apply demo_store_inv|cbn; lia|by split|]. apply retabled_nil in R1 as ->.
  destruct (store_put_run 1000 s1 _ [] [x61] [x39] demo_orderly I1) as (s2 & tabs2 & E2 & I2 & _ & _ & _ & R2 & _); [cbn in T1; lia|by split|].
  apply retabled_nil in R2 as ->.
  assert (s1 = demo_head1) as -> by (unfold demo_head1; by rewrite E1).
  assert (s2 = demo_head2) as -> by (unfold demo_head2; by rewrite E2). exact I2.
Qed.

Lemma migrate_shadows_head_witness :
  exists s' s'', migrate_memtable_to_read_only demo_head2 = (Ok tt, s') /\
    store_get HEAD_ENTRY_KEY s' = (Ok (Some (mkUserEntry [x39] 1700000000003000000)), s'').
Proof.
  destruct (migrate_shadows_head 1000 demo_head2 demo_head_log [] (log_entry [x61] [x39] 1700000000001000000)
    demo_orderly demo_head_inv) as (s' & s'' & E & G).
  - apply Nat.leb_le. by vm_compute.
  - by vm_compute.
  - reflexivity.
  - exists s', s''. split; [exact E|]. etransitivity; [exact G|]. by vm_compute.
Defined.

Lemma write_buffer_size_ignored_witness :
  store_put [x61] [x31] (set_write_buffer_size 100 (demo_store 100 2)) =
  ((store_put [x61] [x31] (demo_store 100 2)).1, set_write_buffer_size 100 (store_put [x61] [x31] (demo_store 100 2)).2).
Proof. apply (write_buffer_size_ignored 100 (demo_store 100 2) [x61] [x31]). lia. Defined.

(** Two full memtables, the newer with a newer value of the same key *)
Definition fill_table (k val : list byte) : list Op := OpPut k val :: replicate 5 (OpPut [x62] [x32]).
Definition two_full : DataStore slist :=
  (exec_all (fill_table [x61] [x31] ++ fill_table [x61] [x32] ++ [OpPut [x63] [x33]]) (demo_store 100 2)).2.

Definition pending_flushes (s : DataStore slist) : list Task :=
  List.filter (fun t => match t with TFlush _ _ => true | _ => false end) (tasks s).

End store_witnesses.
