(* ===== verification/RangeIterator.v ===== *)
(** * The range iterator ([src/range/range_iterator.rs])

    The code has the iterator's data and a [DataStore::seek] that creates one;
    moving the iterator is not implemented there. *)

From stdpp Require Import prelude gmap strings list.
From Stdlib Require Import Strings.Byte ZArith Lia.
From S2P Require Import Prelude Consts SkipMap FileIO Types World VLog MemTable Flush Config Store StoreInv StoreSpec.
Open Scope Z_scope.

Record FetchedEntry := mkFetched { fe_key : list byte; fe_val : list byte }.

Record RangeIterator := mkRangeIter {
  ri_start : list byte;
  ri_current : Z;
  ri_end : list byte;
  ri_allow_prefetch : bool;
  ri_prefetch_entries_size : Z;
  ri_prefetch_entries : list FetchedEntry;
  ri_keys : list Entry;
  ri_v_log : ValueLog;
}.

(** [RangeIterator::new] *)
Definition range_iterator_new (start stop : list byte) (allow_prefetch : bool) (prefetch_entries_size : Z)
    (keys : list Entry) (v_log : ValueLog) : RangeIterator :=
  mkRangeIter start 0 stop allow_prefetch prefetch_entries_size [] keys v_log.

Record Merger := mkMerger { mg_entries : list Entry }.
(** [Merger::new] *)
Definition merger_new : Merger := mkMerger [].

Section range.
Context `{Env} {M : Type -> Type} `{SkipMap M}.
Abbreviation S := (DataStore M).

(** [DataStore::seek]: the bounds asked for are not used *)
Definition store_seek (_ _ : list byte) : io S Error RangeIterator :=
  allow ← gets (fun s => cfg_allow_prefetch (ds_config s));
  size ← gets (fun s => cfg_prefetch_size (ds_config s));
  v_log ← gets val_log;
  mret (range_iterator_new [x01] [x02] allow size (mg_entries merger_new) v_log).

(** Whatever the client stored and asks for, the iterator has no keys and is
    over a range of the code's choice; the store is not changed. *)
Theorem seek_finds_nothing (ops : list Op) (start stop : list byte) (s : S) :
  exists it, store_seek start stop (exec_all ops s).2 = (Ok it, (exec_all ops s).2) /\
    ri_keys it = [] /\ ri_start it = [x01] /\ ri_end it = [x02].
Proof. eexists. split; [reflexivity|]. done. Qed.
End range.
