(* ===== verification/FlushSpec.v ===== *)
(** * Flushing keeps the map

    A flush task turns a read-only memtable into an SSTable while clients go on.
    Reads prefer memtables to SSTables and compare times within each, so the
    tables of a store must stay layered by age: SSTables below read-only
    memtables below the active one. [layered] states this per key, on times as
    the files keep them (in milliseconds), and [flush_task_flushed] and what
    follows it show that flushing the oldest read-only memtable keeps the layers
    and what a client sees. A new table needs a directory of its own, which is
    named by the millisecond ([fresh_dirs]). *)

From stdpp Require Import prelude gmap strings pretty list sorting.
From Stdlib Require Import Strings.Byte ZArith Lia.
From S2P Require Import Prelude Consts SkipMap FileIO Types World VLog Block Index Bloom SSTable Meta MemTable.
From S2P Require Import KeyRange RangeSearch Bucket Flush Compaction Config Store StoreInv StoreSpec.
Open Scope Z_scope.

(** A hit that another one beats does not count. *)
Lemma best_hit_drop hits hits' (h0 h1 : Hit) :
  hits ≡ₚ h0 :: hits' -> consistent hits -> h1 ∈ hits' -> h0.1.2 < h1.1.2 -> best_hit hits = best_hit hits'.
Proof.
  intros E Hc Hin1 Hlt. assert (consistent hits') as Hc'.
  { rewrite E in Hc. intros h h' Hh Hh'. apply Hc; by right. }
  apply best_hit_same; [done..|]. intros h _. unfold is_newest. setoid_rewrite E. setoid_rewrite elem_of_cons. split.
  - intros [[->|Hin] Hmax]; [|split; [done|auto]]. pose proof (Hmax h1 ltac:(by right)). lia.
  - intros [Hin Hmax]. split; [by right|]. intros h' [->|Hh']; [|auto]. pose proof (Hmax h1 Hin1). lia.
Qed.

Lemma trunc_ms_lt a b : trunc_ms a < trunc_ms b -> a < b.
Proof.
  unfold trunc_ms, timestamp_millis. intros Hlt. destruct (decide (a < b)); [done|].
  pose proof (Z.div_le_mono b a 1000000). lia.
Qed.

(** The time of a value as an SSTable keeps it *)
Definition stamp (v : SkipMapValue) : DateTime := trunc_ms (smv_created_at v).

(** What flushes need of their environment, for the first [N] readings: what the
    store needs, a clock past the first millisecond, and that no bucket id is
    drawn twice. *)
Record orderly_env `{Env} (N : nat) : Prop := {
  env_orderly : orderly N;
  env_start n : (n < N)%nat -> default_datetime < trunc_ms (clock n);
  env_uuids n m : (n < m < N)%nat -> new_uuid m <> new_uuid n;
}.

Lemma sst_dir_name_inj `{Env} t t' : sst_dir_name t = sst_dir_name t' -> trunc_ms t = trunc_ms t'.
Proof.
  unfold sst_dir_name. intros E%(inj (String.append "sstable_"))%(inj (pretty (A := Z))). unfold trunc_ms. by rewrite E.
Qed.

Lemma sst_dir_name_other `{Env} t : (sst_dir_name t ∉ table_files) /\ forall id, sst_dir_name t <> String.append "bucket" id.
Proof.
  unfold sst_dir_name, table_files. split; [|done].
  intros [E|[E|[E|[E|[]%not_elem_of_nil]%elem_of_cons]%elem_of_cons]%elem_of_cons]%elem_of_cons; discriminate E.
Qed.

(** *** Sorted lists *)
Lemma StronglySorted_mono {A} (R R' : relation A) l :
  (forall x y, x ∈ l -> y ∈ l -> R x y -> R' x y) -> StronglySorted R l -> StronglySorted R' l.
Proof.
  intros Himp. induction 1 as [|x l Hs IH Hf]; [constructor|]. constructor.
  - apply IH. intros y z Hy Hz. apply Himp; by right.
  - rewrite Forall_forall in *. intros y Hy. apply Himp; [left|by right|auto].
Qed.

Lemma StronglySorted_total {A} (R : relation A) l x y :
  StronglySorted R l -> x ∈ l -> y ∈ l -> x <> y -> R x y \/ R y x.
Proof.
  induction 1 as [|z l Hs IH Hf]; [by intros ?%not_elem_of_nil|]. rewrite Forall_forall in Hf.
  intros [->|Hx]%elem_of_cons [->|Hy]%elem_of_cons Hne; [done|left; auto|right; auto|auto].
Qed.

(** Values under different keys that differ in time *)
Lemma omap_consistent {K V} `{EqDecision K} (f : V -> option Hit) (l : list (K * V)) :
  NoDup l.*1 ->
  (forall i j x y h h', (i, x) ∈ l -> (j, y) ∈ l -> i <> j -> f x = Some h -> f y = Some h' -> h.1.2 <> h'.1.2) ->
  consistent (omap f l.*2).
Proof.
  intros Hnd Hdiff h h' (x & ([i x'] & -> & Hi)%list_elem_of_fmap & Hx)%list_elem_of_omap (y & ([j y'] & -> & Hj)%list_elem_of_fmap & Hy)%list_elem_of_omap E.
  cbn in *. destruct (decide (i = j)) as [->|Hne]; [|by destruct (Hdiff i j x' y' h h')].
  assert ((j, x') = (j, y')) as [= ->] by by eapply (NoDup_key_inj fst). congruence.
Qed.

(** Offsets of log entries lie in the log. *)
Lemma entry_at_bounds es o e : entry_at es o = Some e -> 0 <= o < zlen (log_bytes es).
Proof.
  revert o. induction es as [|e0 es IH]; intros o; [done|]. cbn [entry_at]. rewrite log_bytes_cons.
  pose proof (entry_bytes_eq e0). pose proof (zlen_nonneg (vle_key e0)). pose proof (zlen_nonneg (vle_value e0)).
  pose proof (zlen_nonneg (log_bytes es)). case_decide; [intros _; lia|]. intros Hx%IH. lia.
Qed.

Section layers.
Context `{Env} {M : Type -> Type} `{SkipMap M} (N : nat).
Abbreviation W := (World M).
Abbreviation S := (DataStore M).
Implicit Types (s : S) (w : W) (tabs : list (Range * M SkipMapValue)) (es : list ValueLogEntry).

(** [t] is older than [t']: it lost every key both have. *)
Definition older w (t t' : MemTable) : Prop :=
  forall k v v', k <> HEAD_ENTRY_KEY -> mem_lookup w t k = Some v -> mem_lookup w t' k = Some v' -> stamp v < stamp v'.

(** A memtable readers consult *)
Definition in_mem s (t : MemTable) : Prop := t = active_memtable s \/ exists id, sm_get id (read_only_memtables s) = Some t.

(** Times of a memtable are after the default date. *)
Definition stamped w (t : MemTable) : Prop := forall k v, mem_lookup w t k = Some v -> default_datetime < stamp v.

(** The read-only memtable under [i] is older than the one under [j]. *)
Definition ro_older s (i j : list byte) : Prop :=
  i <> j /\ forall t t', sm_get i (read_only_memtables s) = Some t -> sm_get j (read_only_memtables s) = Some t' ->
    older (ds_world s) t t' /\ mt_entries t <> mt_entries t'.

(** The store's tables, layered by age; [ids] lists the read-only memtables,
    oldest first. *)
Record layered s tabs (ids : list (list byte)) : Prop := {
  ly_ids id : id ∈ ids <-> is_Some (sm_get id (read_only_memtables s));
  ly_sorted : StronglySorted (ro_older s) ids;
  ly_active id t : sm_get id (read_only_memtables s) = Some t -> older (ds_world s) t (active_memtable s);
  ly_gc id t : sm_get id (read_only_memtables s) = Some t -> mt_entries t <> gc_updated_entries s;
  ly_stamped t : in_mem s t -> stamped (ds_world s) t;
  ly_tabs k (h : Hit) t v : k <> HEAD_ENTRY_KEY -> h ∈ sst_hits tabs k -> in_mem s t ->
    mem_lookup (ds_world s) t k = Some v -> h.1.2 < stamp v \/ h = found v;
  ly_distinct k : k <> HEAD_ENTRY_KEY -> consistent (sst_hits tabs k);
}.

(** The files: a well-formed bucket map, no bucket id of the future in use, and the
    files of the log and the tables allocated. *)
Record disk_ok s tabs : Prop := {
  dk_wf : bm_wf (ds_world s) (db_buckets (ds_db s));
  dk_ids n : (w_ticks (ds_world s) <= n < N)%nat -> im_get (new_uuid n) (buckets (db_buckets (ds_db s))) = None;
  dk_log : (file (vlog_file (val_log s)) < next_inode (w_fs (ds_world s)))%nat;
  dk_tabs : Forall (fun p : Range * M SkipMapValue =>
    (file (data_file (r_sst p.1)) < next_inode (w_fs (ds_world s)))%nat /\
    (file (index_file (r_sst p.1)) < next_inode (w_fs (ds_world s)))%nat) tabs;
}.

(** Until reading [b] every new table gets a directory of its own: no path and no
    range is named after the milliseconds to come, and two readings with another
    one between them, as those that name two tables are, fall in different
    milliseconds. *)
Record fresh_dirs (b : nat) (d : Db M) : Prop := {
  fn_free n : (w_ticks (db_world d) <= n < b)%nat -> name_free (db_world d) (db_buckets d) (sst_dir_name (clock n));
  fn_ranges n q : (w_ticks (db_world d) <= n < b)%nat -> is_Some (key_ranges (db_ranges d) !! q) -> sst_dir_name (clock n) ∉ q;
  fn_apart n n' : (w_ticks (db_world d) <= n)%nat -> (2 + n <= n' < b)%nat -> trunc_ms (clock n) <> trunc_ms (clock n');
}.

Lemma fresh_dirs_shorter b b' d : (b <= b')%nat -> fresh_dirs b' d -> fresh_dirs b d.
Proof.
  intros Hle [F1 F2 F3]. split.
  - intros n Hn. apply F1. lia.
  - intros n q Hn. apply F2. lia.
  - intros n n' Hn Hn'. apply F3; lia.
Qed.

(** Every path and range of a database, and a test of [fresh_dirs] *)
Definition used_paths (d : Db M) : list (list string) :=
  elements (dirs (w_fs (db_world d))) ++ (map_to_list (names (w_fs (db_world d)))).*1 ++ [bm_dir (db_buckets d)] ++
  ((fun p => bk_dir p.2) <$> buckets (db_buckets d)) ++ (map_to_list (key_ranges (db_ranges d))).*1.

Definition fresh_dirsb (b : nat) (d : Db M) : bool :=
  let ns := seq (w_ticks (db_world d)) (b - w_ticks (db_world d)) in
  forallb (fun n => forallb (fun q => bool_decide (sst_dir_name (clock n) ∉ q)) (used_paths d) &&
    forallb (fun n' => bool_decide (2 + n <= n' -> trunc_ms (clock n) <> trunc_ms (clock n'))%nat) ns) ns.

Lemma fresh_dirsb_spec b d : fresh_dirsb b d = true -> fresh_dirs b d.
Proof.
  unfold fresh_dirsb. rewrite forallb_forall. setoid_rewrite andb_true_iff. setoid_rewrite forallb_forall. setoid_rewrite bool_decide_eq_true.
  setoid_rewrite <- list_elem_of_In. setoid_rewrite elem_of_seq. intros Hall.
  assert (forall n q, (w_ticks (db_world d) <= n < b)%nat -> q ∈ used_paths d -> sst_dir_name (clock n) ∉ q) as Hq by (intros n q Hn; apply Hall; lia).
  unfold used_paths in Hq. repeat setoid_rewrite elem_of_app in Hq. split.
  - intros n Hn. split.
    + intros q [Hd|[i Hi]]%path_exists_spec; apply (Hq n q Hn); [left; by apply elem_of_elements|right; left].
      apply list_elem_of_fmap. exists (q, i). split; [done|by apply elem_of_map_to_list].
    + apply (Hq n _ Hn). do 2 right. left. by apply list_elem_of_singleton.
    + apply Forall_forall. intros p Hp. apply (Hq n _ Hn). do 3 right. left. apply list_elem_of_fmap. by exists p.
  - intros n q Hn [r Hr]. apply (Hq n q Hn). do 4 right. apply list_elem_of_fmap. exists (q, r). split; [done|by apply elem_of_map_to_list].
  - intros n n' Hn Hn'. apply (Hall n); lia.
Qed.

(** *** Removing a read-only memtable *)
Lemma ro_remove_perm id t (ro : M MemTable) :
  sm_get id ro = Some t -> sm_iter ro ≡ₚ (id, t) :: sm_iter (sm_remove id ro).
Proof.
  intros Ht. apply NoDup_Permutation.
  - apply sorted_keys_NoDup, sm_iter_sorted.
  - apply NoDup_cons. split; [|apply sorted_keys_NoDup, sm_iter_sorted]. rewrite sm_elem, sm_get_remove. by case_decide.
  - intros [i x]. rewrite elem_of_cons, !sm_elem, sm_get_remove. case_decide as E; [subst|naive_solver].
    rewrite Ht. naive_solver.
Qed.

Lemma ro_hits_remove w id t (ro : M MemTable) k :
  sm_get id ro = Some t ->
  ro_hits w ro k ≡ₚ match mem_lookup w t k with
    | Some v => hit_of v :: ro_hits w (sm_remove id ro) k
    | None => ro_hits w (sm_remove id ro) k
    end.
Proof.
  intros Ht. unfold ro_hits. rewrite (ro_remove_perm id t ro Ht). cbn. by destruct (mem_lookup w t k).
Qed.

(** *** What a successful flush task does *)
Record flushed s (id : list byte) (t : MemTable) tabs s' tabs' (r : Range) : Prop := {
  fd_state : s' = with_flush (with_read_only (with_db s (ds_db s')) (sm_remove id (read_only_memtables s))) (flush_stream s) true;
  fd_next : (w_next (ds_world s) <= w_next (ds_world s'))%nat;
  fd_ticks : (w_ticks (ds_world s) < w_ticks (ds_world s') <= 3 + w_ticks (ds_world s))%nat;
  fd_maps l : (l < w_next (ds_world s))%nat -> l <> mt_entries t -> the_map (ds_world s') l = the_map (ds_world s) l;
  fd_empty : the_map (ds_world s') (mt_entries t) = sm_new;
  fd_bits l : the_bits (ds_world s') l = the_bits (ds_world s) l;
  fd_content j : (j < next_inode (w_fs (ds_world s)))%nat -> content (w_fs (ds_world s')) j = content (w_fs (ds_world s)) j;
  fd_inodes : (next_inode (w_fs (ds_world s)) <= next_inode (w_fs (ds_world s')))%nat;
  fd_names p i : names (w_fs (ds_world s)) !! p = Some i -> names (w_fs (ds_world s')) !! p = Some i;
  fd_live : live_range (ds_world s') r (the_map (ds_world s) (mt_entries t));
  fd_holds : table_holds (ds_world s') (r_sst r) (the_map (ds_world s) (mt_entries t));
  fd_filter f : t_filter (r_sst r) = Some f -> bit_vec f = bit_vec (bloom_filter t);
  fd_data : (next_inode (w_fs (ds_world s)) <= file (data_file (r_sst r)) < next_inode (w_fs (ds_world s')))%nat;
  fd_idx : (next_inode (w_fs (ds_world s)) <= file (index_file (r_sst r)) < next_inode (w_fs (ds_world s')))%nat;
  fd_tabs : tabs' ≡ₚ (r, the_map (ds_world s) (mt_entries t)) :: tabs;
  fd_index : tabs'.*1 = (hm_iter (key_ranges (db_ranges (ds_db s')))).*2;
  fd_ranges : key_ranges (db_ranges (ds_db s')) = <[t_dir (r_sst r) := r]> (key_ranges (db_ranges (ds_db s)));
  fd_restored : restored_ranges (db_ranges (ds_db s')) = restored_ranges (db_ranges (ds_db s));
  fd_inserted : exists sst w1, w_fs (ds_world s') = w_fs w1 /\
    inserted (ds_world s) (db_buckets (ds_db s)) (mt_entries t) (bloom_filter t) (the_map (ds_world s) (mt_entries t)) sst (db_buckets (ds_db s')) w1;
}.

(** Directory names to come are no names of this insertion. *)
Lemma future_name w w' bm bm' l f m t b d n :
  inserted w bm l f m t bm' w' -> db_world d = w -> fresh_dirs b d -> (w_ticks w' <= n < b)%nat -> other_name w' (sst_dir_name (clock n)).
Proof.
  intros Hins Ew Hfr Hn. destruct (sst_dir_name_other (clock n)) as [Hf Hb]. do 2 (split; [done|]). intros n' Hn' E%sst_dir_name_inj.
  destruct (is_made _ _ _ _ _ _ _ _ Hins) as (p & n0 & _ & Hx0 & Hx1). apply (fn_apart _ _ Hfr n' n); rewrite ?Ew; [lia|lia|done].
Qed.

(** An insertion leaves the names to come free. *)
Lemma fresh_dirs_insert b d l f m sst bm' w' m' r rest :
  inserted (db_world d) (db_buckets d) l f m sst bm' w' -> fresh_dirs b d ->
  fresh_dirs b (mkDb (put_map w' l m') bm' (mkKeyRange (<[t_dir sst := r]> (key_ranges (db_ranges d))) rest)).
Proof.
  intros Hins Hfr. pose proof (is_ticks _ _ _ _ _ _ _ _ Hins) as Htk.
  assert (forall n, (w_ticks w' <= n < b)%nat -> name_free w' bm' (sst_dir_name (clock n))) as Hfree.
  { intros n Hn. apply (is_free _ _ _ _ _ _ _ _ Hins); [|by eapply future_name]. apply (fn_free _ _ Hfr). lia. }
  split; cbn.
  - intros n Hn. by destruct (Hfree n Hn).
  - intros n q Hn Hq. destruct (decide (q = t_dir sst)) as [->|Hne].
    + apply (nf_paths _ _ _ (Hfree n Hn)), path_exists_spec. left. destruct (is_made _ _ _ _ _ _ _ _ Hins) as (p & n0 & Hmd & _).
      rewrite (md_dir _ _ _ _ _ _ _ Hmd). apply Hmd.
    + rewrite lookup_insert_ne in Hq by done. apply (fn_ranges _ _ Hfr n); [lia|done].
  - intros n n' Hn Hn'. apply (fn_apart _ _ Hfr); lia.
Qed.

(** The directory of the new table was in no range. *)
Lemma insert_new_range d l f m sst bm' w' :
  inserted (db_world d) (db_buckets d) l f m sst bm' w' -> fresh_dirs (2 + w_ticks (db_world d)) d -> key_ranges (db_ranges d) !! t_dir sst = None.
Proof.
  intros Hins Hfr. destruct (is_made _ _ _ _ _ _ _ _ Hins) as (p & n & Hmd & Hn & _). destruct (key_ranges _ !! t_dir sst) eqn:Ek; [|done]. exfalso.
  apply (fn_ranges _ _ Hfr n (t_dir sst)); [lia|by eexists|]. rewrite (md_dir _ _ _ _ _ _ _ Hmd). apply elem_of_app. right. by apply list_elem_of_singleton.
Qed.

Lemma fresh_can_insert d :
  bm_wf (db_world d) (db_buckets d) -> im_get (new_uuid (w_ticks (db_world d))) (buckets (db_buckets d)) = None ->
  fresh_dirs (2 + w_ticks (db_world d)) d -> can_insert d.
Proof. intros Hwf Hid Hfr. split; [done| |done]. intros p n Hn. eapply name_free_path, (fn_free _ _ Hfr n). lia. Qed.

Lemma disk_can_insert s tabs :
  disk_ok s tabs -> (w_ticks (ds_world s) + 4 <= N)%nat -> fresh_dirs (2 + w_ticks (ds_world s)) (ds_db s) -> can_insert (ds_db s).
Proof. intros Hd HN Hfr. apply fresh_can_insert; [apply Hd| |done]. apply (dk_ids _ _ Hd). unfold ds_world in *. lia. Qed.

(** The index lists one more range. *)
Lemma index_insert (kr : gmap (list string) Range) d r tabs m :
  kr !! d = None -> tabs.*1 = (hm_iter kr).*2 ->
  exists tabs', tabs' ≡ₚ (r, m) :: tabs /\ tabs'.*1 = (hm_iter (<[d := r]> kr)).*2.
Proof.
  intros Hd Hi. destruct (Permutation_map_inv fst (l1 := (hm_iter (<[d := r]> kr)).*2) ((r, m) :: tabs)) as (tabs' & E & P).
  - change (map fst ((r, m) :: tabs)) with (r :: tabs.*1). rewrite Hi. unfold hm_iter.
    rewrite !hash_iter_perm, map_to_list_insert by done. done.
  - exists tabs'. by split.
Qed.

Lemma flush_task_flushed s es tabs id t :
  orderly_env N -> store_inv N s es tabs -> disk_ok s tabs -> (w_ticks (ds_world s) + 4 <= N)%nat ->
  fresh_dirs (2 + w_ticks (ds_world s)) (ds_db s) ->
  sm_get id (read_only_memtables s) = Some t -> storable (the_map (ds_world s) (mt_entries t)) ->
  exists s' tabs' r, run_task (TFlush id t) s = (Ok tt, s') /\ flushed s id t tabs s' tabs' r /\ disk_ok s' tabs' /\
    forall b, fresh_dirs b (ds_db s) -> fresh_dirs b (ds_db s').
Proof.
  intros Ho Hi Hd HN Hfr Ht Hst. destruct (si_ro _ _ _ _ Hi _ _ Ht) as [Hinv Hap _ _].
  destruct (flush_run t (ds_db s) (disk_can_insert _ _ Hd HN Hfr) (ma_entries_lt _ _ _ Hap) Hst)
    as (sst & bm' & w' & sm & E & Hins & Hb).
  pose proof Hins as [(p & n & Hmd & Hn & _) Hwf _ _ _ Hids Htk]. fold (ds_world s) in *.
  set (r := mkRangeEntry (smallest_key sm) (biggest_key sm) sst) in *.
  pose proof (insert_new_range (ds_db s) _ _ _ _ _ _ Hins Hfr) as Hfresh.
  destruct (index_insert _ (t_dir sst) r tabs (the_map (ds_world s) (mt_entries t)) Hfresh (ix_tabs _ _ _ (si_index _ _ _ _ Hi))) as (tabs' & P & Hx).
  pose proof (wf_inode _ (md_wf _ _ _ _ _ _ _ Hmd) _ _ (md_named _ _ _ _ _ _ _ Hmd)) as Hdn.
  pose proof (md_new_inode _ _ _ _ _ _ _ Hmd). pose proof (md_inodes _ _ _ _ _ _ _ Hmd) as Hin.
  eexists _, tabs', r. split; [unfold run_task, in_db; rewrite E; reflexivity|]. split; [split|split; [split|]]; cbn; fold (ds_world s); try done; try lia.
  - apply Hmd.
  - intros l Hl Hne. rewrite the_map_put, decide_False by done. by apply Hmd.
  - by rewrite the_map_put, decide_True.
  - apply Hmd.
  - apply Hmd.
  - apply Hmd.
  - by eapply flushed_range_live.
  - apply table_holds_put_map, Hmd.
  - intros f Hf. destruct (md_filter _ _ _ _ _ _ _ Hmd) as (g & Hg & Hgb & _). congruence.
  - split; apply Hmd.
  - by exists sst, w'.
  - by destruct Hwf.
  - intros n' Hn'. cbn in Hn'. apply Hids; [apply (dk_ids _ _ Hd); lia|]. apply (env_uuids _ Ho). lia.
  - pose proof (dk_log _ _ Hd). lia.
  - rewrite P. constructor; [cbn; split; [lia|apply Hmd]|]. eapply Forall_impl; [apply (dk_tabs _ _ Hd)|]. intros q. cbn. lia.
  - intros b. by eapply fresh_dirs_insert.
Qed.

(** *** Reading after a flush *)
Lemma sorted_keys_fst_NoDup {V} (m : M V) : NoDup (sm_iter m).*1.
Proof.
  pose proof (sm_iter_sorted m) as Hs. unfold sorted_keys in Hs. induction Hs as [|k l Hs IH Hf]; constructor; [|done].
  rewrite Forall_forall in Hf. intros Hk%Hf. by eapply key_lt_irrefl.
Qed.

Lemma older_times w t t' k v v' :
  older w t t' -> k <> HEAD_ENTRY_KEY -> mem_lookup w t k = Some v -> mem_lookup w t' k = Some v' ->
  smv_created_at v < smv_created_at v'.
Proof. intros Ho Hk Hv Hv'. by apply trunc_ms_lt, (Ho k). Qed.

Lemma ro_consistent s tabs ids k :
  layered s tabs ids -> k <> HEAD_ENTRY_KEY -> consistent (ro_hits (ds_world s) (read_only_memtables s) k).
Proof.
  intros Hl Hk. unfold ro_hits. apply omap_consistent; [apply sorted_keys_fst_NoDup|].
  intros i j x y h h' Hi%sm_elem Hj%sm_elem Hne (v & Hv & ->)%fmap_Some (v' & Hv' & ->)%fmap_Some.
  destruct (StronglySorted_total _ _ i j (ly_sorted _ _ _ Hl)) as [[_ Ho]|[_ Ho]]; [by apply (ly_ids _ _ _ Hl); eexists..|done| |].
  - destruct (Ho _ _ Hi Hj) as [Ho' _]. pose proof (older_times _ _ _ _ _ _ Ho' Hk Hv Hv'). cbn. lia.
  - destruct (Ho _ _ Hj Hi) as [Ho' _]. pose proof (older_times _ _ _ _ _ _ Ho' Hk Hv' Hv). cbn. lia.
Qed.

Section flushed.
Context (s s' : S) (es : list ValueLogEntry) (tabs tabs' : list (Range * M SkipMapValue)).
Context (id : list byte) (ids : list (list byte)) (t : MemTable) (r : Range).
Hypothesis (Hi : store_inv N s es tabs) (Hl : layered s tabs (id :: ids)) (Hd : disk_ok s tabs).
Hypothesis (Ht : sm_get id (read_only_memtables s) = Some t) (Hf : flushed s id t tabs s' tabs' r).

Lemma flushed_ro : read_only_memtables s' = sm_remove id (read_only_memtables s).
Proof. by rewrite (fd_state _ _ _ _ _ _ _ Hf). Qed.
Lemma flushed_active : active_memtable s' = active_memtable s.
Proof. by rewrite (fd_state _ _ _ _ _ _ _ Hf). Qed.
Lemma flushed_gc : gc_updated_entries s' = gc_updated_entries s.
Proof. by rewrite (fd_state _ _ _ _ _ _ _ Hf). Qed.
Lemma flushed_log : val_log s' = val_log s.
Proof. by rewrite (fd_state _ _ _ _ _ _ _ Hf). Qed.

Lemma flushed_get i x : sm_get i (read_only_memtables s') = Some x <-> i <> id /\ sm_get i (read_only_memtables s) = Some x.
Proof. rewrite flushed_ro, sm_get_remove. case_decide; naive_solver. Qed.

(** The flushed memtable is older than the others and shares no map with them. *)
Lemma flushed_oldest i x :
  i <> id -> sm_get i (read_only_memtables s) = Some x -> older (ds_world s) t x /\ mt_entries x <> mt_entries t.
Proof.
  intros Hne Hx. assert (i ∈ ids) as Hin.
  { assert (i ∈ id :: ids) as [?|?]%elem_of_cons by (apply (ly_ids _ _ _ Hl); by eexists); done. }
  pose proof (ly_sorted _ _ _ Hl) as [_ Hall]%StronglySorted_inv. rewrite Forall_forall in Hall.
  destruct (proj2 (Hall i Hin) _ _ Ht Hx) as [? ?]. done.
Qed.

Lemma flushed_mem x : in_mem s' x -> in_mem s x /\ older (ds_world s) t x /\ mt_entries x <> mt_entries t /\
  (mt_entries x < w_next (ds_world s))%nat.
Proof.
  intros [->|[i [Hne Hx]%flushed_get]]; rewrite ?flushed_active.
  - destruct (si_ro _ _ _ _ Hi _ _ Ht) as [_ Hap _ _]. split; [by left|]. split; [by apply (ly_active _ _ _ Hl id)|].
    split; [by intros ?%eq_sym%(ma_entries _ _ _ Hap)|apply Hi].
  - destruct (flushed_oldest i x Hne Hx). split; [right; by exists i|]. split; [done|]. split; [done|].
    apply (si_ro _ _ _ _ Hi _ _ Hx).
Qed.

Lemma flushed_lookup x k : in_mem s' x -> mem_lookup (ds_world s') x k = mem_lookup (ds_world s) x k.
Proof. intros (_ & _ & Hne & Hlt)%flushed_mem. unfold mem_lookup. by rewrite (fd_maps _ _ _ _ _ _ _ Hf). Qed.

Lemma flushed_ro_hits k :
  ro_hits (ds_world s') (read_only_memtables s') k = ro_hits (ds_world s) (sm_remove id (read_only_memtables s)) k.
Proof.
  unfold ro_hits. rewrite flushed_ro. apply list_omap_ext, Forall_Forall2_diag, Forall_forall.
  intros x ([i x'] & -> & Hin%sm_elem)%list_elem_of_fmap. rewrite flushed_lookup; [done|]. right. exists i. by rewrite flushed_ro.
Qed.

Lemma flushed_sst_hits k :
  sst_hits tabs' k ≡ₚ match mem_lookup (ds_world s) t k with
    | Some v => found v :: sst_hits tabs k
    | None => sst_hits tabs k
    end.
Proof. unfold sst_hits. rewrite (fd_tabs _ _ _ _ _ _ _ Hf). cbn. unfold mem_lookup. by destruct (sm_get k _). Qed.

Lemma flushed_stamped : stamped (ds_world s) t.
Proof. apply (ly_stamped _ _ _ Hl). right. by exists id. Qed.

(** A flush moves a binding that is read from the memtable to the new table, and
    changes nothing else of what is read. *)
Lemma flushed_hit k : k <> HEAD_ENTRY_KEY ->
  store_hit s' tabs' k = store_hit s tabs k \/
  exists v, mem_lookup (ds_world s) t k = Some v /\ store_hit s tabs k = Some (hit_of v) /\ store_hit s' tabs' k = Some (found v).
Proof.
  intros Hk. unfold store_hit, lookup_hit. rewrite (flushed_lookup (active_memtable s')) by (by left). rewrite flushed_active, flushed_ro_hits.
  destruct (mem_lookup (ds_world s) (active_memtable s) k) as [|]; [by left|].
  pose proof (ro_consistent _ _ _ k Hl Hk) as Hnd. pose proof (ro_hits_remove (ds_world s) id t _ k Ht) as Hro.
  pose proof (flushed_sst_hits k) as Hss. set (L := ro_hits (ds_world s) (sm_remove id (read_only_memtables s)) k) in *.
  destruct (mem_lookup (ds_world s) t k) as [v|] eqn:Ev.
  2: { left. rewrite (best_hit_perm _ _ Hro Hnd). by rewrite <- (best_hit_perm _ _ (symmetry Hss) (ly_distinct _ _ _ Hl k Hk)). }
  pose proof (flushed_stamped k v Ev) as Hpos. destruct (decide (L = [])) as [EL|EL].
  - right. exists v. split; [done|]. rewrite (best_hit_perm _ _ Hro Hnd), EL.
    assert (best_hit [hit_of v] = Some (hit_of v)) as ->.
    { apply best_hit_strict; [|by left|]; [pose proof (trunc_ms_le (smv_created_at v)); unfold stamp in Hpos; cbn; lia|].
      intros h ->%list_elem_of_singleton. by left. }
    split; [done|]. change (best_hit []) with (@None Hit). cbn iota. apply best_hit_strict; [done|rewrite Hss; by left|].
    intros h. rewrite Hss. intros [->|Hh]%elem_of_cons; [by left|]. cbn. destruct (ly_tabs _ _ _ Hl k h t v Hk Hh) as [?|?]; [right; by exists id|done|by right|by left].
  - left. destruct L as [|h1 L'] eqn:EL'; [done|]. rewrite <- EL' in *. clear EL.
    assert (h1 ∈ L) as Hin by (rewrite EL'; by left).
    pose proof Hin as (i & x & v' & Hx & Hv' & ->)%ro_hits_elem. rewrite sm_get_remove in Hx. case_decide as Hne; [done|].
    destruct (flushed_oldest i x Hne Hx) as [Hol _].
    rewrite (best_hit_drop _ _ (hit_of v) (hit_of v') Hro Hnd Hin) by (by apply (older_times _ _ _ _ _ _ Hol Hk)).
    destruct (best_hit L) eqn:EB; [done|]. exfalso. pose proof (best_hit_none _ _ EB Hin) as Hle. cbn in Hle.
    pose proof (ly_stamped _ _ _ Hl x (or_intror (ex_intro _ i Hx)) k v' Hv') as Hp.
    pose proof (trunc_ms_le (smv_created_at v')). unfold stamp in Hp. lia.
Qed.

Hypothesis (Hu32 : zlen (log_bytes es) <= 2 ^ 32).

Lemma flushed_logged k h :
  k <> HEAD_ENTRY_KEY -> store_hit s' tabs' k = Some h -> h.2 = false -> is_Some (entry_at es h.1.1).
Proof.
  intros Hk Hh Htomb. destruct (flushed_hit k Hk) as [E|(v & Hv & E & E')]; [rewrite E in Hh; by eapply (si_logged _ _ _ _ Hi)|].
  rewrite E' in Hh. injection Hh as <-. cbn in *. destruct (si_logged _ _ _ _ Hi k _ Hk E Htomb) as [e He]. cbn in He.
  rewrite as_u32_id; [by exists e|]. pose proof (entry_at_bounds _ _ _ He). unfold is_u32. lia.
Qed.

(** What a client sees is the same. *)
Lemma flushed_view k :
  k <> HEAD_ENTRY_KEY -> ue_val <$> store_view s' es tabs' k = ue_val <$> store_view s es tabs k.
Proof.
  intros Hk. unfold store_view. destruct (flushed_hit k Hk) as [->|(v & Hv & E & ->)]; [done|]. rewrite E. cbn. unfold read_hit. cbn.
  destruct (smv_is_tombstone v) eqn:Ev; [done|]. destruct (si_logged _ _ _ _ Hi k _ Hk E Ev) as [e He]. cbn in He.
  pose proof (entry_at_bounds _ _ _ He). rewrite as_u32_id by (unfold is_u32; lia). rewrite He. cbn. by destruct (vle_is_tombstone e).
Qed.

Lemma flushed_ro_ok i x : sm_get i (read_only_memtables s') = Some x -> ro_ok N (ds_world s') (active_memtable s') i x.
Proof.
  intros Hx. destruct (flushed_mem x ltac:(right; by exists i)) as (_ & _ & Hne & Hlt). pose proof Hx as [_ Hx']%flushed_get.
  destruct (si_ro _ _ _ _ Hi _ _ Hx') as [R1 [A1 A2 A3 A4] R3 R4]. pose proof (fd_next _ _ _ _ _ _ _ Hf). pose proof (fd_ticks _ _ _ _ _ _ _ Hf).
  rewrite flushed_active. split.
  - apply (mem_inv_frame (ds_world s)); [by apply Hf|apply Hf|done].
  - split; lia || done.
  - intros k v. rewrite flushed_lookup by (right; by exists i). intros Hv n Hn. apply (R3 k v Hv). lia.
  - intros n Hn. apply R4. lia.
Qed.

Lemma flushed_tab_ok : Forall (tab_ok (ds_world s') (val_log s') (active_memtable s')) tabs'.
Proof.
  rewrite (fd_tabs _ _ _ _ _ _ _ Hf), flushed_active, flushed_log. pose proof (dk_log _ _ Hd).
  pose proof (fd_data _ _ _ _ _ _ _ Hf). pose proof (fd_idx _ _ _ _ _ _ _ Hf). pose proof (fd_next _ _ _ _ _ _ _ Hf).
  constructor.
  - split; cbn [fst snd]; [split; [apply Hf|left; apply Hf]|lia|lia| |].
    + intros _ f ->%(fd_filter _ _ _ _ _ _ _ Hf). destruct (si_ro _ _ _ _ Hi _ _ Ht) as [_ [A1 A2 A3 A4] _ _]. split; [done|lia].
    + intros i Hc. by destruct (live_not_cold _ _ _ _ _ (fd_live _ _ _ _ _ _ _ Hf) Hc).
  - pose proof (si_tabs _ _ _ _ Hi) as Hts. pose proof (dk_tabs _ _ Hd) as Hdt. rewrite Forall_forall in *.
    intros p Hp. destruct (Hdt p Hp). destruct (Hts p Hp) as [T1 T2 T3 T4 T5]. split; [|done|done|..].
    + destruct T1 as [T1 Tr]. split; [eapply table_holds_frame; [exact T1|done|done|..]; by apply Hf|].
      destruct Tr as [Tl|[Tc [i Ti]]]; [left; eapply live_range_frame; [|exact Tl]; intros f _; apply Hf|right]. split; [done|]. exists i.
      eapply cold_filter_frame; [|apply Hf|done]; [intros q; apply Hf|]. destruct Ti as (g & q & f & _ & _ & _ & _ & Hq & _).
      by apply (wf_inode _ (bw_fs _ _ (dk_wf _ _ Hd)) q).
    + intros Hlv. eapply filter_apart_next; [exact (fd_next _ _ _ _ _ _ _ Hf)|by left|]. apply T4.
      destruct T1 as [_ [?|[_ [i Ti]]]]; [done|by destruct (live_not_cold _ _ _ _ _ Hlv Ti)].
    + intros i Ti. apply T5. eapply cold_filter_back; [exact T1|apply Hf|done].
Qed.

(** The index with the new range *)
Lemma flushed_indexed : indexed (ds_world s') (db_ranges (ds_db s')) tabs'.
Proof.
  destruct (si_index _ _ _ _ Hi) as [I1 I2 I3]. split; [apply Hf|..].
  - intros d r0. rewrite (fd_ranges _ _ _ _ _ _ _ Hf). intros [[<- <-]|[_ ?]]%lookup_insert_Some; [done|by apply I2].
  - rewrite (fd_restored _ _ _ _ _ _ _ Hf). intros d r' Hd'. destruct (I3 d r' Hd') as (r0 & m & Hin & Ed & Hs & Hlv). exists r0, m.
    split; [rewrite (fd_tabs _ _ _ _ _ _ _ Hf); by right|]. do 2 (split; [done|]). eapply live_range_frame; [|exact Hlv]. intros f _. apply Hf.
Qed.

Lemma flushed_consistent k : k <> HEAD_ENTRY_KEY -> consistent (sst_hits tabs' k).
Proof.
  intros Hk. pose proof (ly_distinct _ _ _ Hl k Hk) as Hc. rewrite (flushed_sst_hits k).
  destruct (mem_lookup (ds_world s) t k) as [v0|] eqn:Ev0; [|done].
  assert (forall h, h ∈ sst_hits tabs k -> h.1.2 = (found v0).1.2 -> h = found v0) as Hnew.
  { intros h Hh Et. destruct (ly_tabs _ _ _ Hl k h t v0 Hk Hh) as [Hlt|?]; [right; by exists id|done| |done]. unfold stamp in Hlt. cbn in Et. lia. }
  intros h h' [->|Hh]%elem_of_cons [->|Hh']%elem_of_cons Et; [done|symmetry; by apply Hnew|by apply Hnew|by apply Hc].
Qed.

Lemma flushed_inv : store_inv N s' es tabs'.
Proof.
  pose proof (fd_next _ _ _ _ _ _ _ Hf). pose proof (fd_ticks _ _ _ _ _ _ _ Hf). destruct (si_gc_apart _ _ _ _ Hi). destruct (si_active_lt _ _ _ _ Hi).
  destruct (flushed_mem (active_memtable s') ltac:(by left)) as (_ & _ & Hne & _). rewrite flushed_active in Hne.
  split; rewrite ?flushed_active, ?flushed_gc, ?flushed_log; try apply Hi; try apply Hf.
  - destruct (si_log _ _ _ _ Hi) as [Rc Rs Rv]. split; try done. rewrite (fd_content _ _ _ _ _ _ _ Hf) by apply Hd. done.
  - rewrite (fd_maps _ _ _ _ _ _ _ Hf) by (done || by apply not_eq_sym, (ly_gc _ _ _ Hl id)). apply Hi.
  - split; [done|lia].
  - apply (mem_inv_frame (ds_world s)); [by apply Hf|apply Hf|apply Hi].
  - lia.
  - intros k v. rewrite <- flushed_active, flushed_lookup by (by left). rewrite flushed_active. intros Hv n Hn. apply (si_active_past _ _ _ _ Hi k v Hv). lia.
  - rewrite <- flushed_active. exact flushed_ro_ok.
  - intros k v Hk. rewrite <- flushed_active, flushed_lookup, flushed_active by (by left). intros Hv.
    destruct (si_newer _ _ _ _ Hi k v Hk Hv) as [Hp Hn]. split; [done|]. intros h Hh. apply Hn. rewrite flushed_ro_hits in Hh.
    rewrite (ro_hits_remove (ds_world s) id t _ k Ht). destruct (mem_lookup _ t k); [by right|done].
  - exact flushed_indexed.
  - rewrite (fd_restored _ _ _ _ _ _ _ Hf). intros d r0 Hd0. eapply filter_apart_next; [exact (fd_next _ _ _ _ _ _ _ Hf)|by left|].
    by apply (si_spares _ _ _ _ Hi d).
  - intros k Hk _. by apply flushed_consistent.
  - rewrite <- flushed_active, <- flushed_log. exact flushed_tab_ok.
  - exact flushed_logged.
Qed.

Lemma flushed_layered : layered s' tabs' ids.
Proof.
  pose proof (ly_sorted _ _ _ Hl) as [Hsort Hall]%StronglySorted_inv. rewrite Forall_forall in Hall.
  assert (id ∉ ids) as Hid by (intros Hin; by destruct (Hall id Hin)). pose proof (fd_ticks _ _ _ _ _ _ _ Hf) as Htk.
  split.
  - intros i. rewrite flushed_ro, sm_get_remove. pose proof (ly_ids _ _ _ Hl i) as Hiff. rewrite elem_of_cons in Hiff.
    case_decide as E; [subst; split; [done|by intros []]|]. rewrite <- Hiff. naive_solver.
  - eapply StronglySorted_mono; [|exact Hsort]. intros x y Hx Hy [Hne Hxy]. split; [done|]. intros a b Ha Hb.
    pose proof Ha as [_ Ha']%flushed_get. pose proof Hb as [_ Hb']%flushed_get. destruct (Hxy a b Ha' Hb') as [Ho Hent]. split; [|done].
    intros k v v' Hk. rewrite !flushed_lookup by (right; by eexists). by apply Ho.
  - intros i x Hx. rewrite flushed_active. pose proof Hx as [_ Hx']%flushed_get. intros k v v' Hk.
    rewrite <- flushed_active, (flushed_lookup x) by (right; by eexists). rewrite (flushed_lookup (active_memtable s')), flushed_active by (by left).
    by apply (ly_active _ _ _ Hl i).
  - intros i x [_ Hx]%flushed_get. rewrite flushed_gc. by apply (ly_gc _ _ _ Hl i).
  - intros x Hx k v. rewrite flushed_lookup by done. intros Hv. destruct (flushed_mem x Hx) as (Hx' & _).
    exact (ly_stamped _ _ _ Hl x Hx' k v Hv).
  - intros k h x v Hk Hh Hx. rewrite flushed_lookup by done. intros Hv. destruct (flushed_mem x Hx) as (Hx' & Hol & _).
    rewrite (flushed_sst_hits k) in Hh. destruct (mem_lookup (ds_world s) t k) as [v0|] eqn:Ev0; [apply elem_of_cons in Hh as [->|Hh]|].
    + left. by apply (Hol k).
    + by eapply (ly_tabs _ _ _ Hl).
    + by eapply (ly_tabs _ _ _ Hl).
  - exact flushed_consistent.
Qed.
End flushed.
End layers.
