(* ===== verification/CompactionSpec.v ===== *)
(** * What merging a bucket yields ([SizedTierRunner::merge_ssts_in_buckets] of
    [src/compactors/sized.rs])

    For tables without deletions and a configuration without expiry: the merged
    table of a bucket maps each key to the newest version in the bucket's tables
    after the first ([newest_in]), it can be written to a file, and its filter
    admits each of its keys ([merge_buckets_run]). *)

From stdpp Require Import prelude gmap strings list list_numbers.
From Stdlib Require Import Strings.Byte ZArith Lia.
From S2P Require Import Prelude Consts SkipMap FileIO Types World Block Index Bloom SSTable MemTable KeyRange RangeSearch Bucket Flush Compaction.
From S2P Require Import Store StoreInv FlushSpec.
Open Scope Z_scope.

(** *** Sums over lists *)
Lemma sum_list_submseteq {A} (f : A -> nat) l l' : l ⊆+ l' -> (sum_list_with f l <= sum_list_with f l')%nat.
Proof. intros [k ->]%submseteq_Permutation. rewrite sum_list_with_app. lia. Qed.

Lemma sum_list_join {A B} (g : A -> nat) (h : B -> list A) (l : list B) :
  sum_list_with g (mjoin (h <$> l)) = sum_list_with (fun b => sum_list_with g (h b)) l.
Proof. induction l as [|b l IH]; [done|]. cbn. rewrite sum_list_with_app. by rewrite <- IH. Qed.

Lemma sum_list_fmap {A B} (f : A -> nat) (g : B -> A) (l : list B) : sum_list_with f (g <$> l) = sum_list_with (fun x => f (g x)) l.
Proof. induction l as [|x l IH]; [done|]. cbn. by rewrite <- IH. Qed.

Section merging.
Context `{Env} {M : Type -> Type} `{SkipMap M} (cfg : CompactConfig).
Abbreviation W := (World M).
Abbreviation Map := (M SkipMapValue).
Abbreviation newer_of := (Compaction.newest).
Implicit Types (w : W) (m : Map) (ms : list Map).

(** ** The newest version of a key *)

(** The newest binding of a key in a list of maps, as the files give it *)
Definition newest_in (k : list byte) ms (o : option SkipMapValue) : option SkipMapValue :=
  fold_left (fun acc m => newer_of acc (smv_stored <$> sm_get k m)) ms o.

(** What [newest_in] gives is the latest of the tables' answers. *)
Lemma newest_in_spec k ms o v :
  newest_in k ms o = Some v ->
  (o = Some v \/ exists m v0, m ∈ ms /\ sm_get k m = Some v0 /\ v = smv_stored v0) /\
  (forall v0, o = Some v0 -> smv_created_at v0 <= smv_created_at v) /\
  (forall m v0, m ∈ ms -> sm_get k m = Some v0 -> stamp v0 <= smv_created_at v).
Proof.
  unfold newest_in. revert o. induction ms as [|m ms IH]; intros o; cbn [fold_left].
  { intros ->. split; [by left|]. split; [by intros v0 [= ->]|]. by intros m v0 ?%not_elem_of_nil. }
  intros (Hin & Ho & Hms)%IH.
  assert (forall v0, o = Some v0 -> smv_created_at v0 <= smv_created_at v) as Ho'.
  { intros v0 ->. destruct (smv_stored <$> sm_get k m) as [v1|] eqn:E; [|by apply Ho].
    specialize (Ho _ eq_refl). case_decide; lia. }
  assert (forall v0, sm_get k m = Some v0 -> stamp v0 <= smv_created_at v) as Hm.
  { intros v0 E. rewrite E in Ho. change (stamp v0) with (smv_created_at (smv_stored v0)). destruct o as [v1|]; specialize (Ho _ eq_refl); cbn in Ho |- *; [|done].
    case_decide; cbn in *; lia. }
  split; [|split; [done|]].
  - destruct Hin as [Hin|(m1 & v0 & Hm1 & E)]; [|right; exists m1, v0; split; [by right|done]].
    apply newest_live in Hin as [->|(v0 & E & ->)%fmap_Some]; [by left|right]. exists m, v0. split; [by left|done].
  - intros m1 v0 [->|Hm1]%elem_of_cons E; [by apply Hm|by apply (Hms m1)].
Qed.

Lemma newest_in_none k ms : newest_in k ms None = None <-> Forall (fun m => sm_get k m = None) ms.
Proof.
  assert (forall ms v, exists v', newest_in k ms (Some v) = Some v') as Hs.
  { clear. induction ms as [|m ms IH]; intros v; [by exists v|]. unfold newest_in. cbn [fold_left].
    destruct (smv_stored <$> sm_get k m); cbn; apply IH. }
  induction ms as [|m ms IH]; [by split; [constructor|]|]. rewrite Forall_cons, <- IH. unfold newest_in. cbn [fold_left newer_of].
  destruct (sm_get k m) as [v|]; cbn; [|naive_solver]. destruct (Hs ms (smv_stored v)) as [v' E]. unfold newest_in in E. rewrite E. naive_solver.
Qed.

(** ** The merged map *)

(** The bytes a map takes in a data file *)
Definition weight m : nat := sum_list_with (fun k => length k + 17)%nat (sm_iter m).*1.

Lemma data_bytes_weight m : zlen (data_bytes (be_of <$> (entry_of <$> sm_iter m))) = Z.of_nat (weight m).
Proof.
  unfold weight. induction (sm_iter m) as [|p l IH]; [done|]. rewrite !fmap_cons, data_bytes_cons, zlen_app, zlen_be_bytes, block_entry_size_eq, IH.
  cbn. unfold zlen. lia.
Qed.

Lemma weight_length m : (length (sm_iter m) <= weight m)%nat.
Proof.
  unfold weight. induction (sm_iter m) as [|p l IH]; [done|].
  rewrite fmap_cons. change (S (length l) <= length p.1 + 17 + sum_list_with (fun k => length k + 17) l.*1)%nat. lia.
Qed.

(** [m] merges the maps [ms]. *)
Definition merges ms m : Prop := forall k, sm_get k m = newest_in k ms None.

Lemma merges_elem ms m k v :
  merges ms m -> sm_get k m = Some v ->
  (exists m0 v0, m0 ∈ ms /\ sm_get k m0 = Some v0 /\ v = smv_stored v0) /\
  forall m0 v0, m0 ∈ ms -> sm_get k m0 = Some v0 -> stamp v0 <= smv_created_at v.
Proof. intros Hm. rewrite Hm. intros ([?|Hs] & _ & Hall)%newest_in_spec; [done|by split]. Qed.

Lemma merges_covers ms m m0 k : merges ms m -> m0 ∈ ms -> is_Some (sm_get k m0) -> is_Some (sm_get k m).
Proof.
  intros Hm Hin Hk. rewrite Hm. destruct (newest_in k ms None) eqn:E; [by eexists|].
  apply newest_in_none in E. rewrite Forall_forall in E. rewrite (E m0 Hin) in Hk. by destruct Hk.
Qed.

Lemma merges_live ms m : merges ms m -> Forall no_tombstones ms -> no_tombstones m.
Proof.
  intros Hm Hn k v ((m0 & v0 & Hin & Hv & ->) & _)%(merges_elem _ _ _ _ Hm). rewrite Forall_forall in Hn. cbn. by eapply Hn.
Qed.

Lemma merges_weight ms m : merges ms m -> (weight m <= sum_list_with weight ms)%nat.
Proof.
  intros Hm. unfold weight at 1. etransitivity; [apply (sum_list_submseteq _ _ (mjoin ((fun m0 => (sm_iter m0).*1) <$> ms)))|].
  - apply NoDup_submseteq; [apply sorted_keys_fst_NoDup|]. intros k ([k' v] & -> & Hin%sm_elem)%list_elem_of_fmap. cbn.
    destruct (merges_elem _ _ _ _ Hm Hin) as ((m0 & v0 & Hm0 & Hv%sm_elem & _) & _).
    apply list_elem_of_join. exists (sm_iter m0).*1. split; [apply list_elem_of_fmap; by exists (k', v0)|apply list_elem_of_fmap; by exists m0].
  - by rewrite sum_list_join.
Qed.

Lemma merges_storable ms m :
  merges ms m -> ms <> [] -> Forall storable ms -> Z.of_nat (sum_list_with weight ms) < 2 ^ 32 -> storable m.
Proof.
  intros Hm Hne Hst Hw. pose proof (merges_weight _ _ Hm). rewrite Forall_forall in Hst. split.
  - destruct ms as [|m0 ms]; [done|]. pose proof (st_nonempty _ (Hst m0 ltac:(by left))) as Hn.
    destruct (sm_iter m0) as [|[k v] l] eqn:E; [done|]. assert (sm_get k m0 = Some v) as Hk by (apply sm_elem; rewrite E; by left).
    destruct (merges_covers _ _ m0 k Hm ltac:(by left) ltac:(by eexists)) as [v' Hv'%sm_elem].
    intros Em. rewrite Em in Hv'. by apply not_elem_of_nil in Hv'.
  - apply Forall_forall. intros [k v] Hin%sm_elem. destruct (merges_elem _ _ _ _ Hm Hin) as ((m0 & v0 & Hm0 & Hv%sm_elem & ->) & _).
    pose proof (st_entries _ (Hst m0 Hm0)) as He. rewrite Forall_forall in He. destruct (He _ Hv) as (E1 & E2 & E3). cbn in *.
    do 2 (split; [done|]). by apply valid_time_trunc.
  - rewrite data_bytes_weight. lia.
Qed.

(** ** Merging the buckets *)

(** A bucket whose tables after the first hold the maps [ms], without deletions;
    the first table has no entries in memory. *)
Record mergeable w (b : Bucket) ms : Prop := {
  mg_tables : exists t1 ts, sstables b = t1 :: ts /\ ts <> [] /\ (t_entries t1 < w_next w)%nat /\
    sm_iter (the_map w (t_entries t1)) = [] /\ Forall2 (table_holds w) ts ms;
  mg_live : Forall no_tombstones ms;
  mg_size : Z.of_nat (sum_list_with weight ms) < 2 ^ 32;
}.

(** The merged table of a bucket, in memory that was free in [w] *)
Record merged_bucket w w' ms (x : MergedSSTable) : Prop := {
  mb_loc : (w_next w <= get_entries (ms_sstable x) < w_next w')%nat;
  mb_map : merges ms (the_map w' (get_entries (ms_sstable x)));
  mb_storable : storable (the_map w' (get_entries (ms_sstable x)));
  mb_filter : (w_next w <= bit_vec (ms_filter x) < w_next w')%nat;
  mb_probe : probing_ok (no_of_hash_func (ms_filter x)) (the_bits w' (bit_vec (ms_filter x)));
  mb_admits k : is_Some (sm_get k (the_map w' (get_entries (ms_sstable x)))) ->
    admits (no_of_hash_func (ms_filter x)) (the_bits w' (bit_vec (ms_filter x))) k;
}.

Lemma mergeable_grown w w' b ms : grown w w' -> mergeable w b ms -> mergeable w' b ms.
Proof.
  intros G [(t1 & ts & E1 & E2 & E3 & E4 & E5) Hl Hs]. pose proof (gr_next _ _ G). split; [|done|done].
  exists t1, ts. do 2 (split; [done|]). split; [lia|]. split; [by rewrite (gr_map _ _ G)|by eapply Forall2_grown].
Qed.

Lemma merged_bucket_mono w0 w w1 w2 ms x : (w_next w0 <= w_next w)%nat -> grown w1 w2 -> merged_bucket w w1 ms x -> merged_bucket w0 w2 ms x.
Proof.
  intros Hle G [L Hm Hst Hf Hp Ha]. pose proof (gr_next _ _ G). split; rewrite ?(gr_map _ _ G), ?(gr_bits _ _ G) by lia; try done; lia.
Qed.

Lemma grown_put_bits w0 w l bits : grown w0 w -> (w_next w0 <= l)%nat -> grown w0 (put_bits w l bits).
Proof. intros [G1 G2 G3 G4] Hl. split; try done. intros l' Hl'. rewrite the_bits_put, decide_False by lia. by apply G3. Qed.

(** The filter of a merged map *)
Lemma merged_filter_run w l :
  let m := the_map w l in
  f64_ge0 (filter_false_positive cfg) = true -> storable m -> (l < w_next w)%nat ->
  exists f w', (f ← bf_new (filter_false_positive cfg) (sm_len m); build_filter_from_entries f l) w = (Ok f, w') /\ grown w w' /\
    w_ticks w' = w_ticks w /\ (w_next w <= bit_vec f < w_next w')%nat /\
    probing_ok (no_of_hash_func f) (the_bits w' (bit_vec f)) /\
    forall k, is_Some (sm_get k m) -> admits (no_of_hash_func f) (the_bits w' (bit_vec f)) k.
Proof.
  intros m Hr Hst Hl. assert (0 < sm_len m < 2 ^ 32) as Hlen.
  { pose proof (st_size _ Hst) as Hs. rewrite data_bytes_weight in Hs. pose proof (proj2 (zlen_pos _) (st_nonempty _ Hst)).
    pose proof (weight_length m). unfold sm_len, zlen in *. lia. }
  assert (0 <= sm_len m < 2 ^ 32) as Hlen' by lia.
  destruct (proj2 (bf_new_spec (filter_false_positive cfg) (sm_len m) w Hlen') Hr (proj1 Hlen)) as (f0 & w1 & E1 & Hb & _ & _ & _ & Hp).
  assert (grown w w1 /\ w_ticks w1 = w_ticks w /\ w_next w1 = S (w_next w)) as (G1 & T1 & X1).
  { revert E1. unfold bf_new. rewrite Hr. cbn [negb]. rewrite decide_True by lia. intros [= _ <-]. split; [apply grown_alloc_bits|done]. }
  run E1. unfold build_filter_from_entries. run_simpl. rewrite (gr_map _ _ G1) by done. fold m.
  destruct (bf_set_all_spec (sm_iter m).*1 f0 w1 Hp) as (f & bits & E2 & _ & Hl2 & Hn2 & _ & _ & _ & _ & Hlen2 & Ha & _).
  exists f, (put_bits w1 (bit_vec f0) bits). split.
  { rewrite E2. pose proof (st_nonempty _ Hst). by destruct (sm_iter m). }
  rewrite Hl2, Hn2, the_bits_put, decide_True by done. split; [apply grown_put_bits; [done|lia]|]. split; [done|]. split; [cbn; lia|]. split.
  - unfold probing_ok, zlen in *. by rewrite Hlen2.
  - intros k [v Hv%sm_elem]. rewrite Forall_forall in Ha. apply Ha, list_elem_of_fmap. by exists (k, v).
Qed.

Lemma merge_bucket_run w b ms :
  use_ttl cfg = false -> f64_ge0 (filter_false_positive cfg) = true -> mergeable w b ms ->
  exists t1 ts y hot w1 f w2, sstables b = t1 :: ts /\ merge_tables cfg ∅ (DynTable t1) 0 ts w = (Ok (y, hot, ∅), w1) /\
    (f ← bf_new (filter_false_positive cfg) (sm_len (the_map w1 (get_entries y))); build_filter_from_entries f (get_entries y)) w1 = (Ok f, w2) /\
    grown w w2 /\ w_ticks w2 = w_ticks w /\ merged_bucket w w2 ms (mkMerged y hot f).
Proof.
  intros Hu Hr [(t1 & ts & E1 & E2 & E3 & E4 & E5) Hl Hs].
  assert (forall k, sm_get k (the_map w (t_entries t1)) = None) as Hnone by (intros k; by rewrite sm_get_iter, E4).
  destruct (merge_tables_live cfg (DynTable t1) 0 ts ms w Hu E3 E5) as (y & hot & w1 & Em & G1 & T1 & L1 & L0 & Hk); [|done|].
  { intros k v Hv. cbn in Hv. by rewrite Hnone in Hv. }
  specialize (L0 E2). assert (merges ms (the_map w1 (get_entries y))) as Hm.
  { intros k. rewrite Hk. cbn [get_entries dyn_insertable table_insertable]. by rewrite Hnone. }
  assert (storable (the_map w1 (get_entries y))) as Hst.
  { eapply merges_storable; [exact Hm| | |done].
    - intros ->. by apply Forall2_nil_inv_r in E5.
    - apply Forall_forall. intros m [i Hi]%list_elem_of_lookup. destruct (Forall2_lookup_r _ _ _ _ _ E5 Hi) as (t & _ & Hh). apply Hh. }
  destruct (merged_filter_run w1 (get_entries y) Hr Hst L1) as (f & w2 & E & G2 & T2 & Lf & Hp & Ha).
  pose proof (gr_next _ _ G1). pose proof (gr_next _ _ G2).
  exists t1, ts, y, hot, w1, f, w2. do 3 (split; [done|]). split; [by eapply grown_trans|]. split; [by rewrite T2|].
  split; cbn [ms_sstable ms_filter]; rewrite ?(gr_map _ _ G2) by done; try done; lia.
Qed.

Lemma merge_buckets_run bs mss w :
  use_ttl cfg = false -> f64_ge0 (filter_false_positive cfg) = true -> Forall2 (mergeable w) bs mss ->
  exists merged w', merge_buckets cfg ∅ bs w = (Ok (merged, ∅), w') /\ grown w w' /\ w_ticks w' = w_ticks w /\
    Forall2 (merged_bucket w w') mss merged /\ NoDup ((fun x => get_entries (ms_sstable x)) <$> merged).
Proof.
  intros Hu Hr Hf. revert w Hf. revert mss. induction bs as [|b bs IH]; intros mss w Hf.
  { apply Forall2_nil_inv_l in Hf as ->. exists [], w. split; [done|]. split; [apply grown_refl|]. split; [done|]. split; constructor. }
  apply Forall2_cons_inv_l in Hf as (ms & mss' & Hb & Hf & ->).
  destruct (merge_bucket_run w b ms Hu Hr Hb) as (t1 & ts & y & hot & w1 & f & w2 & E1 & Em & Ef & G & T & Hmb).
  destruct (IH mss' w2) as (merged & w' & E & G' & T' & Hms & Hnd).
  { eapply Forall2_impl; [exact Hf|]. intros b' ms'. by apply mergeable_grown. }
  exists (mkMerged y hot f :: merged), w'. pose proof (gr_next _ _ G) as Hn. pose proof (gr_next _ _ G').
  split; [|split; [by eapply grown_trans|split; [by rewrite T'|split]]].
  - cbn [merge_buckets]. rewrite E1. cbn [head tail]. run_simpl. run Em. cbn beta iota. run_simpl.
    apply io_bind_Ok in Ef as (f0 & w3 & Ef0 & Ef). run Ef0. run Ef. by run E.
  - constructor; [by eapply merged_bucket_mono; [|exact G'|exact Hmb]|]. eapply Forall2_impl; [exact Hms|].
    intros ms' x. apply merged_bucket_mono; [done|apply grown_refl].
  - apply NoDup_cons. split; [|done]. intros (x & Ex & Hx)%list_elem_of_fmap. apply list_elem_of_lookup in Hx as [i Hi].
    destruct (Forall2_lookup_r _ _ _ _ _ Hms Hi) as (ms' & _ & Hx). pose proof (mb_loc _ _ _ _ Hx). pose proof (mb_loc _ _ _ _ Hmb). cbn in *. lia.
Qed.
End merging.
