(* ===== verification/SysInv.v ===== *)
(** * The invariant of the store together with its background tasks

    [sys_inv] extends the store's invariant by what its tasks need: tables
    layered by age, names on disk unused, memtables of moderate size, the
    collector's memtables out of the readers' way (or clones of the readers'
    tables), and a queue that holds each flush once, oldest memtables first. The
    lemmas show that every step of a client call and every task preserve it. *)

From stdpp Require Import prelude gmap strings pretty list sorting.
From Stdlib Require Import Strings.Byte ZArith Lia.
From S2P Require Import Prelude Consts SkipMap FileIO Types World VLog Block Index Bloom SSTable Meta MemTable.
From S2P Require Import KeyRange RangeSearch Bucket Flush Compaction Config Store StoreInv StoreSpec FlushSpec.
Open Scope Z_scope.

(** The read-only memtables with a pending flush *)
Definition flush_ids (ts : list Task) : list (list byte) :=
  omap (fun t => match t with TFlush id _ => Some id | _ => None end) ts.

Arguments flush_ids : simpl never.

(** The bytes a memtable counts for its entries *)
Definition mem_bytes {V} (l : list (list byte * V)) : Z := foldr (fun p acc => mem_entry_size (zlen p.1) + acc) 0 l.

(** Entries a table file can hold *)
Definition key_ok `{Platform} (p : list byte * SkipMapValue) : Prop :=
  p.1 <> [] /\ zlen p.1 + 17 <= BLOCK_SIZE /\ valid_time (smv_created_at p.2).

Section system.
Context `{Env} {M : Type -> Type} `{SkipMap M} (N : nat).
Abbreviation W := (World M).
Abbreviation S := (DataStore M).
Implicit Types (s : S) (w : W) (tabs : list (Range * M SkipMapValue)) (es : list ValueLogEntry).

(** ** The invariant *)

(** What a memtable holds is counted in its size. *)
Record fits w (t : MemTable) : Prop := {
  ft_keys : Forall key_ok (sm_iter (the_map w (mt_entries t)));
  ft_bytes : mem_bytes (sm_iter (the_map w (mt_entries t))) <= mt_size t;
}.

(** Memtables are of moderate size, and the read-only ones can be written. *)
Record roomy s : Prop := {
  rm_capacity : mt_capacity (mt_config (active_memtable s)) <= 2 ^ 30;
  rm_active : fits (ds_world s) (active_memtable s);
  rm_size : mt_size (active_memtable s) < mt_capacity (mt_config (active_memtable s)) + BLOCK_SIZE;
  rm_ro id t : sm_get id (read_only_memtables s) = Some t -> storable (the_map (ds_world s) (mt_entries t));
}.

(** A memtable of the collector whose entries no reader consults *)
Record private s (g : MemTable) : Prop := {
  pv_inv : mem_inv (ds_world s) g;
  pv_lt : (mt_entries g < w_next (ds_world s))%nat /\ (bit_vec (bloom_filter g) < w_next (ds_world s))%nat;
  pv_gc : mt_entries g <> gc_updated_entries s;
  pv_mem t : in_mem s t -> mt_entries g <> mt_entries t;
}.

(** A clone of a memtable: the same map and the same filter. [open] gives the
    collector a clone of the active memtable. *)
Record twin (g t : MemTable) : Prop := {
  tw_entries : mt_entries g = mt_entries t;
  tw_filter : bit_vec (bloom_filter g) = bit_vec (bloom_filter t);
  tw_hash : no_of_hash_func (bloom_filter g) = no_of_hash_func (bloom_filter t);
}.

Record gc_ok s : Prop := {
  go_tables h g : gc_tables s !! h = Some g -> private s g \/ exists t, in_mem s t /\ twin g t;
  go_apart h h' g g' : h <> h' -> gc_tables s !! h = Some g -> gc_tables s !! h' = Some g' -> mt_entries g <> mt_entries g';
}.

(** The task queue: a flush is pending for the oldest read-only memtables, for
    each at most once. *)
Record queue_ok s (ids : list (list byte)) : Prop := {
  qo_flush id t : TFlush id t ∈ tasks s -> sm_get id (read_only_memtables s) = Some t;
  qo_ids : exists n, flush_ids (tasks s) ≡ₚ take n ids;
  qo_stream id : id ∈ ids -> id ∈ flush_stream s <-> id ∈ flush_ids (tasks s);
  qo_future n : (w_ticks (ds_world s) <= n < N)%nat -> new_table_id n ∉ flush_stream s;
  qo_meta m : TWriteMeta m ∈ tasks s -> file_handle m = file_handle (ds_meta s);
}.

(** The restored ranges that wait for their installation may be searched. *)
Definition spares_ok s tabs (rs : gmap (list string) Range) : Prop :=
  replaces (ds_world s) tabs rs /\ forall d r, rs !! d = Some r -> filter_apart (ds_world s) (active_memtable s) r.
Definition spare_tasks s tabs : Prop := forall rs, TRestored rs ∈ tasks s -> spares_ok s tabs rs.

(** The metadata file is none of the log's and the tables'. *)
Record meta_ok s tabs : Prop := {
  mo_log : file (file_handle (ds_meta s)) <> file (vlog_file (val_log s));
  mo_lt : (file (file_handle (ds_meta s)) < next_inode (w_fs (ds_world s)))%nat;
  mo_tabs p : p ∈ tabs -> file (file_handle (ds_meta s)) <> file (data_file (r_sst p.1)) /\
    file (file_handle (ds_meta s)) <> file (index_file (r_sst p.1));
  mo_cold p i : p ∈ tabs -> cold_filter (ds_world s) p.1 i -> i <> file (file_handle (ds_meta s));
}.

Record sys_inv s es tabs (ids : list (list byte)) : Prop := {
  sy_store : store_inv N s es tabs;
  sy_layered : layered s tabs ids;
  sy_disk : disk_ok N s tabs;
  sy_room : roomy s;
  sy_gc : gc_ok s;
  sy_queue : queue_ok s ids;
  sy_meta : meta_ok s tabs;
  sy_spares : spare_tasks s tabs;
}.

(** ** Frames *)

(** Nothing changed but times, contents of files, and memory that belongs to no
    memtable readers consult; maps up to what a client of them can tell. *)
Record calm s s' : Prop := {
  cm_active : active_memtable s' = active_memtable s;
  cm_ro : read_only_memtables s' = read_only_memtables s;
  cm_gc : gc_updated_entries s' = gc_updated_entries s;
  cm_log : vlog_file (val_log s') = vlog_file (val_log s);
  cm_buckets : db_buckets (ds_db s') = db_buckets (ds_db s);
  cm_ranges d : is_Some (key_ranges (db_ranges (ds_db s')) !! d) -> is_Some (key_ranges (db_ranges (ds_db s)) !! d);
  cm_next : (w_next (ds_world s) <= w_next (ds_world s'))%nat;
  cm_ticks : (w_ticks (ds_world s) <= w_ticks (ds_world s'))%nat;
  cm_names : names (w_fs (ds_world s')) = names (w_fs (ds_world s));
  cm_dirs : dirs (w_fs (ds_world s')) = dirs (w_fs (ds_world s));
  cm_inodes : next_inode (w_fs (ds_world s')) = next_inode (w_fs (ds_world s));
  cm_maps t : in_mem s t -> the_map (ds_world s') (mt_entries t) ≡ the_map (ds_world s) (mt_entries t);
}.

Lemma calm_mem s s' t : calm s s' -> in_mem s' t <-> in_mem s t.
Proof. intros Hc. unfold in_mem. by rewrite (cm_active _ _ Hc), (cm_ro _ _ Hc). Qed.

Lemma calm_lookup s s' t k : calm s s' -> in_mem s t -> mem_lookup (ds_world s') t k = mem_lookup (ds_world s) t k.
Proof. intros Hc Hm. unfold mem_lookup. exact (sm_get_proper k k eq_refl _ _ (cm_maps _ _ Hc t Hm)). Qed.

Lemma in_mem_active s : in_mem s (active_memtable s).
Proof. by left. Qed.
Lemma in_mem_ro s id t : sm_get id (read_only_memtables s) = Some t -> in_mem s t.
Proof. intros Ht. right. by exists id. Qed.
#[local] Hint Resolve in_mem_active in_mem_ro : core.

Lemma calm_older s s' t t' : calm s s' -> in_mem s t -> in_mem s t' -> older (ds_world s) t t' -> older (ds_world s') t t'.
Proof. intros Hc Ht Ht' Ho k v v' Hk. rewrite !(calm_lookup _ _ _ _ Hc) by done. by apply Ho. Qed.

Lemma layered_calm s s' tabs ids : calm s s' -> layered s tabs ids -> layered s' tabs ids.
Proof.
  intros Hc [L1 L2 L3 L4 L5 L6 L7].
  split; rewrite ?(cm_ro _ _ Hc), ?(cm_active _ _ Hc), ?(cm_gc _ _ Hc); try done.
  - eapply StronglySorted_mono; [|exact L2]. intros i j _ _ [Hne Hij]. split; [done|]. rewrite (cm_ro _ _ Hc).
    intros t t' Ht Ht'. destruct (Hij t t' Ht Ht'). split; [|done]. eapply calm_older; eauto.
  - intros id t Ht. eapply calm_older; eauto.
  - intros t Ht%(calm_mem _ _ _ Hc) k v. rewrite (calm_lookup _ _ _ _ Hc) by done. by apply L5.
  - intros k h t v Hk Hh Ht%(calm_mem _ _ _ Hc). rewrite (calm_lookup _ _ _ _ Hc) by done. by eapply L6.
Qed.

(** The files of the store are named as before. *)
Lemma disk_ok_frame s s' tabs :
  db_buckets (ds_db s') = db_buckets (ds_db s) ->
  vlog_file (val_log s') = vlog_file (val_log s) -> names (w_fs (ds_world s')) = names (w_fs (ds_world s)) ->
  dirs (w_fs (ds_world s')) = dirs (w_fs (ds_world s)) -> next_inode (w_fs (ds_world s')) = next_inode (w_fs (ds_world s)) ->
  (w_ticks (ds_world s) <= w_ticks (ds_world s'))%nat -> disk_ok N s tabs -> disk_ok N s' tabs.
Proof.
  intros Eb Ev En Ed Ei Ht [[B1 B2 B3 B4 [B5 B6]] D2 D3 D4].
  split; rewrite ?Eb, ?Ev, ?Ei; try done.
  - split; rewrite ?Ei; try done; unfold files_named in *; [by rewrite En|]. split; intros p i; rewrite En, ?Ed, ?Ei; [apply B5|apply B6].
  - intros n Hn. apply D2. lia.
Qed.

Lemma disk_ok_calm s s' tabs : calm s s' -> disk_ok N s tabs -> disk_ok N s' tabs.
Proof. intros []. by apply disk_ok_frame. Qed.

Lemma fresh_dirs_calm s s' b : calm s s' -> fresh_dirs b (ds_db s) -> fresh_dirs b (ds_db s').
Proof.
  intros Hc [F1 F2 F3]. pose proof (cm_ticks _ _ Hc) as Ht. unfold ds_world in Ht. split.
  - intros n Hn. destruct (F1 n ltac:(lia)) as [G1 G2 G3]. split; rewrite ?(cm_buckets _ _ Hc); [|done|done].
    intros q. pose proof (cm_dirs _ _ Hc) as Ed. pose proof (cm_names _ _ Hc) as En. unfold ds_world in Ed, En.
    rewrite path_exists_spec, Ed, En, <- path_exists_spec. apply G1.
  - intros n q Hn Hq%(cm_ranges _ _ Hc). apply (F2 n); [lia|done].
  - intros n n' Hn. apply F3. lia.
Qed.

Lemma fits_frame w w' t : the_map w' (mt_entries t) ≡ the_map w (mt_entries t) -> fits w t -> fits w' t.
Proof. unfold equiv, sm_equiv. intros E [F1 F2]. split; by rewrite E. Qed.

#[local] Instance storable_proper : Proper ((≡) ==> iff) (storable (M := M)).
Proof. unfold equiv, sm_equiv. intros m m' E. split; intros [S1 S2 S3]; split; by rewrite ?E in *. Qed.

(** An invariant of memtables under growing filters *)
Lemma mem_inv_grow w w' t :
  the_map w' (mt_entries t) ≡ the_map w (mt_entries t) -> bits_grow_at w w' (bit_vec (bloom_filter t)) -> mem_inv w t -> mem_inv w' t.
Proof.
  intros Em [Hl Hk] [Hp Ha]. split.
  - unfold probing_ok, zlen in *. by rewrite Hl.
  - intros k. rewrite (sm_get_proper k k eq_refl _ _ Em). intros Hs. by apply Hk, Ha.
Qed.


Lemma roomy_calm s s' : calm s s' -> roomy s -> roomy s'.
Proof.
  intros Hc [R1 R2 R3 R4]. split; rewrite ?(cm_active _ _ Hc), ?(cm_ro _ _ Hc); try done.
  - eapply fits_frame; [|exact R2]. by apply Hc.
  - intros id t Ht. rewrite (cm_maps _ _ Hc t) by eauto. by eapply R4.
Qed.

(** A step of a task other than a flush: moreover the log, the tables' files, the
    filters and the collected entries stay. *)
Record undisturbed s tabs s' : Prop := {
  un_calm : calm s s';
  un_log : val_log s' = val_log s;
  un_ranges : db_ranges (ds_db s') = db_ranges (ds_db s);
  un_next : w_next (ds_world s') = w_next (ds_world s);
  un_gc : the_map (ds_world s') (gc_updated_entries s) = the_map (ds_world s) (gc_updated_entries s);
  un_grow : bits_grow (ds_world s) (ds_world s');
  un_content : content (w_fs (ds_world s')) (file (vlog_file (val_log s))) = content (w_fs (ds_world s)) (file (vlog_file (val_log s)));
  un_files p : p ∈ tabs -> content (w_fs (ds_world s')) (file (data_file (r_sst p.1))) = content (w_fs (ds_world s)) (file (data_file (r_sst p.1))) /\
    content (w_fs (ds_world s')) (file (index_file (r_sst p.1))) = content (w_fs (ds_world s)) (file (index_file (r_sst p.1)));
  un_cold p i : p ∈ tabs -> cold_filter (ds_world s) p.1 i -> content (w_fs (ds_world s')) i = content (w_fs (ds_world s)) i;
}.

Lemma live_range_grow w w' r m : bits_grow w w' -> live_range w r m -> live_range w' r m.
Proof.
  intros Hg (f & d & Hf & Hd & Hp & Ha). destruct (Hg (bit_vec f)) as [Hl Hk]. exists f, d. do 2 (split; [done|]). split.
  - unfold probing_ok, zlen in *. by rewrite Hl.
  - intros k [Hin Hadm]%Ha. split; [done|by apply Hk].
Qed.

Lemma calm_ro_hits s s' k :
  calm s s' -> ro_hits (ds_world s') (read_only_memtables s) k = ro_hits (ds_world s) (read_only_memtables s) k.
Proof.
  intros Hc. unfold ro_hits. apply list_omap_ext, Forall_Forall2_diag, Forall_forall.
  intros t ([id t'] & -> & Hin%sm_elem)%list_elem_of_fmap. rewrite (calm_lookup _ _ _ _ Hc) by eauto. done.
Qed.

Lemma calm_hit s s' tabs k : calm s s' -> store_hit s' tabs k = store_hit s tabs k.
Proof.
  intros Hc. unfold store_hit, lookup_hit.
  by rewrite (cm_active _ _ Hc), (cm_ro _ _ Hc), (calm_lookup _ _ _ _ Hc), (calm_ro_hits _ _ _ Hc) by done.
Qed.

Lemma undisturbed_tab s tabs s' p :
  undisturbed s tabs s' -> p ∈ tabs -> tab_ok (ds_world s) (val_log s) (active_memtable s) p -> tab_ok (ds_world s') (val_log s) (active_memtable s) p.
Proof.
  intros Hu Hp [T1 T2 T3 T4 T5]. pose proof Hu as [Hc _ _ Un _ Ub _ Ux Ucd]. destruct (Ux p Hp). split; try done.
  - destruct T1 as [Th Tr]. split; [by eapply table_holds_frame|].
    destruct Tr as [Tl|[Tc [i Ti]]]; [left; by eapply live_range_grow|right]. split; [done|]. exists i.
    apply (cold_filter_frame (ds_world s)); [by rewrite (cm_names _ _ Hc)|by apply (Ucd p)|done].
  - intros Hl f Hf. rewrite Un. apply T4; [|done]. destruct T1 as [_ [?|[_ [i Ti]]]]; [done|by destruct (live_not_cold _ _ _ _ _ Hl Ti)].
  - intros i Hi. apply T5. eapply cold_filter_back; [exact T1|by rewrite (cm_names _ _ Hc)|done].
Qed.

Lemma undisturbed_inv s es tabs s' : undisturbed s tabs s' -> store_inv N s es tabs -> store_inv N s' es tabs.
Proof.
  intros Hu Hi. pose proof Hu as [Hc Ul Ur Un Ug Ub Uc Ux Ucd]. pose proof (cm_ticks _ _ Hc) as Ht.
  split; rewrite ?(cm_active _ _ Hc), ?(cm_ro _ _ Hc), ?(cm_gc _ _ Hc), ?Ur, ?Un, ?Ul, ?Ug; try apply Hi.
  - destruct (si_log _ _ _ _ Hi). split; [by rewrite Uc|done|done].
  - apply (mem_inv_grow (ds_world s)); [by apply Hc|done|apply Hi].
  - intros k v. rewrite (calm_lookup _ _ _ _ Hc) by done. intros Hv n Hn. apply (si_active_past _ _ _ _ Hi k v Hv). lia.
  - intros id t Hg. destruct (si_ro _ _ _ _ Hi _ _ Hg) as [R1 [A1 A2 A3 A4] R3 R4]. split.
    + apply (mem_inv_grow (ds_world s)); [apply Hc; eauto|done|done].
    + split; by rewrite ?Un.
    + intros k v. rewrite (calm_lookup _ _ _ _ Hc) by eauto. intros Hv n Hn. apply (R3 k v Hv). lia.
    + intros n Hn. apply R4. lia.
  - intros k v Hk. rewrite (calm_lookup _ _ _ _ Hc), (calm_ro_hits _ _ _ Hc) by done. by apply (si_newer _ _ _ _ Hi).
  - destruct (si_index _ _ _ _ Hi) as [X1 X2 X3]. split; [done|done|]. intros d r' Hd. destruct (X3 d r' Hd) as (r & m & ? & ? & ? & Hl).
    exists r, m. do 3 (split; [done|]). by eapply live_range_grow.
  - intros d r Hd f Hf. rewrite Un. by apply (si_spares _ _ _ _ Hi d r).
  - pose proof (si_tabs _ _ _ _ Hi) as Hts. rewrite Forall_forall in *. intros p Hp. by eapply undisturbed_tab; [..|apply Hts].
  - intros k h Hk. rewrite (calm_hit _ _ _ _ Hc). by apply (si_logged _ _ _ _ Hi).
Qed.

(** Ranges to be installed after a step that keeps the filters they have *)
Lemma spare_tasks_frame s s' tabs :
  (forall rs, TRestored rs ∈ tasks s' -> TRestored rs ∈ tasks s) ->
  (forall r m, filter_apart (ds_world s) (active_memtable s) r -> live_range (ds_world s) r m -> live_range (ds_world s') r m) ->
  (forall r, filter_apart (ds_world s) (active_memtable s) r -> filter_apart (ds_world s') (active_memtable s') r) ->
  spare_tasks s tabs -> spare_tasks s' tabs.
Proof.
  intros Ht Hl Ha Hs rs [R1 R2]%Ht%Hs. split.
  - intros d r' Hd. destruct (R1 d r' Hd) as (r & m & ? & ? & ? & ?). exists r, m. do 3 (split; [done|]). apply Hl; [by eapply R2|done].
  - intros d r Hd. by eapply Ha, R2.
Qed.

(** ** Room for a flush *)
Lemma sl_insert_bytes {V} k (v : V) l : mem_bytes (sl_insert k v l) <= mem_entry_size (zlen k) + mem_bytes l.
Proof.
  unfold mem_bytes, mem_entry_size, SIZE_OF_U32, SIZE_OF_U64, SIZE_OF_U8.
  induction l as [|[k' v'] l IH]; cbn [sl_insert foldr fst]; [lia|].
  destruct (key_cmp k k') eqn:E; cbn [foldr fst]; [|lia|lia]. apply key_cmp_eq in E as ->. pose proof (zlen_nonneg k'). lia.
Qed.

Lemma sl_insert_Forall {V} (P : list byte * V -> Prop) k v l : P (k, v) -> Forall P l -> Forall P (sl_insert k v l).
Proof.
  intros Hp. induction 1 as [|[k' v'] l Hx Hl IH]; cbn; [by repeat constructor|].
  destruct (key_cmp k k'); by repeat constructor.
Qed.

Lemma inserted_iter w t e t' w' :
  mem_inserted w t e t' w' -> sm_iter (the_map w' (mt_entries t')) = sl_insert (e_key e) (value_of e) (sm_iter (the_map w (mt_entries t))).
Proof.
  intros Hx. apply sorted_kfind_ext; [apply sm_iter_sorted|apply sl_insert_sorted, sm_iter_sorted|]. intros k.
  rewrite <- sm_get_iter, sl_get_insert, <- sm_get_iter. exact (mx_lookup _ _ _ _ _ Hx k).
Qed.

Lemma empty_iter w t : (forall k, mem_lookup w t k = None) -> sm_iter (the_map w (mt_entries t)) = [].
Proof.
  intros Hnone. destruct (sm_iter _) as [|[k v] l] eqn:E; [done|]. specialize (Hnone k). unfold mem_lookup in Hnone.
  rewrite sm_get_iter, E in Hnone. cbn in Hnone. by rewrite decide_True in Hnone.
Qed.

Lemma fits_insert w t e t' w' :
  mem_inserted w t e t' w' -> key_ok (e_key e, value_of e) -> fits w t -> fits w' t'.
Proof.
  intros Hx Hk [F1 F2]. split; rewrite (inserted_iter _ _ _ _ _ Hx); [by apply sl_insert_Forall|].
  rewrite (mx_size _ _ _ _ _ Hx). pose proof (sl_insert_bytes (e_key e) (value_of e) (sm_iter (the_map w (mt_entries t)))). lia.
Qed.

Lemma mem_bytes_nonneg {V} (l : list (list byte * V)) : 0 <= mem_bytes l.
Proof.
  unfold mem_bytes, mem_entry_size, SIZE_OF_U32, SIZE_OF_U64, SIZE_OF_U8. induction l as [|p l IH]; cbn [foldr]; [done|].
  pose proof (zlen_nonneg p.1). lia.
Qed.

Lemma data_bytes_size (l : list (list byte * SkipMapValue)) :
  zlen (data_bytes (be_of <$> (entry_of <$> l))) <= 2 * mem_bytes l.
Proof.
  rewrite zlen_data_bytes. unfold mem_bytes, mem_entry_size, SIZE_OF_U32, SIZE_OF_U64, SIZE_OF_U8.
  induction l as [|p l IH]; cbn [fmap list_fmap foldr]; [done|]. rewrite block_entry_size_eq.
  change (be_key (be_of (entry_of p))) with (p.1). pose proof (zlen_nonneg p.1). lia.
Qed.

Lemma fits_storable w t :
  fits w t -> mt_size t < 2 ^ 31 -> is_Some (mem_lookup w t HEAD_ENTRY_KEY) -> storable (the_map w (mt_entries t)).
Proof.
  intros [F1 F2] Hs [v Hv]. split; [|exact F1|].
  - intros E. unfold mem_lookup in Hv. rewrite sm_get_iter, E in Hv. done.
  - pose proof (data_bytes_size (sm_iter (the_map w (mt_entries t)))). lia.
Qed.

(** ** The steps of a write *)

(** A write goes to the active memtable, or to a new one when the active one is
    full. The times of the key's versions everywhere else, as tables keep them *)
Definition versions_below s (k : list byte) : list DateTime :=
  (if is_full (active_memtable s) HEAD_KEY_SIZE then option_list (stamp <$> mem_lookup (ds_world s) (active_memtable s) k) else []) ++
  omap (fun t => stamp <$> mem_lookup (ds_world s) t k) (sm_iter (read_only_memtables s)).*2 ++
  omap (fun r => match (sst_lookup (r_sst r) k (ds_world s)).1 with Ok (Some h) => Some h.1.2 | _ => None end)
    (hm_iter (key_ranges (db_ranges (ds_db s)))).*2.

(** A write of [k] now is in a later millisecond than those versions. *)
Definition spaced s (k : list byte) : Prop :=
  Forall (fun t => t < trunc_ms (clock (w_ticks (ds_world s)))) (versions_below s k).

Definition spaced_call s (op : Op) : Prop :=
  match op with OpPut k _ | OpUpdate k _ | OpDelete k => spaced s k | OpGet _ => True end.

(** The same of the invariant's tables, for a write at time [t] *)
Record timely s tabs (k : list byte) (t : DateTime) : Prop := {
  tm_ro id x v : sm_get id (read_only_memtables s) = Some x -> mem_lookup (ds_world s) x k = Some v -> stamp v < trunc_ms t;
  tm_full v : is_full (active_memtable s) HEAD_KEY_SIZE = true -> mem_lookup (ds_world s) (active_memtable s) k = Some v -> stamp v < trunc_ms t;
  tm_tabs (h : Hit) : h ∈ sst_hits tabs k -> h.1.2 < trunc_ms t;
}.

Lemma spaced_timely s es tabs k : store_inv N s es tabs -> spaced s k -> timely s tabs k (clock (w_ticks (ds_world s))).
Proof.
  intros Hi. unfold spaced, versions_below. rewrite Forall_forall. setoid_rewrite elem_of_app. setoid_rewrite elem_of_app. intros Hs. split.
  - intros id x v Hx Hv. apply Hs. right. left. apply list_elem_of_omap. exists x. split; [|by rewrite Hv].
    apply list_elem_of_fmap. exists (id, x). split; [done|by apply sm_elem].
  - intros v Hf Hv. apply Hs. left. rewrite Hf, Hv. by apply list_elem_of_singleton.
  - intros h (p & Hp & Hh)%list_elem_of_omap. apply Hs. do 2 right. rewrite <- (ix_tabs _ _ _ (si_index _ _ _ _ Hi)).
    apply list_elem_of_omap. exists p.1. split; [apply list_elem_of_fmap; by exists p|].
    pose proof (si_tabs _ _ _ _ Hi) as Ht. rewrite Forall_forall in Ht. destruct (Ht p Hp) as [[Th _] _ _ _ _].
    rewrite (sst_lookup_holds _ _ _ _ Th). destruct (sm_get k p.2); [|done]. by injection Hh as <-.
Qed.

(** A logged entry that is newer than what the layers below its memtable have *)
Record fresh_entry s tabs (e : Entry) : Prop := {
  fe_head : e_key e <> HEAD_ENTRY_KEY;
  fe_key : key_ok (e_key e, value_of e);
  fe_start : default_datetime < trunc_ms (e_created_at e);
  fe_timely : timely s tabs (e_key e) (e_created_at e);
}.

(** *** Appending to the log *)
Lemma log_calm s fs' v' : let s0 := with_val_log (set_world s (with_fs (tick (ds_world s)) fs')) v' in
  log_only s s0 -> calm s s0.
Proof. intros s0 [L1 L2 L3 L4 L5]. split; try done. cbn. lia. Qed.

Lemma log_step_inv s es tabs ids fs' v' es' :
  let s0 := with_val_log (set_world s (with_fs (tick (ds_world s)) fs')) v' in
  log_only s s0 -> store_inv N s0 es' tabs -> sys_inv s es tabs ids -> sys_inv s0 es' tabs ids.
Proof.
  intros s0 Hlo Hi [I1 I2 I3 I4 I5 I6 I7 I8]. pose proof (log_calm s fs' v' Hlo) as Hc. fold s0 in Hc. split; [done|..].
  - by eapply layered_calm.
  - by eapply disk_ok_calm.
  - by eapply roomy_calm.
  - destruct I5 as [G1 G2]. split; [|done]. intros h g Hg. destruct (G1 h g Hg) as [[P1 P2 P3 P4]|?]; [left|by right].
    split; try done. apply (mem_inv_frame (ds_world s)); done.
  - destruct I6 as [Q1 Q2 Q3 Q4 Q5]. split; try done. intros n Hn. apply Q4. cbn in Hn. lia.
  - destruct I7 as [M1 M2 M3 M4]. split; [by rewrite (lo_file _ _ Hlo)|by rewrite (lo_next _ _ Hlo)|done|].
    intros p i Hp Hcd. apply (M4 p); [done|]. pose proof (si_tabs _ _ _ _ I1) as Hts. rewrite Forall_forall in Hts.
    eapply cold_filter_back; [apply (Hts p Hp)|by rewrite (lo_names _ _ Hlo)|done].
  - by eapply (spare_tasks_frame s).
Qed.

(** *** Inserting into the active memtable *)
Section insert.
Context (s : S) (es : list ValueLogEntry) (tabs : list (Range * M SkipMapValue)) (ids : list (list byte)).
Context (e : Entry) (a : MemTable) (w : W) (x : Task).
Abbreviation s' := (with_tasks (with_active (set_world s w) a) (tasks s ++ [x])).
Hypothesis (Hs : sys_inv s es tabs ids) (He : fresh_entry s tabs e).
Hypothesis (Hx : mem_inserted (ds_world s) (active_memtable s) e a w).
Hypothesis (Hfull : mt_size (active_memtable s) + mem_entry_size (zlen (e_key e)) < mt_capacity (mt_config (active_memtable s)) + BLOCK_SIZE).

Lemma insert_mem t : in_mem s' t -> t = a \/ exists id, sm_get id (read_only_memtables s) = Some t.
Proof. intros [->|?]; [by left|by right]. Qed.

Lemma insert_ro_map id t : sm_get id (read_only_memtables s) = Some t -> the_map w (mt_entries t) = the_map (ds_world s) (mt_entries t).
Proof. intros Ht. destruct (si_ro _ _ _ _ (sy_store _ _ _ _ Hs) id t Ht) as [_ [] _ _]. by apply Hx. Qed.

Lemma insert_ro_lookup id t k : sm_get id (read_only_memtables s) = Some t -> mem_lookup w t k = mem_lookup (ds_world s) t k.
Proof. intros Ht. unfold mem_lookup. by rewrite (insert_ro_map id t Ht). Qed.

Lemma insert_layered : layered s' tabs ids.
Proof.
  destruct (sy_layered _ _ _ _ Hs) as [L1 L2 L3 L4 L5 L6 L7]. split; cbn; try done.
  - eapply StronglySorted_mono; [|exact L2]. intros i j _ _ [Hne Hij]. split; [done|]. cbn. intros t t' Ht Ht'.
    destruct (Hij t t' Ht Ht') as [Ho Hen]. split; [|done]. intros k v v' Hk.
    rewrite (insert_ro_lookup _ _ _ Ht), (insert_ro_lookup _ _ _ Ht'). by apply Ho.
  - intros id t Ht k v v' Hk. rewrite (insert_ro_lookup _ _ _ Ht), (mx_lookup _ _ _ _ _ Hx). intros Hv.
    case_decide; [|by apply (L3 id t Ht k)]. intros [= <-]. subst k. by apply (tm_ro _ _ _ _ (fe_timely _ _ _ He) id t v).
  - intros t [->|[id Ht]]%insert_mem k v; cbn.
    + rewrite (mx_lookup _ _ _ _ _ Hx). case_decide; [|by apply L5]. intros [= <-]. apply (fe_start _ _ _ He).
    + rewrite (insert_ro_lookup _ _ _ Ht). apply L5. eauto.
  - intros k h t v Hk Hh [->|[id Ht]]%insert_mem; cbn.
    + rewrite (mx_lookup _ _ _ _ _ Hx). case_decide; [|by apply (L6 k)]. intros [= <-]. subst k. left. by apply (tm_tabs _ _ _ _ (fe_timely _ _ _ He)).
    + rewrite (insert_ro_lookup _ _ _ Ht). apply (L6 k); eauto.
Qed.

Lemma insert_roomy : roomy s'.
Proof.
  destruct (sy_room _ _ _ _ Hs) as [R1 R2 R3 R4]. split; cbn; rewrite ?(mx_config _ _ _ _ _ Hx); try done.
  - by eapply fits_insert; [exact Hx|apply (fe_key _ _ _ He)|].
  - by rewrite (mx_size _ _ _ _ _ Hx).
  - intros id t Ht. rewrite (insert_ro_map id t Ht). by eapply R4.
Qed.

Lemma insert_gc_ok : gc_ok s'.
Proof.
  destruct (sy_gc _ _ _ _ Hs) as [G1 G2]. split; [|done]. intros h g Hg. destruct (G1 h g Hg) as [[P1 P2 P3 P4]|(t & [->|Ht] & [T1 T2 T3])].
  - left. pose proof (P4 (active_memtable s) ltac:(done)). split; cbn; rewrite ?(mx_next _ _ _ _ _ Hx); try done.
    + apply (mem_inv_grow (ds_world s)); [by rewrite (mx_maps _ _ _ _ _ Hx)|apply Hx|done].
    + intros t [->|[id Ht]]%insert_mem; [by rewrite (mx_entries _ _ _ _ _ Hx)|apply P4; eauto].
  - right. exists a. split; [by left|]. split; rewrite ?(mx_entries _ _ _ _ _ Hx), ?(mx_filter _ _ _ _ _ Hx), ?(mx_hash _ _ _ _ _ Hx); done.
  - right. exists t. split; [by right|done].
Qed.

Lemma insert_step_inv :
  store_inv N s' es tabs -> (forall id t, x <> TFlush id t) -> (forall m, x <> TWriteMeta m) -> (forall rs, x <> TRestored rs) ->
  sys_inv s' es tabs ids.
Proof.
  intros Hi X1 X2 X3. split; [done|exact insert_layered| |exact insert_roomy|exact insert_gc_ok|..].
  - eapply disk_ok_frame; [..|apply Hs]; try done; cbn; by rewrite ?(mx_fs _ _ _ _ _ Hx), ?(mx_ticks _ _ _ _ _ Hx).
  - assert (flush_ids (tasks s ++ [x]) = flush_ids (tasks s)) as Ef.
    { unfold flush_ids. rewrite omap_app. cbn. destruct x; [by rewrite app_nil_r..|by destruct (X1 id t)|by rewrite app_nil_r]. }
    destruct (sy_queue _ _ _ _ Hs) as [Q1 Q2 Q3 Q4 Q5]. split; cbn; rewrite ?Ef, ?(mx_ticks _ _ _ _ _ Hx); try done.
    + intros id t [Ht|Ht%list_elem_of_singleton]%elem_of_app; [by apply Q1|by destruct (X1 id t)].
    + intros m [Hm|Hm%list_elem_of_singleton]%elem_of_app; [by apply Q5|by destruct (X2 m)].
  - destruct (sy_meta _ _ _ _ Hs) as [M1 M2 M3 M4]. split; cbn; rewrite ?(mx_fs _ _ _ _ _ Hx); try done.
    intros p i Hp (g & q & f & Hc). apply (M4 p); [done|]. exists g, q, f. by rewrite <- (mx_fs _ _ _ _ _ Hx).
  - pose proof (ext_inserted _ _ _ _ _ (val_log s) Hx) as Hext. eapply (spare_tasks_frame s); [..|apply Hs]; cbn.
    + intros rs [?|Hr%list_elem_of_singleton]%elem_of_app; [done|by destruct (X3 rs)].
    + intros r m. by eapply live_ext.
    + intros r. eapply filter_apart_next; [apply Hext|]. left. split; apply Hx.
Qed.
End insert.

(** *** Moving the active memtable *)
Lemma enqueue_spec (ts : list (list byte * MemTable)) st :
  NoDup ts.*1 -> (forall id, id ∈ (enqueue ts st).1 <-> id ∈ st \/ id ∈ ts.*1) /\
  (forall id, id ∈ flush_ids (enqueue ts st).2 <-> id ∈ ts.*1 /\ id ∉ st) /\ NoDup (flush_ids (enqueue ts st).2) /\
  (forall x, x ∈ (enqueue ts st).2 -> exists id t, x = TFlush id t /\ (id, t) ∈ ts).
Proof.
  revert st. induction ts as [|[id t] ts IH]; intros st Hnd; cbn [enqueue].
  { cbn. split; [set_solver|]. split; [set_solver|]. split; [constructor|]. by intros x ?%not_elem_of_nil. }
  cbn in Hnd. apply NoDup_cons in Hnd as [Hid Hnd]. rewrite fmap_cons. cbn [fst]. destruct (decide (id ∈ st)) as [Hin|Hin].
  - destruct (IH st Hnd) as (I1 & I2 & I3 & I4). split; [intros j; rewrite I1, elem_of_cons; naive_solver|].
    split; [intros j; rewrite I2, elem_of_cons; naive_solver|]. split; [done|].
    intros x (j & u & -> & Hu)%I4. exists j, u. split; [done|by right].
  - destruct (IH ({[id]} ∪ st) Hnd) as (I1 & I2 & I3 & I4). cbn [fst snd].
    change (flush_ids (TFlush id t :: ?l)) with (id :: flush_ids l).
    split; [intros j; rewrite I1, elem_of_cons, elem_of_union, elem_of_singleton; tauto|]. split; [|split].
    + intros j. rewrite elem_of_cons, I2, elem_of_cons, elem_of_union, elem_of_singleton. destruct (decide (j = id)); [naive_solver|tauto].
    + apply NoDup_cons. split; [|done]. rewrite I2. tauto.
    + intros x [->|(j & u & -> & Hu)%I4]%elem_of_cons; eexists _, _; (split; [done|]); [by left|by right].
Qed.

Lemma older_NoDup s ids : StronglySorted (ro_older s) ids -> NoDup ids.
Proof.
  induction 1 as [|id ids Hs IH Hf]; constructor; [|done]. rewrite Forall_forall in Hf. intros Hid%Hf. by destruct Hid.
Qed.

Lemma elem_of_take_sub {A} (x : A) n l : x ∈ take n l -> x ∈ l.
Proof. rewrite <- (take_drop n l) at 2. intros Hx. apply elem_of_app. by left. Qed.
Lemma NoDup_take_sub {A} n (l : list A) : NoDup l -> NoDup (take n l).
Proof. rewrite <- (take_drop n l) at 1. by intros [? _]%NoDup_app. Qed.

Lemma flush_ids_app ts ts' : flush_ids (ts ++ ts') = flush_ids ts ++ flush_ids ts'.
Proof. apply omap_app. Qed.

Lemma flush_ids_elem ts id : id ∈ flush_ids ts <-> exists t, TFlush id t ∈ ts.
Proof.
  unfold flush_ids. rewrite list_elem_of_omap. split.
  - intros ([] & Hin & [= <-]). by eexists.
  - intros [t Ht]. by exists (TFlush id t).
Qed.

Section migrate.
Context (s s' : S) (es : list ValueLogEntry) (tabs : list (Range * M SkipMapValue)) (ids : list (list byte)).
Context (a1 : MemTable) (w1 : W).
Hypothesis (Ho : orderly_env N) (Hs : sys_inv s es tabs ids) (HN : (w_ticks (ds_world s) + 8 <= N)%nat).
Hypothesis (Hm : migrated s s' a1 w1).
Abbreviation new_id := (new_table_id (w_ticks w1)).
Abbreviation moved := (mark_readonly a1).

Lemma moved_ticks : w_ticks w1 = (2 + w_ticks (ds_world s))%nat /\ (3 + w_ticks (ds_world s) <= w_ticks (ds_world s'))%nat.
Proof.
  destruct Hm as [Hx (w2 & g & ? & C1 & C2 & _) _ _ _ _ _ _ _ _ _]. rewrite (mc_ticks _ _ _ _ C2), (mc_ticks _ _ _ _ C1).
  cbn. rewrite (mx_ticks _ _ _ _ _ Hx). cbn. lia.
Qed.

Lemma moved_get i t : sm_get i (read_only_memtables s') = Some t <->
  (i = new_id /\ t = moved) \/ (i <> new_id /\ sm_get i (read_only_memtables s) = Some t).
Proof. rewrite (mg_ro _ _ _ _ Hm), sm_get_insert. case_decide; naive_solver. Qed.

Lemma new_id_fresh : sm_get new_id (read_only_memtables s) = None.
Proof.
  destruct (sm_get new_id _) as [t|] eqn:E; [|done]. destruct (si_ro _ _ _ _ (sy_store _ _ _ _ Hs) _ _ E) as [_ _ _ Hid].
  exfalso. apply (Hid (w_ticks w1)); [|done]. destruct moved_ticks. lia.
Qed.

Lemma moved_mem t : in_mem s' t ->
  t = active_memtable s' \/ t = moved \/ exists i, i <> new_id /\ sm_get i (read_only_memtables s) = Some t.
Proof. intros [->|[i [[_ ->]|[Hne Hi]]%moved_get]]; eauto. Qed.

Lemma moved_lookup k : mem_lookup (ds_world s') moved k =
  if decide (k = HEAD_ENTRY_KEY) then Some (value_of (head_entry s)) else mem_lookup (ds_world s) (active_memtable s) k.
Proof. apply (migrated_old N s s' es tabs a1 w1 (env_orderly _ Ho) (sy_store _ _ _ _ Hs) Hm). Qed.

Lemma moved_ro_map i t : sm_get i (read_only_memtables s) = Some t ->
  the_map (ds_world s') (mt_entries t) = the_map (ds_world s) (mt_entries t).
Proof.
  intros Ht. destruct (si_ro _ _ _ _ (sy_store _ _ _ _ Hs) _ _ Ht) as [_ [] _ _].
  by apply (we_maps _ _ _ _ (migrated_ext _ _ _ _ Hm)).
Qed.

Lemma moved_ro_lookup i t k : sm_get i (read_only_memtables s) = Some t -> mem_lookup (ds_world s') t k = mem_lookup (ds_world s) t k.
Proof. intros Ht. unfold mem_lookup. by rewrite (moved_ro_map _ _ Ht). Qed.

Lemma moved_locs : mt_entries moved = mt_entries (active_memtable s) /\
  bit_vec (bloom_filter moved) = bit_vec (bloom_filter (active_memtable s)).
Proof. split; apply (mg_inserted _ _ _ _ Hm). Qed.

(** Where a binding of a client key was before the move *)
Lemma moved_from t k v : in_mem s' t -> k <> HEAD_ENTRY_KEY -> mem_lookup (ds_world s') t k = Some v ->
  exists t', in_mem s t' /\ mem_lookup (ds_world s) t' k = Some v.
Proof.
  intros Ht Hk Hv. destruct (moved_mem t Ht) as [->|[->|(i & _ & Hi)]].
  - destruct (migrated_active _ _ _ _ Hm) as (_ & Hnone & _). by rewrite Hnone in Hv.
  - rewrite moved_lookup, decide_False in Hv by done. by eexists.
  - rewrite (moved_ro_lookup _ _ _ Hi) in Hv. exists t. eauto.
Qed.

Lemma moved_ids i : i ∈ ids ++ [new_id] <-> is_Some (sm_get i (read_only_memtables s')).
Proof.
  rewrite elem_of_app, list_elem_of_singleton, (ly_ids _ _ _ (sy_layered _ _ _ _ Hs)), (mg_ro _ _ _ _ Hm), sm_get_insert.
  case_decide; [subst; split; [by eexists|by right]|]. split; [by intros [?|?]|by left].
Qed.

Lemma moved_layered : layered s' tabs (ids ++ [new_id]).
Proof.
  pose proof (sy_layered _ _ _ _ Hs) as [L1 L2 L3 L4 L5 L6 L7]. destruct moved_locs as [Ee _]. destruct moved_ticks as [T1 T2].
  pose proof (sy_store _ _ _ _ Hs) as Hi. destruct (migrated_active _ _ _ _ Hm) as (_ & Hnone & _).
  assert (forall i, i ∈ ids -> i <> new_id) as Hnew by (intros i Hin%L1 ->; rewrite new_id_fresh in Hin; by destruct Hin).
  split.
  - exact moved_ids.
  - apply StronglySorted_app. split; [|split; [|by repeat constructor]].
    + intros i j Hin ->%list_elem_of_singleton. split; [by apply Hnew|].
      intros t t' [[? _]|[_ Ht]]%moved_get [[_ ->]|[? _]]%moved_get; try done; [by destruct (Hnew i)|]. split.
      * intros k v v' Hk. rewrite (moved_ro_lookup _ _ _ Ht), moved_lookup, decide_False by done. by apply (L3 i t Ht).
      * rewrite Ee. apply (si_ro _ _ _ _ Hi _ _ Ht).
    + eapply StronglySorted_mono; [|exact L2]. intros i j Hin Hjn [Hne Hij]. split; [done|].
      intros t t' [[? _]|[_ Ht]]%moved_get [[? _]|[_ Ht']]%moved_get; [by destruct (Hnew i)|by destruct (Hnew i)|by destruct (Hnew j)|].
      destruct (Hij t t' Ht Ht') as [Hol Hent]. split; [|done]. intros k v v' Hk.
      rewrite (moved_ro_lookup _ _ _ Ht), (moved_ro_lookup _ _ _ Ht'). by apply Hol.
  - intros i t _ k v v' _ _. by rewrite Hnone.
  - intros i t. rewrite (mg_gc _ _ _ _ Hm). intros [[_ ->]|[_ Ht]]%moved_get; [|by apply (L4 i)].
    rewrite Ee. apply not_eq_sym, (si_gc_apart _ _ _ _ Hi).
  - intros t Ht k v Hv. destruct (decide (k = HEAD_ENTRY_KEY)) as [->|Hk].
    + destruct (moved_mem t Ht) as [->|[->|(i & _ & Hget)]]; [by rewrite Hnone in Hv|..].
      * rewrite moved_lookup, decide_True in Hv by done. injection Hv as <-. unfold stamp. cbn.
        apply (env_start _ Ho). lia.
      * rewrite (moved_ro_lookup _ _ _ Hget) in Hv. by eapply (L5 t ltac:(eauto)).
    + destruct (moved_from t k v Ht Hk Hv) as (t' & Ht' & Hv'). by eapply (L5 t' Ht').
  - intros k h t v Hk Hh Ht Hv. destruct (moved_from t k v Ht Hk Hv) as (t' & Ht' & Hv'). by eapply L6.
  - done.
Qed.

Lemma moved_roomy : roomy s'.
Proof.
  pose proof (sy_room _ _ _ _ Hs) as [R1 R2 R3 R4]. pose proof (mg_inserted _ _ _ _ Hm) as Hx. pose proof (si_active_lt _ _ _ _ (sy_store _ _ _ _ Hs)) as Hlt.
  destruct (mg_created _ _ _ _ Hm) as (w2 & g & h & C1 & C2 & _). pose proof (mx_next _ _ _ _ _ Hx) as Hn. cbn in Hn.
  pose proof (mc_entries _ _ _ _ C1) as N1. cbn in N1.
  assert (sm_iter (the_map (ds_world s') (mt_entries (active_memtable s'))) = []) as Hemp by apply empty_iter, (migrated_active _ _ _ _ Hm).
  split; rewrite ?(mc_config _ _ _ _ C1), ?(mx_config _ _ _ _ _ Hx); try done.
  - split; rewrite Hemp; [constructor|]. rewrite (mc_size _ _ _ _ C1). done.
  - rewrite (mc_size _ _ _ _ C1). pose proof (co_capacity _ (si_config _ _ _ _ (sy_store _ _ _ _ Hs))). unfold BLOCK_SIZE. lia.
  - intros i t [[_ ->]|[_ Ht]]%moved_get; [|rewrite (moved_ro_map _ _ Ht); by eapply R4].
    apply (fits_storable _ moved).
    + apply (fits_frame w1).
      * rewrite (proj1 moved_locs), (mc_maps _ _ _ _ C2), (mc_maps _ _ _ _ C1); [done|cbn; lia..].
      * destruct (fits_insert _ _ _ _ _ Hx) as [F1 F2]; [|by apply (fits_frame (ds_world s))|by split].
        split; [done|]. split; [by vm_compute|]. cbn. apply clock_valid.
    + change (mt_size moved) with (mt_size a1). rewrite (mx_size _ _ _ _ _ Hx).
      change (mem_entry_size (zlen (e_key (head_entry s)))) with 17. unfold BLOCK_SIZE in *. lia.
    + rewrite moved_lookup, decide_True by done. by eexists.
Qed.

Lemma moved_gc_ok : gc_ok s'.
Proof.
  pose proof (sy_gc _ _ _ _ Hs) as [G1 G2]. pose proof (sy_store _ _ _ _ Hs) as Hi. destruct (mg_created _ _ _ _ Hm) as (w2 & g & h & C1 & C2 & Eg & Hh).
  destruct (migrated_active _ _ _ _ Hm) as (_ & _ & A1 & _). destruct moved_locs as [E1 E2]. pose proof (mg_inserted _ _ _ _ Hm) as Hx.
  pose proof (mc_entries _ _ _ _ C1) as N1. pose proof (mc_entries _ _ _ _ C2) as N3. pose proof (mx_next _ _ _ _ _ Hx) as Hn. cbn in *.
  destruct (si_gc_apart _ _ _ _ Hi) as [_ Hgc]. destruct (si_active_lt _ _ _ _ Hi) as [La _].
  assert (forall t, in_mem s t -> (mt_entries t < w_next (ds_world s))%nat) as Hlt.
  { intros t [->|[i Ht]]; [done|]. by destruct (si_ro _ _ _ _ Hi _ _ Ht) as [_ [] _ _]. }
  assert (forall h' g', gc_tables s !! h' = Some g' -> (mt_entries g' < w_next (ds_world s))%nat) as Hold.
  { intros h' g' [[_ [? _] _ _]|(t & Ht & Htw)]%G1; [done|]. rewrite (tw_entries _ _ Htw). by apply Hlt. }
  split; rewrite Eg.
  - intros h' g' [[<- <-]|[Hne Hg']]%lookup_insert_Some.
    + left. pose proof (mc_filter _ _ _ _ C2). split; rewrite ?(mg_gc _ _ _ _ Hm).
      * apply C2.
      * lia.
      * lia.
      * intros t [->|[->|(i & _ & Ht)]]%moved_mem; [lia|cbn; rewrite E1; lia|]. pose proof (Hlt t ltac:(eauto)). lia.
    + pose proof (migrated_ext _ _ _ _ Hm) as Hext. pose proof (Hold h' g' Hg'). destruct (G1 h' g' Hg') as [[P1 P2 P3 P4]|(t & [->|[i Ht]] & [T1 T2 T3])].
      * left. destruct P2. pose proof (P4 (active_memtable s) ltac:(done)). split; rewrite ?(mg_gc _ _ _ _ Hm); try done.
        -- apply (mem_inv_grow (ds_world s)); [by rewrite (we_maps _ _ _ _ Hext)| |done]. unfold bits_grow_at.
           rewrite (mc_bits _ _ _ _ C2), (mc_bits _ _ _ _ C1) by (cbn; lia). apply (mx_grow _ _ _ _ _ Hx).
        -- lia.
        -- intros t [->|[->|(i & _ & Ht)]]%moved_mem; [lia|cbn; by rewrite E1|]. apply P4. eauto.
      * right. exists moved. split; [right; exists new_id; apply moved_get; by left|]. split; cbn.
        -- by rewrite E1.
        -- by rewrite E2.
        -- by rewrite (mx_hash _ _ _ _ _ Hx).
      * right. exists t. split; [|done]. right. exists i. apply moved_get. right. split; [|done]. intros ->. by rewrite new_id_fresh in Ht.
  - intros h1 h2 g1 g2 Hne [[<- <-]|[_ Hg1]]%lookup_insert_Some [[<- <-]|[_ Hg2]]%lookup_insert_Some; [done|..].
    + pose proof (Hold _ _ Hg2). lia.
    + pose proof (Hold _ _ Hg1). lia.
    + by apply (G2 h1 h2).
Qed.

Lemma moved_stream_empty : sm_is_empty (read_only_memtables s) = true -> ids = [].
Proof.
  intros He. destruct ids as [|i l]; [done|]. destruct (proj1 (ly_ids _ _ _ (sy_layered _ _ _ _ Hs) i) ltac:(by left)) as [t Ht].
  rewrite (proj1 (sm_is_empty_spec _) He) in Ht. done.
Qed.

Lemma moved_queue_ok : queue_ok s' (ids ++ [new_id]).
Proof.
  pose proof (sy_queue _ _ _ _ Hs) as [Q1 [n Qn] Q3 Q4 Q5]. destruct (mg_queue _ _ _ _ Hm) as (m & Em & _ & _ & _ & Est & Etk). destruct moved_ticks as [T1 T2].
  set (st := if sm_is_empty (read_only_memtables s) then ∅ else flush_stream s).
  assert (forall i, i ∈ ids -> i ∈ st <-> i ∈ flush_ids (tasks s)) as Hst.
  { intros i Hin. unfold st. destruct (sm_is_empty _) eqn:Ee; [|by apply Q3]. rewrite (moved_stream_empty Ee) in Hin. by apply not_elem_of_nil in Hin. }
  assert (forall k, (w_ticks (ds_world s) <= k < N)%nat -> new_table_id k ∉ st) as Hfut by (intros k Hk; unfold st; destruct (sm_is_empty _); [set_solver|by apply Q4]).
  assert (forall i, i ∈ flush_ids (tasks s) -> i ∈ ids) as Hsub by (intros i; rewrite Qn; by intros ?%elem_of_take_sub).
  assert (new_id ∉ ids) as Hnew.
  { intros Hin%(ly_ids _ _ _ (sy_layered _ _ _ _ Hs)). rewrite new_id_fresh in Hin. by destruct Hin. }
  set (q := if decide (sm_len (read_only_memtables s') >= max_buffer_write_number (ds_config s)) then enqueue (sm_iter (read_only_memtables s')) st else (st, [])).
  change (queued _ _ _ _) with q in Est, Etk.
  destruct (enqueue_spec (sm_iter (read_only_memtables s')) st (sorted_keys_fst_NoDup _)) as (B1 & B2 & B3 & B4).
  assert (forall i, i ∈ (sm_iter (read_only_memtables s')).*1 <-> i ∈ ids ++ [new_id]) as Hkeys.
  { intros i. rewrite moved_ids. split; [intros ([j t] & -> & Hin%sm_elem)%list_elem_of_fmap; by eexists|].
    intros [t Ht%sm_elem]. apply list_elem_of_fmap. by exists (i, t). }
  assert (forall x, x ∈ q.2 -> exists i t, x = TFlush i t /\ sm_get i (read_only_memtables s') = Some t) as Hq2.
  { unfold q. case_decide; [|by intros x ?%not_elem_of_nil]. intros x (i & t & -> & Hin%sm_elem)%B4. by exists i, t. }
  assert (flush_ids (tasks s') = flush_ids (tasks s) ++ flush_ids q.2) as Efl by (rewrite Etk, flush_ids_app; done).
  split.
  - intros i t. rewrite Etk, !elem_of_app. intros [Ht|[Ht|Ht]].
    + apply moved_get. right. split; [|by apply Q1]. intros ->. apply Q1 in Ht. by rewrite new_id_fresh in Ht.
    + by repeat (apply elem_of_cons in Ht as [[=]|Ht]); apply not_elem_of_nil in Ht.
    + destruct (Hq2 _ Ht) as (i' & t' & [= -> ->] & Hg). done.
  - rewrite Efl. unfold q. case_decide.
    + exists (length (ids ++ [new_id])). rewrite take_ge by done. apply NoDup_Permutation.
      * apply NoDup_app. split; [rewrite Qn; by eapply NoDup_take_sub, older_NoDup, (ly_sorted _ _ _ (sy_layered _ _ _ _ Hs))|]. split; [|exact B3].
        intros i Hin [_ Hni]%B2. by apply Hni, Hst; [apply Hsub|].
      * eapply older_NoDup, (ly_sorted _ _ _ moved_layered).
      * intros i. rewrite elem_of_app, B2, Hkeys. split; [intros [Hin%Hsub|[Hin _]]; [apply elem_of_app; by left|done]|].
        intros Hin. destruct (decide (i ∈ st)) as [Hi|Hi]; [left|by right]. apply elem_of_app in Hin as [Hin| ->%list_elem_of_singleton].
        -- by apply Hst.
        -- exfalso. apply (Hfut (w_ticks w1)); [lia|done].
    + exists (min n (length ids)). rewrite app_nil_r, Qn, take_app_le by lia.
      destruct (decide (n <= length ids)%nat); [by rewrite Nat.min_l by lia|]. by rewrite Nat.min_r, !take_ge by lia.
  - intros i Hin. rewrite Est, Efl, elem_of_app. unfold q. case_decide; cbn [fst snd].
    + rewrite B1, B2, Hkeys. destruct (decide (i ∈ st)) as [Hi|Hi]; [|naive_solver]. split; [intros _|by left].
      apply elem_of_app in Hin as [Hin| ->%list_elem_of_singleton]; [left; by apply Hst|].
      exfalso. apply (Hfut (w_ticks w1)); [lia|done].
    + change (flush_ids []) with (@nil (list byte)). rewrite elem_of_nil. apply elem_of_app in Hin as [Hin| ->%list_elem_of_singleton]; [rewrite Hst by done; tauto|].
      split; [intros Hi; exfalso; apply (Hfut (w_ticks w1)); [lia|done]|intros [Hi%Hsub|[]]; done].
  - intros k Hk. rewrite Est. unfold q. case_decide; cbn [fst]; [|apply Hfut; lia]. rewrite B1, Hkeys, moved_ids. intros [Hi|[t Ht]]; [by apply (Hfut k); [lia|]|].
    apply moved_get in Ht as [[E _]|[_ Ht]].
    + by apply (ids_distinct _ (env_orderly _ Ho) (w_ticks w1) k ltac:(lia)).
    + destruct (si_ro _ _ _ _ (sy_store _ _ _ _ Hs) _ _ Ht) as [_ _ _ Hid]. by apply (Hid k ltac:(lia)).
  - intros m'. rewrite (mg_meta_file _ _ _ _ Hm), Etk, !elem_of_app. intros [Hx|[Hx|Hx]].
    + by apply Q5.
    + apply elem_of_cons in Hx as [[=]|[[= ->]|[]%not_elem_of_nil]%elem_of_cons]. done.
    + destruct (Hq2 _ Hx) as (? & ? & [=] & _).
Qed.

(** Moving a memtable spawns no installation. *)
Lemma moved_restored rs : TRestored rs ∈ tasks s' -> TRestored rs ∈ tasks s.
Proof.
  destruct (mg_queue _ _ _ _ Hm) as (m & _ & _ & _ & _ & _ & Etk). rewrite Etk, !elem_of_app. intros [Hx|[Hx|Hx]]; [done|..].
  - by repeat (apply elem_of_cons in Hx as [[=]|Hx]); apply not_elem_of_nil in Hx.
  - unfold queued in Hx. case_decide; [|by apply not_elem_of_nil in Hx].
    apply (proj2 (proj2 (proj2 (enqueue_spec _ _ (sorted_keys_fst_NoDup _))))) in Hx as (? & ? & [=] & _).
Qed.

Lemma moved_step_inv : sys_inv s' es tabs (ids ++ [new_id]).
Proof.
  destruct (migrated_active _ _ _ _ Hm) as (_ & _ & _ & _ & _ & Efs). destruct moved_ticks.
  split; [|exact moved_layered| |exact moved_roomy|exact moved_gc_ok|exact moved_queue_ok|..].
  - eapply (migrated_inv N); [apply (env_orderly _ Ho)|apply Hs|done|exact Hm].
  - eapply disk_ok_frame; [..|apply Hs]; rewrite ?Efs; try apply Hm; try done; [by rewrite (mg_log _ _ _ _ Hm)|lia].
  - destruct (sy_meta _ _ _ _ Hs) as [M1 M2 M3 M4]. split; rewrite ?(mg_meta_file _ _ _ _ Hm), ?Efs, ?(mg_log _ _ _ _ Hm); try done.
    intros p i Hp (g & q & f & Hc). apply (M4 p); [done|]. exists g, q, f. by rewrite <- Efs.
  - pose proof (migrated_ext _ _ _ _ Hm) as Hext. destruct (migrated_active _ _ _ _ Hm) as (_ & _ & A1 & A2 & _).
    eapply (spare_tasks_frame s); [exact moved_restored|..|apply Hs].
    + intros r m. by eapply live_ext.
    + intros r. eapply filter_apart_next; [apply Hext|]. right. lia.
Qed.
End migrate.

(** *** A whole write *)
Definition short_key (k : list byte) : Prop := zlen k + 17 <= BLOCK_SIZE.

Lemma fresh_entry_start s tabs fs' v' k off b :
  let s0 := with_val_log (set_world s (with_fs (tick (ds_world s)) fs')) v' in
  orderly_env N -> (w_ticks (ds_world s) < N)%nat -> k <> [] -> k <> HEAD_ENTRY_KEY -> short_key k ->
  timely s tabs k (clock (w_ticks (ds_world s))) -> fresh_entry s0 tabs (entry_new k off (clock (w_ticks (ds_world s))) b).
Proof.
  intros s0 Ho HN Hne Hh Hk Ht. split; cbn; [done|..|by destruct Ht].
  - split; [done|]. split; [done|apply clock_valid].
  - by apply (env_start _ Ho).
Qed.

Lemma fresh_entry_moved s s' es tabs ids a1 w1 e :
  orderly_env N -> sys_inv s es tabs ids -> (w_ticks (ds_world s) + 8 <= N)%nat -> is_full (active_memtable s) HEAD_KEY_SIZE = true ->
  migrated s s' a1 w1 -> fresh_entry s tabs e -> fresh_entry s' tabs e.
Proof.
  intros Ho Hs HN Hfull Hm [F1 F2 F3 [T1 T2 T3]]. split; try done. split; [..|done].
  - intros id x v Hx Hv. destruct (moved_from s s' es tabs ids a1 w1 Ho Hs Hm x _ v (or_intror (ex_intro _ id Hx)) F1 Hv) as (t' & [->|[i Hi]] & Hv'); eauto.
  - intros v _. destruct (migrated_active _ _ _ _ Hm) as (_ & Hnone & _). by rewrite Hnone.
Qed.

Lemma put_trace_inv s es tabs ids e s' :
  orderly_env N -> sys_inv s es tabs ids -> (w_ticks (ds_world s) + 8 <= N)%nat -> fresh_entry s tabs e ->
  put_trace N s es tabs e s' -> store_inv N s' es tabs -> exists ids', sys_inv s' es tabs ids'.
Proof.
  intros Ho Hs HN He (s1 & a & w & Hroom & Hi1 & Hx & ->) Hi'. pose proof (fe_key _ _ _ He) as (_ & Hlen & _). cbn in Hlen.
  pose proof (co_capacity _ (si_config _ _ _ _ Hi1)).
  assert (exists ids1, sys_inv s1 es tabs ids1 /\ fresh_entry s1 tabs e /\ mt_size (active_memtable s1) + mem_entry_size (zlen (e_key e)) <
    mt_capacity (mt_config (active_memtable s1)) + BLOCK_SIZE) as (ids1 & Hs1 & He1 & Hsz).
  { unfold mem_entry_size, SIZE_OF_U32, SIZE_OF_U64, SIZE_OF_U8. destruct Hroom as [[-> Hfull]|(Hfull & a1 & w1 & Hm)].
    - exists ids. do 2 (split; [done|]). unfold is_full, SIZE_OF_U32, SIZE_OF_U64, SIZE_OF_U8 in Hfull. apply bool_decide_eq_false in Hfull.
      unfold HEAD_KEY_SIZE in Hfull. lia.
    - eexists. split; [by eapply moved_step_inv|]. split; [by eapply fresh_entry_moved|].
      destruct (mg_created _ _ _ _ Hm) as (? & ? & ? & C1 & _). rewrite (mc_size _ _ _ _ C1). lia. }
  exists ids1. by eapply insert_step_inv.
Qed.

Lemma wrote_inv s es tabs ids k val s' :
  orderly_env N -> sys_inv s es tabs ids -> (w_ticks (ds_world s) + 9 <= N)%nat -> k <> [] -> k <> HEAD_ENTRY_KEY -> short_key k ->
  timely s tabs k (clock (w_ticks (ds_world s))) ->
  wrote N s es tabs k val s' -> store_inv N s' (es ++ [log_entry k val (clock (w_ticks (ds_world s)))]) tabs ->
  exists ids', sys_inv s' (es ++ [log_entry k val (clock (w_ticks (ds_world s)))]) tabs ids'.
Proof.
  intros Ho Hs HN Hne Hh Hk Htm (v' & fs' & Hlo & Hi0 & Htr) Hi'. eapply put_trace_inv; [done|by eapply log_step_inv|cbn; lia| |exact Htr|done].
  eapply fresh_entry_start; try done. lia.
Qed.

(** *** Reading, and bringing the index up to date *)
Lemma mem_below s es tabs t : store_inv N s es tabs -> in_mem s t ->
  (mt_entries t < w_next (ds_world s))%nat /\ (bit_vec (bloom_filter t) < w_next (ds_world s))%nat.
Proof. intros Hi [->|[i Ht]]; [apply Hi|]. by destruct (si_ro _ _ _ _ Hi _ _ Ht) as [_ [] _ _]. Qed.

Lemma retabled_hits w tabs tabs' k h : retabled w tabs tabs' -> h ∈ sst_hits tabs' k <-> h ∈ sst_hits tabs k.
Proof. intros Hr. by rewrite (sst_hits_perm k _ _ (re_maps _ _ _ Hr)). Qed.

Lemma retabled_layered s w tabs tabs' ids : retabled w tabs tabs' -> layered s tabs ids -> layered s tabs' ids.
Proof.
  intros Hr [L1 L2 L3 L4 L5 L6 L7]. split; try done.
  - intros k h t v Hk Hh%(retabled_hits _ _ _ _ _ Hr). by apply L6.
  - intros k Hk. rewrite (sst_hits_perm k _ _ (re_maps _ _ _ Hr)). by apply L7.
Qed.

Lemma timely_calm s s' tabs k t : calm s s' -> timely s tabs k t -> timely s' tabs k t.
Proof.
  intros Hc [T1 T2 T3]. split; [..|done].
  - intros id x v. rewrite (cm_ro _ _ Hc). intros Hx. rewrite (calm_lookup _ _ _ _ Hc) by eauto. by eapply T1.
  - intros v. rewrite (cm_active _ _ Hc), (calm_lookup _ _ _ _ Hc) by eauto. apply T2.
Qed.

Lemma timely_retabled s w tabs tabs' k t : retabled w tabs tabs' -> timely s tabs k t -> timely s tabs' k t.
Proof. intros Hr [T1 T2 T3]. split; try done. intros h Hh%(retabled_hits _ _ _ _ _ Hr). by apply T3. Qed.

(** The table that an element of the new list stands for *)
Lemma retabled_elem w tabs tabs' p : retabled w tabs tabs' -> p ∈ tabs' -> exists q, q ∈ tabs /\ stands_for p.1 q.1.
Proof. intros Hr [Hp|(r & Hp & Hs & _)]%(re_tabs _ _ _ Hr); [exists p; split; [done|apply stands_refl]|by exists (r, p.2)]. Qed.

Lemma searched_calm s es tabs s' : store_inv N s es tabs -> searched s tabs s' -> calm s s'.
Proof.
  intros Hi (w' & rest & Hg & _ & ->). split; cbn; try done; rewrite ?(hx_fs _ _ Hg), ?(hx_ticks _ _ Hg); try done; [apply Hg|].
  intros t Ht. by rewrite (hx_maps _ _ Hg) by by apply (mem_below s es tabs t Hi).
Qed.

Lemma searched_sys s es tabs ids s' : sys_inv s es tabs ids -> searched s tabs s' -> sys_inv s' es tabs ids.
Proof.
  intros Hs Hse. pose proof Hs as [I1 I2 I3 I4 I5 I6 I7 I8]. pose proof (searched_calm _ _ _ _ I1 Hse) as Hc.
  pose proof (searched_inv N _ _ _ _ I1 Hse) as Hi'. destruct Hse as (w' & rest & Hg & Hf & ->). pose proof (hx_next _ _ Hg) as Hn.
  assert (forall x, x ∈ tasks s ++ restore_tasks rest -> x ∈ tasks s \/ x = TRestored rest) as Hq.
  { intros x [?|Hx]%elem_of_app; [by left|right]. unfold restore_tasks in Hx. case_decide; [by apply not_elem_of_nil in Hx|by apply list_elem_of_singleton]. }
  assert (flush_ids (tasks s ++ restore_tasks rest) = flush_ids (tasks s)) as Ef
    by (unfold restore_tasks; rewrite flush_ids_app; case_decide; apply app_nil_r).
  split; [done|..].
  - by eapply layered_calm.
  - by eapply disk_ok_calm.
  - by eapply roomy_calm.
  - destruct I5 as [G1 G2]. split; [|done]. intros h g Hg'. destruct (G1 h g Hg') as [[P1 P2 P3 P4]|?]; [left|by right].
    split; cbn; try done; [|lia]. apply (mem_inv_frame (ds_world s)); [by apply Hg, P2|by apply Hg, P2|done].
  - destruct I6 as [Q1 Q2 Q3 Q4 Q5]. split; cbn; rewrite ?Ef, ?(hx_ticks _ _ Hg); try done.
    + intros id t [?|[=]]%Hq. by apply Q1.
    + intros m [?|[=]]%Hq. by apply Q5.
  - destruct I7 as [M1 M2 M3 M4]. split; cbn; rewrite ?(hx_fs _ _ Hg); try done.
    intros p i Hp (g & q & f & Hcf). apply (M4 p); [done|]. exists g, q, f. by rewrite <- (hx_fs _ _ Hg).
  - intros rs [Hr|[= ->]]%Hq.
    + destruct (I8 rs Hr) as [R1 R2]. split.
      * intros d r' Hd. destruct (R1 d r' Hd) as (r & m & ? & ? & ? & ?). exists r, m. do 3 (split; [done|]). eapply live_grown; [exact Hg| |done].
        intros f Ef'. by apply (R2 d r').
      * intros d r Hd. eapply filter_apart_next; [exact Hn|by left|]. by apply (R2 d).
    + split.
      * intros d r' Hd. destruct (Hf d r' Hd) as (r & m & ? & ? & [T1 T2 T3]). by exists r, m.
      * intros d r' Hd f Ef'. destruct (Hf d r' Hd) as (r & m & _ & _ & [_ _ T3]). destruct (si_active_lt _ _ _ _ I1). specialize (T3 f Ef'). cbn. lia.
Qed.

Lemma refreshed_sys s es tabs ids tabs' :
  sys_inv s es tabs ids -> retabled (ds_world s) tabs tabs' -> store_inv N (refreshed s) es tabs' -> sys_inv (refreshed s) es tabs' ids.
Proof.
  intros [I1 I2 I3 I4 I5 I6 I7 I8] Hr Hi'.
  assert (calm s (refreshed s)) as Hc.
  { split; try done. intros d. cbn. rewrite update_key_range_lookup. destruct (restored_ranges _ !! d) as [r|] eqn:Er; [|done]. intros _.
    destruct (replaces_elem _ _ _ _ _ (ix_restored _ _ _ (si_index _ _ _ _ I1)) Er) as (_ & p & Hp & <-). eapply indexed_lookup; [apply I1|done]. }
  split; [done|..].
  - eapply layered_calm; [done|]. by eapply retabled_layered.
  - eapply disk_ok_calm; [done|]. destruct I3 as [D1 D2 D3 D4]. split; try done. rewrite Forall_forall in *. intros p Hp.
    destruct (retabled_elem _ _ _ p Hr Hp) as (q & Hq & Hst). rewrite (sf_data _ _ Hst), (sf_index _ _ Hst). by apply D4.
  - by eapply roomy_calm.
  - destruct I5 as [G1 G2]. split; [|done]. intros h g Hg. destruct (G1 h g Hg) as [[]|?]; [left|by right]. by split.
  - by destruct I6.
  - destruct I7 as [M1 M2 M3 M4]. split; try done.
    + intros p Hp. destruct (retabled_elem _ _ _ p Hr Hp) as (q & Hq & Hst). rewrite (sf_data _ _ Hst), (sf_index _ _ Hst). by apply M3.
    + intros p i Hp Hcf. destruct (re_tabs _ _ _ Hr p Hp) as [Hp'|(r & _ & _ & Hl)]; [by apply (M4 p)|by destruct (live_not_cold _ _ _ _ _ Hl Hcf)].
  - intros rs Hrs. destruct (I8 rs Hrs) as [R1 R2]. split; [|done]. intros d r' Hd. destruct (R1 d r' Hd) as (r & m & Hin & <- & Hst & Hl).
    destruct (re_back _ _ _ Hr _ Hin) as ([r2 m2] & Hin2 & Em & Hst2). cbn in *. subst m2. exists r2, m. split; [done|].
    split; [by rewrite (sf_dir _ _ Hst2)|]. split; [|done]. eapply stands_trans; [exact Hst|]. by apply stands_sym.
Qed.

(** Installing restored ranges *)
Lemma install_inv s es tabs ids rs :
  sys_inv s es tabs ids -> spares_ok s tabs rs ->
  sys_inv (with_db s (mkDb (ds_world s) (db_buckets (ds_db s)) (install_restored (db_ranges (ds_db s)) rs))) es tabs ids.
Proof.
  intros Hs [R1 R2]. unfold install_restored. case_decide as Er; [by destruct s as [[]]|]. set (s' := with_db s _).
  pose proof Hs as [I1 I2 I3 I4 I5 I6 I7 I8]. assert (calm s s') as Hc by by split. split; [|by eapply layered_calm|by eapply disk_ok_calm|by eapply roomy_calm|..].
  - destruct (si_index _ _ _ _ I1) as [X1 X2 X3]. split; try apply I1.
    + by split.
    + exact R2.
    + intros k Hk _. by apply (ly_distinct _ _ _ I2).
  - destruct I5 as [G1 G2]. split; [|done]. intros h g Hg. destruct (G1 h g Hg) as [[]|?]; [left|by right]. by split.
  - by destruct I6.
  - by destruct I7.
  - exact I8.
Qed.

(** Calls whose keys fit a table *)
Definition call_ok (op : Op) : Prop :=
  op_ok op /\ match op with OpPut k _ | OpUpdate k _ | OpDelete k => short_key k | OpGet _ => True end.

Lemma put_of_inv s es tabs ids k val s' tabs' :
  orderly_env N -> sys_inv s es tabs ids -> (w_ticks (ds_world s) + 9 <= N)%nat -> k <> [] -> k <> HEAD_ENTRY_KEY -> short_key k -> spaced s k ->
  put_trace_of N s es tabs k val s' tabs' -> store_inv N s' (es ++ [log_entry k val (clock (w_ticks (ds_world s)))]) tabs' ->
  exists ids', sys_inv s' (es ++ [log_entry k val (clock (w_ticks (ds_world s)))]) tabs' ids'.
Proof.
  intros Ho Hs HN Hne Hh Hk Hsp (s1 & (s0 & Hse & -> & Hre) & Hi0 & Hw) Hi'. pose proof (searched_sys _ _ _ _ _ Hs Hse) as Hs0.
  pose proof (spaced_timely _ _ _ _ (sy_store _ _ _ _ Hs) Hsp) as Htm.
  apply (timely_calm _ _ _ _ _ (searched_calm _ _ _ _ (sy_store _ _ _ _ Hs) Hse)), (timely_retabled _ _ _ _ _ _ Hre) in Htm.
  destruct (searched_world _ _ _ Hse) as [Hg _]. pose proof (hx_ticks _ _ Hg) as Ht. rewrite <- Ht in *.
  eapply (wrote_inv (refreshed s0)); try done; [by eapply refreshed_sys|]. by destruct Htm.
Qed.

Lemma exec_sys s es tabs ids m op :
  orderly_env N -> sys_inv s es tabs ids -> represents N s es tabs m -> (w_ticks (ds_world s) + 9 <= N)%nat -> call_ok op -> spaced_call s op ->
  exists s' es' tabs' ids', exec op s = (Ok (kv_step m op).1, s') /\ represents N s' es' tabs' (kv_step m op).2 /\
    sys_inv s' es' tabs' ids' /\ (w_ticks (ds_world s) <= w_ticks (ds_world s') <= w_ticks (ds_world s) + 8)%nat /\
    es' = es ++ op_entries op (clock (w_ticks (ds_world s))) /\ op_trace N op s es tabs s' tabs' /\
    logged [op] s s' (op_entries op (clock (w_ticks (ds_world s)))).
Proof.
  intros Ho Hs Hr HN [Hop Hsh] Hsp. destruct (exec_run N s es tabs m op (env_orderly _ Ho) Hr HN Hop) as (s' & tabs' & E & R & L & T).
  pose proof (wo_ticks _ _ _ _ L) as Ht. cbn in Ht. set (ws := op_entries op _) in *. exists s', (es ++ ws), tabs'.
  assert (exists ids', sys_inv s' (es ++ ws) tabs' ids') as [ids' Hs'].
  { assert (forall k, validate_size k None = Ok tt -> k <> []) as Hne by (intros k Hk ->; done).
    destruct op as [k val|k val|k|k]; destruct Hop as [Hw Hk]; cbn in T, ws.
    - eapply put_of_inv; try done; [|apply R]. eapply Hne, validate_key, Hw.
    - eapply put_of_inv; try done; [|apply R]. eapply Hne, validate_key, Hw.
    - eapply put_of_inv; try done; [by apply Hne|apply R].
    - destruct T as [T ->]. exists ids. unfold ws. rewrite app_nil_r. by eapply searched_sys. }
  exists ids'. do 3 (split; [done|]). split; [lia|done].
Qed.

(** ** The steps of a task *)
Lemma calm_tasks s ts : calm s (with_tasks s ts).
Proof. by split. Qed.

Lemma undisturbed_tasks s tabs ts : undisturbed s tabs (with_tasks s ts).
Proof. by split. Qed.

(** A step that keeps the collector's tables, the queue and the metadata. *)
Lemma undisturbed_sys s es tabs ids s' :
  undisturbed s tabs s' -> gc_ok s' -> queue_ok s' ids -> (forall x, x ∈ tasks s' -> x ∈ tasks s) -> ds_meta s' = ds_meta s ->
  sys_inv s es tabs ids -> sys_inv s' es tabs ids.
Proof.
  intros Hu Hg Hq Ht Hm [I1 I2 I3 I4 I5 I6 I7 I8]. pose proof (un_calm _ _ _ Hu) as Hc. split; [by eapply undisturbed_inv|..|done|done| |].
  - by eapply layered_calm.
  - by eapply disk_ok_calm.
  - by eapply roomy_calm.
  - destruct I7 as [M1 M2 M3 M4]. split; rewrite ?Hm, ?(un_log _ _ _ Hu), ?(cm_inodes _ _ Hc); try done.
    intros p i Hp Hcf. apply (M4 p); [done|]. pose proof (si_tabs _ _ _ _ I1) as Hts. rewrite Forall_forall in Hts.
    eapply cold_filter_back; [apply (Hts p Hp)|by rewrite (cm_names _ _ Hc)|done].
  - eapply (spare_tasks_frame s); [intros rs; apply Ht|..|done].
    + intros r m _. apply live_range_grow, Hu.
    + intros r Hr f Hf. rewrite (cm_active _ _ Hc), (un_next _ _ _ Hu). by apply Hr.
Qed.

(** A table of the collector after a step: the same locations *)
Lemma gc_table_calm s s' g g' :
  calm s s' -> twin g' g -> (private s g -> mem_inv (ds_world s') g') ->
  private s g \/ (exists t, in_mem s t /\ twin g t) -> private s' g' \/ exists t, in_mem s' t /\ twin g' t.
Proof.
  intros Hc [Ee Eb Eh] Hg [Hp|(t & Ht & [])].
  - left. specialize (Hg Hp). destruct Hp as [P1 P2 P3 P4]. pose proof (cm_next _ _ Hc). split; rewrite ?Ee, ?Eb, ?(cm_gc _ _ Hc); try done; [lia|].
    intros t Ht%(calm_mem _ _ _ Hc). by apply P4.
  - right. exists t. split; [by apply (calm_mem _ _ _ Hc)|]. split; congruence.
Qed.

Lemma twin_refl g : twin g g.
Proof. done. Qed.

Lemma gc_ok_calm s s' :
  calm s s' -> gc_tables s' = gc_tables s -> (forall h g, gc_tables s !! h = Some g -> private s g -> mem_inv (ds_world s') g) ->
  gc_ok s -> gc_ok s'.
Proof.
  intros Hc Eg Hinv [G1 G2]. split; rewrite Eg; [|done]. intros h g Hg. eapply gc_table_calm; [done|apply twin_refl|by eapply Hinv|by eapply G1].
Qed.

(** Removing a task that flushes nothing *)
Lemma drop_task_inv s es tabs ids l1 x l2 :
  tasks s = l1 ++ x :: l2 -> (forall id t, x <> TFlush id t) -> sys_inv s es tabs ids -> sys_inv (with_tasks s (l1 ++ l2)) es tabs ids.
Proof.
  intros Et Hx Hs. assert (forall y, y ∈ l1 ++ l2 -> y ∈ tasks s) as Hsub by (intros y; rewrite Et, !elem_of_app, elem_of_cons; tauto).
  eapply undisturbed_sys; [apply undisturbed_tasks|..|exact Hsub|done|exact Hs].
  - apply (gc_ok_calm s); [apply calm_tasks|done| |apply Hs]. by intros h g _ [].
  - assert (flush_ids (l1 ++ l2) = flush_ids (tasks s)) as Ef.
    { rewrite Et, !flush_ids_app. unfold flush_ids at 4. cbn. by destruct x; [..|destruct (Hx id t)|]. }
    destruct (sy_queue _ _ _ _ Hs) as [Q1 Q2 Q3 Q4 Q5]. split; cbn [tasks with_tasks]; rewrite ?Ef; try done.
    + intros id t Ht%Hsub. by apply Q1.
    + intros m Hm%Hsub. by apply Q5.
Qed.

(** When an entry may be inserted into a table of the collector: if the table is
    a clone of one that readers consult, the entry must be there already. *)
Definition gc_may_insert s (h : nat) (e : Entry) : Prop :=
  forall g t, gc_tables s !! h = Some g -> in_mem s t -> mt_entries g = mt_entries t ->
    mem_lookup (ds_world s) t (e_key e) = Some (value_of e).

Lemma gc_table_inv s es tabs ids h g :
  store_inv N s es tabs -> layered s tabs ids -> gc_ok s -> gc_tables s !! h = Some g ->
  mem_inv (ds_world s) g /\ mt_entries g <> gc_updated_entries s.
Proof.
  intros Hi Hl [G1 _] Hg. destruct (G1 h g Hg) as [[]|(t & Ht & [T1 T2 T3])]; [done|].
  assert (mem_inv (ds_world s) t) as [V1 V2] by (destruct Ht as [->|[i Ht]]; [apply Hi|apply (si_ro _ _ _ _ Hi _ _ Ht)]).
  split; [split; rewrite ?T1, ?T2, ?T3; done|]. rewrite T1. destruct Ht as [->|[i Ht]]; [apply not_eq_sym, (si_gc_apart _ _ _ _ Hi)|by apply (ly_gc _ _ _ Hl i)].
Qed.

(** The collector's memtable takes an entry. *)
Lemma gc_insert_run s es tabs ids h e :
  sys_inv s es tabs ids -> gc_may_insert s h e -> exists s', run_task (TGcInsert h e) s = (Ok tt, s') /\ undisturbed s tabs s' /\
    sys_inv s' es tabs ids /\ tasks s' = tasks s /\ w_ticks (ds_world s') = w_ticks (ds_world s).
Proof.
  intros Hs Hmay. cbn [run_task]. destruct (gc_tables s !! h) as [g|] eqn:Hg.
  2: { exists s. split; [done|]. split; [by split|]. by split. }
  pose proof (sy_gc _ _ _ _ Hs) as Hgo. pose proof Hgo as [G1 G2].
  destruct (gc_table_inv s es tabs ids h g (sy_store _ _ _ _ Hs) (sy_layered _ _ _ _ Hs) Hgo Hg) as [Hinv Hgc].
  destruct (mem_insert_run (ds_world s) g e Hinv) as (g' & w' & E & Hx). erewrite io_step by (by apply in_world_run).
  eexists. split; [reflexivity|]. set (s' := with_gc _ _ _ _).
  assert (calm s s') as Hc.
  { split; try done; cbn; rewrite ?(mx_next _ _ _ _ _ Hx), ?(mx_ticks _ _ _ _ _ Hx), ?(mx_fs _ _ _ _ _ Hx); try done.
    intros t Ht. destruct (decide (mt_entries g = mt_entries t)) as [Ee|Ne]; [|by rewrite (mx_maps _ _ _ _ _ Hx)].
    apply sm_equiv_get. intros k. pose proof (mx_lookup _ _ _ _ _ Hx k) as Hk. unfold mem_lookup in Hk.
    rewrite (mx_entries _ _ _ _ _ Hx), Ee in Hk. rewrite Hk. case_decide; [|done]. subst k. symmetry. by apply (Hmay g t). }
  assert (undisturbed s tabs s') as Hu.
  { split; [done|done|done|cbn; apply Hx|..]; cbn; rewrite ?(mx_fs _ _ _ _ _ Hx); try done; [|apply Hx]. by apply Hx, not_eq_sym. }
  split; [done|]. split; [|split; [done|cbn; apply Hx]].
  eapply undisturbed_sys; [done|..|done|done|done].
  - assert (twin g' g) as Htw by (split; apply Hx).
    split; cbn [gc_tables with_gc s'].
    + intros h' x [[<- <-]|[Hne Hg']]%lookup_insert_Some.
      * apply (gc_table_calm s s' g g' Hc Htw); [intros _; apply Hx|by eapply G1].
      * apply (gc_table_calm s s' x x Hc (twin_refl x)); [|by eapply G1]. intros [].
        apply (mem_inv_grow (ds_world s)); [|apply Hx|done]. cbn. by rewrite (mx_maps _ _ _ _ _ Hx) by by apply (G2 h' h).
    + intros h1 h2 g1 g2 Hne [[<- <-]|[N1 Hg1]]%lookup_insert_Some [[<- <-]|[N2 Hg2]]%lookup_insert_Some; rewrite ?(tw_entries _ _ Htw); [done|..].
      * by apply (G2 h h2).
      * by apply (G2 h1 h).
      * by apply (G2 h1 h2).
  - destruct (sy_queue _ _ _ _ Hs) as [Q1 Q2 Q3 Q4 Q5]. split; cbn; rewrite ?(mx_ticks _ _ _ _ _ Hx); done.
Qed.

(** The metadata are written. *)
Lemma write_meta_run s es tabs ids m :
  sys_inv s es tabs ids -> file_handle m = file_handle (ds_meta s) ->
  exists s', run_task (TWriteMeta m) s = (Ok tt, s') /\ undisturbed s tabs s' /\
    sys_inv s' es tabs ids /\ tasks s' = tasks s /\ w_ticks (ds_world s') = w_ticks (ds_world s).
Proof.
  intros Hs Em. destruct (sy_meta _ _ _ _ Hs) as [M1 M2 M3 M4].
  assert (exists fs', meta_write m (ds_world s) = (Ok tt, with_fs (ds_world s) fs') /\ names fs' = names (w_fs (ds_world s)) /\
    dirs fs' = dirs (w_fs (ds_world s)) /\ next_inode fs' = next_inode (w_fs (ds_world s)) /\
    forall i, i <> file (file_handle (ds_meta s)) -> content fs' i = content (w_fs (ds_world s)) i) as (fs' & E & En & Ed & Ei & Ec).
  { eexists. split; [reflexivity|]. do 3 (split; [done|]). intros i Hi. rewrite Em. cbn. by rewrite !content_set_inode, !decide_False. }
  eexists. split; [by apply in_world_run|]. set (s' := set_world s _).
  assert (undisturbed s tabs s') as Hu.
  { split; [by split|done..|apply Ec; done| |].
    - intros p Hp. destruct (M3 p Hp). by split; apply Ec.
    - intros p i Hp Hcf. by apply Ec, (M4 p). }
  split; [done|]. split; [|done]. eapply undisturbed_sys; [done|..|done|done|done].
  - apply (gc_ok_calm s); [apply Hu|done| |apply Hs]. intros h g _ []. by apply (mem_inv_frame (ds_world s)).
  - by destruct (sy_queue _ _ _ _ Hs).
Qed.

(** The log head is passed to the collector. *)
Lemma gc_head_run s es tabs ids o :
  sys_inv s es tabs ids -> exists s', run_task (TGcHead o) s = (Ok tt, s') /\ undisturbed s tabs s' /\
    sys_inv s' es tabs ids /\ tasks s' = tasks s /\ w_ticks (ds_world s') = w_ticks (ds_world s).
Proof.
  intros Hs. eexists. split; [reflexivity|]. set (s' := with_gc _ _ _ _). assert (undisturbed s tabs s') as Hu by by split.
  split; [done|]. split; [|done]. eapply undisturbed_sys; [done|..|done|done|done].
  - apply (gc_ok_calm s); [apply Hu|done| |apply Hs]. by intros h g _ [].
  - by destruct (sy_queue _ _ _ _ Hs).
Qed.

Lemma small_task_run s es tabs ids x :
  sys_inv s es tabs ids -> (forall id t, x <> TFlush id t) -> (forall m, x = TWriteMeta m -> file_handle m = file_handle (ds_meta s)) ->
  (forall rs, x = TRestored rs -> spares_ok s tabs rs) -> (forall h e, x = TGcInsert h e -> gc_may_insert s h e) ->
  exists s', run_task x s = (Ok tt, s') /\ calm s s' /\ val_log s' = val_log s /\
    sys_inv s' es tabs ids /\ tasks s' = tasks s /\ w_ticks (ds_world s') = w_ticks (ds_world s).
Proof.
  intros Hs X1 X2 X3 X4.
  assert (forall s', undisturbed s tabs s' -> calm s s' /\ val_log s' = val_log s) as Hu by by intros s' [].
  destruct x as [h e|o|m|id t|rs].
  - destruct (gc_insert_run s es tabs ids h e Hs (X4 h e eq_refl)) as (s' & E & [C L]%Hu & R). by exists s'.
  - destruct (gc_head_run s es tabs ids o Hs) as (s' & E & [C L]%Hu & R). by exists s'.
  - destruct (write_meta_run s es tabs ids m Hs (X2 m eq_refl)) as (s' & E & [C L]%Hu & R). by exists s'.
  - by destruct (X1 id t).
  - eexists. split; [reflexivity|]. split; [|split; [done|split; [by apply install_inv, X3|done]]].
    split; try done. cbn. unfold install_restored. by case_decide.
Qed.

(** *** A flush in age order *)

(** No read-only memtable is older than [t]. *)
Definition oldest s (id : list byte) (t : MemTable) : Prop :=
  forall i x, i <> id -> sm_get i (read_only_memtables s) = Some x -> older (ds_world s) t x.

Lemma layered_front s tabs ids id t :
  layered s tabs ids -> sm_get id (read_only_memtables s) = Some t -> oldest s id t ->
  layered s tabs (id :: filter (.≠ id) ids).
Proof.
  intros [L1 L2 L3 L4 L5 L6 L7] Ht Hold. assert (id ∈ ids) as Hid by (apply L1; by eexists). split; try done.
  - intros i. rewrite elem_of_cons, list_elem_of_filter, <- L1. destruct (decide (i = id)) as [->|]; tauto.
  - constructor.
    + clear -L2. induction L2 as [|x l Hs IH Hf]; [constructor|]. rewrite filter_cons. case_decide; [|done]. constructor; [done|].
      rewrite Forall_forall in *. intros y [_ Hy]%list_elem_of_filter. by apply Hf.
    + apply Forall_forall. intros i [Hne Hi]%list_elem_of_filter. split; [done|]. intros x y Hx Hy. rewrite Ht in Hx. injection Hx as <-.
      split; [by eapply Hold|]. destruct (StronglySorted_total _ _ id i L2 Hid Hi (not_eq_sym Hne)) as [[_ R]|[_ R]].
      * by apply (R t y Ht Hy).
      * apply not_eq_sym. by apply (R y t Hy Ht).
Qed.

Lemma flushed_gc_ok s s' es tabs tabs' id t r :
  store_inv N s es tabs -> gc_ok s -> sm_get id (read_only_memtables s) = Some t -> flushed s id t tabs s' tabs' r ->
  mt_entries t <> gc_updated_entries s -> gc_tables s' = gc_tables s ->
  (forall x, in_mem s' x -> in_mem s x /\ mt_entries x <> mt_entries t) -> gc_ok s'.
Proof.
  intros Hi [G1 G2] Ht Hf Hgc Eg Hmem. split; rewrite Eg; [|done]. intros h g Hg. pose proof (fd_next _ _ _ _ _ _ _ Hf).
  pose proof (fd_state _ _ _ _ _ _ _ Hf) as Es. assert (gc_updated_entries s' = gc_updated_entries s) as Egc by by rewrite Es.
  destruct (G1 h g Hg) as [[P1 [P2 P2'] P3 P4]|(x & Hx & Htw)].
  - left. pose proof (P4 t ltac:(eauto)). split; rewrite ?Egc; [|lia|done|by intros x [? _]%Hmem; apply P4].
    apply (mem_inv_frame (ds_world s)); [by apply Hf|by apply Hf|done].
  - assert (x = t \/ in_mem s' x) as [->|Hx'].
    { destruct Hx as [->|[i Hx]]; [right; left; by rewrite Es|]. destruct (decide (i = id)) as [->|Hne]; [left; congruence|right].
      right. exists i. rewrite Es. cbn. by rewrite sm_get_remove, decide_False. }
    + left. destruct Htw as [T1 T2 T3]. destruct (si_ro _ _ _ _ Hi _ _ Ht) as [[V1 _] [A1 A2 A3 A4] _ _].
      split; rewrite ?T1, ?T2, ?Egc; [|lia|done|by intros x [_ ?%not_eq_sym]%Hmem].
      split; rewrite ?T1, ?T2, ?T3, ?(fd_bits _ _ _ _ _ _ _ Hf), ?(fd_empty _ _ _ _ _ _ _ Hf); [done|]. intros k. rewrite sm_get_new. by intros [].
    + right. by exists x.
Qed.

Lemma filter_none_equal {A} `{EqDecision A} (x : A) (l : list A) : x ∉ l -> filter (.≠ x) l = l.
Proof.
  induction l as [|y l IH]; [done|]. rewrite not_elem_of_cons. intros [Hne Hl]. rewrite filter_cons_True by congruence. by rewrite IH.
Qed.

(** The queue without the flush that ran *)
Lemma queue_flush s ids l1 id t l2 :
  queue_ok s ids -> NoDup ids -> tasks s = l1 ++ TFlush id t :: l2 ->
  (id ∉ flush_ids (l1 ++ l2)) /\ (exists n, flush_ids (l1 ++ l2) ≡ₚ take n (filter (.≠ id) ids)) /\
  (forall i, i <> id -> i ∈ flush_ids (tasks s) <-> i ∈ flush_ids (l1 ++ l2)).
Proof.
  intros [_ [n Hn] _ _ _] Hnd Et.
  assert (flush_ids (tasks s) ≡ₚ id :: flush_ids (l1 ++ l2)) as Ef.
  { rewrite Et, !flush_ids_app. change (flush_ids (TFlush id t :: l2)) with (id :: flush_ids l2). symmetry. apply Permutation_middle. }
  assert (id ∉ flush_ids (l1 ++ l2)) as Hid.
  { assert (NoDup (id :: flush_ids (l1 ++ l2))) as [? _]%NoDup_cons; [|done]. rewrite <- Ef, Hn. by apply NoDup_take_sub. }
  split; [done|]. split.
  - exists (length (filter (.≠ id) (take n ids))). rewrite <- (take_drop n ids) at 2. rewrite filter_app, take_app_length, <- Hn, Ef, filter_cons_False by tauto.
    by rewrite filter_none_equal.
  - intros i Hne. rewrite Ef, elem_of_cons. tauto.
Qed.

Lemma flush_sys s es tabs ids m l1 id t l2 :
  orderly_env N -> sys_inv s es tabs ids -> represents N s es tabs m -> (w_ticks (ds_world s) + 4 <= N)%nat ->
  tasks s = l1 ++ TFlush id t :: l2 -> oldest s id t -> vlog_size (val_log s) <= 2 ^ 32 -> fresh_dirs (2 + w_ticks (ds_world s)) (ds_db s) ->
  exists s' tabs', run_task (TFlush id t) (with_tasks s (l1 ++ l2)) = (Ok tt, s') /\ represents N s' es tabs' m /\
    sys_inv s' es tabs' (filter (.≠ id) ids) /\ tasks s' = l1 ++ l2 /\ read_only_memtables s' = sm_remove id (read_only_memtables s) /\
    (w_ticks (ds_world s) <= w_ticks (ds_world s') <= w_ticks (ds_world s) + 3)%nat /\ val_log s' = val_log s /\
    (exists r, flushed (with_tasks s (l1 ++ l2)) id t tabs s' tabs' r) /\ forall b, fresh_dirs b (ds_db s) -> fresh_dirs b (ds_db s').
Proof.
  intros Ho Hs [_ Hview] HN Et Hold Hlog Hfr. set (s0 := with_tasks s (l1 ++ l2)). pose proof Hs as [I1 I2 I3 I4 I5 I6 I7 I8].
  assert (sm_get id (read_only_memtables s) = Some t) as Ht by (apply (qo_flush _ _ I6); rewrite Et; set_solver).
  assert (store_inv N s0 es tabs) as Hi0 by by apply (core_inv N s).
  assert (layered s0 tabs (id :: filter (.≠ id) ids)) as Hl0 by by eapply (layered_calm s), layered_front; [apply calm_tasks|..].
  assert (disk_ok N s0 tabs) as Hd0 by by eapply disk_ok_calm; [apply calm_tasks|].
  destruct (flush_task_flushed N s0 es tabs id t Ho Hi0 Hd0 HN Hfr Ht (rm_ro _ I4 id t Ht)) as (s' & tabs' & r & E & Hf & Hd' & Hfr').
  assert (zlen (log_bytes es) <= 2 ^ 32) as Hu by by rewrite <- (rep_size _ _ _ (si_log _ _ _ _ I1)).
  pose proof (flushed_inv N s0 s' es tabs tabs' id _ t r Hi0 Hl0 Hd0 Ht Hf Hu) as Hi'.
  pose proof (flushed_layered N s0 s' es tabs tabs' id _ t r Hi0 Hl0 Ht Hf) as Hl'.
  pose proof (flushed_mem N s0 s' es tabs tabs' id _ t r Hi0 Hl0 Ht Hf) as Hmem.
  pose proof (fd_state _ _ _ _ _ _ _ Hf) as Es. pose proof (fd_ticks _ _ _ _ _ _ _ Hf) as Htk. change (ds_world s0) with (ds_world s) in Htk.
  assert (active_memtable s' = active_memtable s /\ gc_tables s' = gc_tables s /\ ds_meta s' = ds_meta s /\ tasks s' = l1 ++ l2 /\
    flush_stream s' = flush_stream s /\ val_log s' = val_log s) as (Ea & Eg & Em & Etk & Est & Ev) by (rewrite Es; done).
  destruct (queue_flush s ids l1 id t l2 I6 (older_NoDup _ _ (ly_sorted _ _ _ I2)) Et) as (Q0 & Qn & Qi).
  assert (forall y, y ∈ l1 ++ l2 -> y ∈ tasks s) as Hsub by (intros y; rewrite Et, !elem_of_app, elem_of_cons; tauto).
  exists s', tabs'. split; [exact E|]. split; [split; [done|]|split; [split; [done|done|done|..]|split; [done|]]].
  - intros k Hk. rewrite <- (Hview k Hk). exact (flushed_view N s0 s' es tabs tabs' id _ t r Hi0 Hl0 Ht Hf Hu k Hk).
  - assert (forall x, in_mem s' x -> the_map (ds_world s') (mt_entries x) = the_map (ds_world s) (mt_entries x)) as Hmap.
    { intros x (_ & _ & Hne & Hlt)%Hmem. by apply (fd_maps _ _ _ _ _ _ _ Hf). }
    destruct I4 as [R1 R2 R3 R4]. split; rewrite ?Ea; try done.
    + apply (fits_frame (ds_world s)); [|done]. rewrite <- Ea. by rewrite Hmap.
    + intros i x Hx. rewrite Hmap by eauto. apply (R4 i). by apply (flushed_get s0 s' tabs tabs' id t r Hf) in Hx as [_ ?].
  - eapply (flushed_gc_ok s0); [done| |done|exact Hf|by apply (ly_gc _ _ _ I2 id)|done|by intros x (? & _ & ? & _)%Hmem].
    apply (gc_ok_calm s); [apply calm_tasks|done| |done]. by intros h g _ [].
  - destruct I6 as [Q1 Q2 Q3 Q4 Q5]. split; rewrite ?Etk, ?Est, ?Em.
    + intros i x Hx. apply (flushed_get s0 s' tabs tabs' id t r Hf). split; [|by apply Q1, Hsub]. intros ->. apply Q0, flush_ids_elem. by eexists.
    + done.
    + intros i [Hne Hin]%list_elem_of_filter. rewrite Q3 by done. by apply Qi.
    + intros n Hn. apply Q4. lia.
    + intros m' Hm%Hsub. by apply Q5.
  - destruct I7 as [M1 M2 M3 M4]. pose proof (fd_inodes _ _ _ _ _ _ _ Hf) as X1. pose proof (fd_data _ _ _ _ _ _ _ Hf) as X2.
    pose proof (fd_idx _ _ _ _ _ _ _ Hf) as X3. change (ds_world s0) with (ds_world s) in X1, X2, X3. split; rewrite ?Em, ?Ev; [done|lia|..].
    + intros p. rewrite (fd_tabs _ _ _ _ _ _ _ Hf). intros [->|Hp]%elem_of_cons; [cbn; lia|by apply M3].
    + intros p i. rewrite (fd_tabs _ _ _ _ _ _ _ Hf). intros [->|Hp]%elem_of_cons Hcf.
      * by destruct (live_not_cold _ _ _ _ _ (fd_live _ _ _ _ _ _ _ Hf) Hcf).
      * apply (M4 p); [done|]. pose proof (si_tabs _ _ _ _ I1) as Hts. rewrite Forall_forall in Hts.
        eapply cold_filter_back; [apply (Hts p Hp)|apply Hf|done].
  - intros rs Hr. rewrite Etk in Hr. destruct (I8 rs (Hsub _ Hr)) as [R1 R2]. split.
    + intros d r' Hdr. destruct (R1 d r' Hdr) as (r0 & m0 & Hin & ? & ? & Hl). exists r0, m0.
      split; [rewrite (fd_tabs _ _ _ _ _ _ _ Hf); by right|]. do 2 (split; [done|]). eapply live_range_frame; [|exact Hl]. intros f _. apply Hf.
    + intros d r' Hdr. rewrite Ea. eapply filter_apart_next; [exact (fd_next _ _ _ _ _ _ _ Hf)|by left|]. by apply (R2 d).
  - split; [by rewrite Es|]. split; [lia|]. split; [done|]. split; [by exists r|exact Hfr'].
Qed.
End system.
#[export] Hint Resolve in_mem_active in_mem_ro : core.
