(* ===== verification/Recovery.v ===== *)
(** * Opening and recovering a store ([src/db/recovery.rs], [DataStore::open] and
    [create_or_recover] of [src/db/store.rs])

    [Uuid::parse_str] is a parameter, as is the length the file system reports
    for a directory. The result of opening is a store built around the final
    world. *)

From stdpp Require Import prelude gmap strings list sorting.
From Stdlib Require Import Strings.Ascii Strings.Byte ZArith Lia.
From S2P Require Import Prelude Consts SkipMap FileIO Types World VLog Block Index Bloom SSTable Meta MemTable.
From S2P Require Import KeyRange RangeSearch Bucket Flush Compaction Config Store StoreInv StoreSpec.
Open Scope Z_scope.

(** [read_dir]: the entries of a directory, in no particular order *)
Definition children (fs : FS) (p : list string) : list (list string) :=
  List.filter (fun q => bool_decide (q <> [] /\ parent q = p)) (elements (dirs fs) ++ (map_to_list (names fs)).*1).

(** [PathBuf] order: component by component *)
Fixpoint path_leb (p q : list string) : bool :=
  match p, q with
  | [], _ => true
  | _ :: _, [] => false
  | a :: p', b :: q' =>
      match String.compare a b with Lt => true | Gt => false | Eq => path_leb p' q' end
  end.
Definition path_le (p q : list string) : Prop := path_leb p q = true.
#[export] Instance path_le_dec : RelDecision path_le := fun p q => bool_eq_dec (path_leb p q) true.

(** [str::rfind] and [str::find] for the two patterns used *)
Fixpoint string_drop (n : nat) (s : string) : string :=
  match n, s with
  | O, _ => s
  | Datatypes.S n', String _ s' => string_drop n' s'
  | _, EmptyString => EmptyString
  end.
Fixpoint after_last (pat s : string) : option string :=
  match s with
  | EmptyString => if String.prefix pat s then Some (string_drop (String.length pat) s) else None
  | String _ s' =>
      match after_last pat s' with
      | Some r => Some r
      | None => if String.prefix pat s then Some (string_drop (String.length pat) s) else None
      end
  end.
Fixpoint before_slash (s : string) : option string :=
  match s with
  | EmptyString => None
  | String c s' => if Ascii.eqb c "/"%char then Some EmptyString else String c <$> before_slash s'
  end.

(** [path.to_string_lossy()] *)
Definition path_string (p : list string) : string := foldr (fun c s => String.append "/" (String.append c s)) EmptyString p.

(** [get_bucket_id_from_full_bucket_path] *)
Definition get_bucket_id_from_full_bucket_path (full_path : list string) : string :=
  match after_last "bucket" (path_string full_path) with
  | Some uuid_part => default EmptyString (before_slash uuid_part)
  | None => EmptyString
  end.

Section recovery.
Context `{Env} {M : Type -> Type} `{SkipMap M} (parse_uuid : string -> option string) (dir_len : Z).
Abbreviation W := (World M).
Abbreviation S := (DataStore M).

(** [open_dir_stream!] and the iteration over it *)
Definition read_dir (p : list string) : io W Error (list (list string)) := fun w =>
  if decide (p ∈ dirs (w_fs w)) then (Ok (hash_iter (children (w_fs w) p)), w) else (Err (DirOpen p NotFound), w).

Definition is_file (w : W) (p : list string) : bool := bool_decide (is_Some (names (w_fs w) !! p)).

(** The buckets and key ranges recovered so far *)
Record Recovered := mkRecovered { rc_buckets : list (string * Bucket); rc_ranges : KeyRange }.

(** The body of the loop over a bucket's tables *)
Definition recover_sst (bucket_dir sst_dir : list string) (st : Recovered) : io W Error Recovered :=
  entries ← read_dir sst_dir;
  w ← io_get;
  let files := merge_sort path_le (List.filter (is_file w) entries) in
  let bucket_id := get_bucket_id_from_full_bucket_path sst_dir in
  match files with
  | data_file_path :: filter_file_path :: index_file_path :: _ :: _ =>
      table ← table_build_from sst_dir data_file_path index_file_path;
      bucket_uuid ← io_lift (match parse_uuid bucket_id with Some u => Ok u | None => Err (InvaidUUIDParseString bucket_id) end);
      let ssts := match im_get bucket_uuid (rc_buckets st) with Some b => sstables b ++ [table] | None => [table] end in
      updated_bucket ← bucket_from bucket_dir bucket_uuid ssts 0;
      summary ← summary_recover (summary_new sst_dir);
      new_filter ← bf_default;
      let table := t_with_filter (t_with_summary table (Some summary)) (Some (bf_set_file_path new_filter (Some filter_file_path))) in
      mret (mkRecovered (im_insert bucket_uuid updated_bucket (rc_buckets st))
              (key_range_set (rc_ranges st) sst_dir (smallest_key summary) (biggest_key summary) table).1)
  | _ => io_err (InvalidSSTableDirectory (path_string sst_dir))
  end.

Fixpoint recover_ssts (bucket_dir : list string) (sst_dirs : list (list string)) (st : Recovered) : io W Error Recovered :=
  match sst_dirs with
  | [] => mret st
  | d :: ds => st' ← recover_sst bucket_dir d st; recover_ssts bucket_dir ds st'
  end.

Fixpoint recover_buckets (bucket_dirs : list (list string)) (st : Recovered) : io W Error Recovered :=
  match bucket_dirs with
  | [] => mret st
  | d :: ds => sst_dirs ← read_dir d; st' ← recover_ssts d sst_dirs st; recover_buckets ds st'
  end.

(** The tables and key ranges found below the buckets directory *)
Definition recover_tables (buckets_dir : list string) : io W Error Recovered :=
  bucket_dirs ← read_dir buckets_dir;
  recover_buckets bucket_dirs (mkRecovered [] key_range_new).

(** The offset after the tail entry *)
Definition after_tail_entry : Z :=
  SIZE_OF_U32 + SIZE_OF_U32 + SIZE_OF_U64 + SIZE_OF_U8 + zlen TAIL_ENTRY_KEY + zlen TAIL_ENTRY_VALUE.

(** [DataStore::recover_memtable]: the loop over the log entries *)
Fixpoint recover_entries (c : MemConfig) (head_offset most_recent_offset : Z) (es : list ValueLogEntry)
    (active : MemTable) (ro : M MemTable) : io W Error (MemTable * M MemTable) :=
  match es with
  | [] => mret (active, ro)
  | e :: es' =>
      let entry := entry_new (vle_key e) most_recent_offset (vle_created_at e) (vle_is_tombstone e) in
      let next := most_recent_offset + (SIZE_OF_U32 + SIZE_OF_U32 + SIZE_OF_U64 + SIZE_OF_U8
                    + zlen (vle_key e) + zlen (vle_value e)) in
      if decide (most_recent_offset <> head_offset) then
        '(active, ro) ←
          (if is_full active (zlen (vle_key e)) then
             id ← generate_table_id;
             let ro := sm_insert id (mark_readonly active) ro in
             active ← with_specified_capacity_and_rate (size_unit c) (mt_capacity c) (false_pos_rate c);
             mret (active, ro)
           else mret (active, ro));
        active ← mem_insert active entry;
        recover_entries c head_offset next es' active ro
      else recover_entries c head_offset next es' active ro
  end.

Definition recover_memtable (c : MemConfig) (vlog_path : list string) (head_offset : Z)
    : io W Error (MemTable * M MemTable) :=
  active ← with_specified_capacity_and_rate (size_unit c) (mt_capacity c) (false_pos_rate c);
  vlog ← on_fs (vlog_new vlog_path);
  entries ← on_fs (vlog_recover vlog head_offset);
  recover_entries c head_offset head_offset entries active sm_new.

(** The store around its parts: the GC memtable is a clone of the active one and
    the GC log a clone of the log *)
Definition assemble (config : Config) (active : MemTable) (ro : M MemTable) (vlog : ValueLog) (m : Meta)
    (bm : BucketMap) (kr : KeyRange) (gc_updated : nat) (w : W) : S :=
  mkDS (mkDb w bm kr) active vlog m ro gc_updated {[ 0%nat := active ]} 0 vlog (mkPunch 0 0) ∅ config false [] 0
    (cfg_gc_chunk_size config).

Definition mem_config (config : Config) (unit : SizeUnit) : MemConfig :=
  mkMemConfig (cfg_false_positive_rate config) (cfg_write_buffer_size config) unit.

(** [DataStore::recover] *)
Definition recover (dir : DirPath) (config : Config) (unit : SizeUnit) (m : Meta) (vlog : ValueLog) : io W Error (W -> S) :=
  st ← recover_tables (dp_buckets dir);
  bm ← bucket_map_new (dp_buckets dir);
  let bm := mkBucketMap (bm_dir bm) (foldl (fun l p => im_insert p.1 p.2 l) (buckets bm) (rc_buckets st)) in
  meta_size ← on_fs (file_size (file_handle m));
  '(m, vlog) ← (if decide (meta_size > 0)
                then m ← meta_recover m; mret (m, vlog_set_tail (vlog_set_head vlog (v_log_head m)) (v_log_tail m))
                else mret (m, vlog_set_tail (vlog_set_head vlog after_tail_entry) 0));
  '(active, ro) ← (fun w => match recover_memtable (mem_config config unit) (dp_val_log dir) (head_offset vlog) w with
                            | (Err e, w') => (Err (MemTableRecovery e), w')
                            | r => r
                            end);
  gc_updated ← alloc_map sm_new;
  mret (assemble config active ro vlog m bm (rc_ranges st) gc_updated).

(** [DataStore::handle_empty_vlog] *)
Definition handle_empty_vlog (dir : DirPath) (config : Config) (unit : SizeUnit) (m : Meta) (vlog : ValueLog)
    : io W Error (W -> S) :=
  let c := mem_config config unit in
  active ← with_specified_capacity_and_rate (size_unit c) (mt_capacity c) (false_pos_rate c);
  created_at ← now;
  '(tail_offset, vlog) ← on_fs (vlog_append vlog TAIL_ENTRY_KEY TAIL_ENTRY_VALUE created_at false);
  let tail_entry := entry_new TAIL_ENTRY_KEY tail_offset created_at false in
  '(head_offset, vlog) ← on_fs (vlog_append vlog HEAD_ENTRY_KEY HEAD_ENTRY_VALUE created_at false);
  let head_entry := entry_new HEAD_ENTRY_KEY head_offset created_at false in
  let vlog := vlog_set_tail (vlog_set_head vlog head_offset) tail_offset in
  active ← mem_insert active tail_entry;
  active ← mem_insert active head_entry;
  bm ← bucket_map_new (dp_buckets dir);
  gc_updated ← alloc_map sm_new;
  mret (assemble config active sm_new vlog m bm key_range_new gc_updated).

(** [DataStore::create_or_recover]; the length checked is that of the log's
    directory *)
Definition create_or_recover (dir : DirPath) (unit : SizeUnit) (config : Config) : io W Error (W -> S) :=
  w ← io_get;
  let vlog_exist := path_exists (w_fs w) (dp_val_log dir) in
  m ← meta_new (dp_meta dir);
  vlog ← on_fs (vlog_new (dp_val_log dir));
  if negb vlog_exist || bool_decide (dir_len = 0)
  then handle_empty_vlog dir config unit m vlog
  else recover dir config unit m vlog.

(** [DataStore::open_without_background]; [open] also starts the background
    tasks *)
Definition open (keyspace : list byte) (root : list string) (w : W) : outcome Error S :=
  if is_valid_keyspace_name keyspace then
    let '(r, w') := create_or_recover (dir_path_build root) Bytes config_default w in
    mk ← r; Ok (mk w')
  else Panic.
End recovery.

(** ** A fresh store *)
Section fresh.
Context `{Env} {M : Type -> Type} `{SkipMap M} (N : nat).
Abbreviation W := (World M).
Abbreviation S := (DataStore M).

Lemma tail_writable : writable TAIL_ENTRY_KEY TAIL_ENTRY_VALUE /\ writable HEAD_ENTRY_KEY HEAD_ENTRY_VALUE.
Proof.
  pose proof max_buf_size_ge. split; split; try done.
  - change (zlen TAIL_ENTRY_VALUE) with 4. lia.
  - change (zlen HEAD_ENTRY_VALUE) with 4. lia.
Qed.

(** The two entries a new log starts with *)
Definition first_entries (t : DateTime) : list ValueLogEntry :=
  [log_entry TAIL_ENTRY_KEY TAIL_ENTRY_VALUE t; log_entry HEAD_ENTRY_KEY HEAD_ENTRY_VALUE t].

Lemma append_first (v : ValueLog) fs t :
  vlog_rep fs v [] -> valid_time t -> exists v1 fs1 v2 fs2,
    vlog_append v TAIL_ENTRY_KEY TAIL_ENTRY_VALUE t false fs = (Ok (0, v1), fs1) /\
    vlog_append v1 HEAD_ENTRY_KEY HEAD_ENTRY_VALUE t false fs1 = (Ok (25, v2), fs2) /\
    vlog_rep fs2 v2 (first_entries t) /\ vlog_file v2 = vlog_file v /\ names fs2 = names fs /\ dirs fs2 = dirs fs /\
    (forall i, i <> file (vlog_file v) -> content fs2 i = content fs i) /\ next_inode fs2 = next_inode fs.
Proof.
  intros Hr Ht. destruct tail_writable as [W1 W2].
  destruct (vlog_append_run fs v [] _ _ t false Hr (writable_entry _ _ t false W1 Ht)) as (v1 & fs1 & E1 & R1 & F1 & _ & _ & C1 & N1 & D1 & X1).
  destruct (vlog_append_run fs1 v1 _ _ _ t false R1 (writable_entry _ _ t false W2 Ht)) as (v2 & fs2 & E2 & R2 & F2 & _ & _ & C2 & N2 & D2 & X2).
  exists v1, fs1, v2, fs2. split; [exact E1|]. split; [exact E2|]. split; [exact R2|]. split; [congruence|].
  split; [congruence|]. split; [congruence|]. split; [|congruence]. intros i Hi. rewrite C2 by congruence. by apply C1.
Qed.

(** What [handle_empty_vlog] builds *)
Record fresh_parts (w : W) (c : MemConfig) (bdir : list string) (v0 : ValueLog) (a : MemTable) (v : ValueLog) (l : nat)
    (w' : W) : Prop := {
  fp_inv : mem_inv w' a;
  fp_lookup k : mem_lookup w' a k =
    if decide (k = HEAD_ENTRY_KEY) then Some (smv_new 25 (clock (2 + w_ticks w)) false)
    else if decide (k = TAIL_ENTRY_KEY) then Some (smv_new 0 (clock (2 + w_ticks w)) false) else None;
  fp_locs : (mt_entries a < l)%nat /\ (bit_vec (bloom_filter a) < l)%nat /\ (l < w_next w')%nat;
  fp_config : mt_config a = c;
  fp_gc : the_map w' l = sm_new;
  fp_log : vlog_rep (w_fs w') v (first_entries (clock (2 + w_ticks w)));
  fp_ticks : w_ticks w' = (3 + w_ticks w)%nat;
  fp_dir : bdir ∈ dirs (w_fs w');
  fp_file : vlog_file v = vlog_file v0;
  fp_names : names (w_fs w') = names (w_fs w);
  fp_dirs : dirs (w_fs w) ⊆ dirs (w_fs w');
  fp_new q : q ∈ dirs (w_fs w') -> q ∈ dirs (w_fs w) \/ q `prefix_of` bdir;
  fp_content i : i <> file (vlog_file v0) -> content (w_fs w') i = content (w_fs w) i;
  fp_inodes : next_inode (w_fs w') = next_inode (w_fs w);
  fp_size : mt_size a = 34;
  fp_closed : dirs_closed (w_fs w) -> dirs_closed (w_fs w');
  fp_recent : get_most_recent_offset a = 25;
  fp_counted : 0 < hashes_of c -> counted a;
}.

Lemma insert_first (w : W) t c w1 fs2 t0 :
  mem_created w c t w1 -> let w2 := with_fs (tick w1) fs2 in
  exists a1 w3 a2 w4, mem_insert t (entry_new TAIL_ENTRY_KEY 0 t0 false) w2 = (Ok a1, w3) /\
    mem_insert a1 (entry_new HEAD_ENTRY_KEY 25 t0 false) w3 = (Ok a2, w4) /\ mem_inv w4 a2 /\
    (forall k, mem_lookup w4 a2 k = if decide (k = HEAD_ENTRY_KEY) then Some (smv_new 25 t0 false)
       else if decide (k = TAIL_ENTRY_KEY) then Some (smv_new 0 t0 false) else None) /\
    mt_entries a2 = mt_entries t /\ bit_vec (bloom_filter a2) = bit_vec (bloom_filter t) /\ mt_config a2 = c /\
    w_fs w4 = fs2 /\ w_next w4 = w_next w1 /\ w_ticks w4 = Datatypes.S (w_ticks w1) /\ mt_size a2 = 34 /\
    get_most_recent_offset a2 = 25 /\ (0 < hashes_of c -> counted a2).
Proof.
  intros C w2. assert (mem_inv w2 t) as Hi by by (apply (mem_inv_frame w1); [done|done|apply C]).
  destruct (mem_insert_run w2 t (entry_new TAIL_ENTRY_KEY 0 t0 false) Hi) as (a1 & w3 & E1 & X1).
  destruct (mem_insert_run w3 a1 (entry_new HEAD_ENTRY_KEY 25 t0 false) (mx_inv _ _ _ _ _ X1)) as (a2 & w4 & E2 & X2).
  exists a1, w3, a2, w4. do 2 (split; [done|]). split; [apply X2|]. split.
  { intros k. rewrite (mx_lookup _ _ _ _ _ X2), (mx_lookup _ _ _ _ _ X1). cbn [e_key entry_new].
    repeat case_decide; try done. exact (mc_lookup _ _ _ _ C k). }
  rewrite (mx_entries _ _ _ _ _ X2), (mx_filter _ _ _ _ _ X2), (mx_config _ _ _ _ _ X2), (mx_fs _ _ _ _ _ X2),
    (mx_next _ _ _ _ _ X2), (mx_ticks _ _ _ _ _ X2), (mx_entries _ _ _ _ _ X1), (mx_filter _ _ _ _ _ X1),
    (mx_config _ _ _ _ _ X1), (mx_fs _ _ _ _ _ X1), (mx_next _ _ _ _ _ X1), (mx_ticks _ _ _ _ _ X1), (mc_config _ _ _ _ C),
    (mx_size _ _ _ _ _ X2), (mx_size _ _ _ _ _ X1), (mc_size _ _ _ _ C), (mx_recent _ _ _ _ _ X2), (mx_recent _ _ _ _ _ X1), (mc_recent _ _ _ _ C).
  do 8 (split; [done|]). intros Hh. apply (counted_insert _ _ _ _ _ X2).
  - eapply (counted_first w2 t _ a1 w3); [apply (blank_frame w1); [done|by eapply created_blank]|exact X1|rewrite (mc_size _ _ _ _ C)|rewrite (mc_config _ _ _ _ C)]; done.
  - by rewrite (mx_size _ _ _ _ _ X1), (mc_size _ _ _ _ C).
Qed.

Lemma handle_empty_run dir config unit m v (w : W) :
  config_ok (mem_config config unit) -> vlog_rep (w_fs w) v [] -> names (w_fs w) !! dp_buckets dir = None ->
  exists a v' l w', handle_empty_vlog dir config unit m v w =
      (Ok (assemble config a sm_new v' m (mkBucketMap (dp_buckets dir) []) key_range_new l), w') /\
    fresh_parts w (mem_config config unit) (dp_buckets dir) v a v' l w'.
Proof.
  intros [Hr Hc Hn] Hv Hb. destruct (mem_new_run _ w Hr Hc Hn) as (t & w1 & E1 & C).
  rewrite <- (mc_fs _ _ _ _ C) in Hv, Hb. destruct (append_first v _ (clock (w_ticks w1)) Hv (clock_valid _))
    as (v1 & fs1 & v2 & fs2 & A1 & A2 & Hv2 & Hvf & Nm & Dr & Ct & Nx).
  destruct (insert_first w t _ w1 fs2 (clock (w_ticks w1)) C) as (a1 & w3 & a2 & w4 & I1 & I2 & Hi & Hl & L1 & L2 & Hcf & Hf & Hx & Ht & Hsz & Hrc & Hct).
  destruct (create_dir_all_run (w_fs w4) (dp_buckets dir)) as (fs5 & D & Hd & Dn & Dx & Di & Ds & Dq & Dc); [by rewrite Hf, Nm|].
  unfold handle_empty_vlog. run E1. run_simpl.
  erewrite io_step; [|by apply on_fs_ok]. cbn beta iota. erewrite io_step; [|by apply on_fs_ok]. cbn beta iota.
  erewrite io_step; [|exact I1]. run I2.
  erewrite io_step; [|unfold bucket_map_new; erewrite io_step by (by apply on_fs_ok); reflexivity]. run_simpl.
  destruct (mc_entries _ _ _ _ C), (mc_filter _ _ _ _ C). assert ((2 + w_ticks w)%nat = w_ticks w1) as Tk by by rewrite (mc_ticks _ _ _ _ C).
  do 4 eexists. split; [reflexivity|].
  assert (forall l, (l < w_next w4)%nat -> the_map (mkWorld fs5 (<[w_next w4 := sm_new]> (w_maps w4)) (w_bits w4)
    (Datatypes.S (w_next w4)) (w_ticks w4)) l = the_map w4 l) as Hmap.
  { intros l Hlt. unfold the_map. cbn. by rewrite lookup_insert_ne by lia. }
  split; cbn [w_next with_fs w_fs w_maps w_bits w_ticks]; try done.
  - apply (mem_inv_frame w4); [apply Hmap; rewrite L1; lia|done|done].
  - intros k. unfold mem_lookup. rewrite Hmap by (rewrite L1; lia). rewrite Tk. apply Hl.
  - rewrite L1, L2, Hx. lia.
  - unfold the_map. cbn. by rewrite lookup_insert_eq.
  - rewrite Tk. destruct Hv2 as [Rc Rs Rv]. split; [|done|done].
    unfold content. cbn [w_fs with_fs]. rewrite Di, Hf. exact Rc.
  - rewrite Ht, <- Tk. done.
  - by rewrite Dn, Hf, Nm, (mc_fs _ _ _ _ C).
  - by rewrite <- (mc_fs _ _ _ _ C), <- Dr, <- Hf.
  - intros q. rewrite <- (mc_fs _ _ _ _ C), <- Dr, <- Hf. apply Dq.
  - intros i Hne. rewrite <- (mc_fs _ _ _ _ C), <- (Ct i Hne), <- Hf. unfold content. by rewrite Di.
  - by rewrite Dx, Hf, Nx, (mc_fs _ _ _ _ C).
  - intros Hcl. apply Dc. unfold dirs_closed. by rewrite Hf, Dr, (mc_fs _ _ _ _ C).
Qed.

(** The invariant of a fresh store: it represents the map with the one entry
    the log's tail marker leaves behind. *)
Definition fresh_map (k : list byte) : option (list byte) :=
  if decide (k = TAIL_ENTRY_KEY) then Some TAIL_ENTRY_VALUE else None.

Lemma fresh_represents w c bdir v0 a v l w' config m :
  orderly N -> (w_ticks w + 3 < N)%nat -> config_ok c -> fresh_parts w c bdir v0 a v l w' ->
  represents N (assemble config a sm_new v m (mkBucketMap bdir []) key_range_new l w')
    (first_entries (clock (2 + w_ticks w))) [] fresh_map.
Proof.
  intros Ho HN Hc [Hi Hl (L1 & L2 & L3) Hcf Hg Hv Ht _ _ _ _ _ _ _ _]. set (s := assemble _ _ _ _ _ _ _ _ _).
  assert (forall k, store_hit s [] k = hit_of <$> mem_lookup w' a k) as Hh.
  { intros k. unfold store_hit, lookup_hit. cbn. destruct (mem_lookup w' a k); [done|]. unfold ro_hits. by rewrite sm_iter_new. }
  assert (forall k v, mem_lookup w' a k = Some v -> smv_created_at v = clock (2 + w_ticks w)) as Htime.
  { intros k x. rewrite Hl. repeat case_decide; [by intros [= <-]..|done]. }
  split; [split; try done; cbn|].
  - rewrite Hg. unfold sm_is_empty. by rewrite sm_iter_new.
  - lia.
  - lia.
  - intros k x Hx n Hn. rewrite (Htime k x Hx). apply (clock_increases _ Ho). lia.
  - by rewrite Hcf.
  - intros id t. by rewrite sm_get_new.
  - intros k x _ Hx. rewrite (Htime k x Hx). split; [apply (clock_positive _ Ho); lia|].
    intros h. unfold ro_hits. rewrite sm_iter_new. by intros ?%not_elem_of_nil.
  - apply indexed_new.
  - intros k h Hk. rewrite Hh, Hl. rewrite decide_False by done. case_decide; [|done]. intros [= <-] _. by eexists.
  - intros k Hk. unfold store_view. rewrite Hh, Hl, decide_False by done. unfold fresh_map. by case_decide.
Qed.

(** Nothing lies directly in the directory [p]. *)
Definition no_children (fs : FS) (p : list string) : Prop :=
  (forall q, q ∈ dirs fs -> q <> [] -> parent q <> p) /\ (forall q i, names fs !! q = Some i -> q <> [] -> parent q <> p).

(** The files of a store that never wrote its metadata and has no tables: an
    empty metadata file [i] and a log [j]. *)
Record on_disk (root : list string) (i j : nat) (fs : FS) (es : list ValueLogEntry) : Prop := {
  od_meta_dir : root ++ ["meta"%string] ∈ dirs fs;
  od_meta : names fs !! ((root ++ ["meta"%string]) ++ ["meta.bin"%string]) = Some i;
  od_meta_empty : content fs i = [];
  od_log_dir : root ++ ["v_log"%string] ∈ dirs fs;
  od_log : names fs !! ((root ++ ["v_log"%string]) ++ ["val_log.bin"%string]) = Some j;
  od_content : content fs j = log_bytes es;
  od_apart : i <> j;
  od_empty : no_children fs (root ++ ["buckets"%string]);
}.

(** The files and directories a new store adds *)
Record new_files (root : list string) (fs : FS) (i j : nat) (fs' : FS) : Prop := {
  nw_wf : fs_wf fs';
  nw_apart : i <> j /\ (i < next_inode fs')%nat /\ (j < next_inode fs')%nat;
  nw_paths q : path_exists fs' q = true -> path_exists fs q = true \/
    q `prefix_of` root ++ ["meta"%string; "meta.bin"%string] \/ q `prefix_of` root ++ ["v_log"%string; "val_log.bin"%string] \/
    q `prefix_of` root ++ ["buckets"%string];
  nw_closed : dirs_closed fs -> dirs_closed fs';
}.

(** [Meta::new] and [ValueLog::new] in a directory that has neither. *)
Lemma new_files_run root (w : W) :
  let dir := dir_path_build root in
  fs_wf (w_fs w) -> path_exists (w_fs w) (dp_meta dir) = false -> path_exists (w_fs w) (dp_val_log dir) = false ->
  names (w_fs w) !! dp_buckets dir = None ->
  exists m w1 v w2, meta_new (dp_meta dir) w = (Ok m, w1) /\ on_fs (vlog_new (dp_val_log dir)) w1 = (Ok v, w2) /\
    vlog_rep (w_fs w2) v [] /\ names (w_fs w2) !! dp_buckets dir = None /\ w_ticks w2 = (2 + w_ticks w)%nat /\
    valid_time (m_created_at m) /\
    (no_children (w_fs w) (dp_buckets dir) -> on_disk root (file (file_handle m)) (file (vlog_file v)) (w_fs w2) []) /\
    new_files root (w_fs w) (file (file_handle m)) (file (vlog_file v)) (w_fs w2).
Proof.
  intros dir Hwf [Hm Hmn]%path_exists_false [Hv Hvn]%path_exists_false Hb. cbn in *.
  destruct (create_dir_all_run (w_fs w) (root ++ ["meta"%string]) Hmn) as (fs1 & D1 & In1 & N1 & X1 & I1 & B1 & S1 & L1).
  assert (names fs1 !! ((root ++ ["meta"%string]) ++ ["meta.bin"%string]) = None) as F1 by (rewrite N1; by apply wf_fresh_name).
  pose proof (file_new_fresh fs1 _ "meta.bin" FMeta F1 In1) as T1. set (fs2 := fs_touch fs1 _) in *.
  assert (forall p, p <> (root ++ ["meta"%string]) ++ ["meta.bin"%string] -> names fs2 !! p = names (w_fs w) !! p) as N2.
  { intros p Hp. unfold fs2, fs_touch. cbn. by rewrite lookup_insert_ne, N1. }
  destruct (create_dir_all_run fs2 (root ++ ["v_log"%string])) as (fs3 & D3 & In3 & N3 & X3 & I3 & B3 & S3 & L3).
  { rewrite N2; [done|]. intros E%(f_equal length). rewrite !length_app in E. cbn in E. lia. }
  assert (names fs3 !! ((root ++ ["v_log"%string]) ++ ["val_log.bin"%string]) = None) as F3.
  { rewrite N3, N2; [by apply wf_fresh_name|]. intros [E _]%app_inj_tail. by apply app_inj_tail in E as [_ ?]. }
  pose proof (file_new_fresh fs3 _ "val_log.bin" FValueLog F3 In3) as T3.
  do 4 eexists. split.
  { unfold meta_new. do 2 run_simpl. erewrite io_step by (by apply on_fs_ok).
    erewrite io_step by (apply io_unwrap_ok, on_fs_ok; exact T1). reflexivity. }
  split. { apply on_fs_ok. unfold vlog_new. erewrite io_step by exact D3. erewrite io_step by exact T3. reflexivity. }
  split; [|split; [|split; [done|split; [apply clock_valid|split]]]].
  - split; [| |done]; cbn [vlog_file vlog_size file w_fs with_fs]; by rewrite content_touch.
  - cbn [w_fs with_fs fs_touch names]. rewrite lookup_insert_ne, N3, N2; [done|..];
      intros E%(f_equal length); rewrite !length_app in E; cbn in E; lia.
  - intros [Q1 Q2]. cbn [file_handle vlog_file file w_fs with_fs]. assert (next_inode fs3 <> next_inode fs1) as Hne by (rewrite X3; cbn; lia).
    assert ((root ++ ["meta"%string]) ++ ["meta.bin"%string] <> (root ++ ["v_log"%string]) ++ ["val_log.bin"%string]) as Hpath
      by by intros [_ ?]%app_inj_tail.
    split; cbn [fs_touch dirs names].
    + by apply B3.
    + rewrite lookup_insert_ne by done. rewrite N3. by apply lookup_insert_eq.
    + rewrite content_touch_ne by done. unfold content at 1. rewrite I3. apply (content_touch fs1).
    + done.
    + apply lookup_insert_eq.
    + apply content_touch.
    + done.
    + split; cbn [dirs names fs_touch].
      * intros q [[Hq|Hq%prefix_length]%S1|Hq%prefix_length]%S3 Hn0 Hpar; [by apply (Q1 q)|..];
          apply (f_equal length) in Hpar; unfold parent in Hpar; rewrite length_take in Hpar; rewrite !length_app in *; cbn in *; lia.
      * intros q x Hq Hn0 Hpar. destruct (decide (q = (root ++ ["v_log"%string]) ++ ["val_log.bin"%string])) as [->|Hq1].
        { rewrite parent_snoc in Hpar. by apply app_inj_tail in Hpar as [_ ?]. }
        rewrite lookup_insert_ne, N3 in Hq by done.
        destruct (decide (q = (root ++ ["meta"%string]) ++ ["meta.bin"%string])) as [->|Hq2].
        { rewrite parent_snoc in Hpar. by apply app_inj_tail in Hpar as [_ ?]. }
        rewrite N2 in Hq by done. by apply (Q2 q x).
  - cbn [file_handle vlog_file file w_fs with_fs]. set (fs4 := fs_touch fs3 _).
    assert (forall q x, names fs4 !! q = Some x ->
      (q = (root ++ ["v_log"%string]) ++ ["val_log.bin"%string] /\ x = next_inode fs3) \/
      (q = (root ++ ["meta"%string]) ++ ["meta.bin"%string] /\ x = next_inode fs1) \/ names (w_fs w) !! q = Some x) as Hnames.
    { intros q x. unfold fs4. cbn. intros [[<- <-]|[_ Hq]]%lookup_insert_Some; [by left|right]. rewrite N3 in Hq. unfold fs2 in Hq. cbn in Hq.
      apply lookup_insert_Some in Hq as [[<- <-]|[_ Hq]]; [by left|right]. by rewrite N1 in Hq. }
    assert (next_inode fs4 = Datatypes.S (next_inode fs3) /\ next_inode fs3 = Datatypes.S (next_inode fs1)) as [X4 X5] by (split; [done|by rewrite X3]).
    split; [split|lia| |by intros Hcl%L1%L3].
    + intros q x [[-> _]|[[-> _]|Hq]]%Hnames; rewrite ?parent_snoc; cbn [dirs fs4 fs_touch]; [done|by apply B3|]. apply B3. cbn. apply B1. by eapply Hwf.
    + intros q x [[_ ->]|[[_ ->]|Hq]]%Hnames; [lia|lia|]. apply (wf_inode _ Hwf) in Hq. lia.
    + intros q. rewrite !path_exists_spec. intros [[[Hq|Hq]%S1|Hq]%S3|[x [[-> _]|[[-> _]|Hq]]%Hnames]]; rewrite <- ?app_assoc.
      * left. by left.
      * right. left. by apply (prefix_app_r _ _ ["meta.bin"%string]) in Hq; rewrite <- app_assoc in Hq.
      * right. right. left. by apply (prefix_app_r _ _ ["val_log.bin"%string]) in Hq; rewrite <- app_assoc in Hq.
      * right. right. by left.
      * right. by left.
      * left. right. by exists x.
Qed.

Lemma default_config_ok : config_ok (mem_config config_default Bytes).
Proof. split; by vm_compute. Qed.
End fresh.

Section open.
Context `{Env} {M : Type -> Type} `{SkipMap M} (N : nat) (parse_uuid : string -> option string) (dir_len : Z).

(** A newly opened store *)
Record opened (root : list string) (w : World M) (t : DateTime) (s : DataStore M) : Prop := {
  oe_parts : exists a v m l w', s = assemble config_default a sm_new v m (mkBucketMap (root ++ ["buckets"%string]) []) key_range_new l w';
  oe_files : new_files root (w_fs w) (file (file_handle (ds_meta s))) (file (vlog_file (val_log s))) (w_fs (ds_world s));
  oe_lookup k : mem_lookup (ds_world s) (active_memtable s) k =
    if decide (k = HEAD_ENTRY_KEY) then Some (smv_new 25 t false)
    else if decide (k = TAIL_ENTRY_KEY) then Some (smv_new 0 t false) else None;
  oe_time : t = clock (4 + w_ticks w);
  oe_size : mt_size (active_memtable s) = 34;
  oe_config : mt_config (active_memtable s) = mem_config config_default Bytes;
  oe_recent : get_most_recent_offset (active_memtable s) = 25;
  oe_counted : 0 < hashes_of (mem_config config_default Bytes) -> counted (active_memtable s);
  oe_created : valid_time (m_created_at (ds_meta s));
  oe_disk : no_children (w_fs w) (root ++ ["buckets"%string]) ->
    on_disk root (file (file_handle (ds_meta s))) (file (vlog_file (val_log s))) (w_fs (ds_world s)) (first_entries t);
}.

Lemma open_fresh_run keyspace root (w : World M) :
  let dir := dir_path_build root in
  orderly N -> (w_ticks w + 5 < N)%nat -> is_valid_keyspace_name keyspace = true ->
  fs_wf (w_fs w) -> path_exists (w_fs w) (dp_meta dir) = false -> path_exists (w_fs w) (dp_val_log dir) = false ->
  names (w_fs w) !! dp_buckets dir = None ->
  exists s t, open parse_uuid dir_len keyspace root w = Ok s /\ represents N s (first_entries t) [] fresh_map /\
    w_ticks (ds_world s) = (5 + w_ticks w)%nat /\ dp_buckets dir ∈ dirs (w_fs (ds_world s)) /\
    (no_children (w_fs w) (dp_buckets dir) ->
     exists i, on_disk root i (file (vlog_file (val_log s))) (w_fs (ds_world s)) (first_entries t)) /\ opened root w t s.
Proof.
  intros dir Ho HN Hk Hwf Hm Hv Hb.
  destruct (new_files_run root w Hwf Hm Hv Hb) as (m & w1 & v & w2 & E1 & E2 & Hr & Hb2 & Ht & Hvt & Hd & Hnw).
  destruct (handle_empty_run dir config_default Bytes m v w2 default_config_ok Hr Hb2) as (a & v' & l & w' & E3 & Hp).
  assert (no_children (w_fs w) (dp_buckets dir) ->
    on_disk root (file (file_handle m)) (file (vlog_file v')) (w_fs w') (first_entries (clock (2 + w_ticks w2)))) as Hdisk.
  { intros [A1 A2 A3 A4 A5 A6 A7 [A8 A9]]%Hd. pose proof (fp_dirs _ _ _ _ _ _ _ _ Hp) as Hds. rewrite (fp_file _ _ _ _ _ _ _ _ Hp).
    split; rewrite ?(fp_names _ _ _ _ _ _ _ _ Hp); try done; try by apply Hds.
    - by rewrite (fp_content _ _ _ _ _ _ _ _ Hp).
    - rewrite <- (fp_file _ _ _ _ _ _ _ _ Hp). apply (fp_log _ _ _ _ _ _ _ _ Hp).
    - split; [|by rewrite (fp_names _ _ _ _ _ _ _ _ Hp)]. intros q [Hq|Hq%prefix_length]%(fp_new _ _ _ _ _ _ _ _ Hp) Hn0 Hpar; [by apply (A8 q)|].
      apply (f_equal length) in Hpar. unfold parent in Hpar. rewrite length_take in Hpar. cbn in Hq. rewrite length_app in *. cbn in *. lia. }
  eexists _, _. split; [|split; [eapply fresh_represents; [exact Ho| |exact default_config_ok|exact Hp]; rewrite Ht; lia|]].
  - unfold open. rewrite Hk. unfold create_or_recover. run_simpl. fold dir. rewrite Hv. run E1. run E2. cbn [negb orb]. by rewrite E3.
  - cbn. split; [rewrite (fp_ticks _ _ _ _ _ _ _ _ Hp), Ht; lia|]. split; [apply Hp|]. split; [intros Hnc; eexists; by apply Hdisk|].
    split; cbn; [by eexists _, _, _, _, _| |by apply Hp|by rewrite Ht|apply Hp|apply Hp|apply Hp|apply Hp|done|exact Hdisk].
    destruct Hnw as [Z1 Z2 Z3 Z4]. rewrite (fp_file _ _ _ _ _ _ _ _ Hp). split; rewrite ?(fp_inodes _ _ _ _ _ _ _ _ Hp); [|done| |by intros Hcl%Z4; apply Hp].
    + destruct Z1 as [Y1 Y2]. split; intros q x; rewrite (fp_names _ _ _ _ _ _ _ _ Hp), ?(fp_inodes _ _ _ _ _ _ _ _ Hp); [|apply Y2].
      intros Hq%Y1. by apply (fp_dirs _ _ _ _ _ _ _ _ Hp).
    + intros q. rewrite path_exists_spec, (fp_names _ _ _ _ _ _ _ _ Hp). intros [[Hq|Hq]%(fp_new _ _ _ _ _ _ _ _ Hp)|Hq].
      * apply Z3, path_exists_spec. by left.
      * by right; right; right.
      * apply Z3, path_exists_spec. by right.
Qed.

(** [C13] Opening a store in a directory that has none succeeds and yields the
    empty map, up to the entry ["tail"] that marks the log's tail. Together with
    the refinement of the operations, every history that starts with [open] on
    a new directory behaves as a map. *)
Theorem open_fresh keyspace root (w : World M) :
  let dir := dir_path_build root in
  orderly N -> (w_ticks w + 5 < N)%nat -> is_valid_keyspace_name keyspace = true ->
  fs_wf (w_fs w) -> path_exists (w_fs w) (dp_meta dir) = false -> path_exists (w_fs w) (dp_val_log dir) = false ->
  names (w_fs w) !! dp_buckets dir = None ->
  exists s es, open parse_uuid dir_len keyspace root w = Ok s /\ represents N s es [] fresh_map.
Proof.
  intros dir Ho HN Hk Hwf Hm Hv Hb.
  destruct (open_fresh_run keyspace root w Ho HN Hk Hwf Hm Hv Hb) as (s & t & E & R & _). by exists s, (first_entries t).
Qed.
End open.

(** ** Replaying the log *)
Section replay.
Context `{Env} {M : Type -> Type} `{SkipMap M}.
Abbreviation W := (World M).

(** The bindings after the entries [es] that start at offset [off]. *)
Fixpoint replay (off : Z) (es : list ValueLogEntry) (m : list byte -> option SkipMapValue) : list byte -> option SkipMapValue :=
  match es with
  | [] => m
  | e :: es' => replay (off + entry_bytes e) es'
      (fun k => if decide (k = vle_key e) then Some (smv_new off (vle_created_at e) (vle_is_tombstone e)) else m k)
  end.

Lemma replay_ext off es m m' : (forall k, m k = m' k) -> forall k, replay off es m k = replay off es m' k.
Proof.
  revert off m m'. induction es as [|e es IH]; intros off m m' Hm; [done|]. cbn. apply IH. intros k. by case_decide.
Qed.

(** The last entry of a key decides; a key without entry keeps its binding. *)
Lemma replay_spec off es m k :
  (exists j e, es !! j = Some e /\ vle_key e = k /\ (forall j' e', (j < j')%nat -> es !! j' = Some e' -> vle_key e' <> k) /\
     replay off es m k = Some (smv_new (off + offset_of es j) (vle_created_at e) (vle_is_tombstone e))) \/
  ((forall j e, es !! j = Some e -> vle_key e <> k) /\ replay off es m k = m k).
Proof.
  revert off m. induction es as [|e es IH]; intros off m; [right; split; [by intros [|]|done]|]. cbn [replay].
  destruct (IH (off + entry_bytes e) (fun k => if decide (k = vle_key e) then Some (smv_new off (vle_created_at e) (vle_is_tombstone e)) else m k))
    as [(j & e' & Hj & Hk & Hlast & ->)|[Hnone ->]].
  - left. exists (S j), e'. split; [done|]. split; [done|]. split.
    + intros [|j'] x Hlt Hx; [lia|]. apply (Hlast j'); [lia|done].
    + unfold offset_of. cbn [take]. rewrite log_bytes_cons. do 2 f_equal. lia.
  - case_decide as Hk.
    + left. exists O, e. split; [done|]. split; [done|]. split; [|unfold offset_of; by rewrite Z.add_0_r].
      intros [|j'] x Hlt Hx; [lia|]. by apply (Hnone j').
    + right. split; [|done]. intros [|j] x Hx; [injection Hx as <-; congruence|by apply (Hnone j)].
Qed.

(** The memtable bytes of the entries *)
Fixpoint replay_size (es : list ValueLogEntry) : Z :=
  match es with [] => 0 | e :: es' => mem_entry_size (zlen (vle_key e)) + replay_size es' end.

Lemma replay_size_nonneg es : 0 <= replay_size es.
Proof.
  induction es as [|e es IH]; cbn [replay_size]; [done|]. pose proof (zlen_nonneg (vle_key e)).
  unfold mem_entry_size, SIZE_OF_U32, SIZE_OF_U64, SIZE_OF_U8. lia.
Qed.

(** The insertions that repeat log entries from an offset on *)
Inductive inserted_all : Z -> list ValueLogEntry -> W -> MemTable -> W -> MemTable -> Prop :=
  | inserted_none off w t : inserted_all off [] w t w t
  | inserted_next off e es w t w1 t1 w' t' :
      mem_inserted w t (entry_new (vle_key e) off (vle_created_at e) (vle_is_tombstone e)) t1 w1 ->
      inserted_all (off + entry_bytes e) es w1 t1 w' t' -> inserted_all off (e :: es) w t w' t'.

Lemma inserted_all_size off es w t w' t' : inserted_all off es w t w' t' -> mt_size t' = mt_size t + replay_size es.
Proof. induction 1 as [|off e es w t w1 t1 w' t' X _ IH]; cbn; [lia|]. rewrite IH, (mx_size _ _ _ _ _ X). cbn. lia. Qed.

Lemma inserted_all_recent off es w t w' t' : inserted_all off es w t w' t' ->
  get_most_recent_offset t' = get_most_recent_offset t \/
  exists j, (j < length es)%nat /\ get_most_recent_offset t' = off + offset_of es j.
Proof.
  induction 1 as [|off e es w t w1 t1 w' t' X _ IH]; [by left|]. pose proof (mx_recent _ _ _ _ _ X) as Hr. cbn in Hr.
  destruct IH as [IH|(j & Hj & IH)].
  - destruct (Z.max_dec (get_most_recent_offset t) off) as [E|E]; [left; congruence|right]. exists O. split; [cbn; lia|]. change (offset_of (e :: es) 0) with 0. lia.
  - right. exists (S j). split; [cbn; lia|]. rewrite IH. unfold offset_of. cbn [take]. rewrite log_bytes_cons. lia.
Qed.

Lemma inserted_all_counted off es w t w' t' :
  inserted_all off es w t w' t' -> counted t -> mt_size t + replay_size es < 2 ^ 32 -> counted t'.
Proof.
  induction 1 as [|off e es w t w1 t1 w' t' X _ IH]; [done|]. intros Hc Hs. pose proof (replay_size_nonneg es). cbn [replay_size] in Hs.
  pose proof (mem_entry_size_pos (zlen (vle_key e)) (zlen_nonneg _)). apply IH; [|rewrite (mx_size _ _ _ _ _ X); cbn; lia].
  eapply counted_insert; [exact X|done|lia].
Qed.

Lemma inserted_all_first off es w t w' t' :
  inserted_all off es w t w' t' -> blank w t -> es <> [] -> 0 <= mt_size t -> mt_size t + replay_size es < 2 ^ 32 -> 0 < hashes_of (mt_config t) -> counted t'.
Proof.
  intros Hx Hb He H0s Hs Hh. destruct Hx as [|off e es w t w1 t1 w' t' X Hx]; [done|]. cbn [replay_size] in Hs.
  eapply inserted_all_counted; [exact Hx|by eapply counted_first|]. rewrite (mx_size _ _ _ _ _ X). cbn. lia.
Qed.

Lemma recover_entries_run c head off es active (ro : M MemTable) (w : W) :
  mem_inv w active -> head < off -> mt_size active + replay_size es < mt_capacity (mt_config active) ->
  exists a' w', recover_entries c head off es active ro w = (Ok (a', ro), w') /\ mem_inv w' a' /\
    (forall k, mem_lookup w' a' k = replay off es (mem_lookup w active) k) /\ w_fs w' = w_fs w /\
    mt_config a' = mt_config active /\ w_next w' = w_next w /\ w_ticks w' = w_ticks w /\
    mt_entries a' = mt_entries active /\ bit_vec (bloom_filter a') = bit_vec (bloom_filter active) /\
    inserted_all off es w active w' a'.
Proof.
  revert off active w. induction es as [|e es IH]; intros off active w Hi Ho Hs.
  { exists active, w. do 8 (split; [done|]). split; [done|constructor]. }
  cbn [recover_entries replay_size] in *. pose proof (replay_size_nonneg es) as Hp.
  rewrite decide_True by lia. unfold is_full. unfold mem_entry_size in Hs. rewrite bool_decide_false by lia. run_simpl.
  destruct (mem_insert_run w active (entry_new (vle_key e) off (vle_created_at e) (vle_is_tombstone e)) Hi) as (a1 & w1 & E & Hx).
  cbn beta iota. run E. assert (entry_bytes e = SIZE_OF_U32 + SIZE_OF_U32 + SIZE_OF_U64 + SIZE_OF_U8 + zlen (vle_key e) + zlen (vle_value e)) as Eb.
  { rewrite entry_bytes_eq. unfold SIZE_OF_U32, SIZE_OF_U64, SIZE_OF_U8. lia. }
  rewrite <- Eb. destruct (IH (off + entry_bytes e) a1 w1) as (a' & w' & E' & Hi' & Hl & Hf & Hc & Hx1 & Hx2 & Hx3 & Hx4 & Hal).
  - apply Hx.
  - pose proof (zlen_nonneg (vle_key e)). pose proof (zlen_nonneg (vle_value e)). rewrite entry_bytes_eq. lia.
  - rewrite (mx_size _ _ _ _ _ Hx), (mx_config _ _ _ _ _ Hx). unfold mem_entry_size. cbn [e_key entry_new]. lia.
  - exists a', w'. split; [done|]. split; [done|]. split.
    + intros k. rewrite Hl. cbn [replay]. apply replay_ext. intros k'. exact (mx_lookup _ _ _ _ _ Hx k').
    + rewrite Hf, Hc, Hx1, Hx2, Hx3, Hx4, (mx_fs _ _ _ _ _ Hx), (mx_config _ _ _ _ _ Hx), (mx_next _ _ _ _ _ Hx),
        (mx_ticks _ _ _ _ _ Hx), (mx_entries _ _ _ _ _ Hx), (mx_filter _ _ _ _ _ Hx).
      do 6 (split; [done|]). by econstructor.
Qed.

Lemma stored_entry_bytes e : entry_bytes (stored e) = entry_bytes e.
Proof. by rewrite !entry_bytes_eq. Qed.

Lemma stored_offset es j : offset_of (stored <$> es) j = offset_of es j.
Proof.
  unfold offset_of. rewrite <- fmap_take. generalize (take j es). intros l. induction l as [|e l IH]; [done|].
  rewrite fmap_cons, !log_bytes_cons, stored_entry_bytes, IH. done.
Qed.

Lemma replay_size_stored es : replay_size (stored <$> es) = replay_size es.
Proof. induction es as [|e es IH]; [done|]. rewrite fmap_cons. cbn [replay_size]. by rewrite IH. Qed.

(** Reading the log back through a new handle *)
Lemma reopen_log_run p f es i (w : W) :
  p ∈ dirs (w_fs w) -> names (w_fs w) !! (p ++ ["val_log.bin"%string]) = Some f ->
  content (w_fs w) f = log_bytes es -> Forall valid_entry es ->
  exists v, on_fs (vlog_new p) w = (Ok v, w) /\
    on_fs (vlog_recover v (offset_of es i)) w = (Ok (stored <$> drop i es), w).
Proof.
  intros Hp Hn Hc Hv. set (nd := mkFileNode (p ++ ["val_log.bin"%string]) f FValueLog).
  assert (with_fs w (w_fs w) = w) as Ew by by destruct w. exists (mkVLog nd 0 0 (zlen (log_bytes es))). split.
  - unfold on_fs, vlog_new. erewrite io_step; [|unfold create_dir_all, path_exists; by rewrite bool_decide_true].
    erewrite io_step by (by apply file_new_existing). unfold file_size. erewrite io_step; [|reflexivity]. cbn. by rewrite Hc, Ew.
  - unfold on_fs. rewrite (vlog_recover_run _ _ es); [by rewrite Ew|]. by split.
Qed.

Record replayed (w : W) (c : MemConfig) (es : list ValueLogEntry) (i : nat) (a : MemTable) (w' : W) : Prop := {
  rp_inv : mem_inv w' a;
  rp_lookup k : mem_lookup w' a k = replay (offset_of es (S i)) (stored <$> drop (S i) es) (fun _ => None) k;
  rp_config : mt_config a = c;
  rp_entries : (mt_entries a < w_next w')%nat;
  rp_filter : (bit_vec (bloom_filter a) < w_next w')%nat;
  rp_fs : w_fs w' = w_fs w;
  rp_ticks : w_ticks w' = S (S (w_ticks w));
  rp_next : (w_next w <= w_next w')%nat;
  rp_steps : exists t w1, mem_created w c t w1 /\ inserted_all (offset_of es (S i)) (stored <$> drop (S i) es) w1 t w' a;
}.

Lemma recover_memtable_run c p f es i e0 (w : W) :
  config_ok c -> p ∈ dirs (w_fs w) -> names (w_fs w) !! (p ++ ["val_log.bin"%string]) = Some f ->
  content (w_fs w) f = log_bytes es -> Forall valid_entry es -> es !! i = Some e0 ->
  replay_size (drop (S i) es) < mt_capacity c ->
  exists a w', recover_memtable c p (offset_of es i) w = (Ok (a, sm_new), w') /\ replayed w c es i a w'.
Proof.
  intros [Cr Cc Cn] Hp Hn Hc Hv H0' Hs. destruct (mem_new_run c w Cr Cc Cn) as (t & w1 & E1 & C).
  destruct (reopen_log_run p f es i w1) as (v & E2 & E3); [by rewrite (mc_fs _ _ _ _ C)..|done|].
  unfold recover_memtable. run E1. run E2. run E3. rewrite (drop_S _ _ _ H0'), fmap_cons. cbn [recover_entries].
  rewrite decide_False by naive_solver.
  match goal with |- context [recover_entries c _ ?o _ _ _] => assert (o = offset_of es (S i)) as -> end.
  { rewrite (offset_of_S _ _ _ H0'), entry_bytes_eq. unfold SIZE_OF_U32, SIZE_OF_U64, SIZE_OF_U8. cbn. lia. }
  destruct (recover_entries_run c (offset_of es i) (offset_of es (S i)) (stored <$> drop (S i) es) t sm_new w1)
    as (a & w' & E4 & Hi & Hl & Hfs & Hcf & Hnx & Htk & Hen & Hbv & Hal).
  { apply C. }
  { rewrite (offset_of_S _ _ _ H0'), entry_bytes_eq. pose proof (zlen_nonneg (vle_key e0)). pose proof (zlen_nonneg (vle_value e0)). lia. }
  { by rewrite (mc_size _ _ _ _ C), (mc_config _ _ _ _ C), replay_size_stored. }
  exists a, w'. split; [exact E4|]. destruct (mc_entries _ _ _ _ C), (mc_filter _ _ _ _ C). split; try done.
  - intros k. rewrite Hl. apply replay_ext. apply C.
  - by rewrite Hcf, (mc_config _ _ _ _ C).
  - by rewrite Hen, Hnx.
  - by rewrite Hbv, Hnx.
  - by rewrite Hfs, (mc_fs _ _ _ _ C).
  - by rewrite Htk, (mc_ticks _ _ _ _ C).
  - lia.
  - by exists t, w1.
Qed.

(** What the replay of the entries after entry [i] binds *)
Lemma replay_suffix es i k :
  match replay (offset_of es (S i)) (stored <$> drop (S i) es) (fun _ => None) k with
  | Some v => exists j e, (i < j)%nat /\ es !! j = Some e /\ vle_key e = k /\
      (forall j' e', (j < j')%nat -> es !! j' = Some e' -> vle_key e' <> k) /\
      v = smv_new (offset_of es j) (trunc_ms (vle_created_at e)) (vle_is_tombstone e)
  | None => forall j e, (i < j)%nat -> es !! j = Some e -> vle_key e <> k
  end.
Proof.
  destruct (replay_spec (offset_of es (S i)) (stored <$> drop (S i) es) (fun _ => None) k) as [(j & e & Hj & Hk & Hlast & ->)|[Hnone ->]].
  - apply list_lookup_fmap_Some in Hj as (e' & -> & Hj). rewrite lookup_drop in Hj. exists (S i + j)%nat, e'.
    split; [lia|]. split; [done|]. split; [done|]. split.
    + intros j' x Hlt Hx. apply (Hlast (j' - S i)%nat (stored x)); [lia|]. rewrite list_lookup_fmap, lookup_drop.
      by replace (S i + (j' - S i))%nat with j' by lia; rewrite Hx.
    + by rewrite stored_offset, <- offset_of_plus.
  - intros j x Hlt Hx. apply (Hnone (j - S i)%nat (stored x)).
    rewrite list_lookup_fmap, lookup_drop. by replace (S i + (j - S i))%nat with j by lia; rewrite Hx.
Qed.

End replay.

(** A crash keeps the files and loses everything in memory. *)
Definition crash {M : Type -> Type} (s : DataStore M) : World M :=
  mkWorld (w_fs (ds_world s)) ∅ ∅ 0 (w_ticks (ds_world s)).

(** ** Witnesses and crashes *)
Section recovery_witnesses.
#[local] Existing Instance demo_platform.
#[local] Existing Instance demo_env.
#[local] Existing Instance sorted_list_skipmap.

(** Identifiers stand for themselves; directories have a non-zero length. *)
Abbreviation demo_open := (open (M := slist) Some 4096).

Lemma empty_world_wf : fs_wf (w_fs empty_world).
Proof. split; intros p i; cbn; by rewrite lookup_empty. Qed.

Lemma open_fresh_witness :
  exists s es, demo_open [x64; x62] ["db"%string] empty_world = Ok s /\ represents 1000 s es [] fresh_map.
Proof.
  apply (open_fresh 1000 Some 4096 [x64; x62] ["db"%string] empty_world demo_orderly).
  - cbn. lia.
  - reflexivity.
  - exact empty_world_wf.
  - reflexivity.
  - reflexivity.
  - reflexivity.
Defined.

Definition demo_log_world : World slist :=
  mkWorld (mkFS {[ 0%nat := log_bytes demo_log ]} {[ file_path demo_node := 0%nat ]} {[ ["v_log"%string] ]} 1) ∅ ∅ 0 0.


(** A store with memtables of 200 bytes *)
Definition small_config : Config :=
  mkConfig DEFAULT_FALSE_POSITIVE_RATE true 10 200 2 false ENTRY_TTL DEFAULT_TOMBSTONE_TTL 0 0 0 STCS 0 1000 900.
Definition small_open (w : World slist) : outcome Error (DataStore slist) :=
  let '(r, w') := create_or_recover Some 4096 (dir_path_build ["db"%string]) Bytes small_config w in mk ← r; Ok (mk w').

(** The metadata writes that are pending *)
Definition write_metas (s : DataStore slist) : DataStore slist :=
  foldl (fun s t => match t with TWriteMeta _ => (run_task t s).2 | _ => s end) s (tasks s).

Definition value_after (k : list byte) (s : outcome Error (DataStore slist)) : outcome Error (option (list byte)) :=
  match s with
  | Ok s => match (store_get k s).1 with Ok r => Ok (option_map ue_val r) | Err e => Err e | Panic => Panic end
  | Err e => Err e
  | Panic => Panic
  end.
Definition restart (s : outcome Error (DataStore slist)) : outcome Error (DataStore slist) :=
  match s with Ok s => small_open (crash s) | Err e => Err e | Panic => Panic end.

(** A new store after enough writes for one rotation *)
Definition rotated_once : outcome Error (DataStore slist) :=
  match small_open empty_world with
  | Ok s => Ok (exec_all (OpPut [x61] [x31] :: replicate 12 (OpPut [x62] [x32])) s).2
  | r => r
  end.

End recovery_witnesses.
