(* ===== verification/TableRecovery.v ===== *)
(** * Recovering the tables ([DataStore::recover] of [src/db/recovery.rs])

    What the loops over the bucket directories find. A [layout] describes the
    directories and files that flushes leave behind; from it recovery rebuilds a
    bucket map and a key-range index with every table ([recover_buckets_run]),
    and searching the index, which restores the filters on the way, finds the
    newest binding on disk. *)

From stdpp Require Import prelude gmap strings list sorting.
From Stdlib Require Import Strings.Ascii Strings.Byte ZArith Lia.
From S2P Require Import Prelude Consts SkipMap FileIO Types World VLog Block Index Bloom SSTable Meta MemTable.
From S2P Require Import KeyRange RangeSearch Bucket Flush Compaction Config Store StoreInv StoreSpec FlushSpec Recovery.
Open Scope Z_scope.

(** ** The order of paths *)
Lemma ascii_compare_trans a b c r : Ascii.compare a b = r -> Ascii.compare b c = r -> Ascii.compare a c = r.
Proof.
  unfold Ascii.compare. destruct r; rewrite ?N.compare_eq_iff, ?N.compare_lt_iff, ?N.compare_gt_iff; [congruence|lia|lia].
Qed.

Lemma string_compare_trans a b c : String.compare a b = Lt -> String.compare b c = Lt -> String.compare a c = Lt.
Proof.
  revert b c. induction a as [|x a IH]; intros [|y b] [|z c]; cbn; try done.
  destruct (Ascii.compare x y) eqn:E1, (Ascii.compare y z) eqn:E2; try done.
  - rewrite (ascii_compare_trans _ _ _ _ E1 E2). apply IH.
  - apply Ascii.compare_eq_iff in E1 as ->. by rewrite E2.
  - apply Ascii.compare_eq_iff in E2 as ->. by rewrite E1.
  - by rewrite (ascii_compare_trans _ _ _ _ E1 E2).
Qed.

Lemma string_compare_refl a : String.compare a a = Eq.
Proof. pose proof (String.compare_antisym a a) as E. by destruct (String.compare a a). Qed.

#[export] Instance path_le_trans : Transitive path_le.
Proof.
  intros p. unfold path_le. induction p as [|a p IH]; intros [|b q] [|c r]; cbn; try done.
  destruct (String.compare a b) eqn:E1, (String.compare b c) eqn:E2; try done.
  - apply String.compare_eq_iff in E1 as ->, E2 as ->. rewrite string_compare_refl. apply IH.
  - apply String.compare_eq_iff in E1 as ->. by rewrite E2.
  - apply String.compare_eq_iff in E2 as ->. by rewrite E1.
  - by rewrite (string_compare_trans _ _ _ E1 E2).
Qed.

#[export] Instance path_le_antisymm : AntiSymm (=) path_le.
Proof.
  intros p. unfold path_le. induction p as [|a p IH]; intros [|b q]; cbn; try done.
  rewrite (String.compare_antisym b a). destruct (String.compare a b) eqn:E; try done.
  apply String.compare_eq_iff in E as ->. cbn. intros H1 H2. f_equal. by apply IH.
Qed.

#[export] Instance path_le_total : Total path_le.
Proof.
  intros p. unfold path_le. induction p as [|a p IH]; intros [|b q]; cbn; try (by left); try (by right).
  rewrite (String.compare_antisym b a). destruct (String.compare a b) eqn:E; cbn; auto.
Qed.

Lemma path_leb_app d p q : path_leb (d ++ p) (d ++ q) = path_leb p q.
Proof.
  induction d as [|a d IH]; [done|]. cbn. by rewrite string_compare_refl.
Qed.

(** Sorting the four files of a table, found in any order *)
Lemma sort_table_files d (l : list (list string)) :
  l ≡ₚ (fun x => d ++ [x]) <$> table_files ->
  merge_sort path_le l = (fun x => d ++ [x]) <$> ["data.db"; "filter.db"; "index.db"; "summary.db"]%string.
Proof.
  intros Hl. apply (StronglySorted_unique path_le).
  - apply StronglySorted_merge_sort; apply _.
  - cbn. repeat (constructor; [|repeat (constructor; [unfold path_le; by rewrite path_leb_app|]); constructor]). constructor.
  - rewrite merge_sort_Permutation, Hl. unfold table_files. cbn. apply perm_skip.
    apply (Permutation_app_comm [_; _] [_]).
Qed.

(** ** Bucket ids in paths

    An id is hexadecimal digits and dashes; what matters is that it has neither a slash nor the letter u. *)
Fixpoint lacks (c : ascii) (s : string) : bool :=
  match s with EmptyString => true | String a s' => negb (Ascii.eqb a c) && lacks c s' end.

Lemma append_cons a s r : String.append (String a s) r = String a (String.append s r).
Proof. done. Qed.

Lemma prefix_cons x p y s : String.prefix (String x p) (String y s) = if ascii_dec x y then String.prefix p s else false.
Proof. done. Qed.

Lemma after_last_none s : lacks "u" s = true -> after_last "bucket" s = None.
Proof.
  induction s as [|a s IH]; [done|]. cbn [lacks after_last]. intros [Ha Hs]%andb_true_iff. rewrite IH by done.
  rewrite prefix_cons. destruct (ascii_dec "b" a); [|done]. destruct s as [|b s]; [done|].
  cbn [lacks] in Hs. apply andb_true_iff in Hs as [Hb _]. apply negb_true_iff, Ascii.eqb_neq in Hb.
  rewrite prefix_cons. by destruct (ascii_dec "u" b); [subst|].
Qed.

Lemma after_last_cons c s r : after_last "bucket" s = Some r -> after_last "bucket" (String c s) = Some r.
Proof. intros E. cbn [after_last]. by rewrite E. Qed.

Lemma after_last_skip c s : c <> "b"%char -> after_last "bucket" s = None -> after_last "bucket" (String c s) = None.
Proof. intros Hc E. cbn [after_last]. rewrite E, prefix_cons. by destruct (ascii_dec "b" c); [subst|]. Qed.

Lemma after_last_app p s r : after_last "bucket" s = Some r -> after_last "bucket" (String.append p s) = Some r.
Proof. intros E. induction p as [|c p IH]; [done|]. by apply after_last_cons. Qed.

Lemma after_last_here s : lacks "u" s = true -> after_last "bucket" (String.append "bucket" s) = Some s.
Proof.
  intros Hs. apply after_last_none in Hs. change (String.append "bucket" s) with (String "b" (String.append "ucket" s)). cbn [after_last].
  replace (after_last "bucket" (String.append "ucket" s)) with (@None string); [by destruct s|].
  symmetry. change (String.append "ucket" s) with (String "u" (String "c" (String "k" (String "e" (String "t" s))))).
  by repeat apply after_last_skip.
Qed.

Lemma before_slash_app s r : lacks "/" s = true -> before_slash (String.append s (String "/" r)) = Some s.
Proof.
  induction s as [|a s IH]; [done|]. cbn [lacks]. intros [Ha Hs]%andb_true_iff. apply negb_true_iff in Ha.
  rewrite append_cons. cbn [before_slash]. by rewrite Ha, IH.
Qed.

Lemma lacks_app c s r : lacks c (String.append s r) = lacks c s && lacks c r.
Proof. induction s as [|a s IH]; [done|]. rewrite append_cons. cbn [lacks]. by rewrite IH, andb_assoc. Qed.

Lemma append_assoc s1 s2 s3 : String.append s1 (String.append s2 s3) = String.append (String.append s1 s2) s3.
Proof. induction s1 as [|a s1 IH]; [done|]. by rewrite !append_cons, IH. Qed.
Lemma append_nil_r s : String.append s EmptyString = s.
Proof. induction s as [|a s IH]; [done|]. by rewrite append_cons, IH. Qed.

Lemma path_string_app p q : path_string (p ++ q) = String.append (path_string p) (path_string q).
Proof.
  induction p as [|a p IH]; [done|]. cbn [app path_string foldr]. fold (path_string (p ++ q)) (path_string p).
  by rewrite IH, !append_assoc.
Qed.

(** The id of a bucket is read back from the path of one of its tables. *)
Lemma bucket_id_of_path d id x :
  lacks "u" id = true -> lacks "/" id = true -> lacks "u" x = true ->
  get_bucket_id_from_full_bucket_path (d ++ [String.append "bucket" id; x]) = id.
Proof.
  intros H1 H2 H3. unfold get_bucket_id_from_full_bucket_path. rewrite path_string_app.
  rewrite (after_last_app _ _ (String.append id (String "/" x))).
  - by rewrite before_slash_app.
  - cbn [path_string foldr]. apply (after_last_app "/"). rewrite <- append_assoc, append_nil_r. apply after_last_here.
    rewrite lacks_app, H1. cbn [lacks]. by rewrite H3.
Qed.

Section tables.
Context `{Env} {M : Type -> Type} `{SkipMap M} (parse_uuid : string -> option string).
Abbreviation W := (World M).
Implicit Types (w : W) (m : M SkipMapValue) (fs : FS).

(** ** Tables on disk *)

(** The files of a table with the map [m] *)
Record sst_content fs (d : list string) m : Prop := {
  sc_data : storable m /\ exists i j bs, names fs !! data_file_path d = Some i /\ names fs !! index_file_path d = Some j /\
    Forall good_block bs /\ blocks_entries bs = be_of <$> (entry_of <$> sm_iter m) /\
    content fs i = data_bytes (blocks_entries bs) /\ content fs j = index_bytes (idx_of 0 bs);
  sc_summary : exists i s, names fs !! summary_file_path d = Some i /\ content fs i = summary_serialize s /\
    (smallest_key s, biggest_key s) = bounds_of m;
  sc_filter : exists i f, names fs !! (d ++ ["filter.db"%string]) = Some i /\ content fs i = bf_serialize f /\ filter_ok f;
}.

(** A directory that holds a table with the map [m] and nothing else *)
Record sst_disk fs (d : list string) m : Prop := {
  sd_dir : d ∈ dirs fs;
  sd_children : children fs d ≡ₚ (fun x => d ++ [x]) <$> table_files;
  sd_files x : x ∈ table_files -> is_Some (names fs !! (d ++ [x]));
  sd_content : sst_content fs d m;
}.

Definition bucket_path (root : list string) (id : string) : list string := root ++ [String.append "bucket" id].

(** Text of an id: no slash and no u, as in the hexadecimal form of a UUID *)
Definition plain (id : string) : Prop := lacks "u" id = true /\ lacks "/" id = true /\ parse_uuid id = Some id.

(** The directory of the buckets: per bucket its id, its tables and their maps *)
Record layout fs (root : list string) (lay : list (string * list (string * M SkipMapValue))) : Prop := {
  la_root : root ∈ dirs fs;
  la_buckets : children fs root ≡ₚ (fun p => bucket_path root p.1) <$> lay;
  la_ids : NoDup lay.*1;
  la_plain : Forall (fun p => plain p.1) lay;
  la_dirs : Forall (fun p => bucket_path root p.1 ∈ dirs fs /\
    children fs (bucket_path root p.1) ≡ₚ (fun q => bucket_path root p.1 ++ [q.1]) <$> p.2) lay;
  la_ssts : Forall (fun p => Forall (fun q => lacks "u" q.1 = true /\ sst_disk fs (bucket_path root p.1 ++ [q.1]) q.2) p.2) lay;
}.

(** A range as recovery leaves it: the table's files are found, the filter is
    known by its file only. *)
Record cold w (d : list string) m (r : Range) : Prop := {
  cd_bounds : (r_smallest_key r, r_biggest_key r) = bounds_of m;
  cd_dir : t_dir (r_sst r) = d;
  cd_holds : table_holds w (r_sst r) m;
  cd_filter : exists g f i, t_filter (r_sst r) = Some g /\ bf_sst_dir g = None /\ no_of_hash_func g = 0 /\
    bf_file_path g = Some (d ++ ["filter.db"%string]) /\
    names (w_fs w) !! (d ++ ["filter.db"%string]) = Some i /\ content (w_fs w) i = bf_serialize f /\ filter_ok f;
  cd_files : names (w_fs w) !! data_file_path d = Some (file (data_file (r_sst r))) /\
    names (w_fs w) !! index_file_path d = Some (file (index_file (r_sst r)));
}.

Lemma cold_frame w w' d m r : w_fs w' = w_fs w -> cold w d m r -> cold w' d m r.
Proof.
  intros E [C1 C2 C3 C4 C5]. split; [done|done| |by rewrite E|by rewrite E]. eapply table_holds_frame; [done..|by rewrite E|by rewrite E].
Qed.

Lemma storable_bound_keys m : storable m -> forall s, (smallest_key s, biggest_key s) = bounds_of m ->
  summary_recover_bytes (summary_serialize s) = Ok (smallest_key s, biggest_key s).
Proof.
  intros Hst s Hb. destruct (storable_bounds m Hst) as (a & b & Ea & Eb & Eab & _). rewrite <- Eab in Hb. injection Hb as Hs Hb.
  pose proof (st_entries _ Hst) as Hall. rewrite Forall_forall in Hall.
  unfold sm_front in Ea. unfold sm_back in Eb.
  assert (a ∈ sm_iter m) as Ia by (destruct (sm_iter m); [done|injection Ea as ->; by left]).
  assert (b ∈ sm_iter m) as Ib by by apply last_Some_elem_of.
  destruct (Hall a Ia) as (A1 & A2 & _), (Hall b Ib) as (B1 & B2 & _). unfold BLOCK_SIZE in *.
  apply summary_recover_serialize; rewrite ?Hs, ?Hb; try done; unfold MAX_KEY_SIZE; lia.
Qed.

(** ** One table *)
Lemma filter_all {A} (f : A -> bool) (l : list A) : (forall a, a ∈ l -> f a = true) -> List.filter f l = l.
Proof.
  induction l as [|a l IH]; intros Hf; [done|]. cbn. rewrite Hf by by left. f_equal. apply IH. intros b Hb. apply Hf. by right.
Qed.

Lemma file_new_named fs p ty i : names fs !! p = Some i -> file_new p ty fs = (Ok (mkFileNode p i ty), fs).
Proof. apply file_new_existing. Qed.

(** What [Table::build_from] makes of the directory of a table *)
Record built w (d : list string) m (t : Table) : Prop := {
  bu_dir : t_dir t = d;
  bu_holds : table_holds w t m;
  bu_named : names (w_fs w) !! file_path (data_file t) = Some (file (data_file t));
  bu_files : names (w_fs w) !! data_file_path d = Some (file (data_file t)) /\
    names (w_fs w) !! index_file_path d = Some (file (index_file t));
}.

Lemma build_from_run w d m :
  sst_disk (w_fs w) d m ->
  exists t w', table_build_from d (data_file_path d) (index_file_path d) w = (Ok t, w') /\ w_fs w' = w_fs w /\
    built w' d m t /\ w_ticks w' = S (S (w_ticks w)).
Proof.
  intros Hd. destruct (sc_data _ _ _ (sd_content _ _ _ Hd)) as (Hst & i & j & bs & Ni & Nj & Hg & He & Ci & Cj).
  unfold table_build_from. run_simpl.
  run (io_unwrap_ok _ _ _ _ (on_fs_ok _ (tick w) _ _ (file_new_named (w_fs (tick w)) _ FData i Ni))).
  run (io_unwrap_ok _ _ _ _ (on_fs_ok _ (with_fs (tick w) (w_fs (tick w))) _ _ (file_new_named (w_fs (tick w)) _ FIndex j Nj))).
  do 3 run_simpl. unfold mbind, io_bind, io_lift. rewrite milliseconds_to_datetime_millis by apply clock_valid.
  eexists _, _. split; [reflexivity|]. split; [done|]. split; [|done]. split; [done| |done|done].
  split; [done|]. by exists bs.
Qed.

Lemma recover_sst_run w root id x m st :
  plain id -> lacks "u" x = true -> sst_disk (w_fs w) (bucket_path root id ++ [x]) m ->
  files_named (w_fs w) (default [] (sstables <$> im_get id (rc_buckets st))) ->
  let d := bucket_path root id ++ [x] in
  exists t b r w', recover_sst parse_uuid (bucket_path root id) d st w =
      (Ok (mkRecovered (im_insert id b (rc_buckets st)) (mkKeyRange (<[d := r]> (key_ranges (rc_ranges st))) (restored_ranges (rc_ranges st)))), w') /\
    w_fs w' = w_fs w /\ w_ticks w' = S (S (w_ticks w)) /\ built w' d m t /\ cold w' d m r /\
    bk_id b = id /\ bk_dir b = bucket_path root id /\ sstables b = default [] (sstables <$> im_get id (rc_buckets st)) ++ [t].
Proof.
  intros (Hu & Hs & Hp) Hx Hd Hn d. change (sst_disk (w_fs w) d m) in Hd.
  unfold recover_sst.
  assert (read_dir d w = (Ok (hash_iter (children (w_fs w) d)), w)) as Er by (unfold read_dir; by rewrite decide_True by apply Hd).
  run Er. run_simpl.
  assert (List.filter (is_file w) (hash_iter (children (w_fs w) d)) ≡ₚ (fun x => d ++ [x]) <$> table_files) as Hf.
  { rewrite filter_all; [by rewrite hash_iter_perm, (sd_children _ _ _ Hd)|]. intros q. rewrite hash_iter_perm, (sd_children _ _ _ Hd).
    intros (y & -> & Hy)%list_elem_of_fmap. unfold is_file. apply bool_decide_eq_true. by apply (sd_files _ _ _ Hd). }
  rewrite (sort_table_files d _ Hf). cbn [fmap list_fmap].
  destruct (build_from_run w d m Hd) as (t & w1 & E1 & F1 & Hb & T1). run E1.
  assert (get_bucket_id_from_full_bucket_path d = id) as Eid by (unfold d, bucket_path; rewrite <- app_assoc; by apply bucket_id_of_path).
  rewrite Eid, Hp. run_simpl.
  set (old := default [] (sstables <$> im_get id (rc_buckets st))) in *.
  assert (match im_get id (rc_buckets st) with Some b => sstables b ++ [t] | None => [t] end = old ++ [t]) as ->
    by (unfold old; by destruct (im_get id (rc_buckets st))).
  assert (files_named (w_fs w1) (old ++ [t])) as Hn1.
  { apply Forall_app. split; [by rewrite F1|]. apply Forall_singleton, Hb. }
  unfold bucket_from. rewrite decide_True by done.
  unfold mbind at 1, io_bind at 1. unfold mbind at 1, io_bind at 1. rewrite (cal_average_size_named w1 _ Hn1). cbn [mret io_ret].
  destruct (sc_summary _ _ _ (sd_content _ _ _ Hd)) as (i & sm & Ni & Ci & Hbo).
  assert (summary_recover (summary_new d) w1 = (Ok (mkSummary (summary_file_path d) (smallest_key sm) (biggest_key sm)), w1)) as Es.
  { unfold summary_recover. cbn [s_path summary_new]. rewrite F1, Ni, Ci, (storable_bound_keys m) by (done || apply (sc_data _ _ _ (sd_content _ _ _ Hd))). done. }
  run Es. unfold bf_default. run_simpl. eexists t, _, _, _. split; [reflexivity|]. split; [done|]. split; [done|]. cbn [w_fs].
  split; [by destruct Hb; split|]. split; [|done].
  destruct (sc_filter _ _ _ (sd_content _ _ _ Hd)) as (k & f & Nk & Ck & Hfo). destruct Hb as [B1 B2 B3 B4]. split; cbn.
  - done.
  - done.
  - eapply table_holds_frame; [exact B2|done..].
  - eexists _, f, k. split; [reflexivity|]. cbn. rewrite F1. done.
  - exact B4.
Qed.

(** ** The loops *)

(** What recovery has after the tables [done] *)
Record recovered w (st : Recovered) (done : list (list string * M SkipMapValue)) : Prop := {
  rv_ranges d m : (d, m) ∈ done -> exists r, key_ranges (rc_ranges st) !! d = Some r /\ cold w d m r;
  rv_only d : is_Some (key_ranges (rc_ranges st) !! d) -> d ∈ done.*1;
  rv_restored : restored_ranges (rc_ranges st) = ∅;
  rv_dirs : t_dir <$> all_tables (rc_buckets st) ≡ₚ done.*1;
  rv_built : Forall (fun t => exists m, (t_dir t, m) ∈ done /\ built w (t_dir t) m t) (all_tables (rc_buckets st));
  rv_keyed : Forall (fun p => p.1 = bk_id p.2) (rc_buckets st);
  rv_nodup : NoDup (rc_buckets st).*1;
}.

Lemma recovered_named w st done : recovered w st done -> files_named (w_fs w) (all_tables (rc_buckets st)).
Proof. intros Hr. eapply Forall_impl; [apply (rv_built _ _ _ Hr)|]. intros t (m & _ & Hb). apply Hb. Qed.

Lemma built_frame w w' d m t : w_fs w' = w_fs w -> built w d m t -> built w' d m t.
Proof. intros E [B1 B2 B3 B4]. split; [done| |by rewrite E|by rewrite E]. eapply table_holds_frame; [done..|by rewrite E|by rewrite E]. Qed.

Lemma all_tables_push id b t l :
  sstables b = default [] (sstables <$> im_get id l) ++ [t] -> all_tables (im_insert id b l) ≡ₚ t :: all_tables l.
Proof.
  intros Hb. rewrite all_tables_insert, Hb. destruct (im_get id l) as [b0|] eqn:Hg; [|done]. cbn.
  rewrite (all_tables_get _ _ _ Hg), <- app_assoc. cbn [app]. by rewrite <- Permutation_middle.
Qed.

Lemma recovered_push w w' st done d m r id b t :
  recovered w st done -> d ∉ done.*1 -> w_fs w' = w_fs w -> built w' d m t -> cold w' d m r -> bk_id b = id ->
  sstables b = default [] (sstables <$> im_get id (rc_buckets st)) ++ [t] ->
  recovered w' (mkRecovered (im_insert id b (rc_buckets st)) (mkKeyRange (<[d := r]> (key_ranges (rc_ranges st))) (restored_ranges (rc_ranges st))))
    (done ++ [(d, m)]).
Proof.
  intros [R1 R2 R3 R4 R5 R6 R7] Hd Hf Hb Hc Hid Hs. pose proof (all_tables_push id b t _ Hs) as Hp.
  split; cbn [rc_ranges rc_buckets key_ranges restored_ranges].
  - intros d' m' [Hin|[= -> ->]%list_elem_of_singleton]%elem_of_app; [|by exists r; rewrite lookup_insert_eq].
    destruct (R1 d' m' Hin) as (r' & E & Hc'). exists r'. rewrite lookup_insert_ne; [split; [done|by eapply cold_frame]|].
    intros <-. apply Hd, list_elem_of_fmap. by exists (d, m').
  - intros d'. rewrite fmap_app, elem_of_app. destruct (decide (d = d')) as [<-|Hne]; [intros _; right; by left|].
    rewrite lookup_insert_ne by done. intros Hx. left. by apply R2.
  - done.
  - rewrite Hp, fmap_app. cbn. rewrite R4, (bu_dir _ _ _ _ Hb). by rewrite Permutation_app_comm.
  - rewrite Hp. constructor.
    + exists m. rewrite (bu_dir _ _ _ _ Hb). split; [|done]. apply elem_of_app. right. by left.
    + eapply Forall_impl; [exact R5|]. intros t' (m' & Hin & Hb'). exists m'. split; [apply elem_of_app; by left|by eapply built_frame].
  - by apply im_insert_Forall.
  - rewrite im_insert_keys. case_decide; [done|]. apply NoDup_app. split; [done|]. split; [set_solver|apply NoDup_singleton].
Qed.

Lemma named_bucket fs id l : files_named fs (all_tables l) -> files_named fs (default [] (sstables <$> im_get id l)).
Proof.
  intros Hn. destruct (im_get id l) as [b|] eqn:Hg; [|constructor]. unfold files_named in *.
  rewrite (all_tables_get _ _ _ Hg), Forall_app in Hn. apply Hn.
Qed.

Definition bucket_tables (root : list string) (p : string * list (string * M SkipMapValue)) : list (list string * M SkipMapValue) :=
  (fun q => (bucket_path root p.1 ++ [q.1], q.2)) <$> p.2.
Definition layout_tables (root : list string) (lay : list (string * list (string * M SkipMapValue))) : list (list string * M SkipMapValue) :=
  mjoin (bucket_tables root <$> lay).

Definition sst_ok fs (bucket : list string) (q : string * M SkipMapValue) : Prop :=
  lacks "u" q.1 = true /\ sst_disk fs (bucket ++ [q.1]) q.2.

(** Recovered buckets are those of the directories. *)
Definition bucket_from_dir (root : list string) (ids : list string) (p : string * Bucket) : Prop :=
  p.1 ∈ ids /\ bk_dir p.2 = bucket_path root p.1.

Lemma recover_ssts_run w root id qs st done ids :
  plain id -> id ∈ ids -> Forall (bucket_from_dir root ids) (rc_buckets st) -> Forall (sst_ok (w_fs w) (bucket_path root id)) qs -> recovered w st done ->
  NoDup (done ++ bucket_tables root (id, qs)).*1 ->
  exists st' w', recover_ssts parse_uuid (bucket_path root id) (bucket_tables root (id, qs)).*1 st w = (Ok st', w') /\ w_fs w' = w_fs w /\
    w_ticks w' = (w_ticks w + 2 * length qs)%nat /\ recovered w' st' (done ++ bucket_tables root (id, qs)) /\
    Forall (bucket_from_dir root ids) (rc_buckets st').
Proof.
  intros Hid Hids. revert w st done. induction qs as [|[x m] qs IH]; intros w st done Hbd Hq Hr Hnd.
  { exists st, w. rewrite app_nil_r. cbn. split; [done|]. split; [done|]. split; [lia|done]. }
  apply Forall_cons in Hq as [[Hx Hd] Hq]. cbn [fst snd] in *.
  destruct (recover_sst_run w root id x m st Hid Hx Hd) as (t & b & r & w1 & E & F1 & T1 & Hb & Hc & Hbi & Hdir & Hs).
  { apply named_bucket. by eapply recovered_named. }
  unfold bucket_tables in *. cbn [fmap list_fmap fst snd recover_ssts] in *. run E.
  rewrite fmap_app, NoDup_app in Hnd. destruct Hnd as (N1 & N2 & N3).
  destruct (IH w1 (mkRecovered (im_insert id b (rc_buckets st))
    (mkKeyRange (<[bucket_path root id ++ [x] := r]> (key_ranges (rc_ranges st))) (restored_ranges (rc_ranges st))))
    (done ++ [(bucket_path root id ++ [x], m)])) as (st' & w' & E' & F' & T' & R' & Hbd').
  - by apply im_insert_Forall.
  - by rewrite F1.
  - eapply recovered_push; try done. intros Hin. apply (N2 _ Hin). by left.
  - cbn in N3. apply NoDup_cons in N3 as [N3 N4]. rewrite <- app_assoc, fmap_app, NoDup_app. split; [done|].
    split; [by intros d Hin; apply N2|]. cbn. by apply NoDup_cons.
  - exists st', w'. rewrite E'. split; [done|]. split; [by rewrite F', F1|]. split; [cbn; lia|]. by rewrite <- app_assoc in R'.
Qed.

Lemma recover_buckets_run w root lay st done ids :
  Forall (fun p => plain p.1 /\ p.1 ∈ ids) lay -> Forall (bucket_from_dir root ids) (rc_buckets st) ->
  Forall (fun p => bucket_path root p.1 ∈ dirs (w_fs w) /\
    children (w_fs w) (bucket_path root p.1) ≡ₚ (fun q => bucket_path root p.1 ++ [q.1]) <$> p.2) lay ->
  Forall (fun p => Forall (sst_ok (w_fs w) (bucket_path root p.1)) p.2) lay ->
  recovered w st done -> NoDup (done ++ layout_tables root lay).*1 ->
  exists st' w' all, recover_buckets parse_uuid ((fun p => bucket_path root p.1) <$> lay) st w = (Ok st', w') /\ w_fs w' = w_fs w /\
    w_ticks w' = (w_ticks w + 2 * length (layout_tables root lay))%nat /\ recovered w' st' all /\ all ≡ₚ done ++ layout_tables root lay /\
    Forall (bucket_from_dir root ids) (rc_buckets st').
Proof.
  revert w st done. induction lay as [|[id qs] lay IH]; intros w st done Hpl Hbd Hds Hss Hr Hnd.
  { exists st, w, done. cbn. split; [done|]. split; [done|]. split; [lia|]. by rewrite app_nil_r. }
  apply Forall_cons in Hpl as [[Hid Hin] Hpl]. apply Forall_cons in Hds as [[Hd Hch] Hds]. apply Forall_cons in Hss as [Hq Hss]. cbn [fst snd] in *.
  cbn [fmap list_fmap fst recover_buckets].
  assert (read_dir (bucket_path root id) w = (Ok (hash_iter (children (w_fs w) (bucket_path root id))), w)) as Er
    by (unfold read_dir; by rewrite decide_True).
  run Er. pose proof (Permutation_trans (hash_iter_perm (children (w_fs w) (bucket_path root id))) Hch) as Hp.
  apply Permutation_map_inv in Hp as (qs' & -> & Hqs).
  assert (bucket_tables root (id, qs) ≡ₚ bucket_tables root (id, qs')) as Hbt by (unfold bucket_tables; cbn; by rewrite Hqs).
  change (layout_tables root ((id, qs) :: lay)) with (bucket_tables root (id, qs) ++ layout_tables root lay) in *.
  destruct (recover_ssts_run w root id qs' st done ids Hid Hin Hbd) as (st1 & w1 & E1 & F1 & T1 & R1 & Hbd1); [by rewrite <- Hqs|done| |].
  { rewrite Hbt, app_assoc, fmap_app, NoDup_app in Hnd. apply Hnd. }
  replace (map (fun q => bucket_path root id ++ [q.1]) qs') with ((bucket_tables root (id, qs')).*1)
    by (unfold bucket_tables; cbn; by rewrite <- list_fmap_compose).
  run E1. destruct (IH w1 st1 (done ++ bucket_tables root (id, qs'))) as (st' & w' & all & E' & F' & T' & R' & Hall & Hbd'); try done.
  - by rewrite F1.
  - by rewrite F1.
  - by rewrite <- app_assoc, <- Hbt.
  - exists st', w', all. rewrite E'. split; [done|]. split; [by rewrite F', F1|]. split.
    + rewrite T', T1, length_app. unfold bucket_tables. cbn. rewrite length_fmap, <- Hqs. lia.
    + split; [done|]. by rewrite Hall, <- app_assoc, <- Hbt.
Qed.

(** ** Searching the recovered ranges *)
Lemma cold_ready w d m r : cold w d m r -> ready w r m /\ (exists i, cold_filter w r i) /\ t_dir (r_sst r) = d.
Proof.
  intros [Hb Hd Hh (g & f & i & Hg) _]. assert (exists i, cold_filter w r i) as Hcf.
  { destruct Hg as (G1 & G2 & G3 & G4 & G5 & G6 & G7). exists i, g, (d ++ ["filter.db"%string]), f. by repeat (split; [done|]). }
  split; [|done]. split; [done|right]. split; [|done]. intros k Hk. apply in_range_covers. destruct (bounds_cover m k Hk) as [B1 B2].
  rewrite <- Hb in B1, B2. unfold in_range. cbn in B1, B2. by rewrite B1, B2.
Qed.

(** What the tables on disk say of a key *)
Definition map_hits (k : list byte) (ms : list (M SkipMapValue)) : list Hit := omap (fun m => found <$> sm_get k m) ms.

Lemma sst_hits_maps k tabs : sst_hits tabs k = map_hits k tabs.*2.
Proof. unfold sst_hits, map_hits. induction tabs as [|[r m] tabs IH]; [done|]. cbn. by rewrite IH. Qed.

Lemma map_hits_perm k ms ms' : ms ≡ₚ ms' -> map_hits k ms ≡ₚ map_hits k ms'.
Proof. intros E. unfold map_hits. by rewrite E. Qed.

(** The ranges of the index, each with the map its table holds *)
Lemma recovered_ranges w st all :
  recovered w st all -> NoDup all.*1 ->
  exists tabs, tabs.*1 = (hm_iter (key_ranges (rc_ranges st))).*2 /\ tabs.*2 ≡ₚ all.*2 /\
    Forall (fun p : Range * M SkipMapValue => exists d, (d, p.2) ∈ all /\ cold w d p.2 p.1) tabs.
Proof.
  intros Hr Hnd. set (mp := list_to_map all : gmap (list string) (M SkipMapValue)). set (it := hm_iter (key_ranges (rc_ranges st))).
  set (pick := fun d => default sm_new (mp !! d)).
  assert (forall d m, (d, m) ∈ all -> pick d = m) as Hpick by (intros d m Hin; unfold pick, mp; by rewrite (elem_of_list_to_map_1 _ _ _ Hnd Hin)).
  assert (it.*1 ≡ₚ all.*1) as Hkeys.
  { apply NoDup_Permutation; [|done|].
    - unfold it, hm_iter. rewrite hash_iter_perm. apply NoDup_fst_map_to_list.
    - intros d. rewrite !list_elem_of_fmap. split.
      + intros ([d' r] & -> & Hin). apply hm_iter_elem in Hin. apply list_elem_of_fmap, (rv_only _ _ _ Hr). by eexists.
      + intros ([d' m] & -> & Hin). destruct (rv_ranges _ _ _ Hr d' m Hin) as (r & E & _). exists (d', r). split; [done|]. by apply hm_iter_elem. }
  exists ((fun p => (p.2, pick p.1)) <$> it). split; [by rewrite <- list_fmap_compose|]. split.
  - rewrite <- list_fmap_compose. change ((pick ∘ fst <$> it) ≡ₚ all.*2). rewrite list_fmap_compose, Hkeys, <- list_fmap_compose.
    apply Permutation_refl', list_fmap_ext. intros i [d m] Hi. apply Hpick. by apply list_elem_of_lookup_2 in Hi.
  - apply Forall_fmap, Forall_forall. intros [d r] Hin. cbn [fst snd]. apply hm_iter_elem in Hin.
    assert (d ∈ all.*1) as ([d' m] & -> & Hd)%list_elem_of_fmap by (apply (rv_only _ _ _ Hr); by eexists).
    destruct (rv_ranges _ _ _ Hr d' m Hd) as (r' & E & Hc). cbn [fst] in *. exists d'. cbn [compose fst snd]. rewrite (Hpick _ _ Hd). split; [done|]. congruence.
Qed.

Lemma recovered_indexed w st all :
  recovered w st all -> NoDup all.*1 ->
  exists tabs, indexed w (rc_ranges st) tabs /\ tabs.*2 ≡ₚ all.*2 /\ Forall (fun p : Range * M SkipMapValue => exists d, (d, p.2) ∈ all /\ cold w d p.2 p.1) tabs.
Proof.
  intros Hr Hnd. destruct (recovered_ranges w st all Hr Hnd) as (tabs & E & Hp & Hc). exists tabs. split; [|done]. split; [done|..].
  - intros d r Hd. assert (d ∈ all.*1) as ([d' m] & -> & Hin)%list_elem_of_fmap by (apply (rv_only _ _ _ Hr); by eexists).
    destruct (rv_ranges _ _ _ Hr _ _ Hin) as (r' & Hr' & [_ Hd' _ _ _]). cbn in *. congruence.
  - rewrite (rv_restored _ _ _ Hr). by intros d r; rewrite lookup_empty.
Qed.

Lemma cold_tabs_ready w tabs : Forall (fun p : Range * M SkipMapValue => exists d, cold w d p.2 p.1) tabs -> tabs_ready w tabs.
Proof.
  intros Hc. eapply Forall_impl; [exact Hc|]. intros p (d & (Hr & [i Hi] & _)%cold_ready). split; [done|].
  intros Hl. by destruct (live_not_cold _ _ _ _ _ Hl Hi).
Qed.

Lemma recover_tables_run w root lay :
  layout (w_fs w) root lay -> NoDup (layout_tables root lay).*1 ->
  exists st w' all, recover_tables parse_uuid root w = (Ok st, w') /\ w_fs w' = w_fs w /\ recovered w' st all /\ all ≡ₚ layout_tables root lay /\
    w_ticks w' = (w_ticks w + 2 * length (layout_tables root lay))%nat /\ Forall (bucket_from_dir root lay.*1) (rc_buckets st).
Proof.
  intros [L1 L2 L3 L4 L5 L6] Hnd. unfold recover_tables.
  assert (read_dir root w = (Ok (hash_iter (children (w_fs w) root)), w)) as Er by (unfold read_dir; by rewrite decide_True).
  run Er. pose proof (Permutation_trans (hash_iter_perm (children (w_fs w) root)) L2) as Hp.
  apply Permutation_map_inv in Hp as (lay' & -> & Hl).
  assert (layout_tables root lay ≡ₚ layout_tables root lay') as Ht by (unfold layout_tables; by rewrite Hl).
  destruct (recover_buckets_run w root lay' (mkRecovered [] key_range_new) [] lay.*1) as (st & w' & all & E & F & T & R & Ha & Hb).
  - rewrite <- Hl. apply Forall_forall. intros p Hp. rewrite Forall_forall in L4. split; [by apply L4|by apply list_elem_of_fmap_2].
  - constructor.
  - by rewrite <- Hl.
  - by rewrite <- Hl.
  - split; cbn; try done.
    + by intros d m ?%not_elem_of_nil.
    + intros d [r Hd]. by rewrite lookup_empty in Hd.
    + constructor.
  - cbn. by rewrite <- Ht.
  - exists st, w', all. split; [exact E|]. split; [done|]. split; [done|]. split; [by rewrite Ha, Ht|]. split; [by rewrite T, Ht|done].
Qed.
End tables.
