(* ===== verification/FlushRecovery.v ===== *)
(** * What a flush leaves for recovery

    [tree] says path by path what the buckets directory contains. A new store
    has an empty tree, a flush adds one table to it ([tree_push]), and a tree is
    a layout that recovery reads back ([tree_layout]). So the tables of a store
    can be found again after a crash. *)

From stdpp Require Import prelude gmap strings list pretty.
From Stdlib Require Import Strings.Ascii Strings.Byte ZArith Lia.
From S2P Require Import Prelude Consts SkipMap FileIO Types World VLog Block Index Bloom SSTable Meta MemTable.
From S2P Require Import KeyRange RangeSearch Bucket Flush Compaction Config Store StoreInv StoreSpec FlushSpec Recovery TableRecovery.
Open Scope Z_scope.

(** ** Paths *)
Lemma parent_Some (q d : list string) : q <> [] -> parent q = d -> exists x, q = d ++ [x].
Proof.
  intros Hq Hp. destruct (exists_last Hq) as (q' & x & ->). rewrite parent_snoc in Hp. subst. by exists x.
Qed.

Lemma snoc_inj (d d' : list string) x x' : d ++ [x] = d' ++ [x'] -> d = d' /\ x = x'.
Proof. by intros [-> [= ->]]%app_inj_2. Qed.

Lemma prefix_same_length {A} (q d : list A) : q `prefix_of` d -> length q = length d -> q = d.
Proof. intros [r ->]. rewrite length_app. destruct r; [by rewrite app_nil_r|cbn; lia]. Qed.

Lemma bucket_path_inj root id id' : bucket_path root id = bucket_path root id' -> id = id'.
Proof. intros [_ E]%snoc_inj. by apply (inj (String.append "bucket")) in E. Qed.

Lemma bucket_path_parent root id : parent (bucket_path root id) = root.
Proof. apply parent_snoc. Qed.

Lemma snoc_not_nil {A} (l : list A) x : l ++ [x] <> [].
Proof. by destruct l. Qed.

(** The entries of a directory *)
Lemma children_eq fs p (l : list (list string)) :
  NoDup l -> (forall q, q <> [] -> parent q = p -> ~ (q ∈ dirs fs /\ is_Some (names fs !! q))) ->
  (forall q, q ∈ l <-> q <> [] /\ parent q = p /\ (q ∈ dirs fs \/ is_Some (names fs !! q))) ->
  children fs p ≡ₚ l.
Proof.
  intros Hnd Hdis Hl. apply NoDup_Permutation; [|done|].
  - unfold children. rewrite List.filter_app. apply NoDup_app. split; [|split].
    + apply NoDup_ListNoDup, List.NoDup_filter, NoDup_ListNoDup, NoDup_elements.
    + intros q. rewrite !list_elem_of_In, !List.filter_In, <- !list_elem_of_In. intros [Hd%elem_of_elements Hq] [Hn _].
      apply bool_decide_eq_true in Hq as [H1 H2]. apply (Hdis q H1 H2). split; [done|].
      apply list_elem_of_fmap in Hn as ([q' i] & -> & Hi%elem_of_map_to_list). by eexists.
    + apply NoDup_ListNoDup, List.NoDup_filter, NoDup_ListNoDup, NoDup_fst_map_to_list.
  - intros q. rewrite Hl. unfold children. rewrite list_elem_of_In, List.filter_In, <- list_elem_of_In, bool_decide_eq_true, elem_of_app, elem_of_elements.
    assert (q ∈ (map_to_list (names fs)).*1 <-> is_Some (names fs !! q)) as ->; [|tauto].
    rewrite list_elem_of_fmap. split; [intros ([q' i] & -> & Hi%elem_of_map_to_list); by eexists|].
    intros [i Hi]. exists (q, i). split; [done|]. by apply elem_of_map_to_list.
Qed.

(** Names of table directories are a word and decimal digits. *)
Lemma pretty_N_go_lacks c x s : (forall y, pretty.pretty_N_char y <> c) -> lacks c s = true -> lacks c (pretty.pretty_N_go x s) = true.
Proof.
  intros Hc. revert s. induction (N.lt_wf_0 x) as [x _ IH]. intros s Hs. destruct (decide (0 < x)%N) as [Hx|Hx].
  - rewrite pretty.pretty_N_go_step by done. apply IH; [by apply N.div_lt|]. cbn [lacks]. rewrite Hs, andb_true_r.
    apply negb_true_iff, Ascii.eqb_neq, Hc.
  - assert (x = 0%N) as -> by lia. by rewrite pretty.pretty_N_go_0.
Qed.

Lemma pretty_N_lacks c (n : N) : (forall y, pretty.pretty_N_char y <> c) -> c <> "0"%char -> lacks c (pretty n) = true.
Proof.
  intros Hc H0. unfold pretty, pretty.pretty_N. case_decide; [|by apply pretty_N_go_lacks].
  cbn [lacks]. rewrite andb_true_r. by apply negb_true_iff, Ascii.eqb_neq.
Qed.

Lemma digit_not_u y : pretty.pretty_N_char y <> "u"%char.
Proof. unfold pretty.pretty_N_char. by repeat case_match. Qed.

Lemma sst_dir_name_lacks `{Platform} t : lacks "u" (sst_dir_name t) = true.
Proof.
  unfold sst_dir_name. rewrite lacks_app. apply andb_true_iff. split; [done|].
  assert (forall n : N, lacks "u" (pretty n) = true) as Hn by (intros n; apply pretty_N_lacks; [apply digit_not_u|done]).
  unfold pretty, pretty.pretty_Z. destruct (timestamp_millis t); [done|apply Hn|]. rewrite lacks_app. apply andb_true_iff. split; [done|apply Hn].
Qed.

Section trees.
Context `{Env} {M : Type -> Type} `{SkipMap M} (parse_uuid : string -> option string).
Abbreviation W := (World M).
Abbreviation Lay := (list (string * list (string * M SkipMapValue))).
Implicit Types (w : W) (m : M SkipMapValue) (fs : FS) (lay : Lay).

(** ** The tables of each bucket, and one more *)
Fixpoint lay_get (id : string) lay : list (string * M SkipMapValue) :=
  match lay with
  | [] => []
  | (i, qs) :: lay' => if decide (id = i) then qs else lay_get id lay'
  end.
Fixpoint lay_add (id : string) (q : string * M SkipMapValue) lay : Lay :=
  match lay with
  | [] => [(id, [q])]
  | (i, qs) :: lay' => if decide (id = i) then (i, qs ++ [q]) :: lay' else (i, qs) :: lay_add id q lay'
  end.

Lemma lay_get_elem lay id qs : NoDup lay.*1 -> (id, qs) ∈ lay -> lay_get id lay = qs.
Proof.
  induction lay as [|[i qs'] lay IH]; intros Hnd Hin; [by apply not_elem_of_nil in Hin|]. cbn in *.
  apply NoDup_cons in Hnd as [Hi Hnd]. apply elem_of_cons in Hin as [[= -> ->]|Hin]; [by rewrite decide_True|].
  rewrite decide_False; [by apply IH|]. intros ->. apply Hi, list_elem_of_fmap. by exists (i, qs).
Qed.

Lemma lay_get_add lay id q id' : lay_get id' (lay_add id q lay) = lay_get id' lay ++ (if decide (id' = id) then [q] else []).
Proof.
  induction lay as [|[i qs] lay IH]; cbn; [by repeat case_decide|].
  destruct (decide (id = i)) as [->|]; cbn; [by destruct (decide (id' = i)); [|rewrite app_nil_r]|].
  destruct (decide (id' = i)) as [->|]; [|done]. rewrite decide_False by done. by rewrite app_nil_r.
Qed.

Lemma lay_add_keys lay id q : (lay_add id q lay).*1 = if decide (id ∈ lay.*1) then lay.*1 else lay.*1 ++ [id].
Proof.
  induction lay as [|[i qs] lay IH]; cbn; [done|].
  destruct (decide (id = i)) as [->|Hne]; cbn; [by rewrite decide_True by by left|]. rewrite IH.
  destruct (decide (id ∈ lay.*1)); [by rewrite decide_True by by right|]. rewrite decide_False; [done|].
  by intros [?|?]%elem_of_cons.
Qed.

Lemma lay_add_ids lay id q : NoDup lay.*1 -> NoDup (lay_add id q lay).*1.
Proof.
  intros Hnd. rewrite lay_add_keys. case_decide; [done|]. apply NoDup_app. split; [done|]. split; [|apply NoDup_singleton].
  by intros i Hi ->%list_elem_of_singleton.
Qed.

Lemma lay_add_elem lay id q i : i ∈ (lay_add id q lay).*1 -> i ∈ lay.*1 \/ i = id.
Proof. rewrite lay_add_keys. case_decide; [by left|]. by rewrite elem_of_app, list_elem_of_singleton. Qed.

Lemma lay_add_tables root lay id x m :
  layout_tables root (lay_add id (x, m) lay) ≡ₚ (bucket_path root id ++ [x], m) :: layout_tables root lay.
Proof.
  induction lay as [|[i qs] lay IH]; [done|]. cbn [lay_add].
  change (layout_tables root ((i, qs) :: lay)) with (bucket_tables root (i, qs) ++ layout_tables root lay).
  destruct (decide (id = i)) as [->|].
  - change (layout_tables root ((i, qs ++ [(x, m)]) :: lay)) with (bucket_tables root (i, qs ++ [(x, m)]) ++ layout_tables root lay).
    unfold bucket_tables. cbn. rewrite fmap_app, <- app_assoc. symmetry. apply Permutation_middle.
  - change (layout_tables root ((i, qs) :: lay_add id (x, m) lay)) with (bucket_tables root (i, qs) ++ layout_tables root (lay_add id (x, m) lay)).
    rewrite IH. symmetry. apply Permutation_middle.
Qed.

Lemma lay_add_Forall (P : string -> Prop) (Q : string * M SkipMapValue -> Prop) lay id q :
  P id -> Q q -> Forall (fun p => P p.1 /\ Forall Q p.2) lay -> Forall (fun p => P p.1 /\ Forall Q p.2) (lay_add id q lay).
Proof.
  intros Hp Hq. induction 1 as [|[i qs] lay [Hi Hqs] Hl IH]; cbn; [repeat constructor; auto|].
  case_decide; constructor; cbn in *; auto. split; [done|]. apply Forall_app. split; [done|by constructor].
Qed.

(** ** Paths below the buckets directory *)

(** What is where below the buckets directory *)
Record tree fs (root : list string) lay : Prop := {
  te_root : root ∈ dirs fs;
  te_closed : dirs_closed fs;
  te_bucket q : q <> [] -> parent q = root -> names fs !! q = None /\
    (q ∈ dirs fs <-> exists id, id ∈ lay.*1 /\ q = bucket_path root id);
  te_sst id q : q <> [] -> parent q = bucket_path root id -> names fs !! q = None /\
    (q ∈ dirs fs <-> exists x, x ∈ (lay_get id lay).*1 /\ q = bucket_path root id ++ [x]);
  te_file d m q : (d, m) ∈ layout_tables root lay -> q <> [] -> parent q = d -> (q ∉ dirs fs) /\
    (is_Some (names fs !! q) <-> exists x, q = d ++ [x] /\ x ∈ table_files);
  te_content d m : (d, m) ∈ layout_tables root lay -> sst_content fs d m;
  te_ids : NoDup lay.*1;
  te_nodup : NoDup (layout_tables root lay).*1;
  te_plain : Forall (fun p => plain parse_uuid p.1 /\ Forall (fun q => lacks "u" q.1 = true) p.2) lay;
}.

Lemma layout_tables_elem root lay d m :
  (d, m) ∈ layout_tables root lay <-> exists id qs x, (id, qs) ∈ lay /\ (x, m) ∈ qs /\ d = bucket_path root id ++ [x].
Proof.
  unfold layout_tables. rewrite list_elem_of_join. split.
  - intros (l & Hl & ([id qs] & -> & Hin)%list_elem_of_fmap). unfold bucket_tables in Hl.
    apply list_elem_of_fmap in Hl as ([x m'] & [= -> ->] & Hx). by exists id, qs, x.
  - intros (id & qs & x & Hin & Hx & ->). exists (bucket_tables root (id, qs)). split; [|by apply list_elem_of_fmap_2].
    apply list_elem_of_fmap. by exists (x, m).
Qed.

Lemma bucket_tables_NoDup root lay id qs : NoDup (layout_tables root lay).*1 -> (id, qs) ∈ lay -> NoDup (bucket_tables root (id, qs)).*1.
Proof.
  intros Hnd (l1 & l2 & ->)%list_elem_of_split. unfold layout_tables in Hnd. rewrite fmap_app, join_app, fmap_app in Hnd.
  apply NoDup_app in Hnd as (_ & _ & Hnd). cbn in Hnd. rewrite fmap_app in Hnd. by apply NoDup_app in Hnd as [Hnd _].
Qed.

Section to_layout.
Context fs root lay (Ht : tree fs root lay).

Lemma tree_bucket_dir id qs : (id, qs) ∈ lay -> bucket_path root id ∈ dirs fs.
Proof.
  intros Hin. apply (te_bucket _ _ _ Ht); [apply snoc_not_nil|apply bucket_path_parent|].
  exists id. split; [|done]. apply list_elem_of_fmap. by exists (id, qs).
Qed.

Lemma tree_buckets : children fs root ≡ₚ (fun p => bucket_path root p.1) <$> lay.
Proof.
  apply children_eq.
  - change (NoDup (bucket_path root ∘ fst <$> lay)). rewrite list_fmap_compose. apply NoDup_fmap_2; [|apply Ht].
    intros id id'. apply bucket_path_inj.
  - intros q Hq Hp [_ [i Hi]]. destruct (te_bucket _ _ _ Ht q Hq Hp). congruence.
  - intros q. rewrite list_elem_of_fmap. split.
    + intros ([id qs] & -> & Hin). split; [apply snoc_not_nil|]. split; [apply bucket_path_parent|]. left. by eapply tree_bucket_dir.
    + intros (Hq & Hp & Hx). destruct (te_bucket _ _ _ Ht q Hq Hp) as [Hn Hd]. rewrite Hn in Hx.
      destruct Hx as [(id & ([id' qs] & -> & Hin)%list_elem_of_fmap & ->)%Hd|[? [=]]]. by exists (id', qs).
Qed.

Lemma tree_sst_dir id qs x m : (id, qs) ∈ lay -> (x, m) ∈ qs -> bucket_path root id ++ [x] ∈ dirs fs.
Proof.
  intros Hin Hx. apply (te_sst _ _ _ Ht id); [apply snoc_not_nil|apply parent_snoc|].
  exists x. split; [|done]. rewrite (lay_get_elem _ _ _ (te_ids _ _ _ Ht) Hin). apply list_elem_of_fmap. by exists (x, m).
Qed.

Lemma tree_ssts id qs : (id, qs) ∈ lay -> children fs (bucket_path root id) ≡ₚ (fun q => bucket_path root id ++ [q.1]) <$> qs.
Proof.
  intros Hin. apply children_eq.
  - pose proof (bucket_tables_NoDup _ _ _ _ (te_nodup _ _ _ Ht) Hin) as Hnd. unfold bucket_tables in Hnd. by rewrite <- list_fmap_compose in Hnd.
  - intros q Hq Hp [_ [i Hi]]. destruct (te_sst _ _ _ Ht id q Hq Hp). congruence.
  - intros q. rewrite list_elem_of_fmap. split.
    + intros ([x m] & -> & Hx). split; [apply snoc_not_nil|]. split; [apply parent_snoc|]. left. by eapply tree_sst_dir.
    + intros (Hq & Hp & Hx). destruct (te_sst _ _ _ Ht id q Hq Hp) as [Hn Hd]. rewrite Hn in Hx.
      rewrite (lay_get_elem _ _ _ (te_ids _ _ _ Ht) Hin) in Hd.
      destruct Hx as [(x & ([x' m] & -> & Hx)%list_elem_of_fmap & ->)%Hd|[? [=]]]. by exists (x', m).
Qed.

Lemma tree_sst id qs x m : (id, qs) ∈ lay -> (x, m) ∈ qs -> sst_disk fs (bucket_path root id ++ [x]) m.
Proof.
  intros Hin Hx. assert ((bucket_path root id ++ [x], m) ∈ layout_tables root lay) as Hd by (apply layout_tables_elem; by exists id, qs, x).
  set (d := bucket_path root id ++ [x]) in *. split.
  - by eapply tree_sst_dir.
  - apply children_eq.
    + apply NoDup_fmap_2; [by intros y y' [_ E]%snoc_inj|]. vm_compute. repeat constructor; set_solver.
    + intros q Hq Hp [Hin' _]. by destruct (te_file _ _ _ Ht d m q Hd Hq Hp).
    + intros q. rewrite list_elem_of_fmap. split.
      * intros (y & -> & Hy). split; [apply snoc_not_nil|]. split; [apply parent_snoc|]. right.
        apply (te_file _ _ _ Ht d m); [done|apply snoc_not_nil|apply parent_snoc|]. by exists y.
      * intros (Hq & Hp & Hc). destruct (te_file _ _ _ Ht d m q Hd Hq Hp) as [Hn Hf]. destruct Hc as [?|(y & -> & Hy)%Hf]; [done|]. by exists y.
  - intros y Hy. apply (te_file _ _ _ Ht d m); [done|apply snoc_not_nil|apply parent_snoc|]. by exists y.
  - by apply (te_content _ _ _ Ht).
Qed.

Lemma tree_layout : layout parse_uuid fs root lay.
Proof.
  pose proof (te_plain _ _ _ Ht) as Hpl. rewrite Forall_forall in Hpl. split.
  - apply Ht.
  - apply tree_buckets.
  - apply Ht.
  - apply Forall_forall. intros p Hp. by apply Hpl.
  - apply Forall_forall. intros [id qs] Hp. split; [by eapply tree_bucket_dir|by apply tree_ssts].
  - apply Forall_forall. intros [id qs] Hp. destruct (Hpl _ Hp) as [_ Hl]. rewrite Forall_forall in Hl.
    apply Forall_forall. intros [x m] Hx. split; [by apply (Hl (x, m))|by eapply tree_sst].
Qed.
End to_layout.

(** ** A new table *)
Lemma sst_content_made w w' d l f m t : made_table w w' d l f m t -> filter_ok f -> sst_content (w_fs w') d m.
Proof.
  intros Hmd Hf. split.
  - destruct (md_holds _ _ _ _ _ _ _ Hmd) as (Hst & bs & Hg & He & Hd & Hi). split; [done|].
    exists (file (data_file t)), (file (index_file t)), bs. rewrite <- (md_data_path _ _ _ _ _ _ _ Hmd).
    split; [apply (md_named _ _ _ _ _ _ _ Hmd)|]. split; [apply (md_index_named _ _ _ _ _ _ _ Hmd)|done].
  - apply (md_summary_file _ _ _ _ _ _ _ Hmd).
  - destruct (md_filter_file _ _ _ _ _ _ _ Hmd) as (i & Hi & Hc). by exists i, f.
Qed.

Lemma sst_content_kept w w' d l f m t d0 m0 :
  made_table w w' d l f m t -> fs_wf (w_fs w) -> sst_content (w_fs w) d0 m0 -> sst_content (w_fs w') d0 m0.
Proof.
  intros Hmd Hwf [(Hst & i & j & bs & Ni & Nj & Hg & He & Ci & Cj) (si & s & Ns & Cs & Hs) (fi & g & Nf & Cf & Hf)].
  pose proof (md_names _ _ _ _ _ _ _ Hmd) as Hn. pose proof (md_content _ _ _ _ _ _ _ Hmd) as Hc. pose proof (wf_inode _ Hwf) as Hw. split.
  - split; [done|]. exists i, j, bs. rewrite (Hc i), (Hc j) by eauto using wf_inode. do 2 (split; [by apply Hn|]). done.
  - exists si, s. rewrite (Hc si) by eauto. split; [by apply Hn|done].
  - exists fi, g. rewrite (Hc fi) by eauto. split; [by apply Hn|done].
Qed.

Section push.
Context w w' (root : list string) lay (id x : string) (l : nat) (f : BloomFilter) m (t : Table).
Local Abbreviation d := (bucket_path root id ++ [x]).
Context (Ht : tree (w_fs w) root lay) (Hwf : fs_wf (w_fs w)) (Hmd : made_table w w' d l f m t) (Hfree : d ∉ dirs (w_fs w)).

Lemma push_names_short q : (length q < length root + 3)%nat -> names (w_fs w) !! q = None -> names (w_fs w') !! q = None.
Proof.
  intros Hl Hq. destruct (names (w_fs w') !! q) as [i|] eqn:E; [|done].
  assert (is_Some (names (w_fs w') !! q)) as Hs by by eexists.
  apply (md_files _ _ _ _ _ _ _ Hmd) in Hs as [[j Hj]|(y & -> & _)]; [congruence|].
  unfold bucket_path in Hl. rewrite !length_app in Hl. cbn in Hl. lia.
Qed.

Lemma push_bucket q : q <> [] -> parent q = root -> names (w_fs w') !! q = None /\
    (q ∈ dirs (w_fs w') <-> exists i, i ∈ (lay_add id (x, m) lay).*1 /\ q = bucket_path root i).
Proof.
  intros Hq Hp. destruct (te_bucket _ _ _ Ht q Hq Hp) as [Hn Hd]. destruct (parent_Some q root Hq Hp) as [y ->]. split.
  { apply push_names_short; [rewrite length_app; cbn; lia|done]. }
  rewrite (md_dirs _ _ _ _ _ _ _ Hmd), Hd. split.
  - intros [(i & Hi & E)|Hpre].
    + exists i. split; [|done]. rewrite lay_add_keys. case_decide; [done|]. apply elem_of_app. by left.
    + exists id. split.
      * rewrite lay_add_keys. case_decide; [done|]. apply elem_of_app. right. by left.
      * unfold bucket_path in Hpre. rewrite <- app_assoc in Hpre. apply prefix_app_inv, prefix_cons_inv_1 in Hpre as ->. done.
  - intros (i & Hi & E). rewrite lay_add_keys in Hi. destruct (decide (i = id)) as [->|Hne].
    + right. rewrite E. by apply prefix_app_r.
    + left. exists i. split; [|done]. case_decide; [done|]. by apply elem_of_app in Hi as [Hi|Hi%list_elem_of_singleton].
Qed.

Lemma push_sst i q : q <> [] -> parent q = bucket_path root i -> names (w_fs w') !! q = None /\
    (q ∈ dirs (w_fs w') <-> exists y, y ∈ (lay_get i (lay_add id (x, m) lay)).*1 /\ q = bucket_path root i ++ [y]).
Proof.
  intros Hq Hp. destruct (te_sst _ _ _ Ht i q Hq Hp) as [Hn Hd]. destruct (parent_Some q _ Hq Hp) as [y ->]. split.
  { apply push_names_short; [unfold bucket_path; rewrite !length_app; cbn; lia|done]. }
  rewrite (md_dirs _ _ _ _ _ _ _ Hmd), Hd, lay_get_add, fmap_app. split.
  - intros [(z & Hz & E)|Hpre].
    + exists z. split; [|done]. apply elem_of_app. by left.
    + apply prefix_same_length in Hpre; [|unfold bucket_path; rewrite !length_app; cbn; lia].
      apply snoc_inj in Hpre as [Ei%bucket_path_inj ->]. subst i. exists x. split; [|done]. apply elem_of_app. right. rewrite decide_True by done. by left.
  - intros (z & [Hz|Hz]%elem_of_app & [_ E]%snoc_inj); [left; by exists z; subst|]. right.
    case_decide; [|by apply not_elem_of_nil in Hz]. subst. by apply list_elem_of_singleton in Hz as ->.
Qed.

Lemma push_file d0 m0 q : (d0, m0) ∈ layout_tables root (lay_add id (x, m) lay) -> q <> [] -> parent q = d0 -> (q ∉ dirs (w_fs w')) /\
    (is_Some (names (w_fs w') !! q) <-> exists y, q = d0 ++ [y] /\ y ∈ table_files).
Proof.
  intros Hin Hq Hp. destruct (parent_Some q _ Hq Hp) as [y ->]. rewrite lay_add_tables in Hin.
  rewrite (md_dirs _ _ _ _ _ _ _ Hmd), (md_files _ _ _ _ _ _ _ Hmd).
  assert (forall i z, ~ (bucket_path root i ++ [z]) ++ [y] `prefix_of` d) as Hlong.
  { intros i z Hpre%prefix_length. unfold bucket_path in Hpre. rewrite !length_app in Hpre. cbn in Hpre. lia. }
  apply elem_of_cons in Hin as [[= -> ->]|Hin].
  - split.
    + intros [Hd|Hpre%Hlong]; [|done]. pose proof (te_closed _ _ _ Ht _ Hd Hq) as Hpar. by rewrite parent_snoc in Hpar.
    + rewrite (wf_fresh_name _ _ y Hwf Hfree). split; [intros [[? [=]]|]; done|by right].
  - destruct (te_file _ _ _ Ht _ _ _ Hin Hq Hp) as [Hd Hf]. apply layout_tables_elem in Hin as (i & qs & z & Hi & Hz & ->). split.
    + by intros [?|Hpre%Hlong].
    + rewrite Hf. split; [|by left]. intros [?|(y' & [E ->]%snoc_inj & Hy)]; [done|]. exists y'. by split.
Qed.

Lemma tree_push : filter_ok f -> plain parse_uuid id -> lacks "u" x = true -> tree (w_fs w') root (lay_add id (x, m) lay).
Proof.
  intros Hf Hid Hx. split.
  - apply (md_dirs _ _ _ _ _ _ _ Hmd). left. apply Ht.
  - intros q. rewrite !(md_dirs _ _ _ _ _ _ _ Hmd). intros [Hq|Hq] Hne; [left; by apply (te_closed _ _ _ Ht)|right; by apply parent_prefix].
  - apply push_bucket.
  - apply push_sst.
  - apply push_file.
  - intros d0 m0 Hin. rewrite lay_add_tables in Hin. apply elem_of_cons in Hin as [[= -> ->]|Hin]; [by eapply sst_content_made|].
    eapply sst_content_kept; [done..|]. by apply (te_content _ _ _ Ht).
  - apply lay_add_ids, Ht.
  - rewrite lay_add_tables. cbn. apply NoDup_cons. split; [|apply Ht].
    intros ([d0 m0] & E & Hin)%list_elem_of_fmap. cbn in E. subst d0. apply Hfree.
    apply layout_tables_elem in Hin as (i & qs & z & Hi & Hz & ->). by eapply tree_sst_dir.
  - apply lay_add_Forall; [done|done|apply Ht].
Qed.
End push.

(** ** Flushing *)

(** The buckets are below the directory of the map, under their ids. *)
Definition bucket_dirs_ok (bm : BucketMap) : Prop :=
  forall id b, im_get id (buckets bm) = Some b -> bk_dir b = bucket_path (bm_dir bm) id /\ plain parse_uuid id.

Lemma inserted_tree w bm l f m sst bm' w' lay :
  let root := bm_dir bm in
  inserted w bm l f m sst bm' w' -> fs_wf (w_fs w) ->
  (forall p n, n = w_ticks w \/ n = S (w_ticks w) -> path_exists (w_fs w) (p ++ [sst_dir_name (clock n)]) = false) ->
  tree (w_fs w) root lay -> bucket_dirs_ok bm -> filter_ok f -> plain parse_uuid (new_uuid (w_ticks w)) ->
  exists id x, made_table w w' (bucket_path root id ++ [x]) l f m sst /\ tree (w_fs w') root (lay_add id (x, m) lay) /\
    bm_dir bm' = root /\ bucket_dirs_ok bm' /\ (bucket_path root id ++ [x] ∉ dirs (w_fs w)) /\
    (is_Some (im_get id (buckets bm)) \/ id = new_uuid (w_ticks w)).
Proof.
  intros root Hins Hwf Hfree Ht Hb Hf Hid.
  destruct (is_place _ _ _ _ _ _ _ _ Hins) as (p & n & id & b' & Hmd & Hn & _ & Hp & -> & Hbi & Hbd & _).
  assert (p = bucket_path root id /\ plain parse_uuid id) as [-> Hpl].
  { destruct Hp as [(b & Hg & ->)|(_ & -> & ->)]; [by apply Hb|done]. }
  assert (bucket_path root id ++ [sst_dir_name (clock n)] ∉ dirs (w_fs w)) as Hnew by by apply path_exists_false, Hfree.
  exists id, (sst_dir_name (clock n)). split; [exact Hmd|]. split; [|split; [done|split; [|split; [done|]]]].
  3: { destruct Hp as [(b & Hg & _)|(_ & -> & _)]; [left; by eexists|by right]. }
  - eapply tree_push; try done. apply sst_dir_name_lacks.
  - intros i b. cbn [buckets bm_dir]. rewrite im_get_insert. case_decide; [intros [= <-]; by subst i|apply Hb].
Qed.

Lemma flush_tree t d lay :
  let m := the_map (db_world d) (mt_entries t) in
  let root := bm_dir (db_buckets d) in
  can_insert d -> (mt_entries t < w_next (db_world d))%nat -> storable m ->
  tree (w_fs (db_world d)) root lay -> bucket_dirs_ok (db_buckets d) ->
  filter_ok (bloom_filter t) -> plain parse_uuid (new_uuid (w_ticks (db_world d))) ->
  exists d' w' id x sst, flush t d = (Ok tt, d') /\ w_fs (db_world d') = w_fs w' /\
    made_table (db_world d) w' (bucket_path root id ++ [x]) (mt_entries t) (bloom_filter t) m sst /\
    tree (w_fs w') root (lay_add id (x, m) lay) /\ bm_dir (db_buckets d') = root /\ bucket_dirs_ok (db_buckets d').
Proof.
  intros m root Hci Hlt Hst Ht Hb Hf Hid.
  destruct (flush_run t d Hci Hlt Hst) as (sst & bm' & w' & s & E & Hins & _). fold m in Hins.
  destruct (inserted_tree _ _ _ _ _ _ _ _ lay Hins) as (id & x & Hmd & Ht' & Hd & Hb' & _); try done; [apply Hci|apply Hci|].
  by eexists _, w', id, x, sst.
Qed.

(** ** Other changes of the files *)

(** Nothing below a directory without entries *)
Lemma tree_nil fs root :
  root ∈ dirs fs -> dirs_closed fs -> fs_wf fs -> no_children fs root -> tree fs root [].
Proof.
  intros Hr Hc Hwf [Hd Hn].
  assert (forall q, q <> [] -> parent q = root -> names fs !! q = None /\ q ∉ dirs fs) as Hnone.
  { intros q Hq Hp. split; [|by intros ?; apply (Hd q)]. destruct (names fs !! q) as [i|] eqn:E; [|done]. by destruct (Hn q i E). }
  assert (forall id, bucket_path root id ∉ dirs fs) as Hb by (intros id; apply Hnone; [apply snoc_not_nil|apply bucket_path_parent]).
  split; try done.
  - intros q Hq Hp. destruct (Hnone q Hq Hp). split; [done|]. split; [done|]. by intros (id & ?%not_elem_of_nil & _).
  - intros id q Hq Hp. split; [|split; [intros Hin; destruct (Hb id); rewrite <- Hp; by apply Hc|by intros (x & ?%not_elem_of_nil & _)]].
    destruct (parent_Some _ _ Hq Hp) as [x ->]. by apply wf_fresh_name.
  - by intros d m q ?%not_elem_of_nil.
  - by intros d m ?%not_elem_of_nil.
  - constructor.
  - constructor.
Qed.

(** Writing to files that are no table's *)
Lemma tree_frame fs fs' root lay :
  names fs' = names fs -> dirs fs' = dirs fs ->
  (forall d m x i, (d, m) ∈ layout_tables root lay -> x ∈ table_files -> names fs !! (d ++ [x]) = Some i -> content fs' i = content fs i) ->
  tree fs root lay -> tree fs' root lay.
Proof.
  intros En Ed Hc [T1 T2 T3 T4 T5 T6 T7 T8 T9]. split; try done; rewrite ?En, ?Ed; try done.
  - unfold dirs_closed. by rewrite Ed.
  - intros d m Hd. destruct (T6 d m Hd) as [(Hst & i & j & bs & Ni & Nj & Hg & He & Ci & Cj) (si & s & Ns & Cs & Hs) (fi & g & Nf & Cf & Hf)].
    assert (forall x i, x ∈ table_files -> names fs !! (d ++ [x]) = Some i -> content fs' i = content fs i) as Hc' by (intros x y; by apply Hc with (m := m)).
    split; rewrite ?En.
    + split; [done|]. exists i, j, bs. rewrite (Hc' "data.db"%string i), (Hc' "index.db"%string j) by (done || set_solver). done.
    + exists si, s. rewrite (Hc' "summary.db"%string si) by (done || set_solver). done.
    + exists fi, g. rewrite (Hc' "filter.db"%string fi) by (done || set_solver). done.
Qed.
End trees.
