(* ===== verification/CompactionStep.v ===== *)
(** * A round of compaction as a step on the database
    ([SizedTierRunner::run_compaction] of [src/compactors/sized.rs])

    [arranged] says how the bucket map, the directories and the key-range index
    belong together. A round keeps it: the merged tables are inserted and indexed,
    then the tables they were merged from disappear from the bucket map, from the
    disk and from the index ([compaction_round_run]). *)

From stdpp Require Import prelude gmap strings list list_numbers.
From Stdlib Require Import Strings.Byte ZArith Lia.
From S2P Require Import Prelude Consts SkipMap FileIO Types World Block Index Bloom SSTable MemTable KeyRange RangeSearch Bucket Flush Compaction CompactionRun.
From S2P Require Import Store StoreInv FlushSpec CompactionSpec TableRecovery FlushRecovery.
Open Scope Z_scope.

(** ** Removing directories *)

Lemma prefix_snoc {A} (p q : list A) x : p `prefix_of` q ++ [x] -> p = q ++ [x] \/ p `prefix_of` q.
Proof.
  intros [r E]. destruct r as [|y r _] using rev_ind; [left; by rewrite app_nil_r in E|right].
  rewrite app_assoc in E. apply app_inj_tail in E as [-> _]. by exists r.
Qed.

Lemma tail_sublist {A} (l : list A) : tail l `sublist_of` l.
Proof. destruct l; [done|by constructor]. Qed.

(** What is left of the files once everything below some paths is gone *)
Record pruned (ps : list (list string)) (fs fs' : FS) : Prop := {
  pr_inodes : inodes fs' = inodes fs;
  pr_next : next_inode fs' = next_inode fs;
  pr_names q i : names fs' !! q = Some i -> names fs !! q = Some i;
  pr_dirs q : q ∈ dirs fs' -> q ∈ dirs fs;
  pr_kept q : Forall (fun p => ~ p `prefix_of` q) ps -> names fs' !! q = names fs !! q /\ (q ∈ dirs fs -> q ∈ dirs fs');
  pr_wf : fs_wf fs -> fs_wf fs';
}.

Lemma pruned_refl ps fs : pruned ps fs fs.
Proof. by split. Qed.

Lemma pruned_app ps ps' fs fs' fs'' : pruned ps fs fs' -> pruned ps' fs' fs'' -> pruned (ps ++ ps') fs fs''.
Proof.
  intros [A1 A2 A3 A4 A5 A6] [B1 B2 B3 B4 B5 B6]. split; [congruence|congruence|auto|auto| |auto].
  intros q [Q1 Q2]%Forall_app. destruct (A5 q Q1), (B5 q Q2). split; [congruence|auto].
Qed.

Lemma pruned_path ps fs fs' q : pruned ps fs fs' -> path_exists fs' q = true -> path_exists fs q = true.
Proof. intros Hp. rewrite !path_exists_spec. intros [?|[i ?]]; [left; by eapply pr_dirs|right; exists i; by eapply pr_names]. Qed.

(** The files after a successful [remove_dir_all] *)
Definition prune (p : list string) (fs : FS) : FS :=
  mkFS (inodes fs) (filter (fun q => ~ p `prefix_of` q.1) (names fs)) (filter (fun q => ~ p `prefix_of` q) (dirs fs)) (next_inode fs).

Lemma prune_names p fs q i : names (prune p fs) !! q = Some i <-> names fs !! q = Some i /\ ~ p `prefix_of` q.
Proof. cbn. by rewrite map_lookup_filter_Some. Qed.
Lemma prune_dirs p fs q : q ∈ dirs (prune p fs) <-> q ∈ dirs fs /\ ~ p `prefix_of` q.
Proof. cbn. rewrite elem_of_filter. tauto. Qed.

Lemma pruned_prune p fs : pruned [p] fs (prune p fs).
Proof.
  split; [done|done|by intros q i [? _]%prune_names|by intros q [? _]%prune_dirs|..].
  - intros q [Hq _]%Forall_cons. split; [|intros; by apply prune_dirs]. apply option_eq. intros i. rewrite prune_names. tauto.
  - intros [W1 W2]. split; intros q i [Hq Hp]%prune_names; [|by apply (W2 q)]. apply prune_dirs. split; [by eapply W1|].
    intros Hpp. apply Hp. etrans; [exact Hpp|]. unfold parent. exists (drop (pred (length q)) q). by rewrite take_drop.
Qed.

Lemma prune_gone p fs q : p `prefix_of` q -> path_exists (prune p fs) q = false.
Proof.
  intros Hp. destruct (path_exists _ _) eqn:E; [|done]. apply path_exists_spec in E as [[_ ?]%prune_dirs|[i [_ ?]%prune_names]]; done.
Qed.

Lemma remove_dir_all_run p fs : p ∈ dirs fs -> remove_dir_all p fs = (Ok tt, prune p fs).
Proof. intros Hp. unfold remove_dir_all. by rewrite decide_True. Qed.

Section deleting.
Context `{Env} {M : Type -> Type} `{SkipMap M}.
Abbreviation W := (World M).

(** A directory that can be removed or is gone *)
Definition removable (fs : FS) (p : list string) : Prop := p ∈ dirs fs \/ path_exists fs p = false.

Lemma removable_prune fs p q : removable fs q -> removable (prune p fs) q.
Proof.
  intros [Hq|Hq].
  - destruct (decide (p `prefix_of` q)); [right; by apply prune_gone|left; by apply prune_dirs].
  - right. apply not_true_iff_false. intros E%(pruned_path _ _ _ _ (pruned_prune p fs)). congruence.
Qed.

(** The removal of the merged tables' directories succeeds. *)
Lemma delete_sst_dirs_run ssts (w : W) :
  Forall (fun t => removable (w_fs w) (t_dir t)) ssts ->
  exists fs', delete_sst_dirs ssts w = (Ok true, with_fs w fs') /\ pruned (t_dir <$> ssts) (w_fs w) fs'.
Proof.
  revert w. induction ssts as [|t ssts IH]; intros w Hr; [exists (w_fs w); by rewrite with_fs_id|].
  apply Forall_cons in Hr as [Ht Hr]. cbn [delete_sst_dirs]. destruct (path_exists (w_fs w) (t_dir t)) eqn:E.
  - destruct Ht as [Ht|Ht]; [|congruence]. rewrite (on_fs_ok _ _ _ _ (remove_dir_all_run _ _ Ht)).
    destruct (IH (with_fs w (prune (t_dir t) (w_fs w)))) as (fs' & E' & Hp).
    { eapply Forall_impl; [exact Hr|]. intros t' Ht'. cbn. by apply removable_prune. }
    exists fs'. split; [exact E'|]. rewrite fmap_cons. change (t_dir t :: (t_dir <$> ssts)) with ([t_dir t] ++ (t_dir <$> ssts)).
    eapply pruned_app; [apply pruned_prune|exact Hp].
  - destruct (IH w Hr) as (fs' & E' & Hp). exists fs'. split; [exact E'|]. rewrite fmap_cons.
    change (t_dir t :: (t_dir <$> ssts)) with ([t_dir t] ++ (t_dir <$> ssts)). eapply pruned_app; [apply pruned_refl|exact Hp].
Qed.

(** ** Buckets leaving the map *)
Definition removes (dead : list string) (l : list (string * Bucket)) : list (string * Bucket) :=
  fold_left (fun l id => im_shift_remove id l) dead l.

Lemma im_get_shift_remove i id l : i <> id -> im_get i (im_shift_remove id l) = im_get i l.
Proof.
  intros Hne. induction l as [|[j b] l IH]; [done|]. cbn. case_decide; subst; [by rewrite decide_False|]. cbn. by rewrite IH.
Qed.

Lemma im_get_removes i dead l : i ∉ dead -> im_get i (removes dead l) = im_get i l.
Proof.
  revert l. induction dead as [|id dead IH]; intros l Hi; [done|]. apply not_elem_of_cons in Hi as [Hne Hi]. cbn. change (im_get i (removes dead (im_shift_remove id l)) = im_get i l).
  by rewrite IH, im_get_shift_remove.
Qed.

Lemma im_shift_remove_insert i id b l : i <> id -> im_shift_remove i (im_insert id b l) = im_insert id b (im_shift_remove i l).
Proof.
  intros Hne. induction l as [|[j b'] l IH]; cbn; [by rewrite decide_False|].
  destruct (decide (id = j)) as [->|Hj]; destruct (decide (i = j)) as [->|Hi]; cbn; rewrite ?(decide_False (P := i = j)), ?(decide_True (P := j = j)), ?(decide_False (P := id = j)) by done; try done.
  by rewrite IH.
Qed.

Lemma removes_insert dead id b l : id ∉ dead -> removes dead (im_insert id b l) = im_insert id b (removes dead l).
Proof.
  revert l. induction dead as [|i dead IH]; intros l Hi; [done|]. apply not_elem_of_cons in Hi as [Hne Hi]. unfold removes in *. cbn.
  rewrite im_shift_remove_insert by done. by apply IH.
Qed.

Lemma shift_remove_elem id l p : NoDup l.*1 -> p ∈ im_shift_remove id l -> p ∈ l /\ p.1 <> id.
Proof.
  induction l as [|[j b] l IH]; [by intros _ ?%not_elem_of_nil|]. rewrite fmap_cons. intros [Hj Hnd]%NoDup_cons. cbn. case_decide.
  - intros Hp. subst. split; [by right|]. intros <-. apply Hj. apply list_elem_of_fmap. by exists p.
  - intros [->|Hp]%elem_of_cons; [split; [by left|done]|]. destruct (IH Hnd Hp). split; [by right|done].
Qed.

Lemma im_insert_elem id b l p : NoDup l.*1 -> p ∈ im_insert id b l -> p = (id, b) \/ (p ∈ l /\ p.1 <> id).
Proof.
  induction l as [|[j b'] l IH]; cbn; [by intros _ ->%list_elem_of_singleton; left|]. intros [Hj Hnd]%NoDup_cons. case_decide.
  - subst. intros [->|Hp]%elem_of_cons; [by left|right]. split; [by right|]. intros E. apply Hj. rewrite <- E. apply list_elem_of_fmap. by exists p.
  - intros [->|Hp]%elem_of_cons; [right; split; [by left|done]|]. destruct (IH Hnd Hp) as [->|[? ?]]; [by left|right; split; [by right|done]].
Qed.

Lemma all_tables_elem t l : t ∈ all_tables l <-> exists id b, (id, b) ∈ l /\ t ∈ sstables b.
Proof.
  induction l as [|[j b] l IH]; [split; [by intros ?%not_elem_of_nil|by intros (? & ? & ?%not_elem_of_nil & _)]|].
  rewrite all_tables_cons, elem_of_app, IH. split.
  - intros [Ht|(id & b' & Hin & Ht)]; [exists j, b; split; [by left|done]|exists id, b'; split; [by right|done]].
  - intros (id & b' & [[= -> ->]|Hin]%elem_of_cons & Ht); [by left|right; by exists id, b'].
Qed.
End deleting.

Section arranged.
Context `{Env} {M : Type -> Type} `{SkipMap M} (N B : nat).
Abbreviation W := (World M).
Abbreviation D := (Db M).
Implicit Types (w : W) (d : D) (tabs : list (Range * M SkipMapValue)).

(** ** Tables in their places *)

(** A table of the bucket [id]: its directory is below the bucket's. *)
Record housed w (root : list string) (id : string) (t : Table) : Prop := {
  hs_dir : exists x, t_dir t = bucket_path root id ++ [x];
  hs_data : file_path (data_file t) = data_file_path (t_dir t);
  hs_listed : t_dir t ∈ dirs (w_fs w);
  hs_loc : (t_entries t < w_next w)%nat;
}.

(** An indexed table with its files *)
Record kept_tab w (p : Range * M SkipMapValue) : Prop := {
  kt_holds : table_holds w (r_sst p.1) p.2;
  kt_files : (file (data_file (r_sst p.1)) < next_inode (w_fs w) /\ file (index_file (r_sst p.1)) < next_inode (w_fs w))%nat;
}.

(** ... with its filter in memory and without deletions *)
Record hot_tab w (p : Range * M SkipMapValue) : Prop := {
  ht_live : live_range w p.1 p.2;
  ht_filter : filter_below (w_next w) p.1;
  ht_no : no_tombstones p.2;
}.

(** The table of the bucket map that [p] indexes *)
Record indexes (p : Range * M SkipMapValue) (t : Table) : Prop := {
  ix_dir : dir_of p = t_dir t;
  ix_data : data_file (r_sst p.1) = data_file t;
  ix_index : index_file (r_sst p.1) = index_file t;
}.

(** All tables in their places, with an index that names each of them, and new
    tables with directories of their own until reading [B] *)
Record arranged d tabs : Prop := {
  ar_wf : bm_wf (db_world d) (db_buckets d);
  ar_ids n : (w_ticks (db_world d) <= n < N)%nat -> im_get (new_uuid n) (buckets (db_buckets d)) = None;
  ar_fresh : fresh_dirs B d;
  ar_buckets : Forall (fun q => bk_dir q.2 = bucket_path (bm_dir (db_buckets d)) q.1 /\
    Forall (housed (db_world d) (bm_dir (db_buckets d)) q.1) (sstables q.2)) (buckets (db_buckets d));
  ar_dirs : NoDup (t_dir <$> bm_tables (db_buckets d));
  ar_index : tabs.*1 = (hm_iter (key_ranges (db_ranges d))).*2;
  ar_keyed p r : key_ranges (db_ranges d) !! p = Some r -> t_dir (r_sst r) = p;
  ar_linked t : t ∈ bm_tables (db_buckets d) -> exists p, p ∈ tabs /\ indexes p t;
  ar_tabs : Forall (kept_tab (db_world d)) tabs;
  ar_bound : (B <= N)%nat;
}.

(** Tables that a run can merge: hot, and none of those in the buckets has entries
    in memory *)
Record primed d tabs : Prop := {
  pr_hot : Forall (hot_tab (db_world d)) tabs;
  pr_unloaded t : t ∈ bm_tables (db_buckets d) -> sm_iter (the_map (db_world d) (t_entries t)) = [];
}.

Lemma housed_elem d tabs id b t : arranged d tabs -> (id, b) ∈ buckets (db_buckets d) -> t ∈ sstables b -> housed (db_world d) (bm_dir (db_buckets d)) id t.
Proof. intros Ha Hb Ht. pose proof (ar_buckets _ _ Ha) as Hf. rewrite Forall_forall in Hf. destruct (Hf _ Hb) as [_ Hs]. rewrite Forall_forall in Hs. by apply Hs. Qed.

(** *** Dropping tables from the map and the disk *)

(** Bucket maps [l] and [l'], the second with fewer tables *)
Record shrunk (l l' : list (string * Bucket)) : Prop := {
  sh_nodup : NoDup l'.*1;
  sh_from p : p ∈ l' -> exists b, (p.1, b) ∈ l /\ bk_dir p.2 = bk_dir b /\ bk_id p.2 = bk_id b /\ forall t, t ∈ sstables p.2 -> t ∈ sstables b;
}.

Lemma shrunk_tables l l' t : shrunk l l' -> t ∈ all_tables l' -> t ∈ all_tables l.
Proof.
  intros Hs (id & b & Hb & Ht)%all_tables_elem. destruct (sh_from _ _ Hs _ Hb) as (b0 & Hb0 & _ & _ & Hsub).
  apply all_tables_elem. exists id, b0. split; [done|by apply Hsub].
Qed.

Lemma shrunk_get l l' i : shrunk l l' -> im_get i l = None -> im_get i l' = None.
Proof.
  intros Hs Hn. apply im_get_not_in. apply im_get_not_in in Hn. intros ([j b] & -> & Hp)%list_elem_of_fmap. apply Hn.
  destruct (sh_from _ _ Hs _ Hp) as (b0 & Hb0 & _). apply list_elem_of_fmap. by exists (j, b0).
Qed.

Lemma arranged_shrink w dir l l' kr tabs ps fs' :
  arranged (mkDb w (mkBucketMap dir l) kr) tabs -> shrunk l l' -> pruned ps (w_fs w) fs' -> NoDup (t_dir <$> all_tables l') ->
  (forall t p, t ∈ all_tables l' -> p ∈ ps -> ~ p `prefix_of` data_file_path (t_dir t)) ->
  arranged (mkDb (with_fs w fs') (mkBucketMap dir l') kr) tabs.
Proof.
  intros [[B1 B2 B3 B4 B5] Hids Hfree Hbk Hdirs Hx Hk Hl Ht HBN] Hs Hp Hnd Hap. cbn in *.
  rewrite Forall_forall in B1, Hbk. unfold files_named in B3. rewrite Forall_forall in B3, B4.
  assert (forall t, t ∈ all_tables l' -> Forall (fun p => ~ p `prefix_of` data_file_path (t_dir t)) ps /\ Forall (fun p => ~ p `prefix_of` t_dir t) ps) as Haway.
  { intros t Ht'. split; apply Forall_forall; intros p Hin; [by apply (Hap t)|]. intros Hpp. apply (Hap t p Ht' Hin). by apply prefix_app_r. }
  assert (forall q, q ∈ l' -> bk_dir q.2 = bucket_path dir q.1 /\ Forall (housed w dir q.1) (sstables q.2)) as Hbk'.
  { intros q Hq. destruct (sh_from _ _ Hs _ Hq) as (b & Hb & Ed & _ & Hsub). destruct (Hbk _ Hb) as [D1 D2]. cbn in *. split; [by rewrite Ed|].
    apply Forall_forall. intros t Ht'%Hsub. rewrite Forall_forall in D2. by apply D2. }
  assert (forall t, t ∈ all_tables l' -> exists id, housed w dir id t) as Hhouse.
  { intros t (id & b & Hb & Ht')%all_tables_elem. destruct (Hbk' _ Hb) as [_ D2]. rewrite Forall_forall in D2. exists id. by apply D2. }
  split; cbn; try done.
  - split; cbn.
    + apply Forall_forall. intros q Hq. destruct (sh_from _ _ Hs _ Hq) as (b & Hb & _ & Ei & _). rewrite Ei. exact (B1 _ Hb).
    + apply Hs.
    + apply Forall_forall. intros t Ht'. unfold bm_tables in *. cbn in *. destruct (Hhouse t Ht') as [id Hh]. rewrite (hs_data _ _ _ _ Hh).
      rewrite (proj1 (pr_kept _ _ _ Hp _ (proj1 (Haway t Ht')))), <- (hs_data _ _ _ _ Hh). exact (B3 _ (shrunk_tables _ _ _ Hs Ht')).
    + apply Forall_forall. intros t Ht'. rewrite (pr_next _ _ _ Hp). exact (B4 _ (shrunk_tables _ _ _ Hs Ht')).
    + by apply (pr_wf _ _ _ Hp).
  - intros n Hn. eapply shrunk_get; [exact Hs|by apply Hids].
  - destruct Hfree as [Hfree Hfr2 Hfr3]. split; [|exact Hfr2|exact Hfr3]. intros n Hn. destruct (Hfree n Hn) as [F1 F2 F3]. split; cbn in *; [|done|].
    + intros q Hq. by eapply F1, pruned_path.
    + apply Forall_forall. intros q Hq. destruct (sh_from _ _ Hs _ Hq) as (b & Hb & Ed & _). rewrite Ed. rewrite Forall_forall in F3. exact (F3 _ Hb).
  - apply Forall_forall. intros q Hq. destruct (Hbk' q Hq) as [D1 D2]. split; [done|]. apply Forall_forall. intros t Ht'. rewrite Forall_forall in D2.
    destruct (D2 t Ht') as [S1 S2 S3 S4]. split; try done. cbn. apply (pr_kept _ _ _ Hp); [|done].
    apply Haway, all_tables_elem. exists q.1, q.2. split; [by destruct q|done].
  - intros t Ht'. apply Hl. by eapply shrunk_tables.
  - eapply Forall_impl; [exact Ht|]. intros p [T1 T2]. split; cbn; rewrite ?(pr_next _ _ _ Hp); try done.
    eapply table_holds_frame; [exact T1|done|done|..]; unfold content; cbn; by rewrite (pr_inodes _ _ _ Hp).
Qed.

(** *** The removal list *)
Lemma prefix_take {A} (p q : list A) : p `prefix_of` q -> p = take (length p) q.
Proof. intros [r ->]. by rewrite take_app_length. Qed.

Lemma bucket_path_length root id : length (bucket_path root id) = S (length root).
Proof. unfold bucket_path. rewrite length_app. cbn. lia. Qed.

Lemma cool_dirs (l l' : list Table) : cool <$> l = cool <$> l' -> t_dir <$> l = t_dir <$> l'.
Proof.
  intros E. assert (forall l, t_dir <$> l = t_dir <$> (cool <$> l)) as Ec by (intros; by rewrite <- list_fmap_compose). by rewrite (Ec l), (Ec l'), E.
Qed.

Lemma housed_length w root id t : housed w root id t -> length (t_dir t) = S (S (length root)).
Proof. intros [[x ->] _ _ _]. rewrite length_app, bucket_path_length. cbn. lia. Qed.

(** The directory of a dropped table is not above another table's. *)
Lemma sibling_apart w root id id' t t' :
  housed w root id t -> housed w root id' t' -> t_dir t' <> t_dir t -> ~ t_dir t' `prefix_of` data_file_path (t_dir t).
Proof.
  intros Ht Ht' Hne Hp%prefix_take. apply Hne. rewrite (housed_length _ _ _ _ Ht'), <- (housed_length _ _ _ _ Ht) in Hp.
  unfold data_file_path in Hp. by rewrite take_app_length in Hp.
Qed.

Lemma bucket_apart w root id id' t : housed w root id t -> id' <> id -> ~ bucket_path root id' `prefix_of` data_file_path (t_dir t).
Proof.
  intros [[x E] _ _ _] Hne Hp%prefix_take. apply Hne. rewrite bucket_path_length, <- (bucket_path_length root id) in Hp.
  unfold data_file_path in Hp. rewrite E, <- app_assoc, take_app_length in Hp. by apply bucket_path_inj in Hp.
Qed.

(** One bucket of the removal list leaves the map, or keeps what is after the
    removed tables. *)
Lemma shrunk_drop l id b b' n :
  NoDup l.*1 -> im_get id l = Some b -> bk_dir b' = bk_dir b -> bk_id b' = bk_id b -> sstables b' = drop n (sstables b) ->
  shrunk l (im_insert id b' l) /\ all_tables l ≡ₚ take n (sstables b) ++ all_tables (im_insert id b' l).
Proof.
  intros Hnd Hg Hd Hi Hs. split; [split|].
  - rewrite im_insert_keys, decide_True; [done|]. apply list_elem_of_fmap. exists (id, b). split; [done|by apply im_get_elem].
  - intros p [->|[Hp _]]%im_insert_elem; [|exists p.2; by destruct p|done]. exists b. split; [by apply im_get_elem|]. do 2 (split; [done|]).
    cbn. rewrite Hs. intros t Ht. by apply list_elem_of_drop in Ht as (? & ? & _) || (eapply elem_of_sublist; [exact Ht|apply sublist_drop]).
  - rewrite all_tables_insert, Hg, Hs, (all_tables_get _ _ _ Hg), app_assoc, take_drop. done.
Qed.

Lemma shrunk_remove l id b :
  NoDup l.*1 -> im_get id l = Some b -> shrunk l (im_shift_remove id l) /\ all_tables l ≡ₚ sstables b ++ all_tables (im_shift_remove id l).
Proof.
  intros Hnd Hg. split; [split|by apply all_tables_get].
  - by apply im_shift_remove_NoDup.
  - intros p [Hp _]%shift_remove_elem; [|done]. exists p.2. by destruct p.
Qed.

(** The tables [gone] leave: with their directories, or with their bucket's. *)
Lemma arranged_drop w dir l l' kr tabs (gone ssts : list Table) id dead fs' :
  arranged (mkDb w (mkBucketMap dir l) kr) tabs -> shrunk l l' -> all_tables l ≡ₚ gone ++ all_tables l' ->
  t_dir <$> gone = t_dir <$> ssts -> Forall (housed w dir id) gone ->
  (dead = true -> forall i b, (i, b) ∈ l' -> i <> id) ->
  pruned ((if dead then [bucket_path dir id] else []) ++ (t_dir <$> ssts)) (w_fs w) fs' ->
  arranged (mkDb (with_fs w fs') (mkBucketMap dir l') kr) tabs /\ t_dir <$> all_tables l ≡ₚ (t_dir <$> ssts) ++ (t_dir <$> all_tables l') /\
    (forall t, t ∈ all_tables l' -> t ∈ all_tables l).
Proof.
  intros Ha Hs Hperm Hd Hh Hdead Hp. rewrite Forall_forall in Hh.
  assert (t_dir <$> all_tables l ≡ₚ (t_dir <$> ssts) ++ (t_dir <$> all_tables l')) as Hpd by by rewrite Hperm, fmap_app, Hd.
  split; [|split; [done|intros t; by apply shrunk_tables]]. pose proof (ar_dirs _ _ Ha) as Hnd. unfold bm_tables in Hnd. cbn in Hnd. rewrite Hpd in Hnd.
  apply NoDup_app in Hnd as (_ & Hne & Hnd).
  eapply arranged_shrink; [exact Ha|exact Hs|exact Hp|exact Hnd|].
  intros t p Ht Hin. pose proof Ht as (i & b & Hb & Htb)%all_tables_elem.
  assert (housed w dir i t) as Hht.
  { destruct (sh_from _ _ Hs _ Hb) as (b0 & Hb0 & _ & _ & Hsub). exact (housed_elem _ _ _ _ _ Ha Hb0 (Hsub _ Htb)). }
  apply elem_of_app in Hin as [Hin|Hin].
  - destruct dead; [|by apply not_elem_of_nil in Hin]. apply list_elem_of_singleton in Hin as ->. eapply bucket_apart; [exact Hht|].
    intros ->. by eapply Hdead.
  - pose proof Hin as Hin'. rewrite <- Hd in Hin'. apply list_elem_of_fmap in Hin' as (t' & -> & Ht').
    eapply sibling_apart; [exact Hht|by apply Hh|]. intros E. apply (Hne _ Hin). rewrite E. apply list_elem_of_fmap. by exists t.
Qed.

Lemma delete_step_run w bm gone kr tabs id ssts b rest :
  let l := removes gone (buckets bm) in
  arranged (mkDb w (mkBucketMap (bm_dir bm) l) kr) tabs -> id ∉ gone ->
  im_get id (buckets bm) = Some b -> cool <$> sstables b = (cool <$> ssts) ++ rest ->
  exists bm1 dead fs1 fs', (match drop (length ssts) (sstables b) with
      | [] => fun w => (Ok (bm, [id]), snd (on_fs (remove_dir_all (bk_dir b)) w))
      | remaining =>
          new_average ← cal_average_size remaining;
          let bucket' := mkBucket (bk_id b) (bk_dir b) (new_average * zlen remaining) new_average remaining in
          mret (mkBucketMap (bm_dir bm) (im_insert id bucket' (buckets bm)), [])
      end : io W Error (BucketMap * list string)) w = (Ok (bm1, dead), with_fs w fs1) /\
    delete_sst_dirs ssts (with_fs w fs1) = (Ok true, with_fs w fs') /\ bm_dir bm1 = bm_dir bm /\
    (forall i, i <> id -> im_get i (buckets bm1) = im_get i (buckets bm)) /\ (forall i, i ∈ dead -> i = id) /\ (exists ps, pruned ps (w_fs w) fs') /\
    arranged (mkDb (with_fs w fs') (mkBucketMap (bm_dir bm) (removes (gone ++ dead) (buckets bm1))) kr) tabs /\
    t_dir <$> all_tables l ≡ₚ (t_dir <$> ssts) ++ (t_dir <$> all_tables (removes (gone ++ dead) (buckets bm1))) /\
    (forall t, t ∈ all_tables (removes (gone ++ dead) (buckets bm1)) -> t ∈ all_tables l).
Proof.
  intros l Ha Hid Hg Hc. set (n := length ssts).
  assert (im_get id l = Some b) as Hgl by (unfold l; by rewrite im_get_removes).
  assert (NoDup l.*1) as Hnd by apply (bw_nodup _ _ (ar_wf _ _ Ha)).
  assert (Forall (housed w (bm_dir bm) id) (sstables b)) as Hh.
  { apply Forall_forall. intros t Ht. exact (housed_elem _ _ _ _ _ Ha (im_get_elem _ _ _ Hgl) Ht). }
  assert (cool <$> take n (sstables b) = cool <$> ssts) as Hct.
  { rewrite fmap_take, Hc. unfold n. rewrite <- (length_fmap cool ssts). by rewrite take_app_length. }
  pose proof (cool_dirs _ _ Hct) as Hdirs.
  assert (Forall (fun t => removable (w_fs w) (t_dir t)) ssts) as Hrm.
  { apply Forall_forall. intros t Ht. assert (t_dir t ∈ t_dir <$> take n (sstables b)) as (t' & -> & Ht')%list_elem_of_fmap
      by (rewrite Hdirs; apply list_elem_of_fmap; by exists t). left. apply elem_of_take in Ht' as (i & Hi & _).
    rewrite Forall_forall in Hh. apply (Hh t'). by eapply list_elem_of_lookup_2. }
  assert (bk_dir b = bucket_path (bm_dir bm) id) as Hbd.
  { pose proof (ar_buckets _ _ Ha) as Hf. rewrite Forall_forall in Hf. apply (Hf (id, b)). by apply im_get_elem. }
  destruct (drop n (sstables b)) as [|t0 ts0] eqn:Ed.
  - assert (exists fs1, (on_fs (remove_dir_all (bk_dir b)) w).2 = with_fs w fs1 /\ pruned [bk_dir b] (w_fs w) fs1 /\
      Forall (fun t => removable fs1 (t_dir t)) ssts) as (fs1 & E1 & P1 & R1).
    { unfold on_fs, remove_dir_all. case_decide; [|exists (w_fs w); split; [done|]; split; [apply pruned_refl|done]].
      exists (prune (bk_dir b) (w_fs w)). split; [done|]. split; [apply pruned_prune|]. eapply Forall_impl; [exact Hrm|]. intros t. apply removable_prune. }
    destruct (delete_sst_dirs_run ssts (with_fs w fs1) R1) as (fs' & E2 & P2).
    destruct (shrunk_remove l id b Hnd Hgl) as [Hs Hperm].
    assert (take n (sstables b) = sstables b) as Etake by (rewrite <- (take_drop n (sstables b)) at 2; by rewrite Ed, app_nil_r).
    rewrite Etake in Hdirs.
    destruct (arranged_drop w (bm_dir bm) l _ kr tabs (sstables b) ssts id true fs' Ha Hs Hperm Hdirs Hh) as [Ha' Hp'].
    { intros _ i b0 [_ Hne]%shift_remove_elem; done. }
    { eapply pruned_app; [|exact P2]. by rewrite <- Hbd. }
    exists bm, [id], fs1, fs'. split; [by rewrite E1|]. split; [done|]. split; [done|]. split; [done|]. split; [by intros i ->%list_elem_of_singleton|].
    split; [eexists; by eapply pruned_app|]. unfold removes. rewrite fold_left_app. by split.
  - pose proof (bw_named _ _ (ar_wf _ _ Ha)) as Hnm. unfold bm_tables, files_named in Hnm. cbn in Hnm. rewrite (all_tables_get _ _ _ Hgl), Forall_app in Hnm.
    destruct Hnm as [Hnm _]. rewrite <- (take_drop n (sstables b)), Ed, Forall_app in Hnm. destruct Hnm as [_ Hnm].
    destruct (delete_sst_dirs_run ssts w Hrm) as (fs' & E2 & P2).
    set (b' := mkBucket (bk_id b) (bk_dir b) (average_len (w_fs w) (t0 :: ts0) * zlen (t0 :: ts0)) (average_len (w_fs w) (t0 :: ts0)) (t0 :: ts0)).
    destruct (shrunk_drop l id b b' n Hnd Hgl eq_refl eq_refl (eq_sym Ed)) as [Hs Hperm].
    destruct (arranged_drop w (bm_dir bm) l _ kr tabs (take n (sstables b)) ssts id false fs' Ha Hs Hperm Hdirs) as [Ha' Hp'].
    { by apply Forall_take. }
    { done. }
    { exact P2. }
    exists (mkBucketMap (bm_dir bm) (im_insert id b' (buckets bm))), [], (w_fs w), fs'. rewrite with_fs_id, app_nil_r. cbn [buckets bm_dir].
    rewrite (removes_insert gone id b' (buckets bm) Hid). split; [by run (cal_average_size_named w (t0 :: ts0) Hnm)|]. split; [done|]. split; [done|].
    split; [intros i Hi; by rewrite im_get_insert, decide_False|]. split; [by intros i ?%not_elem_of_nil|].
    split; [by eexists|]. by split.
Qed.

Lemma delete_loop_run rm bm w gone kr tabs :
  arranged (mkDb w (mkBucketMap (bm_dir bm) (removes gone (buckets bm))) kr) tabs -> NoDup rm.*1 -> (forall id, id ∈ rm.*1 -> id ∉ gone) ->
  Forall (fun q => exists b rest, im_get q.1 (buckets bm) = Some b /\ cool <$> sstables b = (cool <$> q.2) ++ rest) rm ->
  exists bm' dead fs', delete_loop bm rm w = (Ok (bm', dead, true), with_fs w fs') /\ bm_dir bm' = bm_dir bm /\ (exists ps, pruned ps (w_fs w) fs') /\
    arranged (mkDb (with_fs w fs') (mkBucketMap (bm_dir bm) (removes (gone ++ dead) (buckets bm'))) kr) tabs /\
    t_dir <$> all_tables (removes gone (buckets bm)) ≡ₚ
      (t_dir <$> mjoin rm.*2) ++ (t_dir <$> all_tables (removes (gone ++ dead) (buckets bm'))) /\
    (forall t, t ∈ all_tables (removes (gone ++ dead) (buckets bm')) -> t ∈ all_tables (removes gone (buckets bm))).
Proof.
  revert bm w gone. induction rm as [|[id ssts] rm IH]; intros bm w gone Ha Hnd Hng Hrm.
  { exists bm, [], (w_fs w). rewrite with_fs_id, app_nil_r. do 2 (split; [done|]). split; [exists []; apply pruned_refl|done]. }
  apply Forall_cons in Hrm as [(b & rest & Hg & Hc) Hrm]. rewrite fmap_cons in Hnd, Hng. apply NoDup_cons in Hnd as [Hni Hnd]. cbn [fst snd] in *.
  destruct (delete_step_run w bm gone kr tabs id ssts b rest Ha (Hng id ltac:(by left)) Hg Hc)
    as (bm1 & dead & fs1 & fs2 & E1 & E2 & Ed & Hget & Hdead & (ps1 & Hps1) & Ha1 & Hp1 & Hs1). rewrite <- Ed in Ha1.
  destruct (IH bm1 (with_fs w fs2) (gone ++ dead) Ha1 Hnd) as (bm' & dead' & fs' & E3 & Ed' & (ps2 & Hps2) & Ha' & Hp' & Hs').
  - intros i Hi. rewrite not_elem_of_app. split; [apply Hng; by right|]. intros ->%Hdead. done.
  - rewrite Forall_forall in Hrm. apply Forall_forall. intros q Hq. destruct (Hrm q Hq) as (b0 & rest0 & Hg0 & Hc0). exists b0, rest0. split; [|done]. rewrite Hget; [done|]. intros E. apply Hni. rewrite <- E.
    apply list_elem_of_fmap. by exists q.
  - exists bm', (dead ++ dead'), fs'. split; [|split; [by rewrite Ed'|split; [eexists; by eapply pruned_app|]]].
    + cbn [delete_loop]. rewrite Hg. run E1. run E2. by run E3.
    + rewrite app_assoc. rewrite Ed in Ha'. split; [exact Ha'|]. split; [|intros t Ht; by apply Hs1, Hs'].
      rewrite Hp1, Hp', fmap_cons. cbn. by rewrite fmap_app, app_assoc.
Qed.

(** *** The index *)
Lemma index_delete (kr : gmap (list string) Range) p tabs :
  (forall q r, kr !! q = Some r -> t_dir (r_sst r) = q) -> tabs.*1 = (hm_iter kr).*2 ->
  exists tabs', tabs' ≡ₚ filter (fun x => dir_of x <> p) tabs /\ tabs'.*1 = (hm_iter (delete p kr)).*2.
Proof.
  intros Hk Hx.
  assert ((filter (fun x => dir_of x <> p) tabs).*1 ≡ₚ (hm_iter (delete p kr)).*2) as Hp.
  { transitivity (filter (fun r => t_dir (r_sst r) <> p) tabs.*1).
    - apply Permutation_refl'. clear. induction tabs as [|x tabs IH]; [done|]. rewrite fmap_cons, !filter_cons. unfold dir_of in *.
      destruct (decide (t_dir (r_sst x.1) <> p)); [cbn; by f_equal|done].
    - rewrite Hx. unfold hm_iter. rewrite !hash_iter_perm. destruct (kr !! p) as [r|] eqn:E.
      + rewrite <- (map_to_list_delete kr p r E), fmap_cons, filter_cons. cbn [snd]. rewrite decide_False by (intros Hn; apply Hn; by apply Hk).
        apply Permutation_refl', filter_true. intros r' ([q r''] & -> & Hin%elem_of_map_to_list)%list_elem_of_fmap. cbn.
        apply lookup_delete_Some in Hin as [Hne Hin]. rewrite (Hk _ _ Hin). congruence.
      + rewrite delete_id by done. apply Permutation_refl', filter_true. intros r' ([q r''] & -> & Hin%elem_of_map_to_list)%list_elem_of_fmap. cbn.
        rewrite (Hk _ _ Hin). congruence. }
  symmetry in Hp. apply (Permutation_map_inv fst (l1 := (hm_iter (delete p kr)).*2)) in Hp as (tabs' & E & P). by exists tabs'.
Qed.

Lemma remove_ranges_run (ts : list Table) d tabs :
  (forall q r, key_ranges (db_ranges d) !! q = Some r -> t_dir (r_sst r) = q) -> tabs.*1 = (hm_iter (key_ranges (db_ranges d))).*2 ->
  exists kr' tabs', io_for ts (fun s => db_remove_range (t_dir s)) d = (Ok tt, mkDb (db_world d) (db_buckets d) kr') /\
    restored_ranges kr' = restored_ranges (db_ranges d) /\
    (forall q, key_ranges kr' !! q = if decide (q ∈ t_dir <$> ts) then None else key_ranges (db_ranges d) !! q) /\
    tabs' ≡ₚ filter (fun x => dir_of x ∉ t_dir <$> ts) tabs /\ tabs'.*1 = (hm_iter (key_ranges kr')).*2.
Proof.
  revert d tabs. induction ts as [|t ts IH]; intros d tabs Hk Hx.
  { exists (db_ranges d), tabs. split; [by destruct d|]. split; [done|]. split; [intros q; by rewrite decide_False by apply not_elem_of_nil|].
    split; [|done]. symmetry. apply Permutation_refl', filter_true. intros x _. apply not_elem_of_nil. }
  destruct (index_delete _ (t_dir t) tabs Hk Hx) as (tabs1 & P1 & X1). cbn [io_for]. erewrite io_step by reflexivity.
  destruct (IH (mkDb (db_world d) (db_buckets d) (key_range_remove (db_ranges d) (t_dir t)).1) tabs1) as (kr' & tabs' & E & R & G & P & X).
  - intros q r. cbn. intros [_ Hq]%lookup_delete_Some. by apply Hk.
  - exact X1.
  - exists kr', tabs'. split; [exact E|]. split; [exact R|]. split; [|split; [|exact X]].
    + intros q. rewrite G, fmap_cons. cbn [key_range_remove key_ranges db_ranges fst]. destruct (decide (q ∈ t_dir <$> ts)); [by rewrite decide_True by (by right)|].
      destruct (decide (q = t_dir t)) as [->|Hne]; [rewrite decide_True by (by left); by rewrite lookup_delete_eq|].
      rewrite decide_False by (by apply not_elem_of_cons). by rewrite lookup_delete_ne.
    + rewrite P, P1, list_filter_filter. erewrite list_filter_iff; [reflexivity|]. intros x. cbn beta. rewrite fmap_cons, not_elem_of_cons. tauto.
Qed.

(** *** Cleaning up *)
Lemma clean_up_run rm d tabs :
  arranged d tabs -> NoDup rm.*1 ->
  Forall (fun q => exists b rest, im_get q.1 (buckets (db_buckets d)) = Some b /\ cool <$> sstables b = (cool <$> q.2) ++ rest) rm ->
  exists d' tabs' ps fs', clean_up_after_compaction rm d = (Ok (Some tt), d') /\ db_world d' = with_fs (db_world d) fs' /\
    pruned ps (w_fs (db_world d)) fs' /\ restored_ranges (db_ranges d') = restored_ranges (db_ranges d) /\ arranged d' tabs' /\
    tabs' ≡ₚ filter (fun x => dir_of x ∉ t_dir <$> mjoin rm.*2) tabs /\ (forall t, t ∈ bm_tables (db_buckets d') -> t ∈ bm_tables (db_buckets d)).
Proof.
  intros Ha Hnd Hrm. destruct d as [w [dir l] kr]. cbn [db_world db_buckets db_ranges buckets bm_dir] in *.
  destruct (delete_loop_run rm (mkBucketMap dir l) w [] kr tabs Ha Hnd ltac:(by intros ? _ ?%not_elem_of_nil) Hrm) as (bm' & dead & fs' & E & Ed & (ps & Hps) & Ha' & Hp & Hsub).
  cbn [app bm_dir buckets removes fold_left] in *.
  destruct (remove_ranges_run (mjoin rm.*2) (mkDb (with_fs w fs') (mkBucketMap dir (removes dead (buckets bm'))) kr) tabs)
    as (kr' & tabs' & E2 & R & G & P & X); [apply Ha'|apply Ha'|].
  eexists _, tabs', ps, fs'. split.
  { assert (delete_ssts (mkBucketMap dir l) rm w = (Ok (mkBucketMap dir (removes dead (buckets bm')), true), with_fs w fs')) as E1.
    { unfold delete_ssts. run E. cbn beta iota. by rewrite Ed. }
    unfold clean_up_after_compaction. cbn [db_buckets db_world db_ranges]. rewrite E1. by run E2. }
  split; [done|]. split; [done|]. split; [done|]. split; [|by split]. destruct Ha' as [A1 A2 A3 A4 A5 A6 A7 A8 A9 A10].
  split; cbn [db_world db_buckets db_ranges] in *; try done.
  - destruct A3 as [F1 F2 F3]. split; [exact F1| |exact F3]. intros n q Hn. cbn [db_ranges]. rewrite G. case_decide; [by intros []|]. by apply F2.
  - intros q r. rewrite G. case_decide; [done|]. apply A7.
  - intros t Ht. destruct (A8 t Ht) as (x & Hx & Hi). exists x. split; [|done]. rewrite P. apply list_elem_of_filter. split; [|done]. rewrite (ix_dir _ _ Hi).
    pose proof (ar_dirs _ _ Ha) as Hdirs. unfold bm_tables in Hdirs. cbn in Hdirs. rewrite Hp in Hdirs. apply NoDup_app in Hdirs as (_ & Hne & _).
    intros Hin. apply (Hne _ Hin). apply list_elem_of_fmap. by exists t.
  - rewrite Forall_forall in A9. apply Forall_forall. intros x. rewrite P. intros [_ Hx]%list_elem_of_filter. by apply A9.
Qed.

(** ** Inserting a merged table *)

(** What was there in [w0] is still there. *)
Record since (w0 w : W) : Prop := {
  sn_maps l : (l < w_next w0)%nat -> the_map w l = the_map w0 l;
  sn_bits l : (l < w_next w0)%nat -> the_bits w l = the_bits w0 l;
  sn_content j : (j < next_inode (w_fs w0))%nat -> content (w_fs w) j = content (w_fs w0) j;
  sn_next : (w_next w0 <= w_next w)%nat;
  sn_inodes : (next_inode (w_fs w0) <= next_inode (w_fs w))%nat;
}.

Lemma since_grown w0 w : grown w0 w -> since w0 w.
Proof. intros [G1 G2 G3 G4]. split; rewrite ?G1; done. Qed.

Lemma since_pruned w0 w ps fs' : since w0 w -> pruned ps (w_fs w) fs' -> since w0 (with_fs w fs').
Proof. intros [S1 S2 S3 S4 S5] Hp. split; cbn; rewrite ?(pr_next _ _ _ Hp); try done. intros j Hj. unfold content. rewrite (pr_inodes _ _ _ Hp). by apply S3. Qed.

(** A table that was made after [w0] *)
Record new_tab (w0 : W) (p : Range * M SkipMapValue) : Prop := {
  nt_files : (next_inode (w_fs w0) <= file (data_file (r_sst p.1)) /\ next_inode (w_fs w0) <= file (index_file (r_sst p.1)))%nat;
  nt_filter f : t_filter (r_sst p.1) = Some f -> (w_next w0 <= bit_vec f)%nat;
}.

Lemma arranged_can_insert d tabs : arranged d tabs -> (w_ticks (db_world d) + 2 <= B)%nat -> can_insert d.
Proof.
  intros Ha HB. pose proof (ar_bound _ _ Ha). apply fresh_can_insert; [apply Ha|apply (ar_ids _ _ Ha); lia|].
  eapply fresh_dirs_shorter, Ha. lia.
Qed.

Lemma housed_cool w root id t : housed w root id (cool t) <-> housed w root id t.
Proof. split; intros []; by split. Qed.

(** The bucket map after an insertion *)
Definition appended (bm bm' : BucketMap) : Prop :=
  forall id b, im_get id (buckets bm) = Some b ->
    exists b' rest, im_get id (buckets bm') = Some b' /\ cool <$> sstables b' = (cool <$> sstables b) ++ rest.

Lemma appended_trans bm1 bm2 bm3 : appended bm1 bm2 -> appended bm2 bm3 -> appended bm1 bm3.
Proof.
  intros A1 A2 id b (b2 & r2 & H2 & E2)%A1. destruct (A2 id b2 H2) as (b3 & r3 & H3 & E3). exists b3, (r2 ++ r3).
  split; [done|]. by rewrite E3, E2, app_assoc.
Qed.

(** *** One insertion *)
Section insertion.
Variables (d : D) (tabs : list (Range * M SkipMapValue)) (l : nat) (f : BloomFilter) (sst : Table) (bm' : BucketMap) (w' : W) (lo hi : list byte).
Hypothesis Horder : orderly_env N.
Hypothesis Harr : arranged d tabs.
Hypothesis Hticks : (w_ticks (db_world d) + 2 <= B)%nat.
Hypothesis Hl : (l < w_next (db_world d))%nat.
Abbreviation m := (the_map (db_world d) l).
Hypothesis Hins : inserted (db_world d) (db_buckets d) l f m sst bm' w'.
Abbreviation r := (mkRangeEntry lo hi sst).
Abbreviation w1 := (put_map w' l sm_new).
Abbreviation kr' := (mkKeyRange (<[t_dir sst := r]> (key_ranges (db_ranges d))) (restored_ranges (db_ranges d))).

Lemma insertion_place :
  exists id b', made_table (db_world d) w' (t_dir sst) l f m sst /\ bm' = mkBucketMap (bm_dir (db_buckets d)) (im_insert id b' (buckets (db_buckets d))) /\
    bk_dir b' = bucket_path (bm_dir (db_buckets d)) id /\ (exists n, t_dir sst = bucket_path (bm_dir (db_buckets d)) id ++ [sst_dir_name (clock n)] /\
      (n = w_ticks (db_world d) \/ n = S (w_ticks (db_world d)))) /\
    cool <$> sstables b' = (cool <$> default [] (sstables <$> im_get id (buckets (db_buckets d)))) ++ [cool sst].
Proof.
  destruct (is_place _ _ _ _ _ _ _ _ Hins) as (p & n & id & b' & Hmd & Hn & _ & Hp & -> & _ & Hd & Hc). exists id, b'.
  assert (p = bucket_path (bm_dir (db_buckets d)) id) as ->.
  { destruct Hp as [(b & Hg & ->)|(_ & _ & ->)]; [|done]. pose proof (ar_buckets _ _ Harr) as Hb. rewrite Forall_forall in Hb.
    apply (Hb (id, b)). by apply im_get_elem. }
  rewrite (md_dir _ _ _ _ _ _ _ Hmd). split; [done|]. split; [done|]. split; [done|]. split; [by exists n|done].
Qed.

Lemma insertion_made : made_table (db_world d) w' (t_dir sst) l f m sst.
Proof. by destruct insertion_place as (id & b' & Hmd & _). Qed.

Lemma insertion_fresh : (t_dir sst ∉ dirs (w_fs (db_world d))) /\ key_ranges (db_ranges d) !! t_dir sst = None.
Proof.
  clear -Harr Hticks Hins. assert (fresh_dirs (2 + w_ticks (db_world d)) d) as Hfr by (eapply fresh_dirs_shorter, Harr; lia). split; [|by eapply insert_new_range].
  destruct insertion_place as (id & b' & _ & _ & _ & (n & E & Hn) & _). rewrite E. apply path_exists_false. eapply name_free_path, (fn_free _ _ Hfr n). lia.
Qed.

Lemma insertion_appended : appended (db_buckets d) bm'.
Proof.
  destruct insertion_place as (id & b' & _ & -> & _ & _ & Hc). intros i b Hg. cbn [buckets]. rewrite im_get_insert. case_decide as E.
  - subst i. exists b', [cool sst]. split; [done|]. by rewrite Hc, Hg.
  - exists b, []. split; [done|]. by rewrite app_nil_r.
Qed.

Lemma insertion_housed root id t : housed (db_world d) root id t -> housed w1 root id t.
Proof.
  intros [S1 S2 S3 S4]. pose proof (md_next _ _ _ _ _ _ _ insertion_made). split; try done; cbn.
  - apply (md_dirs _ _ _ _ _ _ _ insertion_made). by left.
  - lia.
Qed.

Lemma insertion_kept p : kept_tab (db_world d) p -> kept_tab w1 p.
Proof.
  intros [T1 [T2 T3]]. pose proof insertion_made as Hmd. pose proof (md_inodes _ _ _ _ _ _ _ Hmd). split.
  - apply table_holds_put_map. eapply table_holds_frame; [exact T1|done|done|..]; by apply Hmd.
  - cbn. lia.
Qed.

Lemma insertion_hot p : hot_tab (db_world d) p -> hot_tab w1 p.
Proof.
  intros [T1 T2 T3]. pose proof insertion_made as Hmd. pose proof (md_next _ _ _ _ _ _ _ Hmd). split; [| |done].
  - destruct T1 as (g & q & Hg & Hq & Hp & Ha). exists g, q.
    assert (the_bits w1 (bit_vec g) = the_bits (db_world d) (bit_vec g)) as -> by exact (md_bits _ _ _ _ _ _ _ Hmd _). done.
  - intros g Hg. cbn. specialize (T2 g Hg). lia.
Qed.

Lemma insertion_arranged : exists tabs', tabs' ≡ₚ (r, m) :: tabs /\ arranged (mkDb w1 bm' kr') tabs'.
Proof.
  destruct insertion_fresh as [Hnew Hnone]. destruct (index_insert _ (t_dir sst) r tabs m Hnone (ar_index _ _ Harr)) as (tabs' & P & X).
  exists tabs'. split; [done|]. pose proof insertion_made as Hmd. pose proof (is_tables _ _ _ _ _ _ _ _ Hins) as Hperm.
  destruct insertion_place as (id & b' & _ & Ebm & Hbd & (n0 & Edir & _) & Hc). pose proof (is_ticks _ _ _ _ _ _ _ _ Hins) as Htk.
  assert (forall t, t ∈ bm_tables bm' -> t_dir t = t_dir sst /\ data_file t = data_file sst /\ index_file t = index_file sst \/
    exists t0, t0 ∈ bm_tables (db_buckets d) /\ t_dir t = t_dir t0 /\ data_file t = data_file t0 /\ index_file t = index_file t0) as Hel.
  { intros t Ht. assert (cool t ∈ cool <$> bm_tables bm') as Hin by (apply list_elem_of_fmap; by exists t). rewrite Hperm in Hin.
    apply elem_of_cons in Hin as [[=]|(t0 & [=] & Ht0)%list_elem_of_fmap]; [by left|right; by exists t0]. }
  assert (t_dir <$> bm_tables bm' ≡ₚ t_dir sst :: (t_dir <$> bm_tables (db_buckets d))) as Hdirs.
  { assert (forall l, t_dir <$> l = t_dir <$> (cool <$> l)) as Ec by (intros; by rewrite <- list_fmap_compose).
    by rewrite (Ec (bm_tables bm')), Hperm, fmap_cons, <- Ec. }
  split; cbn [db_world db_buckets db_ranges key_ranges]; try done.
  - by destruct (is_wf _ _ _ _ _ _ _ _ Hins).
  - intros n Hn. cbn in Hn. apply (is_ids _ _ _ _ _ _ _ _ Hins); [apply (ar_ids _ _ Harr); lia|]. apply (env_uuids _ Horder). lia.
  - eapply fresh_dirs_insert; [exact Hins|apply Harr].
  - rewrite Ebm. cbn [buckets bm_dir]. apply im_insert_Forall.
    + cbn. split; [done|]. apply Forall_cool; [intros; apply housed_cool|]. rewrite Hc. apply Forall_app. split.
      * destruct (im_get id _) as [b|] eqn:Eg; [|by apply Forall_nil]. cbn. apply Forall_fmap. apply im_get_elem in Eg.
        apply Forall_forall. intros t Ht. apply housed_cool, insertion_housed. exact (housed_elem _ _ _ _ _ Harr Eg Ht).
      * apply Forall_singleton, housed_cool. split; cbn.
        -- by eexists.
        -- apply Hmd.
        -- apply Hmd.
        -- rewrite (md_entries _ _ _ _ _ _ _ Hmd). pose proof (md_next _ _ _ _ _ _ _ Hmd). lia.
    + eapply Forall_impl; [apply (ar_buckets _ _ Harr)|]. intros q [Q1 Q2]. split; [done|]. eapply Forall_impl; [exact Q2|]. intros t. apply insertion_housed.
  - rewrite Hdirs. apply NoDup_cons. split; [|apply Harr]. intros (t & E & Ht)%list_elem_of_fmap. apply Hnew. rewrite E.
    apply all_tables_elem in Ht as (i & b & Hb & Ht). apply (housed_elem _ _ _ _ _ Harr Hb Ht).
  - intros q r'. destruct (decide (q = t_dir sst)) as [->|Hne]; [rewrite lookup_insert_eq; by intros [= <-]|]. rewrite lookup_insert_ne by done. apply Harr.
  - intros t Ht. destruct (Hel t Ht) as [(E1 & E2 & E3)|(t0 & Ht0 & E1 & E2 & E3)].
    + exists (r, m). split; [rewrite P; by left|]. by split.
    + destruct (ar_linked _ _ Harr t0 Ht0) as (p & Hp & [I1 I2 I3]). exists p. split; [rewrite P; by right|]. split; [by rewrite E1|by rewrite E2|by rewrite E3].
  - rewrite P. apply Forall_cons. split; [|eapply Forall_impl; [apply (ar_tabs _ _ Harr)|]; intros p; apply insertion_kept].
    pose proof (wf_inode _ (md_wf _ _ _ _ _ _ _ Hmd) _ _ (md_named _ _ _ _ _ _ _ Hmd)). split; cbn.
    + apply table_holds_put_map, Hmd.
    + split; [done|apply Hmd].
  - apply (ar_bound _ _ Harr).
Qed.

Lemma insertion_primed tabs' :
  (lo, hi) = bounds_of m -> probing_ok (no_of_hash_func f) (the_bits (db_world d) (bit_vec f)) ->
  (forall k, is_Some (sm_get k m) -> admits (no_of_hash_func f) (the_bits (db_world d) (bit_vec f)) k) ->
  (bit_vec f < w_next (db_world d))%nat -> no_tombstones m -> tabs' ≡ₚ (r, m) :: tabs -> primed d tabs -> primed (mkDb w1 bm' kr') tabs'.
Proof.
  intros Hbounds Hprobe Hadmits Hbits Hno P [P1 P2]. pose proof insertion_made as Hmd. split; cbn [db_world db_buckets].
  - rewrite P. apply Forall_cons. split; [|eapply Forall_impl; [exact P1|]; intros p; apply insertion_hot]. split; cbn.
    + by eapply made_range_live.
    + intros g Hg. destruct (md_filter _ _ _ _ _ _ _ Hmd) as (g' & Hg' & Eb & _). cbn in Hg. assert (g = g') as -> by congruence. rewrite Eb.
      pose proof (md_next _ _ _ _ _ _ _ Hmd). cbn. lia.
    + done.
  - intros t Ht. assert (cool t ∈ cool <$> bm_tables bm') as Hin by (apply list_elem_of_fmap; by exists t). rewrite (is_tables _ _ _ _ _ _ _ _ Hins) in Hin.
    rewrite the_map_put. case_decide as E; [apply sm_iter_new|].
    apply elem_of_cons in Hin as [[=]|(t0 & [=] & Ht0)%list_elem_of_fmap]; [destruct E; by rewrite <- (md_entries _ _ _ _ _ _ _ Hmd)|].
    replace (t_entries t) with (t_entries t0) in * by congruence. rewrite (md_map _ _ _ _ _ _ _ Hmd); [by apply P2|].
    apply all_tables_elem in Ht0 as (i & b & Hb & Ht0). apply (housed_elem _ _ _ _ _ Harr Hb Ht0).
Qed.

Lemma insertion_since w0 : since w0 (db_world d) -> (w_next w0 <= l)%nat -> since w0 w1.
Proof.
  clear -Harr Hins. intros [S1 S2 S3 S4 S5] L. pose proof insertion_made as Hmd. pose proof (md_next _ _ _ _ _ _ _ Hmd). pose proof (md_inodes _ _ _ _ _ _ _ Hmd).
  split; cbn; [..|lia|lia].
  - intros l' Hl'. rewrite the_map_put, decide_False by lia. rewrite (md_map _ _ _ _ _ _ _ Hmd) by lia. by apply S1.
  - intros l' Hl'. change (the_bits w' l' = the_bits w0 l'). rewrite (md_bits _ _ _ _ _ _ _ Hmd). by apply S2.
  - intros j Hj. rewrite (md_content _ _ _ _ _ _ _ Hmd) by lia. by apply S3.
Qed.

Lemma insertion_new w0 : since w0 (db_world d) -> (w_next w0 <= bit_vec f)%nat -> new_tab w0 (r, m).
Proof.
  clear -Harr Hins. intros [_ _ _ _ S5] L. pose proof insertion_made as Hmd. pose proof (md_new_inode _ _ _ _ _ _ _ Hmd). pose proof (md_new_index _ _ _ _ _ _ _ Hmd).
  split; cbn; [lia|]. intros g Hg. destruct (md_filter _ _ _ _ _ _ _ Hmd) as (g' & Hg' & Eb & _). assert (g = g') as -> by congruence. by rewrite Eb.
Qed.
End insertion.

(** *** Every merged table *)
Lemma insert_one_run w0 d tabs ms x :
  let l := get_entries (ms_sstable x) in
  orderly_env N -> arranged d tabs -> since w0 (db_world d) -> (w_ticks (db_world d) + 4 <= B)%nat ->
  merged_bucket w0 (db_world d) ms x -> Forall no_tombstones ms -> primed d tabs ->
  exists sst d1 d' p tabs',
    (table ← on_world (ti_from l (ms_filter x)); db_insert table) d = (Ok sst, d1) /\ publish sst d1 = (Ok tt, d') /\
    arranged d' tabs' /\ primed d' tabs' /\ tabs' ≡ₚ p :: tabs /\ merges ms p.2 /\ new_tab w0 p /\ since w0 (db_world d') /\
    (w_ticks (db_world d) <= w_ticks (db_world d') <= 3 + w_ticks (db_world d))%nat /\ appended (db_buckets d) (db_buckets d') /\
    restored_ranges (db_ranges d') = restored_ranges (db_ranges d) /\
    (forall ms' x', merged_bucket w0 (db_world d) ms' x' -> get_entries (ms_sstable x') <> l -> merged_bucket w0 (db_world d') ms' x').
Proof.
  intros l Ho Ha Hs HN [L Hm Hst Lf Hp Had] Hno Hpr. set (f := ms_filter x). pose proof (merges_live _ _ Hm Hno) as Hlive.
  fold l in L, Hm, Hst, Had, Hlive. clearbody l. set (ti := mkTI l (entries_byte_size (the_map (db_world d) l)) f).
  assert (on_world (ti_from l f) d = (Ok ti, d)) as E0 by by destruct d.
  destruct (db_insert_run ti f d (arranged_can_insert _ _ Ha ltac:(lia))) as (sst & bm' & w' & E & Hins); [done|exact (proj2 L)|exact Hst|].
  cbn [get_entries insertor_insertable ti_entries ti] in *.
  pose proof (insertion_made d tabs l f sst bm' w' Ha Hins) as Hmd. pose proof (is_ticks _ _ _ _ _ _ _ _ Hins) as Htk.
  destruct (md_summary _ _ _ _ _ _ _ Hmd) as (sm & Hsm & Hb). destruct (md_filter _ _ _ _ _ _ _ Hmd) as (g & Hg & Hgb & _).
  destruct (insertion_arranged d tabs l f sst bm' w' (smallest_key sm) (biggest_key sm)) as (tabs' & P & Ha'); try done; try lia.
  pose proof (md_next _ _ _ _ _ _ _ Hmd) as Hn. pose proof (md_inodes _ _ _ _ _ _ _ Hmd).
  exists sst. eexists _, _, _, tabs'. split; [run E0; exact E|]. split; [unfold publish; rewrite Hsm, Hg, (md_entries _ _ _ _ _ _ _ Hmd); reflexivity|].
  split; [exact Ha'|]. split; [apply (insertion_primed d tabs l f sst bm' w' (smallest_key sm) (biggest_key sm)); try done; (apply Lf || apply L || lia)|].
  split; [exact P|]. split; [done|]. split; [eapply insertion_new; [exact Ha|exact Hins|exact Hs|apply Lf]|].
  split; [eapply insertion_since; [exact Ha|exact Hins|exact Hs|apply L]|]. split; [cbn; lia|]. split; [|split; [done|]].
  - exact (insertion_appended d tabs l f sst bm' w' Ha Hins).
  - intros ms' x' [L' Hm' Hst' Lf' Hp' Had'] Hne. cbn [db_world].
    assert (the_map (put_map w' l sm_new) (get_entries (ms_sstable x')) = the_map (db_world d) (get_entries (ms_sstable x'))) as Em
      by (rewrite the_map_put, decide_False by done; apply (md_map _ _ _ _ _ _ _ Hmd), L').
    assert (the_bits (put_map w' l sm_new) (bit_vec (ms_filter x')) = the_bits (db_world d) (bit_vec (ms_filter x'))) as Eb by exact (md_bits _ _ _ _ _ _ _ Hmd _).
    split; rewrite ?Em, ?Eb; try done; cbn [put_map w_next]; lia.
Qed.

Lemma insert_merged_run w0 merged mss d tabs tr :
  orderly_env N -> arranged d tabs -> since w0 (db_world d) -> (w_ticks (db_world d) + 3 * length merged + 1 <= B)%nat ->
  Forall2 (merged_bucket w0 (db_world d)) mss merged -> NoDup ((fun x => get_entries (ms_sstable x)) <$> merged) -> Forall (Forall no_tombstones) mss ->
  primed d tabs -> exists d' tabs' news, insert_merged merged tr d = (Ok (mkTracker (actual tr + zlen merged) (expected tr)), d') /\
    arranged d' tabs' /\ primed d' tabs' /\ tabs' ≡ₚ news ++ tabs /\ Forall2 (fun ms p => merges ms p.2 /\ new_tab w0 p) mss news /\ since w0 (db_world d') /\
    (w_ticks (db_world d) <= w_ticks (db_world d') <= 3 * length merged + w_ticks (db_world d))%nat /\
    appended (db_buckets d) (db_buckets d') /\ restored_ranges (db_ranges d') = restored_ranges (db_ranges d).
Proof.
  intros Ho. revert mss d tabs tr. induction merged as [|x merged IH]; intros mss d tabs tr Ha Hs HN Hf Hnd Hno Hpr.
  { apply Forall2_nil_inv_r in Hf as ->. exists d, tabs, []. split; [rewrite zlen_nil, Z.add_0_r; by destruct tr|]. do 3 (split; [done|]).
    split; [constructor|]. split; [done|]. split; [lia|]. split; [|done]. intros id b Hg. exists b, []. by rewrite app_nil_r. }
  apply Forall2_cons_inv_r in Hf as (ms & mss' & Hx & Hf & ->). apply Forall_cons in Hno as [Hno1 Hno]. rewrite fmap_cons in Hnd.
  apply NoDup_cons in Hnd as [Hni Hnd]. cbn [length] in HN.
  destruct (insert_one_run w0 d tabs ms x Ho Ha Hs ltac:(lia) Hx Hno1 Hpr) as (sst & d1 & d2 & p & tabs1 & E1 & E2 & Ha2 & Hpr2 & P2 & Hm & Hnt & Hs2 & T2 & Hap & Hr & Hother).
  destruct (IH mss' d2 tabs1 (mkTracker (actual tr + 1) (expected tr)) Ha2 Hs2 ltac:(lia)) as (d' & tabs' & news & E3 & Ha' & Hpr' & P' & Hf' & Hs' & T' & Hap' & Hr'); [|done|done|done|].
  { apply Forall2_same_length_lookup. split; [by eapply Forall2_length|]. intros i ms' x' Hi1 Hi2. apply Hother; [by eapply Forall2_lookup_lr|].
    intros E. apply Hni. rewrite <- E. apply list_elem_of_fmap. exists x'. split; [done|by eapply list_elem_of_lookup_2]. }
  exists d', tabs', (p :: news). split; [|split; [done|split; [done|split; [|split; [by constructor|split; [done|split; [cbn; lia|split; [by eapply appended_trans|congruence]]]]]]]].
  - cbn [insert_merged]. rewrite E1. run E2. rewrite E3, zlen_cons. cbn [actual expected]. by rewrite <- Z.add_assoc.
  - rewrite P', P2. cbn. by rewrite Permutation_middle.
Qed.

(** *** Flushing keeps the tables in their places *)
Lemma flush_arranged t d tabs :
  let m := the_map (db_world d) (mt_entries t) in
  orderly_env N -> arranged d tabs -> (w_ticks (db_world d) + 2 <= B)%nat -> (mt_entries t < w_next (db_world d))%nat ->
  (bit_vec (bloom_filter t) < w_next (db_world d))%nat -> mem_inv (db_world d) t -> storable m ->
  exists d' r tabs', flush t d = (Ok tt, d') /\ arranged d' tabs' /\ (no_tombstones m -> primed d tabs -> primed d' tabs') /\
    tabs' ≡ₚ (r, m) :: tabs /\ (t_dir (r_sst r) ∉ dirs (w_fs (db_world d))) /\
    (w_ticks (db_world d) <= w_ticks (db_world d') <= 3 + w_ticks (db_world d))%nat /\ restored_ranges (db_ranges d') = restored_ranges (db_ranges d) /\
    forall w0, since w0 (db_world d) -> (w_next w0 <= mt_entries t)%nat -> (w_next w0 <= bit_vec (bloom_filter t))%nat -> since w0 (db_world d') /\ new_tab w0 (r, m).
Proof.
  intros m Ho Ha HN Hl Hlf [Hp Had] Hst.
  destruct (flush_run t d (arranged_can_insert _ _ Ha HN) Hl Hst) as (sst & bm' & w' & sm & E & Hins & Hb).
  pose proof (insertion_made d tabs _ _ sst bm' w' Ha Hins) as Hmd. pose proof (is_ticks _ _ _ _ _ _ _ _ Hins) as Htk.
  destruct (insertion_arranged d tabs (mt_entries t) (bloom_filter t) sst bm' w' (smallest_key sm) (biggest_key sm)) as (tabs' & P & Ha'); try done.
  eexists _, _, tabs'. split; [exact E|]. split; [exact Ha'|].
  split; [intros Hno; by eapply (insertion_primed d tabs _ (bloom_filter t) sst bm' w')|]. split; [exact P|].
  split; [exact (proj1 (insertion_fresh d tabs _ _ sst bm' w' Ha HN Hins))|]. split; [cbn; lia|]. split; [done|].
  intros w0 Hs L1 L2. split; [eapply insertion_since; [exact Ha|exact Hins|exact Hs|exact L1]|eapply insertion_new; [exact Ha|exact Hins|exact Hs|exact L2]].
Qed.

Lemma arranged_NoDup d tabs : arranged d tabs -> NoDup (dir_of (M := M) <$> tabs).
Proof.
  intros Ha. apply (indexed_NoDup (db_world d) (mkKeyRange (key_ranges (db_ranges d)) ∅)). split; [apply Ha|apply Ha|].
  intros q r. cbn. by rewrite lookup_empty.
Qed.
End arranged.

(** ** The whole round *)
Section round.
Context `{Env} {M : Type -> Type} `{SkipMap M} (N B : nat) (cfg : CompactConfig).
Abbreviation W := (World M).
Abbreviation D := (Db M).
Abbreviation Tabs := (list (Range * M SkipMapValue)).
Implicit Types (w : W) (d : D) (tabs ps news : Tabs).

(** The indexed tables behind the tables of a bucket after the first *)
Definition sources tabs (q : string * Bucket) ps : Prop := Forall2 (fun t p => p ∈ tabs /\ indexes p t) (tail (chosen q.2)) ps.

(** The directories a round removes *)
Definition gone_dirs (bm : BucketMap) : list (list string) := t_dir <$> mjoin ((fun q => chosen q.2) <$> imbalanced (buckets bm)).

Definition total_weight tabs : nat := sum_list_with (fun p => weight p.2) tabs.

Lemma imbalanced_elem q l : q ∈ imbalanced l -> q ∈ l /\ sstable_count_exceeds_threshhold q.2 = true.
Proof. unfold imbalanced. rewrite !list_elem_of_In. apply filter_In. Qed.

Lemma chosen_elem bm q t : q ∈ imbalanced (buckets bm) -> t ∈ chosen q.2 -> t ∈ sstables q.2 /\ t ∈ bm_tables bm.
Proof.
  intros [Hq _]%imbalanced_elem Ht. assert (t ∈ sstables q.2) as Ht' by (eapply elem_of_sublist; [exact Ht|apply sublist_take]).
  split; [done|]. apply all_tables_elem. exists q.1, q.2. split; [by destruct q|done].
Qed.

Lemma sources_exist d tabs q : arranged N B d tabs -> q ∈ imbalanced (buckets (db_buckets d)) -> exists ps, sources tabs q ps.
Proof.
  intros Ha Hq. assert (forall t, t ∈ tail (chosen q.2) -> t ∈ bm_tables (db_buckets d)) as Hin.
  { intros t Ht. apply (chosen_elem _ q); [done|]. eapply elem_of_sublist; [exact Ht|apply tail_sublist]. }
  unfold sources. induction (tail (chosen q.2)) as [|t ts IH]; [by exists []|]. destruct IH as [ps Hps]; [intros t' Ht'; apply Hin; by right|].
  destruct (ar_linked _ _ _ _ Ha t (Hin t ltac:(by left))) as (p & Hp & Hi). exists (p :: ps). by constructor.
Qed.

Lemma sources_all d tabs : arranged N B d tabs -> exists pss, Forall2 (sources tabs) (imbalanced (buckets (db_buckets d))) pss.
Proof.
  intros Ha. assert (forall q, q ∈ imbalanced (buckets (db_buckets d)) -> exists ps, sources tabs q ps) as Hs by (intros q; by apply sources_exist).
  induction (imbalanced _) as [|q l IH]; [by exists []|]. destruct IH as [pss Hp]; [intros q' Hq'; apply Hs; by right|].
  destruct (Hs q ltac:(by left)) as [ps Hq]. exists (ps :: pss). by constructor.
Qed.

Lemma sources_dirs tabs q ps : sources tabs q ps -> dir_of (M := M) <$> ps = t_dir <$> tail (chosen q.2).
Proof. induction 1 as [|t p ts ps [_ Hi] _ IH]; [done|]. rewrite !fmap_cons, IH. f_equal. apply Hi. Qed.

(** Tables taken from each merged bucket, at most [chosen] of it *)
Lemma taken_sublist (f : string * Bucket -> list Table) l :
  (forall q, f q `sublist_of` chosen q.2) -> mjoin (f <$> imbalanced l) `sublist_of` all_tables l.
Proof.
  intros Hf. induction l as [|[id b] l IH]; [done|]. unfold imbalanced in *. cbn [List.filter snd]. rewrite all_tables_cons.
  destruct (sstable_count_exceeds_threshhold b); cbn; [|by apply sublist_inserts_l]. apply sublist_app; [|exact IH].
  transitivity (chosen b); [apply (Hf (id, b))|apply sublist_take].
Qed.

(** The sources are distinct tables, all of them removed. *)
Lemma sources_submseteq d tabs pss :
  arranged N B d tabs -> Forall2 (sources tabs) (imbalanced (buckets (db_buckets d))) pss ->
  mjoin pss ⊆+ filter (fun x => dir_of x ∈ gone_dirs (db_buckets d)) tabs.
Proof.
  intros Ha Hf. assert (dir_of (M := M) <$> mjoin pss = t_dir <$> mjoin ((fun q => tail (chosen q.2)) <$> imbalanced (buckets (db_buckets d)))) as Ed.
  { induction Hf as [|q ps l pss Hq _ IH]; [done|].
    change (dir_of (M := M) <$> (ps ++ mjoin pss) = t_dir <$> (tail (chosen q.2) ++ mjoin ((fun q => tail (chosen q.2)) <$> l))).
    by rewrite !fmap_app, IH, (sources_dirs _ _ _ Hq). }
  apply NoDup_submseteq.
  - apply (NoDup_fmap_1 (dir_of (M := M))). rewrite Ed. eapply (sublist_NoDup _ _ (ar_dirs _ _ _ _ Ha)), fmap_sublist, taken_sublist. intros q. apply tail_sublist.
  - intros p Hp. apply list_elem_of_filter. split.
    + assert (dir_of p ∈ dir_of (M := M) <$> mjoin pss) as Hd by (apply list_elem_of_fmap; by exists p). rewrite Ed in Hd.
      apply list_elem_of_fmap in Hd as (t & -> & (ts & Ht & (q & -> & Hq)%list_elem_of_fmap)%list_elem_of_join).
      apply list_elem_of_fmap. exists t. split; [done|]. apply list_elem_of_join. exists (chosen q.2). split; [|apply list_elem_of_fmap; by exists q].
      eapply elem_of_sublist; [exact Ht|]. apply tail_sublist.
    + apply list_elem_of_join in Hp as (ps & Hp & [i Hi]%list_elem_of_lookup). destruct (Forall2_lookup_r _ _ _ _ _ Hf Hi) as (q & _ & Hs).
      apply list_elem_of_lookup in Hp as [j Hj]. by destruct (Forall2_lookup_r _ _ _ _ _ Hs Hj) as (t & _ & [? _]).
Qed.

Lemma gone_elem d tabs p : arranged N B d tabs -> p ∈ gone_dirs (db_buckets d) -> p ∈ dir_of (M := M) <$> tabs.
Proof.
  intros Ha (t & -> & (ts & Ht & (q & -> & Hq)%list_elem_of_fmap)%list_elem_of_join)%list_elem_of_fmap.
  destruct (chosen_elem _ _ _ Hq Ht) as [_ Hin]. destruct (ar_linked _ _ _ _ Ha t Hin) as (x & Hx & Hi). apply list_elem_of_fmap. exists x.
  by rewrite (ix_dir _ _ Hi).
Qed.

Lemma sources_mergeable d tabs q ps w b :
  arranged N B d tabs -> primed d tabs -> w = db_world d -> (Z.of_nat (total_weight tabs) < 2 ^ 32) -> q ∈ imbalanced (buckets (db_buckets d)) -> sources tabs q ps ->
  sstables b = chosen q.2 -> mergeable w b ps.*2.
Proof.
  intros Ha [Hot Hun] -> Hsz Hq Hs Eb. pose proof (ar_tabs _ _ _ _ Ha) as Ht. rewrite Forall_forall in Ht, Hot.
  assert (Forall (fun p => p ∈ tabs) ps) as Hin.
  { apply Forall_forall. intros p [j Hj]%list_elem_of_lookup. by destruct (Forall2_lookup_r _ _ _ _ _ Hs Hj) as (t & _ & [? _]). }
  split.
  - destruct (imbalanced_elem _ _ Hq) as [Hq' Hc%exceeds_length]. destruct (chosen q.2) as [|t1 ts] eqn:Ec; [cbn in Hc; lia|]. exists t1, ts.
    destruct (chosen_elem (db_buckets d) q t1 Hq) as [Ht1 Ht1']; [rewrite Ec; by left|].
    assert (housed (db_world d) (bm_dir (db_buckets d)) q.1 t1) as [_ _ _ L1] by (eapply housed_elem; [exact Ha| |exact Ht1]; by destruct q).
    split; [done|]. split; [by destruct ts; [cbn in Hc; lia|]|]. split; [done|]. split; [by apply Hun|].
    unfold sources in Hs. rewrite Ec in Hs. cbn [tail] in Hs. apply Forall2_fmap_r. eapply Forall2_impl; [exact Hs|]. intros t p [Hp [_ I2 I3]].
    eapply table_holds_frame; [apply (kt_holds _ _ (Ht p Hp))|done|done|done|done].
  - apply Forall_fmap. eapply Forall_impl; [exact Hin|]. intros p Hp. apply (ht_no _ _ (Hot p Hp)).
  - assert (sum_list_with weight ps.*2 = total_weight ps) as ->.
    { unfold total_weight. clear. induction ps as [|p ps IH]; [done|]. rewrite fmap_cons. change (weight p.2 + sum_list_with weight ps.*2 = weight p.2 + sum_list_with (fun p => weight p.2) ps)%nat. by rewrite IH. }
    assert (total_weight ps <= total_weight tabs)%nat; [|lia]. apply sum_list_submseteq, NoDup_submseteq; [|by rewrite Forall_forall in Hin].
    apply (NoDup_fmap_1 (dir_of (M := M))). rewrite (sources_dirs _ _ _ Hs). eapply (sublist_NoDup _ _ (ar_dirs _ _ _ _ Ha)), fmap_sublist.
    destruct (imbalanced_elem _ _ Hq) as [Hq' _]. transitivity (sstables q.2).
    + transitivity (chosen q.2); [apply tail_sublist|apply sublist_take].
    + clear -Hq'. unfold bm_tables. induction (buckets _) as [|q' l IH]; [by apply not_elem_of_nil in Hq'|]. rewrite all_tables_cons.
      apply elem_of_cons in Hq' as [->|Hq']; [by apply sublist_inserts_r|]. apply sublist_inserts_l. by apply IH.
Qed.

(** What a round leaves: one new table per merged bucket, each merging the
    bucket's tables after the first, and every table that was not taken *)
Record round_done d tabs pss d' tabs' news : Prop := {
  rd_arranged : arranged N B d' tabs';
  rd_primed : primed d' tabs';
  rd_tabs : tabs' ≡ₚ news ++ filter (fun x => dir_of x ∉ gone_dirs (db_buckets d)) tabs;
  rd_sources : Forall2 (sources tabs) (imbalanced (buckets (db_buckets d))) pss;
  rd_news : Forall2 (fun ps p => merges ps.*2 p.2 /\ new_tab (db_world d) p) pss news;
  rd_since : since (db_world d) (db_world d');
  rd_ticks : (w_ticks (db_world d) <= w_ticks (db_world d') <= 3 * length (imbalanced (buckets (db_buckets d))) + w_ticks (db_world d))%nat;
  rd_restored : restored_ranges (db_ranges d') = restored_ranges (db_ranges d);
}.

Lemma arranged_grown d tabs w' :
  grown (db_world d) w' -> (w_ticks (db_world d) <= w_ticks w')%nat -> arranged N B d tabs -> arranged N B (mkDb w' (db_buckets d) (db_ranges d)) tabs.
Proof.
  intros [G1 G2 G3 G4] T [[B1 B2 B3 B4 B5] A2 [F1 F2 F3] A4 A5 A6 A7 A8 A9 A10]. split; cbn; try done.
  - split; cbn; rewrite ?G1; done.
  - intros n Hn. apply A2. lia.
  - split; cbn.
    + intros n Hn. destruct (F1 n ltac:(lia)) as [E1 E2 E3]. split; cbn; rewrite ?G1; done.
    + intros n q Hn. apply F2. lia.
    + intros n n' Hn. apply F3. lia.
  - eapply Forall_impl; [exact A4|]. intros q [Q1 Q2]. split; [done|]. eapply Forall_impl; [exact Q2|]. intros t [S1 S2 S3 S4].
    split; rewrite ?G1; try done; lia.
  - eapply Forall_impl; [exact A9|]. intros p [T1 T2]. split; rewrite ?G1; try done.
    eapply table_holds_frame; [exact T1|done|done|..]; by rewrite G1.
Qed.

Lemma primed_grown d tabs w' :
  grown (db_world d) w' -> arranged N B d tabs -> primed d tabs -> primed (mkDb w' (db_buckets d) (db_ranges d)) tabs.
Proof.
  intros [G1 G2 G3 G4] Ha [P1 P2]. split; cbn [db_world db_buckets].
  - eapply Forall_impl; [exact P1|]. intros p [T1 T2 T3]. split; [| |done].
    + destruct T1 as (g & q & Hg & Hq & Hr). exists g, q. rewrite G3; [done|]. by apply T2.
    + intros g Hg. specialize (T2 g Hg). lia.
  - intros t Ht. rewrite G2; [by apply P2|]. apply all_tables_elem in Ht as (i & b & Hb & Ht). apply (housed_elem _ _ _ _ _ _ _ Ha Hb Ht).
Qed.

Lemma removal_prefixes bm bm' :
  NoDup (buckets bm).*1 -> appended bm bm' ->
  Forall (fun q => exists b rest, im_get q.1 (buckets bm') = Some b /\ cool <$> sstables b = (cool <$> q.2) ++ rest)
    ((fun q => (q.1, chosen q.2)) <$> imbalanced (buckets bm)).
Proof.
  intros Hnd Hap. apply Forall_fmap, Forall_forall. intros [id b] [Hq _]%imbalanced_elem. cbn.
  destruct (Hap id b (im_get_NoDup _ _ _ Hnd Hq)) as (b' & rest & Hg & Hc). exists b', ((cool <$> drop 32 (sstables b)) ++ rest). split; [done|].
  unfold chosen. by rewrite Hc, app_assoc, <- fmap_app, take_drop.
Qed.

Lemma compaction_round_run d tabs :
  use_ttl cfg = false -> f64_ge0 (filter_false_positive cfg) = true -> orderly_env N -> arranged N B d tabs -> primed d tabs ->
  Z.of_nat (total_weight tabs) < 2 ^ 32 -> (w_ticks (db_world d) + 3 * length (imbalanced (buckets (db_buckets d))) + 1 <= B)%nat ->
  is_balanced (db_buckets d) = false ->
  exists d' tabs' pss news, compaction_round cfg ∅ d = (Ok (Some ∅), d') /\ round_done d tabs pss d' tabs' news.
Proof.
  intros Hu Hr Ho Ha Hpm Hsz HN Hbal. destruct (sources_all d tabs Ha) as [pss Hpss].
  pose proof (extract_loop_named (db_world d) _ (bw_named _ _ (ar_wf _ _ _ _ Ha))) as Ex. set (f := fun p : string * Bucket => mkBucket _ _ _ _ _) in Ex.
  set (imb := imbalanced (buckets (db_buckets d))) in *.
  destruct (merge_buckets_run cfg (f <$> imb) ((fun ps => ps.*2) <$> pss) (db_world d) Hu Hr) as (merged & w1 & Em & G1 & T1 & Hmb & Hnd).
  { apply Forall2_fmap, Forall2_same_length_lookup. split; [by eapply Forall2_length|]. intros i q ps Hi1 Hi2.
    eapply sources_mergeable; [exact Ha|exact Hpm|done|exact Hsz|by eapply list_elem_of_lookup_2|by eapply Forall2_lookup_lr|done]. }
  assert (length merged = length imb) as Hlen.
  { apply Forall2_length in Hmb. apply Forall2_length in Hpss. rewrite length_fmap in Hmb. lia. }
  destruct (insert_merged_run N B (db_world d) merged ((fun ps => ps.*2) <$> pss) (mkDb w1 (db_buckets d) (db_ranges d)) tabs (mkTracker 0 (zlen merged)))
    as (d2 & tabs2 & news & Ei & Ha2 & Hpm2 & P2 & Hnews & Hs2 & T2 & Hap & Hres); [done|apply arranged_grown; [done|lia|done]|by apply since_grown|cbn; lia|done|done| |by apply primed_grown|].
  { apply Forall_fmap, Forall_forall. intros ps [i Hi]%list_elem_of_lookup. destruct (Forall2_lookup_r _ _ _ _ _ Hpss Hi) as (q & _ & Hs). cbn.
    apply Forall_fmap, Forall_forall. intros p [j Hj]%list_elem_of_lookup. destruct (Forall2_lookup_r _ _ _ _ _ Hs Hj) as (t & _ & [Hp _]).
    pose proof (pr_hot _ _ Hpm) as Ht. rewrite Forall_forall in Ht. apply (ht_no _ _ (Ht p Hp)). }
  destruct (clean_up_run N B ((fun q => (q.1, chosen q.2)) <$> imb) d2 tabs2 Ha2) as (d' & tabs' & prs & fs' & Ec & Ew & Hpr & Hres' & Ha' & P' & Hsub).
  { apply imbalanced_ids, (bw_nodup _ _ (ar_wf _ _ _ _ Ha)). }
  { by apply removal_prefixes; [apply (bw_nodup _ _ (ar_wf _ _ _ _ Ha))|]. }
  exists d', tabs', pss, news. split.
  - unfold compaction_round. unfold on_world at 1. unfold extract_imbalanced_buckets. rewrite Ex.
    destruct imb as [|q imb'] eqn:Eimb.
    { exfalso. apply (proj2 (is_balanced_imbalanced (db_buckets d))) in Eimb. congruence. }
    rewrite fmap_cons. cbv iota beta. rewrite <- fmap_cons. unfold on_world. cbn [db_world db_buckets db_ranges].
    unfold merge_ssts_in_buckets. erewrite io_step by exact Em. destruct merged as [|x merged]; [done|]. cbn [mret io_ret]. run Ei.
    unfold finish_round. cbn [actual expected]. rewrite decide_True by lia. by rewrite Ec.
  - split; try done.
    + destruct Hpm2 as [M1 M2]. split; rewrite Ew.
      * rewrite P'. rewrite Forall_forall in M1 |- *. intros p [_ Hp]%list_elem_of_filter. by destruct (M1 p Hp).
      * intros t Ht. by apply M2, Hsub.
    + rewrite P', P2, filter_app. rewrite (filter_true _ news).
      * rewrite <- list_fmap_compose. done.
      * intros p Hp Hin. pose proof (arranged_NoDup _ _ _ _ Ha2) as Hd. rewrite P2, fmap_app in Hd. apply NoDup_app in Hd as (_ & Hd & _).
        apply (Hd (dir_of p)); [apply list_elem_of_fmap; by exists p|]. apply (gone_elem d); [done|]. rewrite <- list_fmap_compose in Hin. exact Hin.
    + rewrite Forall2_fmap_l in Hnews. exact Hnews.
    + rewrite Ew. by eapply since_pruned.
    + rewrite Ew. change (w_ticks (with_fs (db_world d2) fs')) with (w_ticks (db_world d2)). cbn [db_world] in T2. fold imb. lia.
    + by rewrite Hres'.
Qed.

(** At least four tables go for each merged bucket. *)
Lemma gone_length d tabs :
  arranged N B d tabs ->
  (4 * length (imbalanced (buckets (db_buckets d))) <= length (filter (fun x => dir_of x ∈ gone_dirs (db_buckets d)) tabs))%nat.
Proof.
  intros Ha. set (imb := imbalanced (buckets (db_buckets d))). transitivity (length (gone_dirs (db_buckets d))).
  - unfold gone_dirs. rewrite length_fmap. fold imb. assert (forall q, q ∈ imb -> (4 <= length (chosen q.2))%nat) as Hq.
    { intros q [_ Hc]%imbalanced_elem. by apply exceeds_length. }
    clearbody imb. induction imb as [|q l IH]; [done|].
    change (4 * S (length l) <= length (chosen q.2 ++ mjoin ((fun q => chosen q.2) <$> l)))%nat. rewrite length_app.
    pose proof (Hq q ltac:(by left)). specialize (IH ltac:(intros q' Hq'; apply Hq; by right)). lia.
  - rewrite <- (length_fmap (dir_of (M := M)) (filter _ tabs)). apply submseteq_length, NoDup_submseteq.
    + eapply (sublist_NoDup _ _ (ar_dirs _ _ _ _ Ha)), fmap_sublist, taken_sublist. done.
    + intros p Hp. pose proof (gone_elem d tabs p Ha Hp) as (x & -> & Hx)%list_elem_of_fmap. apply list_elem_of_fmap. exists x. split; [done|].
      by apply list_elem_of_filter.
Qed.
End round.
