(* ===== verification/Durability.v ===== *)
(** * Durability: what a restart finds

    Until the first rotation's metadata is written, the log is the whole truth:
    opening the directory again replays it. [journal] relates the files to the
    list of writes; running a client extends it, a crash keeps it, and opening
    rebuilds a store that represents the same map. *)

From stdpp Require Import prelude gmap strings list.
From Stdlib Require Import Strings.Byte ZArith Lia.
From S2P Require Import Prelude Consts SkipMap FileIO Types World VLog Block Index Bloom SSTable Meta MemTable.
From S2P Require Import KeyRange RangeSearch Bucket Flush Compaction Config Store StoreInv StoreSpec Recovery.
Open Scope Z_scope.

(** ** Replaying a log and mapping it *)
Lemma replay_snoc off es e m k :
  replay off (es ++ [e]) m k =
    if decide (k = vle_key e) then Some (smv_new (off + zlen (log_bytes es)) (vle_created_at e) (vle_is_tombstone e))
    else replay off es m k.
Proof.
  revert off m. induction es as [|e0 es IH]; intros off m; cbn [replay app]; [by rewrite Z.add_0_r|].
  rewrite IH, log_bytes_cons. case_decide; [do 2 f_equal; lia|done].
Qed.

Lemma zlen_log_stored es : zlen (log_bytes (stored <$> es)) = zlen (log_bytes es).
Proof. induction es as [|e es IH]; [done|]. by rewrite fmap_cons, !log_bytes_cons, stored_entry_bytes, IH. Qed.

Lemma entry_bytes_pos e : 0 < entry_bytes e.
Proof. rewrite entry_bytes_eq. pose proof (zlen_nonneg (vle_key e)). pose proof (zlen_nonneg (vle_value e)). lia. Qed.

Lemma entry_at_skip es0 ws x : 0 <= x -> entry_at (es0 ++ ws) (zlen (log_bytes es0) + x) = entry_at ws x.
Proof.
  intros Hx. induction es0 as [|e es0 IH]; [done|]. cbn [app entry_at]. rewrite log_bytes_cons.
  pose proof (entry_bytes_pos e). pose proof (zlen_nonneg (log_bytes es0)). rewrite decide_False by lia.
  rewrite <- IH. f_equal. lia.
Qed.

(** The binding a replay leaves is the last write, and maps to what that wrote. *)
Lemma replay_log off ws k :
  match replay off (stored <$> ws) (fun _ => None) k with
  | Some v => exists e x, e ∈ ws /\ 0 <= x /\ entry_at ws x = Some e /\
      v = smv_new (off + x) (trunc_ms (vle_created_at e)) (vle_is_tombstone e) /\
      log_map (fun _ => None) ws k = if vle_is_tombstone e then None else Some (vle_value e)
  | None => log_map (fun _ => None) ws k = None
  end.
Proof.
  induction ws as [|e ws IH] using rev_ind; [done|]. rewrite fmap_app, fmap_cons, replay_snoc.
  unfold log_map. rewrite fold_left_app. cbn [fold_left]. fold (log_map (fun _ => None) ws). unfold log_step.
  change (vle_key (stored e)) with (vle_key e). case_decide as Hk.
  - exists e, (zlen (log_bytes ws)). split; [set_solver|]. split; [apply zlen_nonneg|]. split; [apply entry_at_end|].
    by rewrite zlen_log_stored.
  - destruct (replay off (stored <$> ws) (fun _ => None) k) as [v|]; [|done].
    destruct IH as (e' & x & Hin & Hx & Hat & -> & Hm). exists e', x. split; [set_solver|]. split; [done|].
    split; [by apply entry_at_app|]. by split.
Qed.

Section durability.
Context `{Env} {M : Type -> Type} `{SkipMap M} (N : nat) (parse_uuid : string -> option string) (dir_len : Z).
Abbreviation W := (World M).
Abbreviation S := (DataStore M).

(** The files hold the first two entries and the writes [ws], made in the past. *)
Record journal (root : list string) (i j : nat) (w : W) (t : DateTime) (ws : list ValueLogEntry) : Prop := {
  jo_disk : on_disk root i j (w_fs w) (first_entries t ++ ws);
  jo_buckets : root ++ ["buckets"%string] ∈ dirs (w_fs w);
  jo_valid : Forall valid_entry (first_entries t ++ ws);
  jo_time : Forall (fun e => exists n, (n < w_ticks w)%nat /\ vle_created_at e = clock n) ws;
}.

Lemma journal_later root i j (w w' : W) t ws :
  w_fs w' = w_fs w -> (w_ticks w <= w_ticks w')%nat -> journal root i j w t ws -> journal root i j w' t ws.
Proof.
  intros Ef Ht [J1 J2 J3 J4]. split; rewrite ?Ef; try done. eapply Forall_impl; [exact J4|]. intros e (n & Hn & ->). exists n. split; [lia|done].
Qed.

Lemma journal_crash root i j (s : S) t ws : journal root i j (ds_world s) t ws -> journal root i j (crash s) t ws.
Proof. by apply journal_later. Qed.

(** Calls extend the journal by what they wrote. *)
Lemma journal_logged root i j (s s' : S) t ws ws' ops :
  journal root i j (ds_world s) t ws -> file (vlog_file (val_log s)) = j -> logged ops s s' ws' ->
  vlog_rep (w_fs (ds_world s')) (val_log s') ((first_entries t ++ ws) ++ ws') ->
  journal root i j (ds_world s') t (ws ++ ws') /\ file (vlog_file (val_log s')) = j.
Proof.
  intros [[D1 D2 D3 D4 D5 D6 D7 [D8 D9]] J2 J3 J4] Hj [[L1 L2 L3 _ L4] _ _ Ht Hk] [Rc _ Rv].
  rewrite L1, Hj in Rc. rewrite <- app_assoc in Rc, Rv. split; [|by rewrite L1]. split; [split| | |].
  - by rewrite L3.
  - by rewrite L2.
  - rewrite L4 by (by rewrite Hj). done.
  - by rewrite L3.
  - by rewrite L2.
  - done.
  - done.
  - split; [by rewrite L3|by rewrite L2].
  - by rewrite L3.
  - done.
  - apply Forall_app. split; eapply Forall_impl; [exact J4| |exact Ht|]; intros e (n & Hn & ->); exists n; (split; [lia|done]).
Qed.

(** ** Opening what is there *)
Lemma children_none fs p : no_children fs p -> children fs p = [].
Proof.
  intros [Hd Hn]. unfold children. destruct (List.filter _ _) as [|q l] eqn:E; [done|]. exfalso.
  assert (In q (q :: l)) as Hin by by left. rewrite <- E in Hin. apply filter_In in Hin as [Hin [Hq0 Hq]%bool_decide_eq_true].
  apply list_elem_of_In, elem_of_app in Hin as [Hin|Hin].
  - apply elem_of_elements in Hin. by apply (Hd q).
  - apply list_elem_of_fmap in Hin as ([q' x] & -> & Hin). apply elem_of_map_to_list in Hin. by apply (Hn q' x).
Qed.

Lemma read_dir_none (w : W) p : p ∈ dirs (w_fs w) -> no_children (w_fs w) p -> read_dir p w = (Ok [], w).
Proof.
  intros Hp Hn. unfold read_dir. rewrite decide_True by done. rewrite (children_none _ _ Hn).
  assert (hash_iter (@nil (list string)) = []) as ->; [|done]. apply Permutation_nil. symmetry. apply hash_iter_perm.
Qed.

Lemma create_dir_existing (w : W) p : p ∈ dirs (w_fs w) -> on_fs (create_dir_all p) w = (Ok tt, w).
Proof. intros Hp. unfold on_fs, create_dir_all, path_exists. rewrite bool_decide_true by done. by destruct w. Qed.

Lemma meta_new_existing (w : W) p i :
  p ∈ dirs (w_fs w) -> names (w_fs w) !! (p ++ ["meta.bin"%string]) = Some i ->
  exists m, meta_new p w = (Ok m, tick (tick w)) /\ file (file_handle m) = i /\ file_path (file_handle m) = p ++ ["meta.bin"%string] /\ valid_time (m_created_at m).
Proof.
  intros Hp Hn. eexists. split.
  - unfold meta_new. do 2 run_simpl. erewrite io_step by (by apply create_dir_existing).
    erewrite io_step by (apply io_unwrap_ok, on_fs_ok, (file_new_existing _ _ _ i); exact Hn). reflexivity.
  - split; [done|]. split; [done|]. apply clock_valid.
Qed.

Lemma vlog_new_existing (w : W) p j es :
  p ∈ dirs (w_fs w) -> names (w_fs w) !! (p ++ ["val_log.bin"%string]) = Some j ->
  content (w_fs w) j = log_bytes es -> Forall valid_entry es ->
  exists v, on_fs (vlog_new p) w = (Ok v, w) /\ file (vlog_file v) = j /\
    forall h t, vlog_rep (w_fs w) (vlog_set_tail (vlog_set_head v h) t) es.
Proof.
  intros Hp Hn Hc Hv. exists (mkVLog (mkFileNode (p ++ ["val_log.bin"%string]) j FValueLog) 0 0 (zlen (log_bytes es))). split; [|by split; [|split]].
  unfold on_fs, vlog_new. erewrite io_step; [|unfold create_dir_all, path_exists; by rewrite bool_decide_true].
  erewrite io_step by (by apply file_new_existing). unfold file_size. erewrite io_step; [|reflexivity]. cbn. rewrite Hc. by destruct w.
Qed.

(** The parts [recover] assembles from a journal *)
Lemma recover_run root i j (w : W) t ws m v :
  let dir := dir_path_build root in let c := mem_config config_default Bytes in
  journal root i j w t ws -> file (file_handle m) = i ->
  replay_size ws < mt_capacity c ->
  exists a w1 l, recover parse_uuid dir config_default Bytes m v w =
      (Ok (assemble config_default a sm_new (vlog_set_tail (vlog_set_head v 25) 0) m (mkBucketMap (dp_buckets dir) []) key_range_new l),
       mkWorld (w_fs w1) (<[l := sm_new]> (w_maps w1)) (w_bits w1) (Datatypes.S l) (w_ticks w1)) /\
    l = w_next w1 /\ replayed w c (first_entries t ++ ws) 1 a w1.
Proof.
  intros dir c [[D1 D2 D3 D4 D5 D6 D7 D8] J2 J3 J4] Hi Hs. unfold recover.
  erewrite io_step; [|unfold recover_tables; run (read_dir_none w (dp_buckets dir) J2 D8); reflexivity].
  erewrite io_step; [|unfold bucket_map_new; erewrite io_step by (by apply create_dir_existing); reflexivity].
  erewrite io_step by (apply on_fs_ok; unfold file_size; reflexivity). rewrite Hi, D3.
  change (decide (zlen (@nil byte) > 0)) with (decide (0 > 0)). rewrite (decide_False (P := 0 > 0)) by lia. run_simpl. cbn beta iota.
  rewrite with_fs_id.
  destruct (recover_memtable_run c (dp_val_log dir) j (first_entries t ++ ws) 1 (log_entry HEAD_ENTRY_KEY HEAD_ENTRY_VALUE t) w)
    as (a & w1 & E & R); [exact default_config_ok|done..|].
  change (offset_of (first_entries t ++ ws) 1) with 25 in E.
  erewrite io_step. 2: { cbn [head_offset vlog_set_tail vlog_set_head]. change after_tail_entry with 25. fold c. rewrite E. reflexivity. }
  cbn beta iota. run_simpl. exists a, w1, (w_next w1). split; [reflexivity|]. by split.
Qed.

(** The writes as a map *)
Abbreviation empty_map := (fun _ : list byte => @None (list byte)).

Lemma recovered_represents root i j (w w1 : W) t ws a v l m :
  let c := mem_config config_default Bytes in
  let w' := mkWorld (w_fs w1) (<[l := sm_new]> (w_maps w1)) (w_bits w1) (Datatypes.S l) (w_ticks w1) in
  orderly N -> (forall n, (n < N)%nat -> default_datetime < trunc_ms (clock n)) -> (w_ticks w1 <= N)%nat ->
  journal root i j w t ws -> replayed w c (first_entries t ++ ws) 1 a w1 -> l = w_next w1 ->
  vlog_rep (w_fs w1) v (first_entries t ++ ws) ->
  represents N (assemble config_default a sm_new v m (mkBucketMap (root ++ ["buckets"%string]) []) key_range_new l w')
    (first_entries t ++ ws) [] (log_map empty_map ws).
Proof.
  intros c w' Ho Hms HN [_ _ _ Jt] [Ri Rl Rc Re Rf Rfs Rt] -> Hv. set (s := assemble _ _ _ _ _ _ _ _ _). set (es := first_entries t ++ ws) in *.
  assert (forall k, mem_lookup w' a k = replay 50 (stored <$> ws) (fun _ => None) k) as Hl.
  { intros k. rewrite <- (Rl k : _ = replay 50 (stored <$> ws) (fun _ => None) k). unfold mem_lookup, the_map. cbn. by rewrite lookup_insert_ne by lia. }
  assert (forall k, store_hit s [] k = hit_of <$> mem_lookup w' a k) as Hh.
  { intros k. unfold store_hit, lookup_hit. cbn. fold w'. destruct (mem_lookup w' a k); [done|]. unfold ro_hits. by rewrite sm_iter_new. }
  assert (forall k x, mem_lookup w' a k = Some x -> exists n, (n < w_ticks w)%nat /\ smv_created_at x = trunc_ms (clock n)) as Htime.
  { intros k x Hx. pose proof (replay_log 50 ws k) as R. rewrite <- Hl, Hx in R. destruct R as (e & y & Hin & _ & _ & -> & _).
    rewrite Forall_forall in Jt. destruct (Jt e Hin) as (n & Hn & Hc). exists n. split; [done|]. cbn. by rewrite Hc. }
  split; [split; try done; cbn; fold w'|].
  - unfold the_map. cbn. rewrite lookup_insert_eq. cbn. unfold sm_is_empty. by rewrite sm_iter_new.
  - lia.
  - apply (mem_inv_frame w1); [unfold the_map; cbn; by rewrite lookup_insert_ne by lia|done|done].
  - lia.
  - intros k x (n & Hn & ->)%Htime n' Hn'. cbn in Hn'. pose proof (trunc_ms_le (clock n)).
    pose proof (clock_increases _ Ho n n'). lia.
  - rewrite Rc. exact default_config_ok.
  - intros id x. by rewrite sm_get_new.
  - intros k x _ (n & Hn & ->)%Htime. split; [apply Hms; lia|]. intros h. unfold ro_hits. rewrite sm_iter_new. by intros ?%not_elem_of_nil.
  - apply indexed_new.
  - intros k h _. rewrite Hh, Hl. pose proof (replay_log 50 ws k) as R. destruct (replay 50 _ _ k) as [x|]; [|done]. intros [= <-] _.
    destruct R as (e & y & _ & Hy & Hat & -> & _). exists e. cbn. by rewrite <- Hat, <- (entry_at_skip (first_entries t) ws y Hy).
  - intros k _. unfold store_view. rewrite Hh, Hl. pose proof (replay_log 50 ws k) as R. destruct (replay 50 _ _ k) as [x|]; [|done].
    destruct R as (e & y & _ & Hy & Hat & -> & Hm). rewrite Hm.
    assert (entry_at es (50 + y) = Some e) as Hat' by (rewrite <- Hat; exact (entry_at_skip (first_entries t) ws y Hy)).
    clearbody es. unfold read_hit, hit_of. cbn. destruct (vle_is_tombstone e) eqn:Et; [done|]. rewrite Hat'. cbn. by rewrite Et.
Qed.

Lemma reopen_run keyspace root i j (w : W) t ws :
  orderly N -> (forall n, (n < N)%nat -> default_datetime < trunc_ms (clock n)) -> dir_len <> 0 ->
  is_valid_keyspace_name keyspace = true -> (w_ticks w + 4 <= N)%nat ->
  journal root i j w t ws -> replay_size ws < mt_capacity (mem_config config_default Bytes) ->
  exists s, open parse_uuid dir_len keyspace root w = Ok s /\ represents N s (first_entries t ++ ws) [] (log_map empty_map ws) /\
    journal root i j (ds_world s) t ws /\ file (vlog_file (val_log s)) = j /\ w_ticks (ds_world s) = (4 + w_ticks w)%nat.
Proof.
  intros Ho Hms Hd Hk HN Hj Hs. pose proof Hj as [[D1 D2 D3 D4 D5 D6 D7 D8] J2 J3 J4].
  destruct (meta_new_existing w (root ++ ["meta"%string]) i D1 D2) as (m & E1 & Hm & _).
  destruct (vlog_new_existing (tick (tick w)) (root ++ ["v_log"%string]) j _ D4 D5 D6 J3) as (v & E2 & Hf & Hv).
  assert (journal root i j (tick (tick w)) t ws) as Hj2 by (apply (journal_later _ _ _ w); [done|cbn; lia|done]).
  destruct (recover_run root i j (tick (tick w)) t ws m v Hj2 Hm Hs) as (a & w1 & l & E3 & El & R).
  pose proof (rp_ticks _ _ _ _ _ _ R) as Ht. pose proof (rp_fs _ _ _ _ _ _ R) as Hfs. cbn in Ht, Hfs.
  eexists. split; [|split; [eapply (recovered_represents root i j (tick (tick w)) w1 t ws a _ l m); try done|]].
  - unfold open. rewrite Hk. unfold create_or_recover. run_simpl. cbn [dp_val_log dp_meta dir_path_build].
    assert (path_exists (w_fs w) (root ++ ["v_log"%string]) = true) as -> by (unfold path_exists; by rewrite bool_decide_true).
    run E1. run E2. rewrite (bool_decide_false (dir_len = 0)) by done. cbn [negb orb]. cbn [dir_path_build dp_buckets] in E3. rewrite E3. reflexivity.
  - lia.
  - rewrite Hfs. apply Hv.
  - cbn. split; [|split; [exact Hf|lia]]. apply (journal_later _ _ _ w); [done|cbn; lia|done].
Qed.

(** ** Sessions *)

(** Open the store, run a client, crash; at the end, open it once more. *)
Fixpoint sessions (keyspace : list byte) (root : list string) (clients : list (list Op)) (w : W) : outcome Error S :=
  match clients with
  | [] => open parse_uuid dir_len keyspace root w
  | ops :: clients' =>
      s ← open parse_uuid dir_len keyspace root w;
      sessions keyspace root clients' (crash (exec_all ops s).2)
  end.

(** The memtable bytes of the keys written *)
Fixpoint keys_size (ks : list (list byte)) : Z :=
  match ks with [] => 0 | k :: ks' => mem_entry_size (zlen k) + keys_size ks' end.

Lemma replay_size_keys ws : replay_size ws = keys_size (vle_key <$> ws).
Proof. induction ws as [|e ws IH]; [done|]. cbn. by rewrite IH. Qed.

Lemma keys_size_app ks ks' : keys_size (ks ++ ks') = keys_size ks + keys_size ks'.
Proof. induction ks as [|k ks IH]; [done|]. cbn [app keys_size]. lia. Qed.

Lemma keys_size_nonneg ks : 0 <= keys_size ks.
Proof.
  induction ks as [|k ks IH]; [done|]. cbn [keys_size]. pose proof (zlen_nonneg k).
  unfold mem_entry_size, SIZE_OF_U32, SIZE_OF_U64, SIZE_OF_U8. lia.
Qed.

Lemma written_keys_app ops ops' : written_keys (ops ++ ops') = written_keys ops ++ written_keys ops'.
Proof. induction ops as [|[] ops IH]; cbn; by rewrite ?IH. Qed.

(** Clock readings of a sequence of sessions, at most *)
Fixpoint session_ticks (clients : list (list Op)) : nat :=
  match clients with [] => 5 | ops :: clients' => 8 * length ops + 5 + session_ticks clients' end.

Lemma represents_ext (s : S) es tabs (m m' : list byte -> option (list byte)) :
  (forall k, m k = m' k) -> represents N s es tabs m -> represents N s es tabs m'.
Proof. intros Hm [Hi Hv]. split; [done|]. intros k Hk. rewrite <- Hm. by apply Hv. Qed.

Section run.
Context (keyspace : list byte) (root : list string).
Hypothesis (Ho : orderly N) (Hms : forall n, (n < N)%nat -> default_datetime < trunc_ms (clock n)).
Hypothesis (Hlen : dir_len <> 0) (Hks : is_valid_keyspace_name keyspace = true).

(** One client on an open store whose journal is [ws], a crash, and a restart *)
Lemma session_step ops i (s : S) t ws m :
  represents N s (first_entries t ++ ws) [] m -> journal root i (file (vlog_file (val_log s))) (ds_world s) t ws ->
  Forall op_ok ops -> (w_ticks (ds_world s) + 8 * length ops + 4 <= N)%nat ->
  keys_size ((vle_key <$> ws) ++ written_keys ops) < mt_capacity (mem_config config_default Bytes) ->
  exists s' ws', open parse_uuid dir_len keyspace root (crash (exec_all ops s).2) = Ok s' /\
    represents N s' (first_entries t ++ ws') [] (log_map empty_map ws') /\
    journal root i (file (vlog_file (val_log s'))) (ds_world s') t ws' /\
    (w_ticks (ds_world s') <= w_ticks (ds_world s) + 8 * length ops + 4)%nat /\
    vle_key <$> ws' = (vle_key <$> ws) ++ written_keys ops /\
    (forall k, log_map empty_map ws' k = (kv_run (log_map empty_map ws) ops).2 k).
Proof.
  intros Hr Hj Hok HN Hsz. destruct (exec_all_run N ops s _ [] m Ho Hr ltac:(lia) Hok) as (s1 & tabs' & ws' & E & R1 & L & Hn). rewrite (Hn eq_refl) in R1.
  destruct (journal_logged root i _ s s1 t ws ws' ops Hj eq_refl L (si_log _ _ _ _ (proj1 R1))) as [Hj1 Hf1].
  assert (vle_key <$> ws ++ ws' = (vle_key <$> ws) ++ written_keys ops) as Hk by by rewrite fmap_app, (wo_keys _ _ _ _ L).
  pose proof (wo_ticks _ _ _ _ L) as Ht.
  destruct (reopen_run keyspace root i (file (vlog_file (val_log s))) (crash s1) t (ws ++ ws') Ho Hms Hlen Hks) as (s2 & E2 & R2 & Hj2 & Hf2 & Ht2).
  - cbn. lia.
  - by apply journal_crash.
  - by rewrite replay_size_keys, Hk.
  - exists s2, (ws ++ ws'). rewrite E. split; [exact E2|]. split; [exact R2|]. split; [by rewrite Hf2|]. cbn in Ht2.
    split; [lia|]. split; [exact Hk|]. intros k. unfold log_map. rewrite fold_left_app. apply (wo_map _ _ _ _ L).
Qed.

Lemma sessions_from clients ops i (s : S) t ws m :
  represents N s (first_entries t ++ ws) [] m -> journal root i (file (vlog_file (val_log s))) (ds_world s) t ws ->
  Forall op_ok (ops ++ mjoin clients) -> (w_ticks (ds_world s) + 8 * length ops + session_ticks clients <= N)%nat ->
  keys_size ((vle_key <$> ws) ++ written_keys (ops ++ mjoin clients)) < mt_capacity (mem_config config_default Bytes) ->
  exists s' es', sessions keyspace root clients (crash (exec_all ops s).2) = Ok s' /\
    represents N s' es' [] (kv_run (log_map empty_map ws) (ops ++ mjoin clients)).2.
Proof.
  revert ops s ws m. induction clients as [|ops' clients IH]; intros ops s ws m Hr Hj Hok HN Hsz; cbn [session_ticks] in HN.
  all: pose proof (proj1 (Forall_app _ _ _) Hok) as [Hok1 Hok2]; rewrite written_keys_app, app_assoc, keys_size_app in Hsz.
  all: match type of Hsz with context [_ + keys_size ?ks] => pose proof (keys_size_nonneg ks) end.
  all: destruct (session_step ops i s t ws m Hr Hj Hok1) as (s1 & ws1 & E1 & R1 & J1 & T1 & K1 & M1); [lia|lia|].
  - exists s1, (first_entries t ++ ws1). split; [exact E1|]. cbn [mjoin list_join foldr]. rewrite app_nil_r. by apply (represents_ext _ _ _ _ _ M1).
  - destruct (IH ops' s1 ws1 _ R1 J1) as (s2 & es2 & E2 & R2).
    + exact Hok2.
    + lia.
    + rewrite K1, keys_size_app. exact Hsz.
    + exists s2, es2. cbn [sessions]. rewrite E1. split; [exact E2|]. revert R2. apply represents_ext. intros k.
      rewrite (kv_run_app _ ops). exact (kv_run_proper _ _ M1 _ _ eq_refl k).
Qed.
End run.

(** ** Properties *)

(** Durability. Take a new directory and any number of sessions that each open
    the store, run a client and end in a crash. As long as the keys written fit
    one memtable (so that no rotation has moved the log head), opening the
    directory once more succeeds and yields exactly the map that running all
    clients in a row on an empty map gives: no acknowledged write is lost, none
    is invented, and deletions stay. *)
Theorem sessions_durable keyspace root ops clients (w : W) :
  let dir := dir_path_build root in
  orderly N -> (forall n, (n < N)%nat -> default_datetime < trunc_ms (clock n)) -> dir_len <> 0 ->
  is_valid_keyspace_name keyspace = true ->
  fs_wf (w_fs w) -> path_exists (w_fs w) (dp_meta dir) = false -> path_exists (w_fs w) (dp_val_log dir) = false ->
  names (w_fs w) !! dp_buckets dir = None -> no_children (w_fs w) (dp_buckets dir) ->
  Forall op_ok (ops ++ mjoin clients) -> (w_ticks w + session_ticks (ops :: clients) < N)%nat ->
  keys_size (written_keys (ops ++ mjoin clients)) < mt_capacity (mem_config config_default Bytes) ->
  exists s es, sessions keyspace root (ops :: clients) w = Ok s /\
    represents N s es [] (kv_run (fun _ => None) (ops ++ mjoin clients)).2.
Proof.
  intros dir Ho Hms Hlen Hks Hwf Hm Hv Hb Hnc Hok HN Hsz. cbn [session_ticks] in HN.
  destruct (open_fresh_run N parse_uuid dir_len keyspace root w Ho ltac:(lia) Hks Hwf Hm Hv Hb) as (s & t & E & R & T & D & Hd & _).
  destruct (Hd Hnc) as [i Hi].
  destruct (sessions_from keyspace root Ho Hms Hlen Hks clients ops i s t [] fresh_map) as (s' & es' & E' & R'); try done.
  - split; [done|done| |done]. apply (si_log _ _ _ _ (proj1 R)).
  - lia.
  - exists s', es'. split; [|exact R']. cbn [sessions]. by rewrite E.
Qed.
End durability.

(** ** Witnesses *)
Section durability_witnesses.
#[local] Existing Instance demo_platform.
#[local] Existing Instance demo_env.
#[local] Existing Instance sorted_list_skipmap.

Definition first_client : list Op := [OpPut [x61] [x31]; OpPut [x62] [x32]; OpPut [x63] [x33]].
Definition second_client : list Op := [OpDelete [x61]; OpUpdate [x62] [x34]; OpGet [x63]].

Lemma sessions_durable_witness :
  exists s es, sessions (M := slist) Some 4096 [x64; x62] ["db"%string] [first_client; second_client] empty_world = Ok s /\
    represents 1000 s es [] (kv_run (fun _ => None) (first_client ++ second_client)).2 /\
    (fun k => (kv_run (fun _ => None) (first_client ++ second_client)).2 k) <$> [[x61]; [x62]; [x63]] = [None; Some [x34]; Some [x33]].
Proof.
  destruct (sessions_durable (M := slist) 1000 Some 4096 [x64; x62] ["db"%string] first_client [second_client] empty_world demo_orderly)
    as (s & es & E & R).
  - intros n Hn. rewrite trunc_ms_mod. cbn. pose proof (Z.mod_pos_bound (Z.min (1700000000000000000 + Z.of_nat n * 1000000) 1800000000000000000) 1000000).
    unfold default_datetime. lia.
  - done.
  - reflexivity.
  - exact empty_world_wf.
  - reflexivity.
  - reflexivity.
  - reflexivity.
  - split; cbn.
    + intros q Hq%elem_of_singleton. by subst.
    + intros q i. by rewrite lookup_empty.
  - repeat constructor; done.
  - cbn. lia.
  - by vm_compute.
  - exists s, es. split; [exact E|]. split; [exact R|reflexivity].
Defined.
End durability_witnesses.
