(* ===== verification/Reopen.v ===== *)
(** * Opening a directory with tables

    [open] on the files of a store that has flushed: the metadata gives the log
    head, the log is replayed from there, and the tables are found again. What
    [get] then answers is a function of the files only ([disk_view]): the last
    write after the head, or else the newest binding in the tables. *)

From stdpp Require Import prelude gmap strings list.
From Stdlib Require Import Strings.Byte ZArith Lia.
From S2P Require Import Prelude Consts SkipMap FileIO Types World VLog Block Index Bloom SSTable Meta MemTable.
From S2P Require Import KeyRange RangeSearch Bucket Flush Compaction Config Store StoreInv StoreSpec FlushSpec Recovery TableRecovery FlushRecovery Durability.
Open Scope Z_scope.

Section reopen.
Context `{Env} {M : Type -> Type} `{SkipMap M} (parse_uuid : string -> option string) (dir_len : Z).
Abbreviation W := (World M).
Abbreviation S := (DataStore M).
Abbreviation Lay := (list (string * list (string * M SkipMapValue))).
Implicit Types (w : W) (s : S) (fs : FS) (es : list ValueLogEntry) (lay : Lay).

(** What the metadata file [i] says of the head: nothing yet, or an entry [n] of the log *)
Inductive head_at fs (i : nat) es : nat -> Prop :=
  | head_unset : content fs i = [] -> offset_of es 1 = after_tail_entry -> head_at fs i es 1
  | head_stored n (m : Meta) : content fs i = meta_serialize m -> v_log_head m = offset_of es n -> offset_of es n < 2 ^ 32 ->
      valid_time (m_created_at m) -> valid_time (last_modified m) -> head_at fs i es n.

(** The files of a store: its metadata [i], its log [j] with the head at entry
    [n], and its tables *)
Record disk (root : list string) (i j : nat) fs es (n : nat) lay : Prop := {
  dsk_meta_dir : root ++ ["meta"%string] ∈ dirs fs;
  dsk_meta : names fs !! ((root ++ ["meta"%string]) ++ ["meta.bin"%string]) = Some i;
  dsk_head : head_at fs i es n;
  dsk_log_dir : root ++ ["v_log"%string] ∈ dirs fs;
  dsk_log : names fs !! ((root ++ ["v_log"%string]) ++ ["val_log.bin"%string]) = Some j;
  dsk_content : content fs j = log_bytes es;
  dsk_valid : Forall valid_entry es;
  dsk_entry : is_Some (es !! n);
  dsk_tree : tree parse_uuid fs (root ++ ["buckets"%string]) lay;
}.

(** The binding of a key in the files, and what it reads *)
Definition after_head es (n : nat) (k : list byte) : option SkipMapValue :=
  replay (offset_of es (Datatypes.S n)) (stored <$> drop (Datatypes.S n) es) (fun _ => None) k.
Definition disk_hit es (n : nat) (maps : list (M SkipMapValue)) (k : list byte) : option Hit :=
  match after_head es n k with
  | Some v => Some (hit_of v)
  | None => best_hit (map_hits k maps)
  end.
Definition disk_view es (n : nat) (maps : list (M SkipMapValue)) (k : list byte) : option UserEntry := disk_hit es n maps k ≫= read_hit es.

(** ** Recovering *)

(** The step of [recover] that reads the metadata *)
Lemma recover_head w i es n m (v : ValueLog) :
  head_at (w_fs w) i es n -> names (w_fs w) !! file_path (file_handle m) = Some i ->
  exists m' t, file_handle m' = file_handle m /\ (valid_time (m_created_at m) -> valid_time (m_created_at m')) /\
    (if decide (zlen (content (w_fs w) i) > 0)
      then m ← meta_recover m; mret (m, vlog_set_tail (vlog_set_head v (v_log_head m)) (v_log_tail m))
      else mret (m, vlog_set_tail (vlog_set_head v after_tail_entry) 0)) w = (Ok (m', vlog_set_tail (vlog_set_head v (offset_of es n)) t), w).
Proof.
  intros Hh Hn. destruct Hh as [Hc Ho|n m0 Hc Ho Hlt Hv1 Hv2].
  - rewrite Hc. change (zlen (@nil byte)) with 0. rewrite decide_False by lia. rewrite Ho. exists m. eexists. split; [done|]. split; [done|]. reflexivity.
  - rewrite Hc. rewrite decide_True by (unfold meta_serialize; rewrite !zlen_app, !zlen_to_le; lia).
    rewrite (io_step _ _ _ _ _ (meta_recover_serialize m0 m i w Hn Hc Hv1 Hv2)). cbn [v_log_head v_log_tail]. rewrite (as_u32_id (v_log_head m0)).
    + rewrite Ho. do 2 eexists. split; [|split; [|reflexivity]]; [done|]. intros _. by apply valid_time_trunc.
    + rewrite Ho. split; [apply zlen_nonneg|done].
Qed.

(** The store [recover] assembles *)
Record restarted (root : list string) (i j : nat) w es (n : nat) lay (all : list (list string * M SkipMapValue)) s : Prop := {
  rs_fs : w_fs (ds_world s) = w_fs w;
  rs_log : vlog_rep (w_fs w) (val_log s) es;
  rs_active : mem_inv (ds_world s) (active_memtable s);
  rs_lookup k : mem_lookup (ds_world s) (active_memtable s) k = after_head es n k;
  rs_ro : read_only_memtables s = sm_new;
  rs_gc : the_map (ds_world s) (gc_updated_entries s) = sm_new;
  rs_tables : exists st, db_ranges (ds_db s) = rc_ranges st /\ recovered (ds_world s) st all /\
    buckets (db_buckets (ds_db s)) = rc_buckets st /\ Forall (bucket_from_dir (root ++ ["buckets"%string]) lay.*1) (rc_buckets st);
  rs_parts : exists a v m bm kr l w', s = assemble config_default a sm_new v m bm kr l w' /\ bm_dir bm = root ++ ["buckets"%string];
  rs_meta : file (file_handle (ds_meta s)) = i /\ valid_time (m_created_at (ds_meta s));
  rs_log_file : file (vlog_file (val_log s)) = j;
  rs_replayed : exists w0 w1, replayed w0 (mem_config config_default Bytes) es n (active_memtable s) w1 /\
    (forall l, (l < w_next w1)%nat -> the_map (ds_world s) l = the_map w1 l) /\ (forall l, the_bits (ds_world s) l = the_bits w1 l) /\
    gc_updated_entries s = w_next w1 /\ w_next (ds_world s) = Datatypes.S (w_next w1);
  rs_ticks : (w_ticks w <= w_ticks (ds_world s))%nat;
}.

Lemma recovered_frame w w' st all : w_fs w' = w_fs w -> recovered w st all -> recovered w' st all.
Proof.
  intros E [R1 R2 R3 R4 R5 R6 R7]. split; try done.
  - intros d m Hin. destruct (R1 d m Hin) as (r & Hr & Hc). exists r. split; [done|by eapply cold_frame].
  - eapply Forall_impl; [exact R5|]. intros t (m & Hin & Hb). exists m. split; [done|by eapply built_frame].
Qed.

Lemma recover_disk_run root i j w es n lay m v :
  let dir := dir_path_build root in let c := mem_config config_default Bytes in
  disk root i j (w_fs w) es n lay -> file (file_handle m) = i ->
  file_path (file_handle m) = (root ++ ["meta"%string]) ++ ["meta.bin"%string] -> valid_time (m_created_at m) -> file (vlog_file v) = j ->
  (forall h t, vlog_rep (w_fs w) (vlog_set_tail (vlog_set_head v h) t) es) ->
  replay_size (drop (Datatypes.S n) es) < mt_capacity c ->
  exists mk w' all, recover parse_uuid dir config_default Bytes m v w = (Ok mk, w') /\ restarted root i j w es n lay all (mk w') /\
    all ≡ₚ layout_tables (dp_buckets dir) lay.
Proof.
  intros dir c Hd Hi Hp Hcr Hj Hv Hs. destruct (dsk_entry _ _ _ _ _ _ _ Hd) as [e0 He0]. unfold recover.
  destruct (recover_tables_run parse_uuid w (dp_buckets dir) lay) as (st & w1 & all & E1 & F1 & R & Hall & T1 & Hfd).
  { apply tree_layout, Hd. }
  { apply (te_nodup _ _ _ _ (dsk_tree _ _ _ _ _ _ _ Hd)). }
  run E1. erewrite io_step.
  2: { unfold bucket_map_new. erewrite io_step by (apply create_dir_existing; rewrite F1; apply (te_root _ _ _ _ (dsk_tree _ _ _ _ _ _ _ Hd))). reflexivity. }
  erewrite io_step by (apply on_fs_ok; unfold file_size; reflexivity). rewrite with_fs_id, Hi.
  destruct (recover_head w1 i es n m v) as (m' & t & Em & Hcr' & E2); [by rewrite F1; apply Hd|rewrite F1, Hp; apply Hd|].
  run E2. cbn beta iota.
  destruct (recover_memtable_run c (dp_val_log dir) j es n e0 w1) as (a & w2 & E3 & Hrp).
  { exact default_config_ok. }
  1-3: rewrite F1; apply Hd.
  { apply Hd. }
  { done. }
  { done. }
  pose proof Hrp as [P1 P2 P3 P4 P5 P6 P7 P8 P9]. erewrite io_step. 2: { cbn [head_offset vlog_set_tail vlog_set_head]. fold c. rewrite E3. reflexivity. }
  cbn beta iota. run_simpl. do 2 eexists. exists all. split; [reflexivity|]. split; [|done].
  split; cbn.
  - by rewrite P6, F1.
  - apply Hv.
  - apply (mem_inv_frame w2); [unfold the_map; cbn; by rewrite lookup_insert_ne by lia|done|done].
  - intros k. unfold after_head. rewrite <- P2. unfold mem_lookup, the_map. cbn. by rewrite lookup_insert_ne by lia.
  - done.
  - unfold the_map. cbn. by rewrite lookup_insert_eq.
  - exists st. split; [done|]. split; [eapply recovered_frame; [|exact R]; by rewrite <- P6|]. split; [|done].
    apply (im_insert_all (rc_buckets st) []), R.
  - by repeat eexists.
  - rewrite Em. split; [done|by apply Hcr'].
  - done.
  - exists w1, w2. split; [done|]. split; [|done]. intros l Hl. unfold the_map. cbn. by rewrite lookup_insert_ne by lia.
  - lia.
Qed.

(** ** Reading *)

(** When the files answer for a key: tables that bind it at the same
    millisecond agree, and what their newest binding refers to is in the log unless
    a later write hides it. *)
Definition answerable es (n : nat) (maps : list (M SkipMapValue)) (k : list byte) : Prop :=
  validate_size k None = Ok tt /\ consistent (map_hits k maps) /\
  forall h : Hit, after_head es n k = None -> best_hit (map_hits k maps) = Some h -> h.2 = false -> is_Some (entry_at es h.1.1).

Lemma replay_entry es n k v :
  replay (offset_of es n) (stored <$> drop n es) (fun _ => None) k = Some v -> is_Some (entry_at es (smv_val_offset v)).
Proof.
  intros Hv. pose proof (replay_log (offset_of es n) (drop n es) k) as R. rewrite Hv in R.
  destruct R as (e & x & _ & Hx & Hat & -> & _). exists e. cbn. unfold offset_of. rewrite <- (take_drop n es) at 1. by rewrite entry_at_skip.
Qed.


Lemma answerable_hit es n (maps : list (M SkipMapValue)) k h :
  answerable es n maps k -> disk_hit es n maps k = Some h -> h.2 = false -> is_Some (entry_at es h.1.1).
Proof.
  intros (_ & _ & Hlog). unfold disk_hit. destruct (after_head es n k) as [v|] eqn:Ev; [|by apply Hlog].
  intros [= <-] _. exact (replay_entry _ _ _ _ Ev).
Qed.

Lemma restarted_get root i j w s es n lay all k :
  restarted root i j w es n lay all s -> NoDup all.*1 -> answerable es n all.*2 k ->
  exists s', store_get k s = (Ok (disk_view es n all.*2 k), s') /\ w_fs (ds_world s') = w_fs w.
Proof.
  intros [Z1 Z2 Z3 Z4 Z5 Z6 (st & Z7 & Z8 & _) _ _ _ _ _] Hnd Hans. pose proof Hans as (Hk & Hts & _).
  pose proof (fun h => answerable_hit es n all.*2 k h Hans) as Hlog. rewrite <- Z1 in Z2.
  destruct (recovered_indexed _ _ _ Z8 Hnd) as (tabs & Hx & Hp & Hc).
  assert (sst_hits tabs k ≡ₚ map_hits k all.*2) as Hperm by (rewrite sst_hits_maps; by apply map_hits_perm).
  assert (best_hit (sst_hits tabs k) = best_hit (map_hits k all.*2)) as Hb by (symmetry; by apply best_hit_perm).
  assert (ro_hits (ds_world s) (read_only_memtables s) k = []) as Hro by (unfold ro_hits; by rewrite Z5, sm_iter_new).
  assert (exists s', (mem_lookup (ds_world s) (active_memtable s) k = None -> get_from_tables k s = (Ok (best_hit (sst_hits tabs k) ≫= read_hit es), s')) /\
    w_fs (ds_world s') = w_fs (ds_world s)) as (s' & E & F).
  { destruct (mem_lookup (ds_world s) (active_memtable s) k) eqn:Em; [by exists s|].
    destruct (get_from_tables_run s es tabs k) as (s' & E & Hse & _); rewrite ?Z7; try done.
    - apply cold_tabs_ready. eapply Forall_impl; [exact Hc|]. intros p (d & _ & Hd). by exists d.
    - by rewrite (rv_restored _ _ _ Z8).
    - rewrite Hb. intros h Hh. apply Hlog. unfold disk_hit. by rewrite <- Z4, Em.
    - exists s'. split; [done|]. apply searched_world in Hse as [Hg _]. apply Hg. }
  destruct (store_get_parts s es k (sst_hits tabs k) s' Hk) as (s'' & E' & Hs''); rewrite ?Z4, ?Hro, ?Hb; try done.
  - rewrite Z6. unfold sm_is_empty. by rewrite sm_iter_new.
  - intros id t. by rewrite Z5, sm_get_new.
  - intros Hn _. rewrite <- Hb. apply E. by rewrite Z4.
  - rewrite Z4, Hro, Hb in E'. exists s''. split; [exact E'|]. destruct Hs'' as [-> | ->]; congruence.
Qed.

Lemma open_disk_run keyspace root i j w es n lay :
  dir_len <> 0 -> is_valid_keyspace_name keyspace = true -> disk root i j (w_fs w) es n lay ->
  replay_size (drop (Datatypes.S n) es) < mt_capacity (mem_config config_default Bytes) ->
  exists s all, open parse_uuid dir_len keyspace root w = Ok s /\ restarted root i j w es n lay all s /\
    all ≡ₚ layout_tables (root ++ ["buckets"%string]) lay.
Proof.
  intros Hl Hk Hd Hs. pose proof Hd as [D1 D2 D3 D4 D5 D6 D7 D8 D9].
  destruct (meta_new_existing w (root ++ ["meta"%string]) i D1 D2) as (m & E1 & Hm & Hp & Hcr).
  destruct (vlog_new_existing (tick (tick w)) (root ++ ["v_log"%string]) j es D4 D5 D6 D7) as (v & E2 & Hj & Hv).
  destruct (recover_disk_run root i j (tick (tick w)) es n lay m v Hd Hm Hp Hcr Hj Hv Hs) as (mk & w' & all & E3 & Hr & Hall).
  exists (mk w'), all. split; [|split; [|done]].
  - unfold open. rewrite Hk. unfold create_or_recover. run_simpl. cbn [dp_val_log dp_meta dir_path_build].
    assert (path_exists (w_fs w) (root ++ ["v_log"%string]) = true) as -> by (unfold path_exists; by rewrite bool_decide_true).
    run E1. run E2. rewrite (bool_decide_false (dir_len = 0)) by done. cbn [negb orb]. cbn [dir_path_build dp_buckets] in E3. rewrite E3. reflexivity.
  - destruct Hr as [Z1 Z2 Z3 Z4 Z5 Z6 Z7 Z8 Z9 Z10 Z11 Z12]. split; try done. cbn in Z12. lia.
Qed.

(** The maps of a layout answer as those of the recovered tables. *)
Lemma disk_hit_perm es n (maps maps' : list (M SkipMapValue)) k :
  maps ≡ₚ maps' -> consistent (map_hits k maps) -> disk_hit es n maps k = disk_hit es n maps' k.
Proof.
  intros Hp Hnd. unfold disk_hit. destruct (after_head es n k); [done|]. by rewrite (best_hit_perm _ _ (map_hits_perm k _ _ Hp)).
Qed.

Lemma open_get_run keyspace root i j w es n lay maps :
  dir_len <> 0 -> is_valid_keyspace_name keyspace = true -> disk root i j (w_fs w) es n lay ->
  replay_size (drop (Datatypes.S n) es) < mt_capacity (mem_config config_default Bytes) ->
  (layout_tables (root ++ ["buckets"%string]) lay).*2 ≡ₚ maps ->
  exists s, open parse_uuid dir_len keyspace root w = Ok s /\ w_fs (ds_world s) = w_fs w /\
    forall k, answerable es n maps k -> exists s', store_get k s = (Ok (disk_view es n maps k), s') /\ w_fs (ds_world s') = w_fs w.
Proof.
  intros Hl Hk Hd Hs Hm. destruct (open_disk_run keyspace root i j w es n lay Hl Hk Hd Hs) as (s & all & E & Hr & Hall).
  exists s. split; [done|]. split; [apply Hr|]. intros k (Hv & Hnd & Hlog).
  assert (all.*2 ≡ₚ maps) as Hp by by rewrite Hall. pose proof (map_hits_perm k _ _ Hp) as Hh.
  assert (consistent (map_hits k all.*2)) as Hnd' by by rewrite Hh.
  destruct (restarted_get root i j w s es n lay all k Hr) as (s' & E' & F').
  - rewrite Hall. apply (te_nodup _ _ _ _ (dsk_tree _ _ _ _ _ _ _ Hd)).
  - split; [done|]. split; [done|]. by rewrite (best_hit_perm _ _ Hh Hnd').
  - exists s'. unfold disk_view. by rewrite <- (disk_hit_perm es n all.*2 maps k Hp Hnd').
Qed.

(** ** A flush before the crash *)
Lemma disk_flushed root i j w w' es n lay id x l f m t :
  let d := bucket_path (root ++ ["buckets"%string]) id ++ [x] in
  disk root i j (w_fs w) es n lay -> fs_wf (w_fs w) -> made_table w w' d l f m t ->
  tree parse_uuid (w_fs w') (root ++ ["buckets"%string]) (lay_add id (x, m) lay) ->
  disk root i j (w_fs w') es n (lay_add id (x, m) lay).
Proof.
  intros d [D1 D2 D3 D4 D5 D6 D7 D8 D9] Hwf Hmd Ht.
  assert (forall q, q ∈ dirs (w_fs w) -> q ∈ dirs (w_fs w')) as Hd by (intros q Hq; apply (md_dirs _ _ _ _ _ _ _ Hmd); by left).
  assert (forall p y, names (w_fs w) !! p = Some y -> content (w_fs w') y = content (w_fs w) y) as Hc.
  { intros p y Hp. apply (md_content _ _ _ _ _ _ _ Hmd). by eapply wf_inode. }
  split; try done.
  - by apply Hd.
  - by apply (md_names _ _ _ _ _ _ _ Hmd).
  - destruct D3 as [Z1 Z2|n m0 Z1 Z2 Z3 Z4 Z5]; [apply head_unset|eapply head_stored]; try done; by rewrite (Hc _ _ D2).
  - by apply Hd.
  - by apply (md_names _ _ _ _ _ _ _ Hmd).
  - by rewrite (Hc _ _ D5).
Qed.

(** ** Properties *)

(** [C8] Opening a directory that has a log, metadata and tables succeeds when the
    writes after the stored head fit one memtable, changes no file, and yields a
    store whose [get] answers from the files alone: with the last write of the
    key after the head, or else with the newest binding the tables have, read
    from the log. *)
Theorem reopen_reads_disk keyspace root i j w es n lay :
  dir_len <> 0 -> is_valid_keyspace_name keyspace = true -> disk root i j (w_fs w) es n lay ->
  replay_size (drop (Datatypes.S n) es) < mt_capacity (mem_config config_default Bytes) ->
  let maps := (layout_tables (root ++ ["buckets"%string]) lay).*2 in
  exists s, open parse_uuid dir_len keyspace root w = Ok s /\ w_fs (ds_world s) = w_fs w /\
    forall k, answerable es n maps k -> exists s', store_get k s = (Ok (disk_view es n maps k), s') /\ w_fs (ds_world s') = w_fs w.
Proof. intros Hl Hk Hd Hs maps. by apply (open_get_run keyspace root i j w es n lay maps). Qed.

(** [C7] A flush survives a crash: [flush] of a memtable with the map [m] succeeds
    and leaves the table on disk beside those that were there. When the process
    then dies and only the files remain, [open] succeeds, and [get] answers as
    the files say with [m] among the tables' maps: a key of the memtable that
    was not written after the stored head reads the newest of its flushed
    bindings. *)
Theorem flush_survives_crash keyspace root i j t d es n lay :
  let m := the_map (db_world d) (mt_entries t) in
  dir_len <> 0 -> is_valid_keyspace_name keyspace = true ->
  can_insert d -> (mt_entries t < w_next (db_world d))%nat -> storable m -> filter_ok (bloom_filter t) ->
  bm_dir (db_buckets d) = root ++ ["buckets"%string] -> bucket_dirs_ok parse_uuid (db_buckets d) ->
  plain parse_uuid (new_uuid (w_ticks (db_world d))) ->
  disk root i j (w_fs (db_world d)) es n lay ->
  replay_size (drop (Datatypes.S n) es) < mt_capacity (mem_config config_default Bytes) ->
  let maps := m :: (layout_tables (root ++ ["buckets"%string]) lay).*2 in
  exists d', flush t d = (Ok tt, d') /\
    forall w, w_fs w = w_fs (db_world d') ->
      exists s, open parse_uuid dir_len keyspace root w = Ok s /\
        forall k, answerable es n maps k -> exists s', store_get k s = (Ok (disk_view es n maps k), s') /\ w_fs (ds_world s') = w_fs w.
Proof.
  intros m Hl Hk Hci Hlt Hst Hf Hdir Hbd Hid Hd Hs maps.
  destruct (flush_tree parse_uuid t d lay Hci Hlt Hst) as (d' & w' & id & x & sst & E & Ew & Hmd & Ht' & _); try done.
  { rewrite Hdir. apply Hd. }
  rewrite Hdir in Hmd, Ht'. exists d'. split; [done|]. intros w Hw.
  destruct (open_get_run keyspace root i j w es n (lay_add id (x, m) lay) maps Hl Hk) as (s & E' & _ & Hg).
  - rewrite Hw, Ew. eapply disk_flushed; try done. apply Hci.
  - done.
  - by rewrite lay_add_tables.
  - by exists s.
Qed.
End reopen.

(** ** Witnesses *)
Ltac listed := by repeat (first [by left|right]).

Section reopen_witnesses.
#[local] Existing Instance demo_platform.
#[local] Existing Instance demo_env.
#[local] Existing Instance sorted_list_skipmap.

(** A log with one write, which the metadata's head is at, so that only a table
    can tell of it; no table yet *)
Definition demo_log : list ValueLogEntry := first_entries 1700000000000000000 ++ [log_entry [x61] [x31] 1700000000000000000].
Definition demo_stored_meta : Meta := mkMeta (mkFileNode ["meta"; "meta.bin"]%string 0 FMeta) 0 50 1700000000000000000 1700000000000000000.
Definition demo_disk_fs : FS :=
  mkFS {[ 0%nat := meta_serialize demo_stored_meta; 1%nat := log_bytes demo_log ]}
    {[ ["meta"; "meta.bin"]%string := 0%nat; ["v_log"; "val_log.bin"]%string := 1%nat ]}
    {[ []; ["meta"%string]; ["v_log"%string]; ["buckets"%string] ]} 2.
Definition demo_flush_db : Db slist :=
  mkDb (mkWorld demo_disk_fs {[ 0%nat := sm_insert [x61] (smv_new 50 1700000000000000000 false) sm_new ]} {[ 1%nat := replicate 16 true ]} 2 0)
    (mkBucketMap ["buckets"%string] []) key_range_new.

Lemma demo_dirs q : q ∈ dirs demo_disk_fs <-> q ∈ [[]; ["meta"%string]; ["v_log"%string]; ["buckets"%string]].
Proof. cbn [dirs demo_disk_fs]. rewrite !elem_of_union, !elem_of_singleton, !elem_of_cons, elem_of_nil. tauto. Qed.

Lemma demo_names q i : names demo_disk_fs !! q = Some i ->
  (q = ["meta"; "meta.bin"]%string /\ i = 0%nat) \/ (q = ["v_log"; "val_log.bin"]%string /\ i = 1%nat).
Proof. cbn [names demo_disk_fs]. intros [[<- <-]|[_ [<- <-]%lookup_singleton_Some]]%lookup_insert_Some; [by left|by right]. Qed.

Lemma demo_nothing q : names demo_disk_fs !! q = None \/ q = ["meta"; "meta.bin"]%string \/ q = ["v_log"; "val_log.bin"]%string.
Proof. destruct (names demo_disk_fs !! q) as [i|] eqn:E; [|by left]. right. apply demo_names in E as [[-> _]|[-> _]]; [by left|by right]. Qed.

Lemma demo_tree : tree (M := slist) Some demo_disk_fs ["buckets"%string] [].
Proof.
  assert (forall q p, parent q = "buckets"%string :: p -> names demo_disk_fs !! q = None /\ q ∉ dirs demo_disk_fs) as Hbelow.
  { intros q p Hq. split; [by destruct (demo_nothing q) as [?|[-> | ->]]|]. rewrite demo_dirs. intros Hin.
    repeat (apply elem_of_cons in Hin as [-> |Hin]; [done|]). by apply not_elem_of_nil in Hin. }
  split.
  - apply demo_dirs. listed.
  - intros q Hin Hq. rewrite demo_dirs in Hin |- *.
    repeat (apply elem_of_cons in Hin as [-> |Hin]; [by left|]). by apply not_elem_of_nil in Hin.
  - intros q Hq Hp. destruct (Hbelow q [] Hp). split; [done|]. split; [done|]. by intros (id & ?%not_elem_of_nil & _).
  - intros id q Hq Hp. destruct (Hbelow q _ Hp). split; [done|]. split; [done|]. by intros (x & ?%not_elem_of_nil & _).
  - by intros d m q ?%not_elem_of_nil.
  - by intros d m ?%not_elem_of_nil.
  - constructor.
  - constructor.
  - constructor.
Qed.

Lemma demo_disk : disk (M := slist) Some [] 0 1 demo_disk_fs demo_log 2 [].
Proof.
  split; [by apply demo_dirs; listed|reflexivity| |by apply demo_dirs; listed|reflexivity|reflexivity| |by eexists|exact demo_tree].
  - apply (head_stored _ _ _ _ demo_stored_meta); [reflexivity|reflexivity|by vm_compute|..]; repeat split; by vm_compute.
  - repeat constructor; try (by vm_compute).
Qed.

Lemma demo_fs_wf : fs_wf demo_disk_fs.
Proof. split; intros p i [[-> ->]|[-> ->]]%demo_names; [apply demo_dirs; listed..|cbn; lia|cbn; lia]. Qed.

Lemma demo_can_insert : can_insert demo_flush_db.
Proof.
  split; [split; [by apply Forall_nil|by apply NoDup_nil|by apply Forall_nil|by apply Forall_nil|exact demo_fs_wf]| |reflexivity].
  intros p n _. cbn [db_world demo_flush_db w_fs].
  assert (forall x, path_exists demo_disk_fs (p ++ [x]) = true -> x ∈ ["meta"; "v_log"; "buckets"; "meta.bin"; "val_log.bin"]%string) as Hx.
  { intros x. rewrite path_exists_spec. intros [Hin|[i Hin]].
    - rewrite demo_dirs in Hin. apply elem_of_cons in Hin as [E|Hin]; [by destruct p|].
      repeat (apply elem_of_cons in Hin as [[_ ->]%(snoc_inj p [])|Hin]; [listed|]). by apply not_elem_of_nil in Hin.
    - apply demo_names in Hin as [[[_ ->]%(snoc_inj p ["meta"%string]) _]|[[_ ->]%(snoc_inj p ["v_log"%string]) _]]; listed. }
  destruct (path_exists _ _) eqn:E; [|done]. apply Hx in E. unfold sst_dir_name in E.
  repeat (apply elem_of_cons in E as [E|E]; [discriminate E|]). by apply not_elem_of_nil in E.
Qed.

Lemma demo_answerable : answerable (M := slist) demo_log 2 [the_map (db_world demo_flush_db) (mt_entries demo_mem)] [x61].
Proof.
  split; [reflexivity|]. change (map_hits [x61] _) with [(50, 1700000000000000000, false)].
  split; [by intros h h' ->%list_elem_of_singleton ->%list_elem_of_singleton|].
  intros h _. change (best_hit _) with (Some (50, 1700000000000000000, false)). intros [= <-] _. by eexists.
Qed.

Lemma reopen_reads_disk_witness :
  exists s, open (M := slist) Some 4096 [x64; x62] [] (mkWorld demo_disk_fs ∅ ∅ 0 7) = Ok s /\
    exists s', store_get [x62] s = (Ok None, s').
Proof.
  destruct (reopen_reads_disk (M := slist) Some 4096 [x64; x62] [] 0 1 (mkWorld demo_disk_fs ∅ ∅ 0 7) demo_log 2 []) as (s & E & _ & Hg).
  - done.
  - reflexivity.
  - exact demo_disk.
  - by vm_compute.
  - exists s. split; [exact E|]. destruct (Hg [x62]) as (s' & E' & _); [|by exists s'].
    split; [reflexivity|]. change (map_hits [x62] _) with (@nil Hit). split; [exact (fun h h' Hin => False_ind _ (not_elem_of_nil h Hin))|]. by intros h.
Defined.

Lemma flush_survives_crash_witness :
  exists d', flush demo_mem demo_flush_db = (Ok tt, d') /\
    exists s, open (M := slist) Some 4096 [x64; x62] [] (mkWorld (w_fs (db_world d')) ∅ ∅ 0 9) = Ok s /\
      exists s', store_get [x61] s = (Ok (Some (mkUserEntry [x31] 1700000000000000000)), s').
Proof.
  destruct (flush_survives_crash (M := slist) Some 4096 [x64; x62] [] 0 1 demo_mem demo_flush_db demo_log 2 []) as (d' & E & Ho).
  - done.
  - reflexivity.
  - exact demo_can_insert.
  - cbn. lia.
  - split; [by vm_compute|repeat constructor; vm_compute; done|by vm_compute].
  - vm_compute. repeat split; discriminate.
  - reflexivity.
  - by intros id b.
  - vm_compute. auto.
  - exact demo_disk.
  - by vm_compute.
  - exists d'. split; [exact E|]. destruct (Ho (mkWorld (w_fs (db_world d')) ∅ ∅ 0 9) eq_refl) as (s & Es & Hg).
    exists s. split; [exact Es|]. destruct (Hg [x61] demo_answerable) as (s' & E' & _). exists s'. exact E'.
Defined.
End reopen_witnesses.
