(* ===== verification/System.v ===== *)
(** * The store and its background tasks as one system

    Clients call the store while the tasks it spawned run in between: entries
    are inserted into the collector's memtable, the log head and the metadata
    are passed on, read-only memtables are flushed. [sys_step] interleaves them
    in any order. [may_run] restricts the tasks: a memtable is flushed only when
    no older one is left and its table gets a directory of its own, and an entry
    goes to a collector table that is a clone of a reader's only while it is the
    current one there. [spaced_call] restricts the writes: a key is not written
    twice in one millisecond with a rotation between. What happens otherwise is
    [flush_order_loses_newer], [gc_insert_reverts] and [same_millisecond_tie].
    Under [sys_inv], which a newly opened store satisfies ([opened_sys]), the
    system answers every call as a key-value map does, whatever the interleaving
    ([sys_run_inv]), and its task queue drains. *)

From stdpp Require Import prelude gmap strings pretty list sorting.
From Stdlib Require Import Strings.Byte ZArith Lia.
From S2P Require Import Prelude Consts SkipMap FileIO Types World VLog Block Index Bloom SSTable Meta MemTable.
From S2P Require Import KeyRange RangeSearch Bucket Flush Compaction Config Store StoreInv StoreSpec FlushSpec SysInv Recovery.
Open Scope Z_scope.

(** No table directory is named like the strings of a literal list. *)
Ltac not_sst := let t := fresh "t" in let Hx := fresh "Hx" in intros t Hx; unfold sst_dir_name in Hx;
  repeat (apply elem_of_cons in Hx as [Hx|Hx]; [discriminate Hx|]); by apply not_elem_of_nil in Hx.

Section system.
Context `{Env} {M : Type -> Type} `{SkipMap M} (N : nat).
Abbreviation W := (World M).
Abbreviation S := (DataStore M).
Implicit Types (s : S) (w : W) (tabs : list (Range * M SkipMapValue)) (es : list ValueLogEntry).

(** ** The system *)
Inductive Label :=
  | LCall (op : Op) (r : outcome Error Resp)
  | LTask (x : Task).

(** When a task may run: a flush in age order, while log offsets fit the tables'
    32 bits and no directory is named after the current millisecond, and an
    insertion for the collector only while it repeats what the readers' tables
    have. *)
Definition may_run s (x : Task) : Prop :=
  match x with
  | TGcInsert h e => gc_may_insert s h e
  | TFlush id t => oldest s id t /\ vlog_size (val_log s) <= 2 ^ 32 /\ fresh_dirs (2 + w_ticks (ds_world s)) (ds_db s)
  | _ => True
  end.

(** One step: a client call, or a task of the queue; what a task returns is ignored. *)
Inductive sys_step : S -> Label -> S -> Prop :=
  | step_call s op : call_ok op -> spaced_call s op -> sys_step s (LCall op (exec op s).1) (exec op s).2
  | step_task s l1 x l2 :
      tasks s = l1 ++ x :: l2 -> may_run s x -> sys_step s (LTask x) (run_task x (with_tasks s (l1 ++ l2))).2.

Inductive sys_run : S -> list Label -> S -> Prop :=
  | run_nil s : sys_run s [] s
  | run_cons s1 l s2 tr s3 : sys_step s1 l s2 -> sys_run s2 tr s3 -> sys_run s1 (l :: tr) s3.

(** The calls of a run and what they returned *)
Definition calls (tr : list Label) : list Op := omap (fun l => match l with LCall op _ => Some op | _ => None end) tr.
Definition answers (tr : list Label) : list (outcome Error Resp) := omap (fun l => match l with LCall _ r => Some r | _ => None end) tr.

(** What one task step does *)
Lemma task_step_run s es tabs ids m l1 x l2 :
  orderly_env N -> sys_inv N s es tabs ids -> represents N s es tabs m -> (w_ticks (ds_world s) + 4 <= N)%nat ->
  tasks s = l1 ++ x :: l2 -> may_run s x ->
  exists s' tabs' ids', run_task x (with_tasks s (l1 ++ l2)) = (Ok tt, s') /\ represents N s' es tabs' m /\ sys_inv N s' es tabs' ids' /\
    tasks s' = l1 ++ l2 /\
    read_only_memtables s' = match x with TFlush id _ => sm_remove id (read_only_memtables s) | _ => read_only_memtables s end /\
    (w_ticks (ds_world s) <= w_ticks (ds_world s') <= w_ticks (ds_world s) + 3)%nat /\ val_log s' = val_log s /\
    match x with
    | TFlush id t => exists r, flushed (with_tasks s (l1 ++ l2)) id t tabs s' tabs' r
    | _ => tabs' = tabs /\ calm s s'
    end /\ forall b, fresh_dirs b (ds_db s) -> fresh_dirs b (ds_db s').
Proof.
  intros Ho Hs Hr HN Et Hmay.
  assert ((exists id t, x = TFlush id t) \/ forall id t, x <> TFlush id t) as [(id & t & ->)|Hx] by (destruct x; eauto).
  { destruct Hmay as (Hold & Hlog & Hfr). destruct (flush_sys N s es tabs ids m l1 id t l2 Ho Hs Hr HN Et Hold Hlog Hfr) as (s' & tabs' & E).
    by exists s', tabs', (filter (.≠ id) ids). }
  pose proof (drop_task_inv N s es tabs ids l1 x l2 Et Hx Hs) as Hs0. pose proof (qo_meta _ _ _ (sy_queue _ _ _ _ _ Hs)) as Q5.
  destruct (small_task_run N (with_tasks s (l1 ++ l2)) es tabs ids x Hs0 Hx) as (s' & E & Hu & El & Hs' & Et' & Htk).
  { intros m' ->. apply Q5. rewrite Et. set_solver. }
  { intros rs ->. apply (sy_spares _ _ _ _ _ Hs). rewrite Et. apply elem_of_app. right. by left. }
  { by intros h e ->. }
  change (ds_world (with_tasks s (l1 ++ l2))) with (ds_world s) in Htk.
  assert (calm s s') as Hc by by destruct Hu.
  exists s', tabs, ids. split; [done|]. split; [split; [apply Hs'|]|].
  - intros k Hk. unfold store_view. rewrite (calm_hit _ _ _ _ Hc). by apply Hr.
  - split; [done|]. split; [done|]. split; [|split; [lia|split; [done|split]]].
    + rewrite (cm_ro _ _ Hc). by destruct x; [..|destruct (Hx id t)|].
    + by destruct x; [..|destruct (Hx id t)|].
    + intros b. by apply fresh_dirs_calm.
Qed.

Lemma sys_run_inv tr s s' es tabs ids m :
  orderly_env N -> sys_run s tr s' -> sys_inv N s es tabs ids -> represents N s es tabs m ->
  (w_ticks (ds_world s) + 8 * length tr + 9 <= N)%nat ->
  answers tr = Ok <$> (kv_run m (calls tr)).1 /\
  exists es' tabs' ids', sys_inv N s' es' tabs' ids' /\ represents N s' es' tabs' (kv_run m (calls tr)).2 /\
    (w_ticks (ds_world s') <= w_ticks (ds_world s) + 8 * length tr)%nat.
Proof.
  intros Ho Hrun. revert es tabs ids m. induction Hrun as [s|s1 l s2 tr s3 Hst Hrun IH]; intros es tabs ids m Hs Hr HN.
  { split; [done|]. exists es, tabs, ids. split; [done|]. split; [done|lia]. }
  cbn [length] in HN. destruct Hst as [s op Hop Hsp|s l1 x l2 Et Hmay].
  - destruct (exec_sys N s es tabs ids m op Ho Hs Hr ltac:(lia) Hop Hsp) as (s' & es' & tabs' & ids' & E & R & Hs' & Ht & _). rewrite E in *. cbn [fst snd] in *.
    destruct (IH es' tabs' ids' _ Hs' R ltac:(lia)) as (Ha & es2 & tabs2 & ids2 & Hs2 & R2 & T2). cbn [calls answers omap list_omap].
    fold (calls tr) (answers tr). split; [|exists es2, tabs2, ids2; rewrite kv_run_cons; split; [done|]; split; [done|cbn; lia]].
    rewrite Ha. cbn [kv_run]. destruct (kv_step m op) as [r m1]. cbn [fst snd]. by destruct (kv_run m1 (calls tr)).
  - destruct (task_step_run s es tabs ids m l1 x l2 Ho Hs Hr ltac:(lia) Et Hmay) as (s' & tabs' & ids' & E & R & Hs' & _ & _ & Ht & _).
    rewrite E in *. cbn [fst snd] in *. destruct (IH es tabs' ids' m Hs' R ltac:(lia)) as (Ha & es2 & tabs2 & ids2 & Hs2 & R2 & T2).
    split; [done|]. exists es2, tabs2, ids2. split; [done|]. split; [done|cbn; lia].
Qed.

(** ** A newly opened system *)

(** The entries of the first memtable *)
Lemma opened_iter root w t s :
  opened root w t s -> sm_iter (the_map (ds_world s) (mt_entries (active_memtable s))) =
    [(HEAD_ENTRY_KEY, smv_new 25 t false); (TAIL_ENTRY_KEY, smv_new 0 t false)].
Proof.
  intros Ho. apply sorted_kfind_ext; [apply sm_iter_sorted|by repeat constructor|]. intros k. rewrite <- sm_get_iter.
  pose proof (oe_lookup _ _ _ _ Ho k) as Hk. unfold mem_lookup in Hk. rewrite Hk. cbn. by repeat case_decide.
Qed.

Lemma opened_disk root w t s : opened root w t s -> disk_ok N s [].
Proof.
  intros [(a & v & m & l & w' & ->) [F1 (F2 & F3 & F4) F5] _ _ _ _]. cbn in *. split; cbn; try done.
  split; cbn; [by apply Forall_nil|by apply NoDup_nil|by apply Forall_nil|by apply Forall_nil|done].
Qed.

Lemma opened_sys root w t s es :
  orderly_env N -> opened root w t s -> (w_ticks w + 5 < N)%nat -> store_inv N s es [] -> sys_inv N s es [] [].
Proof.
  intros Ho Hop HN Hi. pose proof (opened_iter _ _ _ _ Hop) as Hit. pose proof (opened_disk _ _ _ _ Hop) as Hd.
  destruct Hop as [Hparts [_ (F2 & F3 & _) _] Hl Htime Hsz Hcf].
  assert (read_only_memtables s = sm_new /\ gc_tables s = {[ 0%nat := active_memtable s ]} /\ tasks s = [] /\ flush_stream s = ∅) as (Er & Eg & Et & Ef)
    by (destruct Hparts as (a & v & m & l & w' & ->); done).
  assert (forall id x, sm_get id (read_only_memtables s) = Some x -> False) as Hro by (intros id x; by rewrite Er, sm_get_new).
  assert (forall k v, mem_lookup (ds_world s) (active_memtable s) k = Some v -> smv_created_at v = t) as Hst.
  { intros k v. rewrite Hl. repeat case_decide; by intros [= <-]. }
  split; try done.
  - split; try (by intros id x ?%Hro); try done.
    + intros id. split; [by intros ?%not_elem_of_nil|]. by intros [x ?%Hro].
    + constructor.
    + intros x [->|[id ?%Hro]]; [|done]. intros k v Hv. unfold stamp. rewrite (Hst k v Hv), Htime. apply (env_start _ Ho). lia.
    + by intros k h x v _ ?%not_elem_of_nil.
    + by intros k _ h h' ?%not_elem_of_nil.
  - split; rewrite ?Hcf, ?Hsz.
    + by vm_compute.
    + split; rewrite Hit, ?Hsz; [|done]. assert (valid_time t) as Hv by (rewrite Htime; apply clock_valid). repeat (apply Forall_cons; split; [split; [done|split; [by vm_compute|done]]|]). by apply Forall_nil.
    + by vm_compute.
    + by intros id x ?%Hro.
  - split; rewrite Eg.
    + intros h g [<- <-]%lookup_singleton_Some. right. exists (active_memtable s). split; [by left|apply twin_refl].
    + intros h h' g g' Hne [<- <-]%lookup_singleton_Some [<- <-]%lookup_singleton_Some. done.
  - split; rewrite ?Et, ?Ef.
    + by intros id x ?%not_elem_of_nil.
    + by exists O.
    + by intros id ?%not_elem_of_nil.
    + intros n _. apply not_elem_of_empty.
    + by intros m ?%not_elem_of_nil.
  - split; [done..|by intros p ?%not_elem_of_nil|by intros p i ?%not_elem_of_nil].
  - intros rs. rewrite Et. by intros ?%not_elem_of_nil.
Qed.

(** ** Draining the queue *)

(** On every way on, [P] holds sooner or later, and until then there is a way on. *)
Inductive eventually {A} (step : A -> A -> Prop) (P : A -> Prop) : A -> Prop :=
  | ev_now a : P a -> eventually step P a
  | ev_later a : (exists b, step a b) -> (forall b, step a b -> eventually step P b) -> eventually step P a.

Definition task_step s s' : Prop := exists x, sys_step s (LTask x) s'.

(** No pending insertion goes to a clone of a table that readers consult. *)
Definition no_shared_insert s : Prop :=
  forall h e g t, TGcInsert h e ∈ tasks s -> gc_tables s !! h = Some g -> in_mem s t -> mt_entries g <> mt_entries t.

(** A task moves no memtable. *)
Lemma mem_insert_entries t e w t' w' : mem_insert t e w = (Ok t', w') -> mt_entries t' = mt_entries t.
Proof.
  unfold mem_insert, mbind, io_bind. destruct (bf_contains _ _ w) as [[b| |] w1]; [|done|done].
  destruct b; cbn [negb]; [by intros [= <- _]|]. destruct (bf_set _ _ w1) as [[f| |] w2]; [|done|done]. by intros [= <- _].
Qed.

Lemma run_task_keeps x s s' :
  run_task x s = (Ok tt, s') -> active_memtable s' = active_memtable s /\
  forall h g', gc_tables s' !! h = Some g' -> exists g, gc_tables s !! h = Some g /\ mt_entries g' = mt_entries g.
Proof.
  destruct x as [h e|o|m|id t|rs]; cbn [run_task].
  - destruct (gc_tables s !! h) as [g|] eqn:Hg; [|intros [= <-]; by eauto].
    unfold mbind, io_bind, in_world, in_db, on_world. destruct (mem_insert g e _) as [[g'| |] w'] eqn:E; [|done|done]. intros [= <-].
    split; [done|]. intros h' x. cbn. intros [[<- <-]|[_ Hx]]%lookup_insert_Some; [|by eauto]. exists g. split; [done|]. by eapply mem_insert_entries.
  - intros [= <-]. by eauto.
  - unfold in_world, in_db, on_world. destruct (meta_write m _) as [o w']. intros [= _ <-]. by eauto.
  - unfold in_db. destruct (flush t (ds_db s)) as [[[]| |] d]; intros [= <-]; by eauto.
  - intros [= <-]. by eauto.
Qed.

Lemma no_shared_kept s l1 x l2 s' :
  tasks s = l1 ++ x :: l2 -> run_task x (with_tasks s (l1 ++ l2)) = (Ok tt, s') -> tasks s' = l1 ++ l2 ->
  (forall t, in_mem s' t -> in_mem s t) -> no_shared_insert s -> no_shared_insert s'.
Proof.
  intros Et E Et' Hmem Hns h e g t Hin Hg Ht. destruct (run_task_keeps _ _ _ E) as [_ Hk]. destruct (Hk h g Hg) as (g0 & Hg0 & ->).
  eapply (Hns h e); [|exact Hg0|by apply Hmem]. rewrite Et' in Hin. rewrite Et. set_solver.
Qed.

(** Some pending task may run. *)
Lemma task_enabled s es tabs ids :
  sys_inv N s es tabs ids -> no_shared_insert s -> vlog_size (val_log s) <= 2 ^ 32 -> fresh_dirs (2 + w_ticks (ds_world s)) (ds_db s) -> tasks s <> [] ->
  exists l1 x l2, tasks s = l1 ++ x :: l2 /\ may_run s x.
Proof.
  intros Hs Hns Hlog Hfr Hne. destruct (tasks s) as [|x l] eqn:Et; [done|]. destruct x as [h e|o|m|id t|rs]; try (eexists [], _, l; split; [reflexivity|exact I]).
  - exists [], (TGcInsert h e), l. split; [done|]. intros g t Hg Ht Ee. exfalso. apply (Hns h e g t); try done. rewrite Et. by left.
  - destruct (sy_queue _ _ _ _ _ Hs) as [Q1 [n Qn] _ _ _]. destruct (sy_layered _ _ _ _ _ Hs) as [L1 L2 _ _ _ _ _].
    rewrite Et in Qn. change (flush_ids (TFlush id t :: l)) with (id :: flush_ids l) in Qn.
    destruct ids as [|i ids]; [by rewrite take_nil in Qn; apply Permutation_nil_r in Qn|]. destruct n as [|n]; [by apply Permutation_nil_r in Qn|].
    assert (i ∈ flush_ids (tasks s)) as [u Hu]%flush_ids_elem by (rewrite Et; change (i ∈ id :: flush_ids l); rewrite Qn; by left).
    pose proof (Q1 _ _ Hu) as Hget. rewrite Et in Hu. apply list_elem_of_split in Hu as (l1 & l2 & El). exists l1, (TFlush i u), l2. split; [done|].
    split; [|by split]. intros j y Hne' Hy. apply StronglySorted_inv in L2 as [_ Hall]. rewrite Forall_forall in Hall.
    assert (j ∈ i :: ids) as [?|Hj]%elem_of_cons by (apply L1; by eexists); [done|]. by apply (proj2 (Hall j Hj) u y).
Qed.

Lemma drain_run n b s es tabs ids m (F : list (list byte)) ro0 :
  orderly_env N -> sys_inv N s es tabs ids -> represents N s es tabs m -> no_shared_insert s -> vlog_size (val_log s) <= 2 ^ 32 ->
  fresh_dirs b (ds_db s) -> length (tasks s) = n -> (w_ticks (ds_world s) + 3 * n <= b)%nat -> (b + 4 <= N)%nat ->
  (forall id, sm_get id (read_only_memtables s) = if decide (id ∈ F /\ id ∉ flush_ids (tasks s)) then None else sm_get id ro0) ->
  (forall id, id ∈ flush_ids (tasks s) -> id ∈ F) ->
  eventually task_step (fun s' => tasks s' = [] /\ (forall id, sm_get id (read_only_memtables s') = if decide (id ∈ F) then None else sm_get id ro0) /\
    exists tabs', represents N s' es tabs' m) s.
Proof.
  intros Ho. revert s tabs ids. induction n as [|n IH]; intros s tabs ids Hs Hr Hns Hlog Hfr Hlen Hb HN Hro Hsub.
  { apply ev_now. apply nil_length_inv in Hlen. rewrite Hlen in Hro. split; [done|]. split; [|by exists tabs].
    intros id. rewrite Hro. change (flush_ids []) with (@nil (list byte)). repeat case_decide; try done; exfalso; set_solver. }
  apply ev_later.
  - destruct (task_enabled s es tabs ids Hs Hns Hlog) as (l1 & x & l2 & Et & Hmay); [eapply fresh_dirs_shorter; [|exact Hfr]; lia|by intros E; rewrite E in Hlen|].
    eexists _, x. by apply (step_task s l1 x l2).
  - intros s' [x Hst]. inversion Hst as [|s0 l1 x0 l2 Et Hmay]; subst.
    destruct (task_step_run s es tabs ids m l1 x l2 Ho Hs Hr ltac:(lia) Et Hmay) as (s' & tabs' & ids' & E & R & Hs' & Et' & Er & Htk & Ev & _ & Hfr').
    rewrite E. cbn [snd]. destruct (run_task_keeps _ _ _ E) as [Ea _]. cbn in Ea.
    assert (forall t, in_mem s' t -> in_mem s t) as Hmem.
    { intros t [->|[i Hi]]; [left; done|]. right. exists i. rewrite Er in Hi. destruct x; try done. rewrite sm_get_remove in Hi. by case_decide. }
    rewrite Et, length_app in Hlen. cbn in Hlen. eapply IH; try done.
    + by eapply no_shared_kept.
    + by rewrite Ev.
    + by apply Hfr'.
    + rewrite Et', length_app. lia.
    + lia.
    + intros i. rewrite Er, Et'. specialize (Hro i).
      assert ((exists id t, x = TFlush id t) \/ forall id t, x <> TFlush id t) as [(id & t & ->)|Hx] by (destruct x; eauto).
      * destruct (queue_flush N s ids l1 id t l2 (sy_queue _ _ _ _ _ Hs)) as (Q0 & _ & Qi); [by eapply older_NoDup, (ly_sorted _ _ _ (sy_layered _ _ _ _ _ Hs))|done|].
        rewrite sm_get_remove. destruct (decide (i = id)) as [->|Hne].
        -- rewrite decide_True; [done|]. split; [|done]. apply Hsub. rewrite Et, flush_ids_app. apply elem_of_app. right. by left.
        -- rewrite Hro. by apply decide_ext; rewrite Qi.
      * assert (flush_ids (tasks s) = flush_ids (l1 ++ l2)) as <-; [|by destruct x; [..|destruct (Hx id t)|]].
        rewrite Et, !flush_ids_app. f_equal. by destruct x; [..|destruct (Hx id t)|].
    + intros id. rewrite Et', flush_ids_app. intros Hin. apply Hsub. rewrite Et, flush_ids_app, elem_of_app in *.
      destruct Hin as [?|?]; [by left|right]. destruct x; try done. by right.
Qed.

(** ** Properties *)

End system.

(** ** Runs of a script

    A script lists calls and positions in the task queue. [play] runs it and
    checks at each move what [sys_step] asks for. *)
Inductive Move := MCall (op : Op) | MTask (i : nat).

Section script.
Context `{Env} {M : Type -> Type} `{SkipMap M}.
Implicit Types (s : DataStore M).

(** The tests of the side conditions *)
Definition short_keyb (op : Op) : bool :=
  match op with OpPut k _ | OpUpdate k _ | OpDelete k => bool_decide (zlen k + 17 <= BLOCK_SIZE) | OpGet _ => true end.
Definition op_okb (op : Op) : bool :=
  match op with
  | OpPut k val | OpUpdate k val => match validate_size k (Some val) with
      | Ok _ => utf8_valid val && bool_decide (zlen val <= max_buf_size /\ zlen val < 2 ^ 32) && bool_decide (k <> HEAD_ENTRY_KEY)
      | _ => false
      end
  | OpDelete k | OpGet k => match validate_size k None with Ok _ => bool_decide (k <> HEAD_ENTRY_KEY) | _ => false end
  end.

Definition spaced_callb s (op : Op) : bool :=
  match op with
  | OpPut k _ | OpUpdate k _ | OpDelete k => forallb (fun t => bool_decide (t < trunc_ms (clock (w_ticks (ds_world s))))) (versions_below s k)
  | OpGet _ => true
  end.

Definition mem_tables s : list MemTable := active_memtable s :: (sm_iter (read_only_memtables s)).*2.

Definition olderb (w : World M) (t t' : MemTable) : bool :=
  forallb (fun p => bool_decide (p.1 = HEAD_ENTRY_KEY) || match mem_lookup w t' p.1 with Some v' => bool_decide (stamp p.2 < stamp v') | None => true end)
    (sm_iter (the_map w (mt_entries t))).

Definition may_runb s (x : Task) : bool :=
  match x with
  | TGcInsert h e => match gc_tables s !! h with
      | Some g => forallb (fun t => negb (mt_entries g =? mt_entries t)%nat || bool_decide (mem_lookup (ds_world s) t (e_key e) = Some (value_of e))) (mem_tables s)
      | None => true
      end
  | TFlush id t => forallb (fun p => bool_decide (p.1 = id) || olderb (ds_world s) t p.2) (sm_iter (read_only_memtables s)) &&
      bool_decide (vlog_size (val_log s) <= 2 ^ 32) && fresh_dirsb (2 + w_ticks (ds_world s)) (ds_db s)
  | _ => true
  end.

Definition call_okb (op : Op) : bool := op_okb op && short_keyb op.

Lemma call_okb_spec op : call_okb op = true -> call_ok op.
Proof.
  unfold call_okb, call_ok. intros [E1 E2]%andb_true_iff. split.
  - assert (forall k val, op_okb (OpPut k val) = true -> writable k val /\ k <> HEAD_ENTRY_KEY) as Hw.
    { intros k val Hb. cbn in Hb. destruct (validate_size k (Some val)) as [[]| |] eqn:E; [|done..].
      rewrite !andb_true_iff, !bool_decide_eq_true in Hb. destruct Hb as ((U & R & L) & K). split; [|done]. split; [done..|]. unfold is_u32. pose proof (zlen_nonneg val). lia. }
    destruct op; [by apply Hw..| |]; cbn in *; destruct (validate_size _ None) as [[]| |]; try done; by apply bool_decide_eq_true in E1.
  - destruct op; cbn in *; try done; by apply bool_decide_eq_true in E2.
Qed.

Lemma spaced_callb_spec s op : spaced_callb s op = true -> spaced_call s op.
Proof. destruct op; try done; cbn; unfold spaced; rewrite forallb_forall, Forall_forall; intros Hs x Hx%list_elem_of_In; exact (bool_decide_eq_true_1 _ (Hs x Hx)). Qed.

Lemma mem_tables_elem s t : in_mem s t -> t ∈ mem_tables s.
Proof.
  unfold mem_tables. intros [->|[id Ht]]; [by left|]. right. apply list_elem_of_fmap. exists (id, t). split; [done|]. by apply sm_elem.
Qed.

Lemma olderb_spec w t t' : olderb w t t' = true -> older w t t'.
Proof.
  unfold olderb. rewrite forallb_forall. intros Ho k v v' Hk Hv Hv'.
  specialize (Ho (k, v) (proj1 (list_elem_of_In _ _) (proj2 (sm_elem _ _ _) Hv))). cbn in Ho. rewrite bool_decide_false, Hv' in Ho by done.
  by apply bool_decide_eq_true in Ho.
Qed.

Lemma may_runb_spec s x : may_runb s x = true -> may_run s x.
Proof.
  destruct x as [h e| | |id t|]; try done; cbn [may_runb may_run].
  - intros Hm g t Hg Ht%mem_tables_elem%list_elem_of_In Ee. rewrite Hg in Hm. apply (proj1 (forallb_forall _ _)) with (x := t) in Hm; [|done].
    rewrite Ee, Nat.eqb_refl in Hm. by apply bool_decide_eq_true in Hm.
  - rewrite !andb_true_iff, forallb_forall, bool_decide_eq_true. intros ((Hold & Hlog) & Hfr). split; [|split; [done|by apply fresh_dirsb_spec]].
    intros i x Hne Hx. specialize (Hold (i, x) (proj1 (list_elem_of_In _ _) (proj2 (sm_elem _ _ _) Hx))).
    rewrite bool_decide_false in Hold by done. by apply olderb_spec.
Qed.

(** ** Playing *)
Definition play_move (v : Move) s : option (Label * DataStore M) :=
  match v with
  | MCall op => if call_okb op && spaced_callb s op then let '(r, s') := exec op s in Some (LCall op r, s') else None
  | MTask i => x ← tasks s !! i;
      if may_runb s x then Some (LTask x, (run_task x (with_tasks s (take i (tasks s) ++ drop (S i) (tasks s)))).2) else None
  end.

Fixpoint play (vs : list Move) s : option (list Label * DataStore M) :=
  match vs with
  | [] => Some ([], s)
  | v :: vs' => '(l, s1) ← play_move v s; '(tr, s2) ← play vs' s1; Some (l :: tr, s2)
  end.

Definition moves_calls (vs : list Move) : list Op := omap (fun v => match v with MCall op => Some op | MTask _ => None end) vs.

Lemma play_move_step v s l s' : play_move v s = Some (l, s') -> sys_step s l s'.
Proof.
  destruct v as [op|i]; cbn.
  - destruct (call_okb op && spaced_callb s op) eqn:E; [|done]. apply andb_true_iff in E as [E1 E2]. destruct (exec op s) as [r s0] eqn:Ex. intros [= <- <-].
    pose proof (step_call s op (call_okb_spec op E1) (spaced_callb_spec s op E2)) as Hst. by rewrite Ex in Hst.
  - destruct (tasks s !! i) as [x|] eqn:Ei; [|done]. cbn. destruct (may_runb s x) eqn:E; [|done]. intros [= <- <-].
    apply step_task; [by rewrite take_drop_middle|by apply may_runb_spec].
Qed.

Lemma play_run vs s tr s' :
  play vs s = Some (tr, s') -> sys_run s tr s' /\ calls tr = moves_calls vs /\ length tr = length vs.
Proof.
  revert s tr. induction vs as [|v vs IH]; intros s tr; cbn; [intros [= <- <-]; by repeat constructor|].
  destruct (play_move v s) as [[l s1]|] eqn:E; [|done]. cbn. destruct (play vs s1) as [[tr' s2]|] eqn:E'; [|done]. intros [= <- <-].
  destruct (IH _ _ E') as (R & C & L). split; [econstructor; [by eapply play_move_step|done]|]. split; [|cbn; by rewrite L].
  unfold calls, moves_calls in *. destruct v as [op|i]; cbn in E.
  - destruct (call_okb op && spaced_callb s op); [|done]. destruct (exec op s). injection E as <- <-. cbn. by rewrite C.
  - destruct (tasks s !! i); [|done]. cbn in E. destruct (may_runb s _); [|done]. by injection E as <- <-.
Qed.

(** The state after a script, and whether every move was allowed *)
Definition played (vs : list Move) s : DataStore M := default s (snd <$> play vs s).
Definition playable (vs : list Move) s : bool := match play vs s with Some _ => true | None => false end.

Lemma played_run vs s : playable vs s = true -> exists tr, sys_run s tr (played vs s) /\ calls tr = moves_calls vs /\ length tr = length vs.
Proof.
  unfold playable, played. destruct (play vs s) as [[tr s']|] eqn:E; [|done]. intros _. exists tr. by apply play_run.
Qed.
End script.

(** ** Witnesses *)
Section system_witnesses.
#[local] Existing Instance demo_platform.
#[local] Existing Instance demo_env.
#[local] Existing Instance sorted_list_skipmap.

Lemma demo_trunc n : (n < 1000)%nat -> trunc_ms (clock n) = 1700000000000000000 + Z.of_nat n * 1000000.
Proof.
  intros Hn. rewrite trunc_ms_mod. cbn. rewrite Z.min_l by lia.
  replace (1700000000000000000 + Z.of_nat n * 1000000) with ((1700000000000 + Z.of_nat n) * 1000000) by lia. rewrite Z_mod_mult. lia.
Qed.

Lemma demo_orderly_env : orderly_env 1000.
Proof.
  split.
  - exact demo_orderly.
  - intros n Hn. rewrite demo_trunc by done. unfold default_datetime. lia.
  - intros n m Hn E. change (uuid_of m = uuid_of n) in E. unfold uuid_of in E. apply (inj (String.append "id")), (inj pretty) in E. lia.
Qed.

(** An open store with small memtables; the collector has a table of its own on
    locations 3 and 4. *)
Definition demo_meta_path : list string := ["meta"%string; "meta.bin"%string].
Definition demo_sys_world : World slist :=
  mkWorld (mkFS {[ 0%nat := []; 1%nat := [] ]} {[ file_path demo_log_node := 0%nat; demo_meta_path := 1%nat ]}
             {[ []; ["v_log"%string]; ["meta"%string]; ["buckets"%string] ]} 2)
    {[ 0%nat := sm_new; 2%nat := sm_new; 3%nat := sm_new ]} {[ 1%nat := replicate 16 true; 4%nat := replicate 16 true ]} 5 0.
Definition demo_gc_table : MemTable :=
  mkMem 3 (mkBF None 3 1 4 0 None) 0 0 false (entry_new [] 0 0 false) (mkMemConfig 0 100 Bytes).
Definition demo_sys : DataStore slist :=
  mkDS (mkDb demo_sys_world (mkBucketMap ["buckets"%string] []) key_range_new) (demo_active 100)
    (mkVLog demo_log_node 0 0 0) (mkMeta (mkFileNode demo_meta_path 1 FMeta) 0 0 0 0) sm_new 2 {[ 0%nat := demo_gc_table ]} 0
    (mkVLog demo_log_node 0 0 0) (mkPunch 0 0) ∅ (demo_config 2) false [] 0 1000.

Lemma demo_sys_inv : sys_inv 1000 demo_sys [] [] [].
Proof.
  assert (store_inv 1000 demo_sys [] []) as Hi.
  { destruct (demo_store_inv 100 2 ltac:(lia)) as [? ? ? [] ? ? ? ? ? ? ? ? ?]. split; try done; cbn; try lia. }
  split; [done|..].
  - split; try done.
    + intros id. split; [by intros ?%not_elem_of_nil|by intros []].
    + constructor.
    + intros t [->|[id Ht]]; [|done]. intros k v Hv. done.
    + by intros k h t v _ ?%not_elem_of_nil.
    + by intros k _ h h' ?%not_elem_of_nil.
  - split; try done; cbn.
    + split; [by apply Forall_nil|by apply NoDup_nil|by apply Forall_nil|by apply Forall_nil|].
      split; cbn [w_fs demo_sys_world names dirs next_inode]; intros p i [[<- <-]|[_ [<- <-]%lookup_singleton_Some]]%lookup_insert_Some; lia || set_solver.
    + lia.
  - split; [by vm_compute| |by vm_compute|done]. split; [by apply Forall_nil|by vm_compute].
  - split; change (gc_tables demo_sys) with ({[ 0%nat := demo_gc_table ]} : gmap nat MemTable).
    + intros h g [<- <-]%lookup_singleton_Some. left. split; [|cbn; lia|done|].
      * split; [by right; vm_compute|]. by intros k [].
      * intros t [->|[id Ht]]; done.
    + intros h h' g g' Hne [<- <-]%lookup_singleton_Some [<- <-]%lookup_singleton_Some. done.
  - split; cbn; try (by intros ? ?%not_elem_of_nil); try (by intros ? ? ?%not_elem_of_nil).
    + by exists O.
    + intros n _. apply not_elem_of_empty.
  - split; cbn; [done|lia|by intros p ?%not_elem_of_nil|by intros p i ?%not_elem_of_nil].
  - intros rs. by intros ?%not_elem_of_nil.
Qed.

(** Enough writes to make both memtables of the limit read-only *)
Definition drain_ops : list Op := fill_table [x61] [x31] ++ fill_table [x61] [x32] ++ [OpPut [x63] [x33]].
Definition drain_start : DataStore slist := played (MCall <$> drain_ops) demo_sys.

Lemma drain_playable : playable (MCall <$> drain_ops) demo_sys = true.
Proof. vm_compute. reflexivity. Qed.

Lemma drain_start_inv : exists es tabs ids, sys_inv 1000 drain_start es tabs ids /\
  represents 1000 drain_start es tabs (kv_run (fun _ => None) drain_ops).2.
Proof.
  destruct (played_run (MCall <$> drain_ops) demo_sys drain_playable) as (tr & Hrun & Hc & Hl).
  destruct (sys_run_inv 1000 tr demo_sys drain_start [] [] [] (fun _ => None) demo_orderly_env Hrun demo_sys_inv) as (_ & es & tabs & ids & Hs & R & _).
  - split; [exact (sy_store _ _ _ _ _ demo_sys_inv)|done].
  - rewrite Hl. cbn. lia.
  - rewrite Hc in R. by exists es, tabs, ids.
Qed.
(** The tables of the collector share no location with those of the readers. *)
Definition separate (s : DataStore slist) : bool :=
  forallb (fun p => negb (existsb (Nat.eqb (mt_entries p.2))
    (mt_entries (active_memtable s) :: map (fun q => mt_entries q.2) (sm_iter (read_only_memtables s))))) (map_to_list (gc_tables s)).

Lemma separate_no_shared s : separate s = true -> no_shared_insert s.
Proof.
  unfold separate. rewrite forallb_forall. intros Hs h e g t _ Hg Ht Heq.
  specialize (Hs (h, g) (proj1 (list_elem_of_In _ _) (proj2 (elem_of_map_to_list _ _ _) Hg))). apply negb_true_iff in Hs.
  apply not_true_iff_false in Hs. apply Hs, existsb_exists. exists (mt_entries t). split; [|by apply Nat.eqb_eq].
  destruct Ht as [->|[id Ht]]; [by left|]. right. apply in_map_iff. exists (id, t). split; [done|].
  apply list_elem_of_In. by apply sm_elem.
Qed.


(** A newly opened store *)
Definition demo_open : outcome Error (DataStore slist) := open (M := slist) Some 4096 [x64; x62] ["db"%string] empty_world.

(** Thirteen keys that fill its memtable *)
Definition long_key (b : byte) : list byte := b :: replicate 4000 x6b.
Definition demo_fill (v : byte) : list Move :=
  (fun b => MCall (OpPut (long_key b) [v])) <$> [x61; x62; x63; x64; x65; x66; x67; x68; x69; x6a; x6b; x6c; x6d].

(** Two memtables are filled and the first keys are written again, which flushes
    both: the tasks run are the flushes and the later one of the two writes of
    the metadata; then a read. *)
Definition demo_session : list Move :=
  demo_fill x31 ++ demo_fill x32 ++ [MCall (OpPut (long_key x61) [x33]); MTask 30; MTask 30; MTask 29; MCall (OpGet (long_key x62))].
Definition demo_played : outcome Error (DataStore slist) := s ← demo_open; Ok (played demo_session s).

Lemma demo_session_playable s : demo_open = Ok s -> playable demo_session s = true.
Proof.
  intros E. assert (match demo_open with Ok s => playable demo_session s | _ => false end = true) as Hc by (vm_compute; reflexivity).
  by rewrite E in Hc.
Qed.
Definition rewritten : outcome Error (DataStore slist) :=
  s ← demo_open; Ok (exec_all [OpPut [x61] [x31]; OpPut [x61] [x32]] s).2.

End system_witnesses.
