(* ===== verification/CompactionView.v ===== *)
(** * What clients see across a compaction run ([DataStore::run_compaction])

    A run without deletions and expiry ends without an error, leaves the store's
    invariants in place and never makes up a version. A key reads as before
    unless its newest version was only in the first table of a merged bucket
    ([outlives] says it was not, [compaction_keeps_view]). *)

From stdpp Require Import prelude gmap strings list list_numbers.
From Stdlib Require Import Strings.Byte ZArith Lia.
From S2P Require Import Prelude Consts SkipMap FileIO Types World VLog Block Index Bloom SSTable Meta MemTable KeyRange RangeSearch Bucket Flush Compaction CompactionRun.
From S2P Require Import Config Store StoreInv StoreSpec FlushSpec CompactionSpec SysInv TableRecovery FlushRecovery CompactionStep System.
Open Scope Z_scope.

(** Fewer hits, but none later than all that are left *)
Lemma best_hit_thinned (hits hits' : list Hit) :
  consistent hits -> (forall h, h ∈ hits' -> h ∈ hits) -> (forall h : Hit, h ∈ hits -> exists h' : Hit, h' ∈ hits' /\ h.1.2 <= h'.1.2) ->
  best_hit hits' = best_hit hits.
Proof.
  intros Hc Hsub Hlate. apply best_hit_same; [|done|].
  - intros h h' Hh Hh'. apply Hc; by apply Hsub.
  - intros h _. split; intros [Hin Hmax].
    + split; [by apply Hsub|]. intros x (x' & Hx' & Hle)%Hlate. specialize (Hmax x' Hx'). lia.
    + destruct (Hlate h Hin) as (h' & Hh' & Hle). pose proof (Hmax h' (Hsub _ Hh')). assert (h' = h) as <- by (apply Hc; [by apply Hsub|done|lia]).
      split; [done|]. intros x Hx. by apply Hmax, Hsub.
Qed.

Lemma found_stored v : found (smv_stored v) = found v.
Proof. unfold found. cbn. f_equal. f_equal; [apply as_u32_id, as_u32_range|apply trunc_ms_idem]. Qed.

Section round_view.
Context `{Env} {M : Type -> Type} `{SkipMap M} (N B : nat) (cfg : CompactConfig).
Abbreviation W := (World M).
Abbreviation D := (Db M).
Abbreviation Tabs := (list (Range * M SkipMapValue)).
Implicit Types (w : W) (d : D) (tabs ps news : Tabs).

(** ** The hits of a key *)
Lemma sst_hits_elem tabs k (h : Hit) : h ∈ sst_hits tabs k <-> exists p v, p ∈ tabs /\ sm_get k p.2 = Some v /\ h = found v.
Proof.
  unfold sst_hits. rewrite list_elem_of_omap. split.
  - intros (p & Hp & (v & Hv & ->)%fmap_Some). by exists p, v.
  - intros (p & v & Hp & Hv & ->). exists p. split; [done|]. by rewrite Hv.
Qed.

(** The first tables of the buckets that are merged *)
Definition first_dirs (bm : BucketMap) : list (list string) := omap (fun q => t_dir <$> head (chosen q.2)) (imbalanced (buckets bm)).
Definition dropped d (p : Range * M SkipMapValue) : Prop := dir_of p ∈ first_dirs (db_buckets d).
#[global] Instance dropped_dec d p : Decision (dropped d p).
Proof. unfold dropped. apply _. Defined.

(** No version of the key in such a table is newer than all the others. *)
Definition outlives d tabs (k : list byte) : Prop :=
  forall p v, p ∈ tabs -> dropped d p -> sm_get k p.2 = Some v ->
    exists p' v', p' ∈ tabs /\ ~ dropped d p' /\ sm_get k p'.2 = Some v' /\ stamp v <= stamp v'.

Section one_round.
Variables (d : D) (tabs : Tabs) (pss : list Tabs) (d' : D) (tabs' news : Tabs).
Hypothesis Harr : arranged N B d tabs.
Hypothesis Hdone : round_done N B d tabs pss d' tabs' news.

Lemma news_elem p : p ∈ news -> exists q ps, q ∈ imbalanced (buckets (db_buckets d)) /\ ps ∈ pss /\ sources tabs q ps /\ merges ps.*2 p.2 /\ new_tab (db_world d) p.
Proof.
  intros [i Hi]%list_elem_of_lookup. destruct (Forall2_lookup_r _ _ _ _ _ (rd_news _ _ _ _ _ _ _ _ Hdone) Hi) as (ps & Hps & Hm & Hn).
  destruct (Forall2_lookup_r _ _ _ _ _ (rd_sources _ _ _ _ _ _ _ _ Hdone) Hps) as (q & Hq & Hs). exists q, ps.
  do 2 (split; [by eapply list_elem_of_lookup_2|]). done.
Qed.

Lemma sources_elem q ps p : sources tabs q ps -> p ∈ ps -> p ∈ tabs.
Proof. intros Hs [j Hj]%list_elem_of_lookup. by destruct (Forall2_lookup_r _ _ _ _ _ Hs Hj) as (t & _ & [? _]). Qed.

(** A round finds no version that was not there. *)
Lemma round_sound k (h : Hit) : h ∈ sst_hits tabs' k -> h ∈ sst_hits tabs k.
Proof.
  rewrite !sst_hits_elem. intros (p & v & Hp & Hv & ->). rewrite (rd_tabs _ _ _ _ _ _ _ _ Hdone) in Hp. apply elem_of_app in Hp as [Hp|Hp].
  - apply news_elem in Hp as (q & ps & _ & _ & Hs & Hm & _). destruct (merges_elem _ _ _ _ Hm Hv) as ((m & v0 & Hm0 & Hv0 & ->) & _).
    apply list_elem_of_fmap in Hm0 as (p0 & -> & Hp0). exists p0, v0. split; [by eapply sources_elem|]. split; [done|apply found_stored].
  - apply list_elem_of_filter in Hp as [_ Hp]. by exists p, v.
Qed.

Lemma round_late k p v :
  p ∈ tabs -> ~ dropped d p -> sm_get k p.2 = Some v -> exists h : Hit, h ∈ sst_hits tabs' k /\ stamp v <= h.1.2.
Proof.
  intros Hp Hnd Hv. destruct (decide (dir_of p ∈ gone_dirs (db_buckets d))) as [Hg|Hg].
  - apply list_elem_of_fmap in Hg as (t & Ed & (ts & Ht & (q & -> & Hq)%list_elem_of_fmap)%list_elem_of_join).
    assert (t ∈ tail (chosen q.2)) as Htl.
    { destruct (chosen q.2) as [|t1 ts] eqn:Ec; [by apply not_elem_of_nil in Ht|]. apply elem_of_cons in Ht as [->|Ht]; [|done].
      destruct Hnd. apply list_elem_of_omap. exists q. split; [done|]. rewrite Ec. cbn. by rewrite Ed. }
    apply list_elem_of_lookup in Hq as [i Hi]. destruct (Forall2_lookup_l _ _ _ _ _ (rd_sources _ _ _ _ _ _ _ _ Hdone) Hi) as (ps & Hps & Hs).
    destruct (Forall2_lookup_l _ _ _ _ _ (rd_news _ _ _ _ _ _ _ _ Hdone) Hps) as (p1 & Hp1 & Hm & _).
    apply list_elem_of_lookup in Htl as [j Hj]. destruct (Forall2_lookup_l _ _ _ _ _ Hs Hj) as (p0 & Hp0 & [Hin Hix]).
    assert (p0 = p) as ->.
    { eapply (NoDup_key_inj (dir_of (M := M))); [exact (arranged_NoDup _ _ _ _ Harr)|done|done|]. by rewrite (ix_dir _ _ Hix). }
    assert (p.2 ∈ ps.*2) as Hp2 by (apply list_elem_of_fmap; exists p; split; [done|by eapply list_elem_of_lookup_2]).
    destruct (merges_covers _ _ _ k Hm Hp2 ltac:(by eexists)) as [v1 Hv1]. destruct (merges_elem _ _ _ _ Hm Hv1) as ((m & v0 & _ & _ & ->) & Hall).
    exists (found (smv_stored v0)). split.
    + apply sst_hits_elem. exists p1, (smv_stored v0). split; [|done]. rewrite (rd_tabs _ _ _ _ _ _ _ _ Hdone). apply elem_of_app. left. by eapply list_elem_of_lookup_2.
    + specialize (Hall _ _ Hp2 Hv). rewrite found_stored. exact Hall.
  - exists (found v). split; [|done]. apply sst_hits_elem. exists p, v. split; [|done]. rewrite (rd_tabs _ _ _ _ _ _ _ _ Hdone).
    apply elem_of_app. right. by apply list_elem_of_filter.
Qed.

Lemma round_best k : consistent (sst_hits tabs k) -> outlives d tabs k -> best_hit (sst_hits tabs' k) = best_hit (sst_hits tabs k).
Proof.
  intros Hc Hout. apply best_hit_thinned; [done|apply round_sound|]. intros h (p & v & Hp & Hv & ->)%sst_hits_elem.
  assert (exists p' v', p' ∈ tabs /\ ~ dropped d p' /\ sm_get k p'.2 = Some v' /\ stamp v <= stamp v') as (p' & v' & Hp' & Hnd & Hv' & Hle).
  { destruct (decide (dropped d p)) as [Hd|Hd]; [by apply (Hout p v)|by exists p, v]. }
  destruct (round_late k p' v' Hp' Hnd Hv') as (h & Hh & Hl). exists h. split; [done|]. cbn. unfold stamp in *. lia.
Qed.

(** *** A round shrinks the tables *)
Lemma round_weight : (total_weight tabs' <= total_weight tabs)%nat.
Proof.
  unfold total_weight. rewrite (rd_tabs _ _ _ _ _ _ _ _ Hdone), sum_list_with_app.
  assert (sum_list_with (fun p => weight p.2) tabs = sum_list_with (fun p => weight p.2) (filter (fun x => dir_of x ∉ gone_dirs (db_buckets d)) tabs) +
    sum_list_with (fun p => weight p.2) (filter (fun x => dir_of x ∈ gone_dirs (db_buckets d)) tabs))%nat as ->.
  { by rewrite <- sum_list_with_app, <- (filter_split (fun x => dir_of x ∈ gone_dirs (db_buckets d)) tabs). }
  pose proof (sum_list_submseteq (fun p : Range * M SkipMapValue => weight p.2) _ _ (sources_submseteq N B d tabs pss Harr (rd_sources _ _ _ _ _ _ _ _ Hdone))) as Hs.
  assert (sum_list_with (fun p => weight p.2) news <= sum_list_with (fun p : Range * M SkipMapValue => weight p.2) (mjoin pss))%nat; [|lia].
  pose proof (rd_news _ _ _ _ _ _ _ _ Hdone) as Hn. clear Hs Hdone. induction Hn as [|ps p pss0 news0 [Hm _] _ IH]; [done|].
  change (weight p.2 + sum_list_with (fun p => weight p.2) news0 <= sum_list_with (fun p => weight p.2) (ps ++ mjoin pss0))%nat. rewrite sum_list_with_app.
  pose proof (merges_weight _ _ Hm) as Hw. rewrite sum_list_fmap in Hw. lia.
Qed.

Lemma round_length : (length tabs' + 3 * length (imbalanced (buckets (db_buckets d))) <= length tabs)%nat.
Proof.
  set (imb := imbalanced (buckets (db_buckets d))). rewrite (rd_tabs _ _ _ _ _ _ _ _ Hdone), length_app.
  assert (length tabs = length (filter (fun x => dir_of x ∉ gone_dirs (db_buckets d)) tabs) +
    length (filter (fun x => dir_of x ∈ gone_dirs (db_buckets d)) tabs))%nat as ->.
  { by rewrite <- length_app, <- (filter_split (fun x => dir_of x ∈ gone_dirs (db_buckets d)) tabs). }
  assert (length news = length imb) as -> by (etrans; [symmetry; exact (Forall2_length _ _ _ (rd_news _ _ _ _ _ _ _ _ Hdone))|symmetry; exact (Forall2_length _ _ _ (rd_sources _ _ _ _ _ _ _ _ Hdone))]).
  pose proof (gone_length N B d tabs Harr) as Hg. fold imb in Hg. lia.
Qed.
End one_round.

(** ** The rounds of a run *)
Inductive rounds : D -> Tabs -> D -> Tabs -> Prop :=
  | rounds_nil d tabs : rounds d tabs d tabs
  | rounds_cons d tabs pss d1 tabs1 news d' tabs' :
      compaction_round cfg ∅ d = (Ok (Some ∅), d1) -> round_done N B d tabs pss d1 tabs1 news -> rounds d1 tabs1 d' tabs' -> rounds d tabs d' tabs'.

Lemma compaction_rounds d tabs r :
  use_ttl cfg = false -> f64_ge0 (filter_false_positive cfg) = true -> orderly_env N -> compaction_ends cfg ∅ d r ->
  arranged N B d tabs -> primed d tabs -> Z.of_nat (total_weight tabs) < 2 ^ 32 -> (w_ticks (db_world d) + length tabs + 1 <= B)%nat ->
  exists d' tabs', r = (Ok tt, d') /\ rounds d tabs d' tabs' /\ is_balanced (db_buckets d') = true /\ arranged N B d' tabs' /\ primed d' tabs'.
Proof.
  intros Hu Hr Ho He. revert tabs. remember (∅ : Tombs) as tombs eqn:Et.
  assert (forall d tabs, arranged N B d tabs -> primed d tabs -> Z.of_nat (total_weight tabs) < 2 ^ 32 -> (w_ticks (db_world d) + length tabs + 1 <= B)%nat ->
    (is_balanced (db_buckets d) = true /\ compaction_round cfg ∅ d = (Ok None, d)) \/
    exists d1 tabs1 pss news, compaction_round cfg ∅ d = (Ok (Some ∅), d1) /\ round_done N B d tabs pss d1 tabs1 news) as Hstep.
  { intros d0 tabs Ha Hp Hw HN. destruct (is_balanced (db_buckets d0)) eqn:Eb; [left; split; [done|by apply round_balanced]|right].
    apply compaction_round_run; try done. pose proof (gone_length N B d0 tabs Ha).
    pose proof (length_filter (fun x => dir_of x ∈ gone_dirs (db_buckets d0)) tabs). lia. }
  induction He as [tombs d d' E|tombs d e d' E|tombs d d' E|tombs d tombs' d1 r E He IH]; intros tabs Ha Hp Hw HN; subst tombs;
    destruct (Hstep d tabs Ha Hp Hw HN) as [[Eb E1]|(d2 & tabs2 & pss & news & E1 & Hd)]; rewrite E1 in E; try done.
  - injection E as <-. exists d, tabs. split; [done|]. split; [constructor|done].
  - injection E as <- <-. destruct (IH eq_refl tabs2) as (d' & tabs' & -> & Hrs & Hb & Ha').
    + apply Hd.
    + apply Hd.
    + pose proof (round_weight _ _ _ _ _ _ Ha Hd). lia.
    + pose proof (round_length _ _ _ _ _ _ Ha Hd). pose proof (rd_ticks _ _ _ _ _ _ _ _ Hd). lia.
    + exists d', tabs'. split; [done|]. split; [by econstructor|done].
Qed.

Lemma new_tab_since w0 w1 p : since w0 w1 -> new_tab w1 p -> new_tab w0 p.
Proof. intros [_ _ _ S4 S5] [N1 N2]. split; [lia|]. intros f Hf. specialize (N2 f Hf). lia. Qed.

Lemma since_trans w0 w1 w2 : since w0 w1 -> since w1 w2 -> since w0 w2.
Proof.
  intros [A1 A2 A3 A4 A5] [B1 B2 B3 B4 B5]. split; [..|lia|lia]; intros j Hj; [rewrite B1, A1|rewrite B2, A2|rewrite B3, A3]; (done || lia).
Qed.

(** What rounds leave alone *)
Record untouched d tabs d' tabs' : Prop := {
  ut_since : since (db_world d) (db_world d');
  ut_ticks : (w_ticks (db_world d) <= w_ticks (db_world d'))%nat;
  ut_restored : restored_ranges (db_ranges d') = restored_ranges (db_ranges d);
  ut_tabs p : p ∈ tabs' -> p ∈ tabs \/ new_tab (db_world d) p;
  ut_sound k (h : Hit) : h ∈ sst_hits tabs' k -> h ∈ sst_hits tabs k;
}.

Lemma rounds_untouched d tabs d' tabs' : arranged N B d tabs -> rounds d tabs d' tabs' -> untouched d tabs d' tabs'.
Proof.
  intros Ha Hr. induction Hr as [d tabs|d tabs pss d1 tabs1 news d' tabs' E Hd _ IH].
  { split; [by split|done|done|by left|done]. }
  destruct (IH (rd_arranged _ _ _ _ _ _ _ _ Hd)) as [U1 U2 U3 U4 U5]. pose proof (rd_since _ _ _ _ _ _ _ _ Hd) as Hs. pose proof (rd_ticks _ _ _ _ _ _ _ _ Hd). split.
  - by eapply since_trans.
  - lia.
  - by rewrite U3, (rd_restored _ _ _ _ _ _ _ _ Hd).
  - intros p [Hp|Hp]%U4; [|right; by eapply new_tab_since]. rewrite (rd_tabs _ _ _ _ _ _ _ _ Hd) in Hp. apply elem_of_app in Hp as [Hp|Hp].
    + right. by destruct (news_elem _ _ _ _ _ _ Hd p Hp) as (q & ps & _ & _ & _ & _ & Hn).
    + left. by apply list_elem_of_filter in Hp as [_ Hp].
  - intros k h Hh%U5. by eapply round_sound.
Qed.

Lemma rounds_best d tabs d' tabs' k :
  arranged N B d tabs -> rounds d tabs d' tabs' -> consistent (sst_hits tabs k) ->
  (forall d1 tabs1, rounds d tabs d1 tabs1 -> outlives d1 tabs1 k) -> best_hit (sst_hits tabs' k) = best_hit (sst_hits tabs k).
Proof.
  intros Ha Hr. induction Hr as [d tabs|d tabs pss d1 tabs1 news d' tabs' E Hd Hr IH]; intros Hc Hout; [done|].
  pose proof (Hout d tabs (rounds_nil d tabs)) as Ho. rewrite <- (round_best _ _ _ _ _ _ Ha Hd k Hc Ho). apply IH.
  - apply Hd.
  - intros h h' Hh%(round_sound _ _ _ _ _ _ Hd) Hh'%(round_sound _ _ _ _ _ _ Hd). by apply Hc.
  - intros d2 tabs2 Hr2. apply Hout. by econstructor.
Qed.

Lemma run_compaction_run d tabs :
  use_ttl cfg = false -> f64_ge0 (filter_false_positive cfg) = true -> orderly_env N -> arranged N B d tabs -> primed d tabs ->
  Z.of_nat (total_weight tabs) < 2 ^ 32 -> (w_ticks (db_world d) + length tabs + 1 <= B)%nat ->
  exists d' tabs', run_compaction cfg d = (Ok tt, d') /\ rounds d tabs d' tabs' /\ is_balanced (db_buckets d') = true /\ arranged N B d' tabs' /\ primed d' tabs'.
Proof.
  intros Hu Hr Ho Ha Hp Hw HN. unfold run_compaction. destruct (is_balanced (db_buckets d)) eqn:Eb.
  - exists d, tabs. split; [done|]. split; [constructor|done].
  - apply compaction_rounds; try done. pose proof (ar_wf _ _ _ _ Ha) as [B1 B2 _ _ _]. apply compaction_loop_ends; [by split|lia].
Qed.
End round_view.

(** ** The store *)
Section store_view.
Context `{Env} {M : Type -> Type} `{SkipMap M} (N B : nat) (cfg : CompactConfig).
Abbreviation S := (DataStore M).
Implicit Types (s : S) (tabs : list (Range * M SkipMapValue)) (es : list ValueLogEntry).

(** Every version in the tables is in the log. *)
Definition all_logged es tabs : Prop :=
  forall k h, k <> HEAD_ENTRY_KEY -> h ∈ sst_hits tabs k -> h.2 = false -> is_Some (entry_at es h.1.1).

Section rebase.
Variables (s : S) (es : list ValueLogEntry) (tabs : list (Range * M SkipMapValue)) (d' : Db M) (tabs' : list (Range * M SkipMapValue)).
Hypothesis Hinv : store_inv N s es tabs.
Hypothesis Hhot : Forall (hot_tab (ds_world s)) tabs.
Hypothesis Hlog : (file (vlog_file (val_log s)) < next_inode (w_fs (ds_world s)))%nat.
Hypothesis Hsince : since (ds_world s) (db_world d').
Hypothesis Hticks : (w_ticks (ds_world s) <= w_ticks (db_world d'))%nat.
Hypothesis Harr : arranged N B d' tabs'.
Hypothesis Hpm : primed d' tabs'.
Hypothesis Hrest : restored_ranges (db_ranges d') = ∅.
Hypothesis Htabs : forall p, p ∈ tabs' -> p ∈ tabs \/ new_tab (ds_world s) p.
Hypothesis Hlogged : all_logged es tabs'.
Abbreviation s' := (with_db s d').

Lemma rebase_mem t : in_mem s t -> mem_inv (ds_world s) t /\ (mt_entries t < w_next (ds_world s))%nat /\ (bit_vec (bloom_filter t) < w_next (ds_world s))%nat.
Proof.
  intros [->|[id Ht]]; [split; [apply Hinv|apply Hinv]|]. destruct (si_ro _ _ _ _ Hinv _ _ Ht) as [? [] _ _]. done.
Qed.

Lemma rebase_lookup t k : in_mem s t -> mem_lookup (db_world d') t k = mem_lookup (ds_world s) t k.
Proof. intros Ht. unfold mem_lookup. by rewrite (sn_maps _ _ Hsince) by by apply rebase_mem. Qed.

Lemma rebase_mem_inv t : in_mem s t -> mem_inv (db_world d') t.
Proof.
  intros Ht. destruct (rebase_mem t Ht) as (Hi & L1 & L2). eapply mem_inv_frame; [| |exact Hi]; [by apply (sn_maps _ _ Hsince)|by apply (sn_bits _ _ Hsince)].
Qed.

Lemma rebase_ro_hits k : ro_hits (db_world d') (read_only_memtables s) k = ro_hits (ds_world s) (read_only_memtables s) k.
Proof.
  unfold ro_hits. apply list_omap_ext. apply Forall2_same_length_lookup. split; [done|]. intros i t t' Ht Ht'. assert (t = t') as <- by congruence.
  rewrite rebase_lookup; [done|]. apply list_elem_of_lookup_2 in Ht. apply list_elem_of_fmap in Ht as ([id t0] & -> & Hin%sm_elem). right. by exists id.
Qed.

Lemma rebase_past t : in_mem s t -> in_past N (ds_world s) t -> in_past N (db_world d') t.
Proof. intros Ht Hp k v. rewrite rebase_lookup by done. intros Hv n Hn. apply (Hp k v Hv). lia. Qed.

Lemma rebase_hit k :
  store_hit s' tabs' k = match mem_lookup (ds_world s) (active_memtable s) k with
    | Some v => Some (hit_of v)
    | None => match best_hit (ro_hits (ds_world s) (read_only_memtables s) k) with Some h => Some h | None => best_hit (sst_hits tabs' k) end
    end.
Proof. unfold store_hit, lookup_hit. cbn. rewrite rebase_lookup by by left. by rewrite rebase_ro_hits. Qed.

Lemma rebase_tab p : p ∈ tabs' -> tab_ok (db_world d') (val_log s) (active_memtable s) p.
Proof.
  intros Hp. pose proof (ar_tabs _ _ _ _ Harr) as Ht. rewrite Forall_forall in Ht. destruct (Ht p Hp) as [T1 _].
  pose proof (pr_hot _ _ Hpm) as Ht'. rewrite Forall_forall in Ht'. destruct (Ht' p Hp) as [T2 T3 _].
  pose proof (si_active_lt _ _ _ _ Hinv) as [_ La].
  assert (file (data_file (r_sst p.1)) <> file (vlog_file (val_log s)) /\ file (index_file (r_sst p.1)) <> file (vlog_file (val_log s)) /\
    forall f, t_filter (r_sst p.1) = Some f -> bit_vec f <> bit_vec (bloom_filter (active_memtable s))) as (F1 & F2 & F3).
  { destruct (Htabs p Hp) as [Hin|[[N1 N2] N3]].
    - pose proof (si_tabs _ _ _ _ Hinv) as Hok. rewrite Forall_forall in Hok. destruct (Hok p Hin) as [_ O2 O3 O4 _]. do 2 (split; [done|]).
      intros f Hf. rewrite Forall_forall in Hhot. by destruct (O4 (ht_live _ _ (Hhot p Hin)) f Hf).
    - split; [lia|]. split; [lia|]. intros f Hf. specialize (N3 f Hf). lia. }
  split; [split; [done|by left]|done|done| |].
  - intros _ f Hf. split; [by apply F3|by apply T3].
  - intros i (g & q & f & Hg & Hd & _). destruct T2 as (f' & q' & Hf' & Hd' & _). congruence.
Qed.

Lemma store_rebase : store_inv N s' es tabs'.
Proof.
  pose proof (si_gc_apart _ _ _ _ Hinv) as [G1 G2]. pose proof (si_active_lt _ _ _ _ Hinv) as [L1 L2]. pose proof (sn_next _ _ Hsince).
  split; change (ds_world s') with (db_world d'); change (ds_db s') with d'; change (active_memtable s') with (active_memtable s);
    change (read_only_memtables s') with (read_only_memtables s); change (val_log s') with (val_log s); change (gc_updated_entries s') with (gc_updated_entries s).
  - destruct (si_log _ _ _ _ Hinv) as [V1 V2 V3]. split; [|done|done]. by rewrite (sn_content _ _ Hsince).
  - rewrite (sn_maps _ _ Hsince) by done. apply Hinv.
  - split; [done|lia].
  - apply rebase_mem_inv. by left.
  - lia.
  - apply rebase_past; [by left|apply Hinv].
  - apply Hinv.
  - intros id t Ht. destruct (si_ro _ _ _ _ Hinv _ _ Ht) as [R1 [] R3 R4]. assert (in_mem s t) as Hm by (right; by exists id).
    split; [by apply rebase_mem_inv|split; (done || lia)|by apply rebase_past|]. intros n Hn. apply R4. lia.
  - intros k v Hk. rewrite rebase_lookup, rebase_ro_hits by by left. by apply Hinv.
  - split; [apply Harr|apply Harr|]. rewrite Hrest. intros q r. by rewrite lookup_empty.
  - rewrite Hrest. intros q r. by rewrite lookup_empty.
  - by rewrite Hrest.
  - apply Forall_forall. exact rebase_tab.
  - intros k h Hk Hh Hd. rewrite rebase_hit in Hh. destruct (mem_lookup (ds_world s) (active_memtable s) k) as [v|] eqn:Ea.
    { apply (si_logged _ _ _ _ Hinv k); [done| |done]. unfold store_hit, lookup_hit. by rewrite Ea. }
    destruct (best_hit (ro_hits _ _ _)) as [h0|] eqn:Er.
    { apply (si_logged _ _ _ _ Hinv k); [done| |done]. unfold store_hit, lookup_hit. by rewrite Ea, Er. }
    apply (Hlogged k); [done| |done]. by apply best_hit_newest in Hh as [? _].
Qed.

Lemma rebase_disk : disk_ok N s' tabs'.
Proof.
  clear -Hsince Harr Hlog. destruct Harr as [A1 A2 _ _ _ _ _ _ A9 _]. split; [exact A1|exact A2|..].
  - pose proof (sn_inodes _ _ Hsince). change (ds_world s') with (db_world d'). cbn [val_log with_db]. lia.
  - eapply Forall_impl; [exact A9|]. intros p Hp. apply (kt_files _ _ Hp).
Qed.

Lemma rebase_layered ids :
  layered s tabs ids -> (forall k (h : Hit), h ∈ sst_hits tabs' k -> h ∈ sst_hits tabs k) -> layered s' tabs' ids.
Proof.
  intros [Y1 Y2 Y3 Y4 Y5 Y6 Y7] Hsub. change (forall t, in_mem s t -> stamped (ds_world s) t) in Y5.
  assert (forall t t', in_mem s t -> in_mem s t' -> older (ds_world s) t t' -> older (db_world d') t t') as Hold.
  { intros t t' Ht Ht' Ho k v v' Hk. rewrite !rebase_lookup by done. by apply Ho. }
  assert (forall id t, sm_get id (read_only_memtables s) = Some t -> in_mem s t) as Hro by (intros id t Ht; right; by exists id).
  split; try done.
  - eapply StronglySorted_mono; [|exact Y2]. intros i j _ _ [Hne Hij]. split; [done|]. intros t t' Ht Ht'. destruct (Hij t t' Ht Ht'). split; [|done].
    apply Hold; eauto.
  - intros id t Ht. apply Hold; [by eapply Hro|by left|by eapply Y3].
  - intros t Ht k v. change (ds_world s') with (db_world d'). rewrite rebase_lookup by done. by apply Y5.
  - intros k h t v Hk Hh%Hsub Ht. change (ds_world s') with (db_world d'). rewrite rebase_lookup by done. by apply (Y6 k).
  - intros k Hk h h' Hh%Hsub Hh'%Hsub. by apply (Y7 k).
Qed.
End rebase.

(** A store whose tables a run can merge: without deletions, with every filter in
    memory, small enough for one file, and with directories of their own for the
    tables it makes *)
Record compactable s es tabs : Prop := {
  cp_arranged : arranged N B (ds_db s) tabs;
  cp_primed : primed (ds_db s) tabs;
  cp_restored : restored_ranges (db_ranges (ds_db s)) = ∅;
  cp_logged : all_logged es tabs;
  cp_weight : Z.of_nat (total_weight tabs) < 2 ^ 32;
  cp_ticks : (w_ticks (ds_world s) + length tabs + 1 <= B)%nat;
}.

(** What a run does to the store *)
Lemma compaction_view_run s es tabs ids :
  use_ttl cfg = false -> f64_ge0 (filter_false_positive cfg) = true -> orderly_env N ->
  store_inv N s es tabs -> layered s tabs ids -> disk_ok N s tabs -> compactable s es tabs ->
  exists d' tabs', handle_compaction cfg (ds_db s) = (Ok tt, d') /\ is_balanced (db_buckets d') = true /\ rounds N B cfg (ds_db s) tabs d' tabs' /\
    arranged N B d' tabs' /\ primed d' tabs' /\
    store_inv N (with_db s d') es tabs' /\ layered (with_db s d') tabs' ids /\ disk_ok N (with_db s d') tabs' /\
    forall k, k <> HEAD_ENTRY_KEY -> (forall d1 tabs1, rounds N B cfg (ds_db s) tabs d1 tabs1 -> outlives d1 tabs1 k) ->
      store_hit (with_db s d') tabs' k = store_hit s tabs k.
Proof.
  intros Hu Hr Ho Hi Hy Hd [Ha Hpm Hres Hlg Hw HN].
  destruct (run_compaction_run N B cfg (ds_db s) tabs Hu Hr Ho Ha Hpm Hw HN) as (d' & tabs' & E & Hrs & Hb & Ha' & Hpm').
  destruct (rounds_untouched N B cfg (ds_db s) tabs d' tabs' Ha Hrs) as [U1 U2 U3 U4 U5]. rewrite Hres in U3. pose proof (dk_log _ _ _ Hd) as Hlog.
  assert (all_logged es tabs') as Hlg' by (intros k h Hk Hh%U5; by apply (Hlg k)). pose proof (pr_hot _ _ Hpm) as Hk.
  exists d', tabs'. split; [unfold handle_compaction; by destruct (strategy cfg)|]. do 4 (split; [done|]).
  split; [exact (store_rebase s es tabs d' tabs' Hi Hk Hlog U1 U2 Ha' Hpm' U3 U4 Hlg')|].
  split; [by eapply (rebase_layered s es tabs)|]. split; [by eapply (rebase_disk s)|].
  intros k Hne Hout. rewrite (rebase_hit s es tabs d' tabs' Hi U1). unfold store_hit, lookup_hit.
  rewrite (rounds_best N B cfg (ds_db s) tabs d' tabs' k Ha Hrs); [done|by apply (ly_distinct _ _ _ Hy)|done].
Qed.

(** ** Properties *)

End store_view.

(** ** Witnesses *)
Section view_witnesses.
#[local] Existing Instance demo_platform.
#[local] Existing Instance demo_env.
#[local] Existing Instance sorted_list_skipmap.

(** A store with one entry in its log and no tables yet *)
Definition view_log : list ValueLogEntry := [log_entry [x61] [x31] 1600000000000000000].
Definition view_world : World slist :=
  with_fs demo_sys_world (set_inode (w_fs demo_sys_world) 0 (log_bytes view_log)).
Definition view_start : DataStore slist :=
  mkDS (mkDb view_world (mkBucketMap ["buckets"%string] []) key_range_new) (demo_active 100)
    (mkVLog demo_log_node 0 0 (zlen (log_bytes view_log))) (mkMeta (mkFileNode demo_meta_path 1 FMeta) 0 0 0 0) sm_new 2 ∅ 0
    (mkVLog demo_log_node 0 0 0) (mkPunch 0 0) ∅ (demo_config 2) false [] 0 1000.

Lemma view_start_inv : store_inv 1000 view_start view_log [].
Proof.
  destruct (sy_store _ _ _ _ _ demo_sys_inv) as [? ? ? [Hp Ha] ? ? ? ? ? ? ? ? ? ?]. split; try done.
  split; [by vm_compute|by vm_compute|]. apply Forall_singleton. by repeat split; vm_compute.
Qed.

(** A table with one key, written through a memtable *)
Definition write_table (k : list byte) (time : DateTime) : io (Db slist) Error unit :=
  t ← on_world (mem_new 1000 demo_rate);
  t ← on_world (mem_insert t (entry_new k 0 time false));
  flush t.

Lemma single_iter (m : slist SkipMapValue) k v : (forall k', sm_get k' m = if decide (k' = k) then Some v else None) -> sm_iter m = [(k, v)].
Proof.
  intros Hg. assert (sm_iter m ≡ₚ [(k, v)]) as Hp; [|by apply Permutation_singleton_r in Hp].
  apply NoDup_Permutation; [apply sorted_keys_NoDup, sm_iter_sorted|apply NoDup_singleton|]. intros [k' v']. rewrite sm_elem, Hg, list_elem_of_singleton.
  case_decide; naive_solver.
Qed.

Lemma single_storable (m : slist SkipMapValue) k v :
  (forall k', sm_get k' m = if decide (k' = k) then Some v else None) -> key_ok (k, v) -> storable m.
Proof.
  intros Hg (K1 & K2 & K3). cbn [fst snd] in K1, K2, K3. pose proof (single_iter m k v Hg) as Em. split; rewrite Em; [done|by apply Forall_singleton|].
  change (be_of <$> (entry_of <$> [(k, v)])) with [be_of (entry_of (k, v))]. rewrite data_bytes_cons, zlen_app, zlen_be_bytes, block_entry_size_eq.
  change (zlen k + 17 + 0 < 2 ^ 32). unfold BLOCK_SIZE in K2. lia.
Qed.

Lemma write_table_run w0 d tabs k time :
  arranged 1000 100 d tabs -> primed d tabs -> since w0 (db_world d) -> (w_ticks (db_world d) + 6 <= 100)%nat -> key_ok (k, smv_new 0 time false) ->
  exists d' p tabs', write_table k time d = (Ok tt, d') /\ arranged 1000 100 d' tabs' /\ primed d' tabs' /\ tabs' ≡ₚ p :: tabs /\ since w0 (db_world d') /\ new_tab w0 p /\
    (dir_of p ∉ dirs (w_fs (db_world d))) /\ (forall k', sm_get k' p.2 = if decide (k' = k) then Some (smv_new 0 time false) else None) /\
    (w_ticks (db_world d') <= 5 + w_ticks (db_world d))%nat /\ restored_ranges (db_ranges d') = restored_ranges (db_ranges d).
Proof.
  intros Ha Hpm Hs HN Hk. unfold write_table.
  destruct (mem_new_run (mkMemConfig demo_rate 1000 Bytes) (db_world d)) as (t & w1 & E1 & C); [by vm_compute|done|by vm_compute|].
  destruct (mem_insert_run w1 t (entry_new k 0 time false) (mc_inv _ _ _ _ C)) as (t' & w2 & E2 & X).
  pose proof (mc_entries _ _ _ _ C) as L1. pose proof (mc_filter _ _ _ _ C) as L2.
  assert (grown (db_world d) w2) as G.
  { split; rewrite ?(mx_fs _ _ _ _ _ X), ?(mc_fs _ _ _ _ C), ?(mx_next _ _ _ _ _ X); [done|..|lia].
    - intros l Hl. rewrite (mx_maps _ _ _ _ _ X) by lia. by apply C.
    - intros l Hl. rewrite (mx_bits _ _ _ _ _ X) by lia. by apply C. }
  assert (forall k', sm_get k' (the_map w2 (mt_entries t')) = if decide (k' = k) then Some (smv_new 0 time false) else None) as Hget.
  { intros k'. pose proof (mx_lookup _ _ _ _ _ X k') as Hl. unfold mem_lookup at 1 in Hl. rewrite Hl, (mc_lookup _ _ _ _ C). done. }
  pose proof (mc_ticks _ _ _ _ C) as T1. pose proof (mx_ticks _ _ _ _ _ X) as T2.
  destruct (flush_arranged 1000 100 t' (mkDb w2 (db_buckets d) (db_ranges d)) tabs demo_orderly_env) as (d' & r & tabs' & E & Ha' & Hpm' & P & Hf & Tk & Hr & Hw).
  - apply arranged_grown; [done|lia|done].
  - cbn. lia.
  - cbn. rewrite (mx_entries _ _ _ _ _ X), (mx_next _ _ _ _ _ X). lia.
  - cbn. rewrite (mx_filter _ _ _ _ _ X), (mx_next _ _ _ _ _ X). lia.
  - apply X.
  - by eapply single_storable.
  - exists d', (r, the_map w2 (mt_entries t')), tabs'.
    assert (on_world (mem_new 1000 demo_rate) d = (Ok t, mkDb w1 (db_buckets d) (db_ranges d))) as E1' by (unfold on_world; by rewrite (E1 : mem_new 1000 demo_rate (db_world d) = _)).
    run E1'. assert (on_world (mem_insert t (entry_new k 0 time false)) (mkDb w1 (db_buckets d) (db_ranges d)) = (Ok t', mkDb w2 (db_buckets d) (db_ranges d))) as E2'
      by (unfold on_world; cbn; by rewrite E2).
    run E2'. split; [exact E|]. split; [done|]. split.
    { apply Hpm'; [|by eapply primed_grown]. intros k' v. cbn [db_world]. rewrite Hget. case_decide; [by intros [= <-]|done]. }
    split; [done|]. destruct (Hw w0) as [Hs' Hn].
    { eapply since_trans; [exact Hs|]. by apply since_grown. }
    { pose proof (sn_next _ _ Hs). rewrite (mx_entries _ _ _ _ _ X). lia. }
    { pose proof (sn_next _ _ Hs). rewrite (mx_filter _ _ _ _ _ X). lia. }
    cbn [db_world] in Hf. rewrite (gr_fs _ _ G) in Hf. do 4 (split; [done|]). cbn [db_world db_ranges] in Tk, Hr. split; [lia|done].
Qed.

(** Four tables: an old and a new version of one key, and two other keys *)
Definition old_time : DateTime := 1600000000000000000.
Definition new_time : DateTime := 1650000000000000000.
Definition view_db1 : Db slist := (write_table [x61] old_time (ds_db view_start)).2.
Definition view_db2 : Db slist := (write_table [x61] new_time view_db1).2.
Definition view_db3 : Db slist := (write_table [x62] old_time view_db2).2.
Definition view_db : Db slist := (write_table [x63] old_time view_db3).2.

Lemma view_start_arranged : arranged 1000 100 (ds_db view_start) [] /\ primed (ds_db view_start) [].
Proof.
  destruct (sy_disk _ _ _ _ _ demo_sys_inv) as [D1 D2 _ _]. split; [|split; [done|by intros t ?%not_elem_of_nil]]. split; try done.
  - destruct D1 as [B1 B2 B3 B4 [B5 B6]]. by split.
  - apply fresh_dirsb_spec. vm_compute. reflexivity.
  - by apply NoDup_nil.
  - by intros t ?%not_elem_of_nil.
  - lia.
Qed.

(** One more table of the demonstration *)
Record written (d : Db slist) tabs k time tabs' (p : Range * slist SkipMapValue) : Prop := {
  wr_arranged : arranged 1000 100 (write_table k time d).2 tabs' /\ primed (write_table k time d).2 tabs';
  wr_tabs : tabs' ≡ₚ p :: tabs;
  wr_since : since (ds_world view_start) (db_world (write_table k time d).2);
  wr_new : new_tab (ds_world view_start) p;
  wr_dir : dir_of p ∉ dirs (w_fs (db_world d));
  wr_get k' : sm_get k' p.2 = if decide (k' = k) then Some (smv_new 0 time false) else None;
}.

Lemma write_view d tabs k time :
  arranged 1000 100 d tabs /\ primed d tabs -> since (ds_world view_start) (db_world d) -> (w_ticks (db_world d) + 6 <= 100)%nat -> key_ok (k, smv_new 0 time false) ->
  exists tabs' p, written d tabs k time tabs' p.
Proof.
  intros [Ha Hpm] Hs Hn Hk. destruct (write_table_run (ds_world view_start) d tabs k time Ha Hpm Hs Hn Hk) as (d' & p & tabs' & E & A1 & A1' & A2 & A3 & A4 & A5 & A6 & _).
  exists tabs', p. split; rewrite ?E; done.
Qed.

Lemma view_ticks1 : (w_ticks (db_world view_db1) + 6 <= 100)%nat.
Proof. assert (w_ticks (db_world view_db1) = 5%nat) as -> by (vm_compute; reflexivity). lia. Qed.
Lemma view_ticks2 : (w_ticks (db_world view_db2) + 6 <= 100)%nat.
Proof. assert (w_ticks (db_world view_db2) = 9%nat) as -> by (vm_compute; reflexivity). lia. Qed.
Lemma view_ticks3 : (w_ticks (db_world view_db3) + 6 <= 100)%nat.
Proof. assert (w_ticks (db_world view_db3) = 13%nat) as -> by (vm_compute; reflexivity). lia. Qed.

Lemma view_tables : exists p1 p2 p3 p4 tabs, (arranged 1000 100 view_db tabs /\ primed view_db tabs) /\ tabs ≡ₚ [p4; p3; p2; p1] /\
  since (ds_world view_start) (db_world view_db) /\ Forall (new_tab (ds_world view_start)) [p4; p3; p2; p1] /\
  (dir_of p2 ∉ dirs (w_fs (db_world view_db1))) /\
  (forall k, sm_get k p1.2 = if decide (k = [x61]) then Some (smv_new 0 old_time false) else None) /\
  (forall k, sm_get k p2.2 = if decide (k = [x61]) then Some (smv_new 0 new_time false) else None) /\
  (forall k, sm_get k p3.2 = if decide (k = [x62]) then Some (smv_new 0 old_time false) else None) /\
  (forall k, sm_get k p4.2 = if decide (k = [x63]) then Some (smv_new 0 old_time false) else None).
Proof.
  destruct (write_view (ds_db view_start) [] [x61] old_time view_start_arranged) as (t1 & p1 & [A1 P1 S1 N1 D1 G1]); [by split|cbn; lia|by repeat split; vm_compute|].
  destruct (write_view view_db1 t1 [x61] new_time A1 S1) as (t2 & p2 & [A2 P2 S2 N2 D2 G2]); [exact view_ticks1|by repeat split; vm_compute|].
  destruct (write_view view_db2 t2 [x62] old_time A2 S2) as (t3 & p3 & [A3 P3 S3 N3 D3 G3]); [exact view_ticks2|by repeat split; vm_compute|].
  destruct (write_view view_db3 t3 [x63] old_time A3 S3) as (t4 & p4 & [A4 P4 S4 N4 D4 G4]); [exact view_ticks3|by repeat split; vm_compute|].
  exists p1, p2, p3, p4, t4. split; [exact A4|]. split; [by rewrite P4, P3, P2, P1|]. split; [exact S4|]. 
  split; [constructor; [exact N4|constructor; [exact N3|constructor; [exact N2|constructor; [exact N1|constructor]]]]|].
  exact (conj D2 (conj G1 (conj G2 (conj G3 G4)))).
Qed.

(** The demonstration's tables *)
Record view_facts (d : Db slist) (tabs : list (Range * slist SkipMapValue)) (p1 p2 p3 p4 : Range * slist SkipMapValue) : Prop := {
  vf_arranged : arranged 1000 100 d tabs;
  vf_primed : primed d tabs;
  vf_tabs : tabs ≡ₚ [p4; p3; p2; p1];
  vf_since : since (ds_world view_start) (db_world d);
  vf_new : Forall (new_tab (ds_world view_start)) [p4; p3; p2; p1];
  vf_get1 k : sm_get k p1.2 = if decide (k = [x61]) then Some (smv_new 0 old_time false) else None;
  vf_get2 k : sm_get k p2.2 = if decide (k = [x61]) then Some (smv_new 0 new_time false) else None;
  vf_get3 k : sm_get k p3.2 = if decide (k = [x62]) then Some (smv_new 0 old_time false) else None;
  vf_get4 k : sm_get k p4.2 = if decide (k = [x63]) then Some (smv_new 0 old_time false) else None;
  vf_restored : restored_ranges (db_ranges d) = ∅;
  vf_ticks : (w_ticks (db_world d) <= 90)%nat;
}.

Section facts.
Variables (d : Db slist) (tabs : list (Range * slist SkipMapValue)) (p1 p2 p3 p4 : Range * slist SkipMapValue).
Hypothesis Hf : view_facts d tabs p1 p2 p3 p4.

Lemma facts_elem p : p ∈ tabs <-> p = p4 \/ p = p3 \/ p = p2 \/ p = p1.
Proof. rewrite (vf_tabs _ _ _ _ _ _ Hf), !elem_of_cons, elem_of_nil. tauto. Qed.

Lemma facts_get p k v : p ∈ tabs -> sm_get k p.2 = Some v -> v = smv_new 0 old_time false \/ v = smv_new 0 new_time false.
Proof.
  intros [->|[->|[->| ->]]]%facts_elem; rewrite ?(vf_get1 _ _ _ _ _ _ Hf), ?(vf_get2 _ _ _ _ _ _ Hf), ?(vf_get3 _ _ _ _ _ _ Hf), ?(vf_get4 _ _ _ _ _ _ Hf);
    case_decide; try discriminate; intros [= <-]; auto.
Qed.

Lemma facts_hit k (h : Hit) : h ∈ sst_hits tabs k -> h = (0, old_time, false) \/ h = (0, new_time, false).
Proof. intros (p & v & Hp & Hv & ->)%sst_hits_elem. destruct (facts_get p k v Hp Hv) as [-> | ->]; [left|right]; by vm_compute. Qed.

Lemma facts_logged : all_logged view_log tabs.
Proof. intros k h _ [-> | ->]%facts_hit _; vm_compute; by eexists. Qed.

Lemma facts_store : store_inv 1000 (with_db view_start d) view_log tabs /\ disk_ok 1000 (with_db view_start d) tabs.
Proof.
  pose proof (vf_new _ _ _ _ _ _ Hf) as Hn. rewrite Forall_forall in Hn.
  assert (file (vlog_file (val_log view_start)) < next_inode (w_fs (ds_world view_start)))%nat as Hl by (cbn; lia).
  split; [eapply (store_rebase 1000 100 view_start view_log []); [exact view_start_inv|by apply Forall_nil|exact Hl|apply Hf|cbn; lia|apply Hf|apply Hf|apply Hf| |exact facts_logged]
         |eapply (rebase_disk 1000 100 view_start); [exact Hl|apply Hf|apply Hf]].
  intros p Hp. right. apply Hn. by rewrite <- (vf_tabs _ _ _ _ _ _ Hf).
Qed.

Lemma facts_layered : layered (with_db view_start d) tabs [].
Proof.
  assert (forall t k, in_mem (with_db view_start d) t -> mem_lookup (db_world d) t k = None) as Hnone.
  { intros t k [->|[id Ht]]; [|by vm_compute in Ht]. unfold mem_lookup. rewrite (sn_maps _ _ (vf_since _ _ _ _ _ _ Hf)) by (cbn; lia). done. }
  split; [..|].
  - intros id. split; [by intros ?%not_elem_of_nil|intros [t Ht]; by vm_compute in Ht].
  - constructor.
  - intros id t Ht. by vm_compute in Ht.
  - intros id t Ht. by vm_compute in Ht.
  - intros t Ht k v. change (ds_world (with_db view_start d)) with (db_world d). by rewrite Hnone.
  - intros k h t v _ _ Ht. change (ds_world (with_db view_start d)) with (db_world d). by rewrite Hnone.
  - intros k _ h h' [-> | ->]%facts_hit [-> | ->]%facts_hit; cbn [fst snd]; unfold old_time, new_time; (done || intros; lia).
Qed.

Lemma facts_compactable : compactable 1000 100 (with_db view_start d) view_log tabs.
Proof.
  split; [apply Hf|apply Hf|apply Hf|exact facts_logged|..].
  - unfold total_weight. rewrite (vf_tabs _ _ _ _ _ _ Hf). cbn [sum_list_with]. unfold weight.
    rewrite (single_iter _ _ _ (vf_get1 _ _ _ _ _ _ Hf)), (single_iter _ _ _ (vf_get2 _ _ _ _ _ _ Hf)),
      (single_iter _ _ _ (vf_get3 _ _ _ _ _ _ Hf)), (single_iter _ _ _ (vf_get4 _ _ _ _ _ _ Hf)). by vm_compute.
  - rewrite (vf_tabs _ _ _ _ _ _ Hf). pose proof (vf_ticks _ _ _ _ _ _ Hf). change (ds_world (with_db view_start d)) with (db_world d). cbn [length]. lia.
Qed.

(** The new version of the key is kept if its table is not a first one. *)
Lemma facts_outlives : dir_of p2 ∉ first_dirs (db_buckets d) -> outlives d tabs [x61].
Proof.
  intros Hd p v Hp _ Hv. exists p2, (smv_new 0 new_time false). split; [apply facts_elem; auto|]. split; [exact Hd|].
  split; [by rewrite (vf_get2 _ _ _ _ _ _ Hf), decide_True|]. destruct (facts_get p _ v Hp Hv) as [-> | ->]; vm_compute; discriminate.
Qed.
End facts.

(** The buckets that are merged, before and after the only round *)
Lemma view_first : Forall (fun q => q ∈ dirs (w_fs (db_world view_db1))) (first_dirs (db_buckets view_db)).
Proof. apply (bool_decide_unpack _). vm_compute. reflexivity. Qed.

Lemma view_holds : exists d p1 p2 p3 p4 tabs, view_facts d tabs p1 p2 p3 p4 /\ (dir_of p2 ∉ first_dirs (db_buckets d)) /\
  is_balanced (db_buckets d) = false /\ is_balanced (db_buckets (compaction_round demo_cc_rate ∅ d).2) = true.
Proof.
  destruct view_tables as (p1 & p2 & p3 & p4 & tabs & [A A'] & P & Sn & Nw & D2 & G1 & G2 & G3 & G4). exists view_db, p1, p2, p3, p4, tabs. split; [|split; [|split]].
  - split; [exact A|exact A'|exact P|exact Sn|exact Nw|exact G1|exact G2|exact G3|exact G4| |].
    + vm_compute. reflexivity.
    + assert (w_ticks (db_world view_db) = 17%nat) as -> by (vm_compute; reflexivity). lia.
  - intros Hin. pose proof view_first as Hfd. rewrite Forall_forall in Hfd. exact (D2 (Hfd _ Hin)).
  - vm_compute. reflexivity.
  - vm_compute. reflexivity.
Qed.

Lemma one_round_only d tabs k d1 tabs1 :
  is_balanced (db_buckets (compaction_round demo_cc_rate ∅ d).2) = true -> outlives d tabs k ->
  rounds 1000 100 demo_cc_rate d tabs d1 tabs1 -> outlives d1 tabs1 k.
Proof.
  intros Hb Ho Hr. destruct Hr as [d tabs|d tabs pss d2 tabs2 news d' tabs' E _ Hr']; [exact Ho|]. rewrite E in Hb. cbn [snd] in Hb.
  destruct Hr' as [d3 tabs3|d3 tabs3 pss3 d4 tabs4 news4 d5 tabs5 E' _ _]; [|rewrite (round_balanced demo_cc_rate ∅ d3 Hb) in E'; discriminate E'].
  intros p v _ Hd _. exfalso. unfold dropped, first_dirs in Hd. apply is_balanced_imbalanced in Hb. rewrite Hb in Hd. by apply not_elem_of_nil in Hd.
Qed.

End view_witnesses.
