(* ===== verification/Provenance.v ===== *)
(** * Where the bindings come from

    Every binding of a key in a memtable or in a table on disk is that of a log
    entry of the key, cut to what a table stores, and the key's later entries in
    the log are from later milliseconds. [traced] says so of a running store, and
    the steps of the program keep it. It is what makes the replay of the log after
    a crash agree with the tables: a table's binding of a key is older than the
    last log entry of the key, or is that entry ([traced_latest]). *)

From stdpp Require Import prelude gmap strings list.
From Stdlib Require Import Strings.Byte ZArith Lia.
From S2P Require Import Prelude Consts SkipMap FileIO Types World VLog Block Index Bloom SSTable Meta MemTable.
From S2P Require Import KeyRange RangeSearch Bucket Flush Compaction Config Store StoreInv StoreSpec FlushSpec SysInv Recovery TableRecovery Durability System.
Open Scope Z_scope.

(** *** Offsets in a growing log *)
Lemma offset_app es ws n : (n <= length es)%nat -> offset_of (es ++ ws) n = offset_of es n.
Proof. intros Hn. unfold offset_of. by rewrite take_app_le. Qed.

Lemma offset_end es ws : offset_of (es ++ ws) (length es) = zlen (log_bytes es).
Proof. unfold offset_of. by rewrite take_app_length. Qed.

Lemma offset_le es n : offset_of es n <= zlen (log_bytes es).
Proof.
  unfold offset_of. rewrite <- (take_drop n es) at 2. rewrite log_bytes_app, zlen_app. pose proof (zlen_nonneg (log_bytes (drop n es))). lia.
Qed.

Lemma offset_lt es n : (n < length es)%nat -> offset_of es n < zlen (log_bytes es).
Proof.
  intros Hn. unfold offset_of. rewrite <- (take_drop n es) at 2. rewrite log_bytes_app, zlen_app.
  destruct (drop n es) as [|e l] eqn:E; [apply (f_equal length) in E; rewrite length_drop in E; cbn in E; lia|].
  rewrite log_bytes_cons. pose proof (entry_bytes_pos e). pose proof (zlen_nonneg (log_bytes l)). lia.
Qed.

Lemma offset_entry es i e : es !! i = Some e -> entry_at es (offset_of es i) = Some e.
Proof.
  intros Hi. rewrite <- (take_drop i es) at 1. rewrite (drop_S _ _ _ Hi). unfold offset_of.
  rewrite <- (Z.add_0_r (zlen _)), entry_at_skip by done. cbn. by rewrite decide_True.
Qed.

(** What a table tells of a log entry: entry [i] of the log is [e]. *)
Definition table_hit (es : list ValueLogEntry) (i : nat) (e : ValueLogEntry) : Hit :=
  (as_u32 (offset_of es i), trunc_ms (vle_created_at e), vle_is_tombstone e).

(** The entries of [k] after entry [i] of the log are from later milliseconds than [t]. *)
Definition superseded (es : list ValueLogEntry) (k : list byte) (i : nat) (t : DateTime) : Prop :=
  forall j e, (i < j)%nat -> es !! j = Some e -> vle_key e = k -> t < trunc_ms (vle_created_at e).

Lemma superseded_app es k i t e :
  superseded es k i t -> (vle_key e = k -> t < trunc_ms (vle_created_at e)) -> superseded (es ++ [e]) k i t.
Proof.
  intros Hs He j e' Hij [Hj|[_ Hj]]%lookup_app_Some Hk; [by apply (Hs j)|]. apply list_lookup_singleton_Some in Hj as [_ <-]. by apply He.
Qed.

Definition sourced (es : list ValueLogEntry) (k : list byte) (h : Hit) : Prop :=
  exists i e, es !! i = Some e /\ vle_key e = k /\ h = table_hit es i e /\ superseded es k i h.1.2.

(** The log holds what the bindings refer to. *)
Lemma sourced_logged es k h : zlen (log_bytes es) <= 2 ^ 32 -> sourced es k h -> is_Some (entry_at es h.1.1).
Proof.
  intros Hlen (x & e & He & _ & -> & _). exists e. unfold table_hit. cbn [fst]. rewrite as_u32_id; [by apply offset_entry|].
  pose proof (offset_lt es x (lookup_lt_Some _ _ _ He)). split; [apply zlen_nonneg|lia].
Qed.

(** The same of a binding in memory, whose offset and time are not cut *)
Definition bound_to (es : list ValueLogEntry) (k : list byte) (v : SkipMapValue) (i : nat) : Prop :=
  exists e, es !! i = Some e /\ vle_key e = k /\ smv_val_offset v = offset_of es i /\
    stamp v = trunc_ms (vle_created_at e) /\ smv_is_tombstone v = vle_is_tombstone e.

Definition bound_at (es : list ValueLogEntry) (k : list byte) (v : SkipMapValue) : Prop :=
  exists i, bound_to es k v i /\ superseded es k i (stamp v).

(** ... and of one that belongs to the last entry of its key *)
Definition bound_last (es : list ValueLogEntry) (k : list byte) (v : SkipMapValue) : Prop :=
  exists i, bound_to es k v i /\ forall j e, (i < j)%nat -> es !! j = Some e -> vle_key e <> k.

Lemma bound_last_at es k v : bound_last es k v -> bound_at es k v.
Proof. intros (i & Hb & Hl). exists i. split; [done|]. intros j e Hij Hj Hk. by destruct (Hl j e). Qed.

Lemma bound_sourced es k v : bound_at es k v -> sourced es k (found v).
Proof.
  intros (i & (e & Hi & Hk & Ho & Ht & Hb) & Hs). exists i, e. do 2 (split; [done|]). split; [|done].
  unfold found, table_hit. unfold stamp in Ht. by rewrite Ho, Ht, Hb.
Qed.

Lemma bound_to_app es ws k v i : bound_to es k v i -> bound_to (es ++ ws) k v i.
Proof.
  intros (e & Hi & Hk & Ho & Ht). exists e. pose proof (lookup_lt_Some _ _ _ Hi). by rewrite lookup_app_l, offset_app by lia.
Qed.

Lemma table_hit_app es ws i e : es !! i = Some e -> table_hit (es ++ ws) i e = table_hit es i e.
Proof. intros Hi%lookup_lt_Some. unfold table_hit. by rewrite offset_app by lia. Qed.

(** One more entry in the log: an older binding of its key is from an earlier
    millisecond. *)
Lemma sourced_app es e k (h : Hit) : sourced es k h -> (vle_key e = k -> h.1.2 < trunc_ms (vle_created_at e)) -> sourced (es ++ [e]) k h.
Proof.
  intros (i & e0 & Hi & Hk & -> & Hs) He. exists i, e0. rewrite (table_hit_app _ _ _ _ Hi), lookup_app_l by by eapply lookup_lt_Some.
  do 3 (split; [done|]). by apply superseded_app.
Qed.

Lemma bound_at_app es e k v : bound_at es k v -> (vle_key e = k -> stamp v < trunc_ms (vle_created_at e)) -> bound_at (es ++ [e]) k v.
Proof. intros (i & Hb & Hs) He. exists i. split; [by apply bound_to_app|by apply superseded_app]. Qed.

Lemma bound_last_app es e k v : bound_last es k v -> vle_key e <> k -> bound_last (es ++ [e]) k v.
Proof.
  intros (i & Hb & Hs) He. exists i. split; [by apply bound_to_app|]. intros j e' Hij [Hj|[_ Hj]]%lookup_app_Some; [by apply (Hs j)|].
  by apply list_lookup_singleton_Some in Hj as [_ <-].
Qed.

Lemma bound_new es e v :
  smv_val_offset v = zlen (log_bytes es) -> smv_created_at v = vle_created_at e -> smv_is_tombstone v = vle_is_tombstone e ->
  bound_last (es ++ [e]) (vle_key e) v.
Proof.
  intros E1 E2 E3. exists (length es). split.
  - exists e. unfold stamp. by rewrite lookup_app_r, Nat.sub_diag, offset_end, E2 by done.
  - intros j e' Hj Hl%lookup_lt_Some. rewrite length_app in Hl. cbn in Hl. lia.
Qed.

Section provenance.
Context `{Env} {M : Type -> Type} `{SkipMap M} (N : nat).
Abbreviation W := (World M).
Abbreviation S := (DataStore M).
Implicit Types (s : S) (w : W) (es : list ValueLogEntry) (tabs : list (Range * M SkipMapValue)).

(** An entry of the log: it fits a block of a table, and its time is after the
    default date. *)
Record entry_fit (e : ValueLogEntry) : Prop := {
  ep_key : vle_key e <> [] /\ short_key (vle_key e);
  ep_valid : valid_time (vle_created_at e);
  ep_start : default_datetime < trunc_ms (vle_created_at e);
}.

Record traced s es tabs : Prop := {
  tr_active k v : k <> HEAD_ENTRY_KEY -> mem_lookup (ds_world s) (active_memtable s) k = Some v -> bound_last es k v;
  tr_ro k v id t : k <> HEAD_ENTRY_KEY -> sm_get id (read_only_memtables s) = Some t -> mem_lookup (ds_world s) t k = Some v -> bound_at es k v;
  tr_tabs k h : k <> HEAD_ENTRY_KEY -> h ∈ sst_hits tabs k -> sourced es k h;
  tr_entries : Forall entry_fit es;
  tr_clock e : e ∈ es -> exists n, (n < w_ticks (ds_world s))%nat /\ vle_created_at e = clock n;
}.

Lemma tr_mem s es tabs k v t :
  traced s es tabs -> k <> HEAD_ENTRY_KEY -> in_mem s t -> mem_lookup (ds_world s) t k = Some v -> bound_at es k v.
Proof. intros [T1 T2 _ _] Hk [->|[id Ht]] Hv; [by apply bound_last_at, T1|by eapply T2]. Qed.

(** A table's binding and the last entry of the key *)
Lemma traced_latest es k (h : Hit) j e :
  sourced es k h -> es !! j = Some e -> vle_key e = k -> (forall j' e', (j < j')%nat -> es !! j' = Some e' -> vle_key e' <> k) ->
  h.1.2 < trunc_ms (vle_created_at e) \/ h = table_hit es j e.
Proof.
  intros (i & e' & Hi & Hk & -> & Hs) Hj Hke Hlast. destruct (decide (i = j)) as [->|Hij]; [right; congruence|left].
  destruct (decide (j < i)%nat) as [Hlt|]; [by destruct (Hlast i e')|]. apply (Hs j); [lia|done|done].
Qed.

(** *** Steps that keep what the memtables hold *)
Lemma traced_calm s s' es tabs tabs' :
  calm s s' -> (forall k h, h ∈ sst_hits tabs' k -> h ∈ sst_hits tabs k) -> traced s es tabs -> traced s' es tabs'.
Proof.
  intros Hc Ht [T1 T2 T3 T4 T5]. split; try done.
  - intros k v Hk. rewrite (cm_active _ _ Hc), (calm_lookup _ _ _ _ Hc) by by left. by apply T1.
  - intros k v id t Hk. rewrite (cm_ro _ _ Hc). intros Hm. rewrite (calm_lookup _ _ _ _ Hc) by (right; by exists id). by apply (T2 k v id).
  - intros k h Hk Hh. apply T3; auto.
  - intros e He. destruct (T5 e He) as (n & Hn & E). exists n. pose proof (cm_ticks _ _ Hc). split; [lia|done].
Qed.

Lemma searched_traced s es tabs s' : store_inv N s es tabs -> searched s tabs s' -> traced s es tabs -> traced s' es tabs.
Proof. intros Hi Hs. apply traced_calm; [by eapply searched_calm|done]. Qed.

Lemma prepared_traced s es tabs s' tabs' : store_inv N s es tabs -> prepared s tabs s' tabs' -> traced s es tabs -> traced s' es tabs'.
Proof.
  intros Hi (s0 & Hse & -> & Hre) Ht. destruct (searched_traced _ _ _ _ Hi Hse Ht) as [T1 T2 T3 T4 T5]. split; try done.
  intros k h Hk Hh. apply T3; [done|]. by apply (retabled_hits _ _ _ _ _ Hre).
Qed.

(** *** Writes *)

(** Where the bindings come from after a write: those of the active memtable are
    the written one and, for other keys, old ones of the active memtable; those
    of the read-only ones were there, or in the active memtable if it was full. *)
Lemma put_from_active s es tabs e s' k v :
  put_trace N s es tabs e s' -> mem_lookup (ds_world s') (active_memtable s') k = Some v ->
  (k = e_key e /\ v = value_of e) \/ (k <> e_key e /\ mem_lookup (ds_world s) (active_memtable s) k = Some v).
Proof.
  intros (s1 & a & w & Hroom & Hi1 & Hx & ->) Hv. cbn in Hv. rewrite (mx_lookup _ _ _ _ _ Hx) in Hv. case_decide; [left; by injection Hv as <-|right].
  split; [done|]. destruct Hroom as [[-> _]|(_ & a1 & w1 & Hm)]; [done|]. destruct (migrated_active _ _ _ _ Hm) as (_ & Hnone & _). by rewrite Hnone in Hv.
Qed.

Lemma put_from_ro s es tabs ids e s' k v id t :
  orderly_env N -> sys_inv N s es tabs ids -> (w_ticks (ds_world s) + 8 <= N)%nat -> put_trace N s es tabs e s' ->
  sm_get id (read_only_memtables s') = Some t -> k <> HEAD_ENTRY_KEY -> mem_lookup (ds_world s') t k = Some v ->
  (exists id' t', sm_get id' (read_only_memtables s) = Some t' /\ mem_lookup (ds_world s) t' k = Some v) \/
  (is_full (active_memtable s) HEAD_KEY_SIZE = true /\ mem_lookup (ds_world s) (active_memtable s) k = Some v).
Proof.
  intros Ho Hs HN (s1 & a & w & Hroom & Hi1 & Hx & ->) Ht Hk Hv. cbn in Ht, Hv.
  assert (mem_lookup (ds_world s1) t k = Some v) as Hv1.
  { unfold mem_lookup in *. rewrite <- (mx_maps _ _ _ _ _ Hx); [done|]. by destruct (si_ro _ _ _ _ Hi1 id t Ht) as [_ [] _ _]. }
  destruct Hroom as [[-> _]|(Hfull & a1 & w1 & Hmg)]; [left; by exists id, t|].
  destruct (moved_from N s s1 es tabs ids a1 w1 Ho Hs Hmg t k v ltac:(right; by exists id) Hk Hv1) as (t' & [->|[i Hi]] & Hv'); [by right|left; by exists i, t'].
Qed.

Lemma put_trace_ticks s es tabs e s' : put_trace N s es tabs e s' -> (w_ticks (ds_world s) <= w_ticks (ds_world s'))%nat.
Proof.
  intros (s1 & a & w & Hroom & _ & Hx & ->). cbn. rewrite (mx_ticks _ _ _ _ _ Hx). destruct Hroom as [[-> _]|(_ & a1 & w1 & Hm)]; [done|].
  apply (migrated_ticks _ _ _ _ Hm).
Qed.

Lemma wrote_traced s es tabs ids k val s' :
  orderly_env N -> sys_inv N s es tabs ids -> (w_ticks (ds_world s) + 9 <= N)%nat -> k <> [] -> short_key k ->
  timely s tabs k (clock (w_ticks (ds_world s))) -> wrote N s es tabs k val s' -> traced s es tabs ->
  traced s' (es ++ [log_entry k val (clock (w_ticks (ds_world s)))]) tabs.
Proof.
  intros Ho Hs HN Hne Hk [M1 M2 M3] (v' & fs' & Hlo & Hi0 & Hp) [T1 T2 T3 T4 T5]. set (e := log_entry k val _) in *. set (s0 := with_val_log _ v') in *.
  pose proof (log_step_inv N s es tabs ids fs' v' _ Hlo Hi0 Hs) as Hs0. split.
  - intros k' v Hk' Hv. destruct (put_from_active s0 _ tabs _ s' k' v Hp Hv) as [[-> ->]|[Hkk Hv']]; [by apply (bound_new es e)|].
    apply bound_last_app; [by apply T1|]. exact (not_eq_sym Hkk).
  - intros k' v id t Hk' Ht Hv. destruct (put_from_ro s0 _ tabs ids _ s' k' v id t Ho Hs0 ltac:(cbn; lia) Hp Ht Hk' Hv) as [(id' & t' & Ht' & Hv')|[Hf Hv']].
    + apply bound_at_app; [by apply (T2 k' v id' t')|]. intros <-. exact (M1 id' t' v Ht' Hv').
    + apply bound_at_app; [by apply bound_last_at, T1|]. intros <-. exact (M2 v Hf Hv').
  - intros k' h Hk' Hh. apply sourced_app; [by apply T3|]. intros <-. by apply M3.
  - apply Forall_app. split; [done|]. apply Forall_singleton. split; cbn; [done|apply clock_valid|]. apply (env_start _ Ho). lia.
  - pose proof (put_trace_ticks _ _ _ _ _ Hp) as Htk. change (w_ticks (ds_world s0)) with (Datatypes.S (w_ticks (ds_world s))) in Htk.
    intros e' [(n & Hn & E)%T5| ->%list_elem_of_singleton]%elem_of_app; [exists n|exists (w_ticks (ds_world s))]; split; [lia|done..].
Qed.

Lemma put_of_traced s es tabs ids k val s' tabs' :
  orderly_env N -> sys_inv N s es tabs ids -> (w_ticks (ds_world s) + 9 <= N)%nat -> k <> [] -> short_key k -> spaced s k ->
  put_trace_of N s es tabs k val s' tabs' -> traced s es tabs ->
  traced s' (es ++ [log_entry k val (clock (w_ticks (ds_world s)))]) tabs'.
Proof.
  intros Ho Hs HN Hne Hk Hsp (s1 & Hp & Hi1 & Hw) Ht. pose proof (prepared_traced _ _ _ _ _ (sy_store _ _ _ _ _ Hs) Hp Ht) as Ht1.
  destruct (prepared_world _ _ _ _ Hp) as [Hg _]. pose proof (hx_ticks _ _ Hg) as Et. destruct Hp as (s0 & Hse & -> & Hre).
  pose proof (refreshed_sys _ _ _ _ _ _ (searched_sys _ _ _ _ _ _ Hs Hse) Hre Hi1) as Hs1.
  pose proof (spaced_timely _ _ _ _ _ (sy_store _ _ _ _ _ Hs) Hsp) as Htm.
  apply (timely_calm _ _ _ _ _ (searched_calm _ _ _ _ _ (sy_store _ _ _ _ _ Hs) Hse)), (timely_retabled _ _ _ _ _ _ Hre) in Htm. rewrite <- Et in *.
  eapply (wrote_traced (refreshed s0)); try done. by destruct Htm.
Qed.

Lemma exec_traced s s' es tabs tabs' ids op :
  orderly_env N -> sys_inv N s es tabs ids -> (w_ticks (ds_world s) + 9 <= N)%nat -> call_ok op -> spaced_call s op -> op_trace N op s es tabs s' tabs' ->
  traced s es tabs -> traced s' (es ++ op_entries op (clock (w_ticks (ds_world s)))) tabs'.
Proof.
  intros Ho Hs HN [Hop Hsh] Hsp Htr Ht. assert (forall k, validate_size k None = Ok tt -> k <> []) as Hne by (intros k Hk ->; done).
  destruct op as [k val|k val|k|k]; destruct Hop as [Hw Hk]; cbn in Htr |- *.
  - eapply put_of_traced; try done. eapply Hne, validate_key, Hw.
  - eapply put_of_traced; try done. eapply Hne, validate_key, Hw.
  - eapply put_of_traced; try done. by apply Hne.
  - destruct Htr as [Htr ->]. rewrite app_nil_r. eapply searched_traced; [apply Hs|done..].
Qed.

(** *** Flushes *)
Lemma flush_traced s es tabs id t l s' tabs' r :
  store_inv N s es tabs -> sm_get id (read_only_memtables s) = Some t -> flushed (with_tasks s l) id t tabs s' tabs' r ->
  traced s es tabs -> traced s' es tabs'.
Proof.
  intros Hi Ht Hf Htd. pose proof Htd as [T1 T2 T3 T4 T5]. pose proof (fd_state _ _ _ _ _ _ _ Hf) as Es.
  change (ds_world (with_tasks s l)) with (ds_world s) in *.
  assert (forall x k v, in_mem s x -> mem_lookup (ds_world s') x k = Some v -> mem_lookup (ds_world s) x k = Some v) as Hold.
  { intros x k v Hx Hl. destruct (decide (mt_entries x = mt_entries t)) as [Ee|Ee].
    - unfold mem_lookup in Hl. rewrite Ee, (fd_empty _ _ _ _ _ _ _ Hf) in Hl. by rewrite sm_get_new in Hl.
    - rewrite <- Hl. unfold mem_lookup. rewrite (fd_maps _ _ _ _ _ _ _ Hf); [done| |done]. by apply (mem_below N s es tabs). }
  split; [..|done|].
  - intros k v Hk Hl. assert (active_memtable s' = active_memtable s) as Ea by by rewrite Es. rewrite Ea in Hl. apply (T1 k v Hk), Hold; [by left|done].
  - intros k v i x Hk Hm Hl. rewrite Es in Hm. cbn in Hm. rewrite sm_get_remove in Hm. case_decide; [done|].
    apply (T2 k v i x Hk Hm), Hold; [right; by exists i|done].
  - assert (tabs'.*2 ≡ₚ the_map (ds_world s) (mt_entries t) :: tabs.*2) as Hp by by rewrite (fd_tabs _ _ _ _ _ _ _ Hf).
    intros k h Hk. rewrite sst_hits_maps, (map_hits_perm k _ _ Hp). unfold map_hits. cbn.
    destruct (sm_get k (the_map (ds_world s) (mt_entries t))) as [v|] eqn:Ev; cbn.
    + intros [->|Hh]%elem_of_cons; [apply bound_sourced, (T2 k v id t Hk Ht Ev)|]. apply T3; [done|]. by rewrite sst_hits_maps.
    + intros Hh. apply T3; [done|]. by rewrite sst_hits_maps.
  - intros e He. destruct (T5 e He) as (n & Hn & E). exists n. pose proof (fd_ticks _ _ _ _ _ _ _ Hf) as Htk. change (ds_world (with_tasks s l)) with (ds_world s) in Htk. split; [lia|done].
Qed.

(** *** A new store *)
Lemma opened_traced root w t s :
  orderly_env N -> opened root w t s -> w_ticks (ds_world s) = (5 + w_ticks w)%nat -> (w_ticks w + 5 < N)%nat -> traced s (first_entries t) [].
Proof.
  intros Ho Hop Htk HN. destruct (oe_parts _ _ _ _ Hop) as (a & v & m & l & w' & ->). pose proof (oe_time _ _ _ _ Hop) as ->. split.
  - intros k x Hk. rewrite (oe_lookup _ _ _ _ Hop), decide_False by done. case_decide; [|done]. intros [= <-]. subst k. exists O. split.
    + eexists. split; [reflexivity|]. by split.
    + intros j e Hj He. destruct j as [|[|j]]; [lia| |apply lookup_lt_Some in He; cbn in He; lia]. by injection He as <-.
  - intros k x id t' Hk Ht. cbn in Ht. by rewrite sm_get_new in Ht.
  - by intros k h _ ?%not_elem_of_nil.
  - apply Forall_cons. split; [|apply Forall_singleton]; (split; cbn; [split; [done|by vm_compute]|apply clock_valid|apply (env_start _ Ho); lia]).
  - intros e He. exists (4 + w_ticks w)%nat. split; [lia|].
    repeat (apply elem_of_cons in He as [->|He]; [done|]). by apply not_elem_of_nil in He.
Qed.
End provenance.
