(* ===== verification/CompactionSystem.v ===== *)
(** * Compaction runs as steps of the system

    The invariants of the running program are kept by a compaction run that starts
    when the tables hold no deletions, their filters are in memory, no collector
    insertion has reached the memory of a flushed memtable, and no key's newest
    version is only in the first table of a merged bucket, which the code skips
    ([may_compact], [compact_step_run]). The other steps keep the tables in the
    places where a run expects them ([placed]). *)

From stdpp Require Import prelude gmap strings list list_numbers.
From Stdlib Require Import Strings.Byte ZArith Lia.
From S2P Require Import Prelude Consts SkipMap FileIO Types World VLog Block Index Bloom SSTable Meta MemTable KeyRange RangeSearch Bucket Flush Compaction CompactionRun.
From S2P Require Import Config Store StoreInv StoreSpec FlushSpec CompactionSpec SysInv Recovery TableRecovery FlushRecovery CompactionStep System CompactionView Provenance.
Open Scope Z_scope.

Section placed.
Context `{Env} {M : Type -> Type} `{SkipMap M} (N : nat).
Abbreviation W := (World M).
Abbreviation D := (Db M).
Abbreviation S := (DataStore M).
Implicit Types (w : W) (d : D) (s : S) (tabs : list (Range * M SkipMapValue)) (es : list ValueLogEntry).

(** ** Tables in their places *)

(** What [arranged] says beyond the invariant of the system: the tables of a
    bucket are below its directory, and each has a range. *)
Record placed d : Prop := {
  pl_buckets : Forall (fun q => bk_dir q.2 = bucket_path (bm_dir (db_buckets d)) q.1 /\
    Forall (housed (db_world d) (bm_dir (db_buckets d)) q.1) (sstables q.2)) (buckets (db_buckets d));
  pl_dirs : NoDup (t_dir <$> bm_tables (db_buckets d));
  pl_linked t : t ∈ bm_tables (db_buckets d) -> exists r, key_ranges (db_ranges d) !! t_dir t = Some r /\
    data_file (r_sst r) = data_file t /\ index_file (r_sst r) = index_file t;
}.

Lemma index_elem (kr : gmap (list string) Range) tabs q r :
  tabs.*1 = (hm_iter kr).*2 -> kr !! q = Some r -> exists p, p ∈ tabs /\ p.1 = r.
Proof.
  intros E Hq. assert (r ∈ tabs.*1) as (p & -> & Hp)%list_elem_of_fmap; [|by exists p].
  rewrite E. apply list_elem_of_fmap. exists (q, r). split; [done|]. by apply hm_iter_elem.
Qed.

Lemma index_range (kr : gmap (list string) Range) tabs p :
  tabs.*1 = (hm_iter kr).*2 -> (forall q r, kr !! q = Some r -> t_dir (r_sst r) = q) -> p ∈ tabs -> kr !! dir_of p = Some p.1.
Proof.
  intros E Hk Hp. assert (p.1 ∈ (hm_iter kr).*2) as ([q r] & Er & Hq%hm_iter_elem)%list_elem_of_fmap
    by (rewrite <- E; apply list_elem_of_fmap; by exists p).
  cbn in Er. unfold dir_of. by rewrite Er, (Hk _ _ Hq).
Qed.

Lemma arranged_placed B d tabs : arranged N B d tabs -> placed d.
Proof.
  intros Ha. split; [apply Ha|apply Ha|]. intros t Ht. destruct (ar_linked _ _ _ _ Ha t Ht) as (p & Hp & [I1 I2 I3]).
  exists p.1. rewrite <- I1. split; [|done]. apply (index_range _ tabs); [apply Ha|apply Ha|done].
Qed.

Lemma placed_arranged B s es tabs ids :
  sys_inv N s es tabs ids -> placed (ds_db s) -> fresh_dirs B (ds_db s) -> (B <= N)%nat -> arranged N B (ds_db s) tabs.
Proof.
  intros Hs [P1 P2 P3] Hfr HB. destruct (sy_disk _ _ _ _ _ Hs) as [D1 D2 D3 D4]. destruct (si_index _ _ _ _ (sy_store _ _ _ _ _ Hs)) as [X1 X2 _].
  split; try done.
  - intros t Ht. destruct (P3 t Ht) as (r & Hr & Er1 & Er2). destruct (index_elem _ _ _ _ X1 Hr) as (p & Hp & <-). exists p. split; [done|].
    split; [|done|done]. unfold dir_of. by apply X2.
  - pose proof (si_tabs _ _ _ _ (sy_store _ _ _ _ _ Hs)) as Ht. rewrite Forall_forall in Ht, D4. apply Forall_forall. intros p Hp.
    destruct (Ht p Hp) as [[R1 _] _ _ _ _]. split; [done|by apply D4].
Qed.

(** Steps that keep the directories *)
Lemma placed_frame d d' :
  placed d -> db_buckets d' = db_buckets d -> dirs (w_fs (db_world d')) = dirs (w_fs (db_world d)) -> (w_next (db_world d) <= w_next (db_world d'))%nat ->
  (forall q r, key_ranges (db_ranges d) !! q = Some r -> exists r', key_ranges (db_ranges d') !! q = Some r' /\
     data_file (r_sst r') = data_file (r_sst r) /\ index_file (r_sst r') = index_file (r_sst r)) -> placed d'.
Proof.
  intros [P1 P2 P3] Eb Ed Hn Hr. split; rewrite Eb; [|done|].
  - eapply Forall_impl; [exact P1|]. intros q [Q1 Q2]. split; [done|]. eapply Forall_impl; [exact Q2|]. intros t [S1 S2 S3 S4].
    split; [done|done|by rewrite Ed|lia].
  - intros t Ht. destruct (P3 t Ht) as (r & Er & E1 & E2). destruct (Hr _ _ Er) as (r' & Er' & E1' & E2'). exists r'. split; [done|]. split; congruence.
Qed.

Lemma placed_same d d' :
  placed d -> db_buckets d' = db_buckets d -> dirs (w_fs (db_world d')) = dirs (w_fs (db_world d)) -> (w_next (db_world d) <= w_next (db_world d'))%nat ->
  key_ranges (db_ranges d') = key_ranges (db_ranges d) -> placed d'.
Proof. intros Hp Eb Ed Hn Er. eapply placed_frame; try done. rewrite Er. eauto. Qed.

(** ** Calls *)
Lemma searched_placed s tabs s' : searched s tabs s' -> placed (ds_db s) -> placed (ds_db s').
Proof. intros (w' & rest & Hg & _ & ->) Hp. eapply placed_same; [exact Hp|done|..]; cbn; [by rewrite (hx_fs _ _ Hg)|apply Hg|done]. Qed.

Lemma refreshed_placed s es tabs : store_inv N s es tabs -> placed (ds_db s) -> placed (ds_db (refreshed s)).
Proof.
  intros Hi Hp. eapply placed_frame; [exact Hp|done|done|done|]. intros q r Hq. cbn [refreshed ds_db with_db db_ranges]. rewrite update_key_range_lookup.
  destruct (restored_ranges (db_ranges (ds_db s)) !! q) as [r'|] eqn:Er; [|by exists r]. exists r'. split; [done|].
  destruct (si_index _ _ _ _ Hi) as [X1 X2 X3]. destruct (X3 q r' Er) as (r0 & m & Hin & Ed & [_ S2 S3] & _).
  assert (key_ranges (db_ranges (ds_db s)) !! dir_of (r0, m) = Some r0) as Hr0 by by apply (index_range _ tabs).
  unfold dir_of in Hr0. cbn in Hr0. rewrite Ed, Hq in Hr0. injection Hr0 as <-. done.
Qed.

Lemma wrote_placed s es tabs k val s' : wrote N s es tabs k val s' -> placed (ds_db s) -> placed (ds_db s').
Proof.
  intros (v' & fs' & [_ _ L3 _ _] & _ & s1 & a & w & Hroom & _ & Hx & ->) Hp. set (s0 := with_val_log _ v') in *.
  assert (placed (ds_db s0)) as Hp0 by (eapply placed_same; [exact Hp|done|exact L3|done|done]).
  assert (placed (ds_db s1)) as Hp1.
  { destruct Hroom as [[-> _]|(_ & a1 & w1 & Hmg)]; [done|]. destruct (mg_created _ _ _ _ Hmg) as (w2 & g & h & C1 & C2 & _).
    pose proof (mg_inserted _ _ _ _ Hmg) as X. pose proof (mc_entries _ _ _ _ C1). pose proof (mc_entries _ _ _ _ C2). pose proof (mx_next _ _ _ _ _ X).
    eapply placed_same; [exact Hp0|apply Hmg| | |by rewrite (mg_ranges _ _ _ _ Hmg)]; unfold ds_world in *.
    - rewrite (mc_fs _ _ _ _ C2), (mc_fs _ _ _ _ C1). cbn. by rewrite (mx_fs _ _ _ _ _ X).
    - cbn in *. lia. }
  eapply placed_same; [exact Hp1|done|..]; cbn; [by rewrite (mx_fs _ _ _ _ _ Hx)|by rewrite (mx_next _ _ _ _ _ Hx)|done].
Qed.

Lemma exec_placed op s es tabs s' tabs' :
  store_inv N s es tabs -> op_trace N op s es tabs s' tabs' -> placed (ds_db s) -> placed (ds_db s').
Proof.
  intros Hi Htr Hp. assert (forall k val, put_trace_of N s es tabs k val s' tabs' -> placed (ds_db s')) as Hput.
  { intros k val (s1 & (s0 & Hse & -> & Hre) & Hi1 & Hw). eapply wrote_placed; [exact Hw|].
    eapply refreshed_placed; [exact (searched_inv N s es tabs s0 Hi Hse)|]. by eapply searched_placed. }
  destruct op; cbn in Htr; [exact (Hput _ _ Htr)..|]. destruct Htr as [Htr _]. by eapply searched_placed.
Qed.

(** ** Tasks *)
Lemma task_placed s l1 x l2 s' :
  run_task x (with_tasks s (l1 ++ l2)) = (Ok tt, s') -> (forall id t, x <> TFlush id t) -> calm s s' -> placed (ds_db s) -> placed (ds_db s').
Proof.
  intros E Hx Hc Hp. eapply placed_same; [exact Hp|apply Hc|apply Hc|apply Hc|].
  destruct x as [h e|o|m|id t|rs]; cbn [run_task] in E; [..|by destruct (Hx id t)|].
  - cbn in E. destruct (gc_tables s !! h) as [g|]; [|injection E as <-; done]. revert E.
    unfold mbind, io_bind, in_world, in_db, on_world. destruct (mem_insert g e _) as [[g'| |] w']; [|done|done]. by intros [= <-].
  - by injection E as <-.
  - revert E. unfold in_world, in_db, on_world. destruct (meta_write m _) as [o w']. by intros [= _ <-].
  - injection E as <-. cbn. unfold install_restored. by case_decide.
Qed.

Lemma flush_placed s es tabs ids l1 id t l2 s' :
  orderly_env N -> sys_inv N s es tabs ids -> (w_ticks (ds_world s) + 4 <= N)%nat -> fresh_dirs (2 + w_ticks (ds_world s)) (ds_db s) -> tasks s = l1 ++ TFlush id t :: l2 ->
  run_task (TFlush id t) (with_tasks s (l1 ++ l2)) = (Ok tt, s') -> placed (ds_db s) -> placed (ds_db s').
Proof.
  intros Ho Hs HN Hfr Et E Hp. pose proof (placed_arranged _ s es tabs ids Hs Hp Hfr ltac:(lia)) as Ha. pose proof Hs as [I1 I2 I3 I4 I5 I6 I7 I8].
  assert (sm_get id (read_only_memtables s) = Some t) as Ht by (apply (qo_flush _ _ _ I6); rewrite Et; set_solver).
  destruct (si_ro _ _ _ _ I1 _ _ Ht) as [R1 [A1 A2 A3 A4] _ _].
  destruct (flush_arranged N _ t (ds_db s) tabs Ho Ha) as (d' & r & tabs' & Ef & Ha' & _); [unfold ds_world; lia|done..|by apply (rm_ro _ I4 id)|].
  cbn [run_task] in E. unfold in_db in E. change (ds_db (with_tasks s (l1 ++ l2))) with (ds_db s) in E. rewrite Ef in E.
  injection E as <-. cbn. by eapply arranged_placed.
Qed.
End placed.

(** ** The tables of a database *)
Section agreement.
Context `{Env} {M : Type -> Type} `{SkipMap M} (N : nat).
Abbreviation D := (Db M).
Abbreviation Tabs := (list (Range * M SkipMapValue)).
Implicit Types (d : D) (tabs : Tabs).

(** Two lists of the same tables, with maps that read the same from disk *)
Definition agree tabs tabs' : Prop :=
  Forall2 (fun p q => p.1 = q.1 /\ forall k, found <$> sm_get k p.2 = found <$> sm_get k q.2) tabs tabs'.

Lemma agree_sym tabs tabs' : agree tabs tabs' -> agree tabs' tabs.
Proof. intros Ha. apply Forall2_flip. eapply Forall2_impl; [exact Ha|]. intros p q [E1 E2]. split; [done|]. intros k. by rewrite E2. Qed.

(** The files of a database determine its tables. *)
Lemma arranged_agree B B' d tabs tabs' : arranged N B d tabs -> arranged N B' d tabs' -> agree tabs tabs'.
Proof.
  intros Ha Ha'. pose proof (ar_index _ _ _ _ Ha) as X. rewrite <- (ar_index _ _ _ _ Ha') in X.
  pose proof (ar_tabs _ _ _ _ Ha) as T. pose proof (ar_tabs _ _ _ _ Ha') as T'. clear Ha Ha'. revert tabs' X T'.
  induction tabs as [|p tabs IH]; intros [|q tabs'] X T'; try discriminate X; [constructor|]. rewrite !fmap_cons in X. injection X as Ep X.
  apply Forall_cons in T as [[Tp _] T], T' as [[Tq _] T']. constructor; [|by apply IH]. split; [done|]. intros k.
  pose proof (sst_lookup_holds _ _ k _ Tp) as L. rewrite Ep, (sst_lookup_holds _ _ k _ Tq) in L. by injection L as ->.
Qed.

Lemma agree_elem tabs tabs' p : agree tabs tabs' -> p ∈ tabs -> exists q, q ∈ tabs' /\ q.1 = p.1 /\ forall k, found <$> sm_get k p.2 = found <$> sm_get k q.2.
Proof.
  intros Ha [i Hi]%list_elem_of_lookup. destruct (Forall2_lookup_l _ _ _ _ _ Ha Hi) as (q & Hq & E1 & E2).
  exists q. split; [by eapply list_elem_of_lookup_2|done].
Qed.

Lemma found_get (m m' : M SkipMapValue) k v :
  (forall k, found <$> sm_get k m = found <$> sm_get k m') -> sm_get k m = Some v -> exists v', sm_get k m' = Some v' /\ found v' = found v.
Proof.
  intros E Hv. specialize (E k). rewrite Hv in E. destruct (sm_get k m') as [v'|]; [|done].
  exists v'. split; [done|]. change (Some (found v) = Some (found v')) in E. congruence.
Qed.

Lemma agree_outlives d tabs tabs' k : agree tabs tabs' -> outlives d tabs k -> outlives d tabs' k.
Proof.
  intros Ha Ho q v Hq Hd Hv. destruct (agree_elem _ _ q (agree_sym _ _ Ha) Hq) as (p & Hp & Ep & Em).
  destruct (found_get _ _ _ _ Em Hv) as (v0 & Hv0 & E0).
  destruct (Ho p v0 Hp) as (p1 & v1 & Hp1 & Hd1 & Hv1 & Hle); [by unfold dropped, dir_of in *; rewrite Ep|done|].
  destruct (agree_elem _ _ p1 Ha Hp1) as (q1 & Hq1 & Eq1 & Em1). destruct (found_get _ _ _ _ Em1 Hv1) as (v2 & Hv2 & E2).
  exists q1, v2. split; [done|]. split; [by unfold dropped, dir_of in *; rewrite Eq1|]. split; [done|].
  unfold stamp. unfold stamp in Hle. unfold found in E0, E2. injection E0 as _ E0 _. injection E2 as _ E2 _. congruence.
Qed.

Lemma agree_weight tabs tabs' : agree tabs tabs' -> total_weight tabs = total_weight tabs'.
Proof.
  intros Ha. induction Ha as [|p q tabs tabs' [_ E] _ IH]; [done|]. unfold total_weight in *. cbn [sum_list_with]. rewrite IH. f_equal.
  assert ((sm_iter p.2).*1 ≡ₚ (sm_iter q.2).*1) as Hp; [|unfold weight; by rewrite Hp].
  apply NoDup_Permutation; [apply sorted_keys_fst_NoDup|apply sorted_keys_fst_NoDup|]. intros k.
  assert (forall m : M SkipMapValue, k ∈ (sm_iter m).*1 <-> is_Some (found <$> sm_get k m)) as Hk.
  { intros m. rewrite list_elem_of_fmap, fmap_is_Some. split; [intros ([k' v] & -> & Hv%sm_elem); by eexists|intros [v Hv%sm_elem]; by exists (k, v)]. }
  by rewrite !Hk, E.
Qed.

Lemma agree_primed d tabs tabs' : agree tabs tabs' -> primed d tabs -> primed d tabs'.
Proof.
  intros Ha [P1 P2]. split; [|done]. rewrite Forall_forall in P1. apply Forall_forall. intros q Hq.
  destruct (agree_elem _ _ q (agree_sym _ _ Ha) Hq) as (p & Hp & Ep & Em). destruct (P1 p Hp) as [(f & x & L1 & L2 & L3 & L4) T2 T3]. rewrite Ep in *. split; [|done|].
  - exists f, x. do 3 (split; [done|]). intros k [v Hv]. apply L4. destruct (found_get _ _ _ _ Em Hv) as (v' & -> & _). by eexists.
  - intros k v Hv. destruct (found_get _ _ _ _ Em Hv) as (v' & Hv' & Ef). specialize (T3 k v' Hv'). unfold found in Ef. injection Ef as _ _ <-. done.
Qed.
End agreement.

(** ** A compaction run as a step *)
Section compaction_step.
Context `{Env} {M : Type -> Type} `{SkipMap M} (N : nat) (cfg : CompactConfig).
Abbreviation W := (World M).
Abbreviation D := (Db M).
Abbreviation S := (DataStore M).
Implicit Types (w : W) (d : D) (s : S) (tabs : list (Range * M SkipMapValue)) (es : list ValueLogEntry).

(** One round of [run_compaction] that goes on *)
Definition next_round d d' : Prop := compaction_round cfg ∅ d = (Ok (Some ∅), d').

Lemma rounds_reach B d tabs d' tabs' : arranged N B d tabs -> rounds N B cfg d tabs d' tabs' -> rtc next_round d d' /\ arranged N B d' tabs'.
Proof.
  intros Ha Hr. induction Hr as [d tabs|d tabs pss d1 tabs1 news d' tabs' E Hd _ IH]; [by split|].
  destruct (IH (rd_arranged _ _ _ _ _ _ _ _ Hd)) as [R A]. split; [|done]. by eapply rtc_l.
Qed.

(** A run takes no more readings of the clock than it saves tables. *)
Lemma rounds_ticks B d tabs d' tabs' :
  arranged N B d tabs -> rounds N B cfg d tabs d' tabs' -> (w_ticks (db_world d') + length tabs' <= w_ticks (db_world d) + length tabs)%nat.
Proof.
  intros Ha Hr. induction Hr as [d tabs|d tabs pss d1 tabs1 news d' tabs' E Hd _ IH]; [done|].
  specialize (IH (rd_arranged _ _ _ _ _ _ _ _ Hd)). pose proof (round_length N B d tabs pss d1 tabs1 news Ha Hd). pose proof (rd_ticks _ _ _ _ _ _ _ _ Hd). lia.
Qed.

(** The readings of the clock up to which a run may name tables *)
Definition run_end d : nat := (w_ticks (db_world d) + size (key_ranges (db_ranges d)) + 1)%nat.

(** When a run may start: the filters of the tables are in memory, no bucket table
    has entries there, the tables hold no deletions and are small enough for one
    file, no range is restored or about to be, offsets fit the tables, the new
    tables get directories of their own, and in every round each key's newest
    version is in a table that the round keeps or merges. *)
Record may_compact s : Prop := {
  my_fresh : fresh_dirs (run_end (ds_db s)) (ds_db s);
  my_tables : exists tabs, arranged N (w_ticks (ds_world s)) (ds_db s) tabs /\ primed (ds_db s) tabs /\ Z.of_nat (total_weight tabs) < 2 ^ 32;
  my_restored : restored_ranges (db_ranges (ds_db s)) = ∅;
  my_idle rs : TRestored rs ∉ tasks s;
  my_log : vlog_size (val_log s) <= 2 ^ 32;
  my_outlives k d : k <> HEAD_ENTRY_KEY -> rtc next_round (ds_db s) d -> exists tabs, arranged N (w_ticks (db_world d)) d tabs /\ outlives d tabs k;
}.

(** The part of the invariant that is not about tables *)
Section rest.
Variables (s : S) (es : list ValueLogEntry) (tabs : list (Range * M SkipMapValue)) (ids : list (list byte)) (d' : D) (tabs' : list (Range * M SkipMapValue)).
Hypothesis Hs : sys_inv N s es tabs ids.
Hypothesis Hsince : since (ds_world s) (db_world d').
Hypothesis Hticks : (w_ticks (ds_world s) <= w_ticks (db_world d'))%nat.
Abbreviation s' := (with_db s d').

Lemma kept_mem t : in_mem s t -> the_map (ds_world s') (mt_entries t) = the_map (ds_world s) (mt_entries t).
Proof. intros Ht. apply (sn_maps _ _ Hsince). by apply (rebase_mem N s es tabs (sy_store _ _ _ _ _ Hs)). Qed.

Lemma kept_roomy : roomy s'.
Proof.
  destruct (sy_room _ _ _ _ _ Hs) as [R1 R2 R3 R4]. split; try done.
  - eapply fits_frame; [|exact R2]. change (active_memtable s') with (active_memtable s). rewrite kept_mem by by left. done.
  - intros id t Ht. rewrite kept_mem by (right; by exists id). by apply (R4 id).
Qed.

Lemma kept_gc : gc_ok s'.
Proof.
  destruct (sy_gc _ _ _ _ _ Hs) as [G1 G2]. split; [|done]. intros h g Hg. destruct (G1 h g Hg) as [[V1 [V2 V3] V4 V5]|Ht]; [left|by right].
  pose proof (sn_next _ _ Hsince). split; try done; change (ds_world s') with (db_world d').
  - eapply mem_inv_frame; [| |exact V1]; [by apply (sn_maps _ _ Hsince)|by apply (sn_bits _ _ Hsince)].
  - lia.
Qed.

Lemma kept_queue : queue_ok N s' ids.
Proof.
  destruct (sy_queue _ _ _ _ _ Hs) as [Q1 Q2 Q3 Q4 Q5]. split; try done. intros n Hn. apply Q4. change (ds_world s') with (db_world d') in Hn. lia.
Qed.

Lemma kept_meta : (forall p, p ∈ tabs' -> p ∈ tabs \/ new_tab (ds_world s) p) -> Forall (hot_tab (db_world d')) tabs' -> meta_ok s' tabs'.
Proof.
  intros Ht Hh. destruct (sy_meta _ _ _ _ _ Hs) as [M1 M2 M3 M4]. split; [done|..].
  - pose proof (sn_inodes _ _ Hsince). change (ds_world s') with (db_world d'). cbn [ds_meta with_db]. lia.
  - intros p [Hp|[[N1 N2] _]]%Ht; [by apply M3|]. cbn [ds_meta with_db]. lia.
  - intros p i Hp Hc. rewrite Forall_forall in Hh. by destruct (live_not_cold _ _ _ _ _ (ht_live _ _ (Hh p Hp)) Hc).
Qed.

Lemma kept_traced : (forall k (h : Hit), h ∈ sst_hits tabs' k -> h ∈ sst_hits tabs k) -> traced s es tabs -> traced s' es tabs'.
Proof.
  intros Hsub [T1 T2 T3 T4 T5]. split; try done.
  - intros k v Hk Hv. apply (T1 k v Hk). unfold mem_lookup in *. change (active_memtable s') with (active_memtable s) in Hv. by rewrite kept_mem in Hv by by left.
  - intros k v id t Hk Ht Hv. apply (T2 k v id t Hk Ht). unfold mem_lookup in *. by rewrite kept_mem in Hv by (right; by exists id).
  - intros k h Hk Hh. apply T3; auto.
  - intros e He. destruct (T5 e He) as (n & Hn & E). exists n. split; [|done]. eapply Nat.lt_le_trans; [exact Hn|exact Hticks].
Qed.
End rest.

Hypothesis Hcfg : use_ttl cfg = false /\ f64_ge0 (filter_false_positive cfg) = true.

(** A run keeps the invariants, and the map that the store represents. *)
Lemma compact_step_run s es tabs ids m :
  orderly_env N -> sys_inv N s es tabs ids -> represents N s es tabs m -> traced s es tabs -> placed (ds_db s) -> may_compact s ->
  (w_ticks (ds_world s) + length tabs + 1 <= N)%nat ->
  exists d' tabs', handle_compaction cfg (ds_db s) = (Ok tt, d') /\ is_balanced (db_buckets d') = true /\
    sys_inv N (with_db s d') es tabs' ids /\ represents N (with_db s d') es tabs' m /\ traced (with_db s d') es tabs' /\ placed d' /\
    (w_ticks (db_world d') + length tabs' <= w_ticks (ds_world s) + length tabs)%nat.
Proof.
  intros Ho Hs Hr Ht Hp [Hfr (tabs0 & Ha0 & Hpm0 & Hw0) Hres Hidle Hlog Hout] HN.
  assert (run_end (ds_db s) = w_ticks (ds_world s) + length tabs + 1)%nat as Hend.
  { unfold run_end. fold (ds_world s). do 2 f_equal. rewrite <- (length_fmap fst tabs), (ix_tabs _ _ _ (si_index _ _ _ _ (sy_store _ _ _ _ _ Hs))), length_fmap.
    unfold hm_iter. by rewrite hash_iter_perm, length_map_to_list. }
  pose proof (placed_arranged N _ s es tabs ids Hs Hp Hfr ltac:(lia)) as Ha. pose proof (arranged_agree N _ _ _ _ _ Ha0 Ha) as Hag. pose proof (agree_primed _ _ _ Hag Hpm0) as Hpm. rewrite (agree_weight _ _ Hag) in Hw0.
  assert (zlen (log_bytes es) <= 2 ^ 32) as Hlen by by rewrite <- (rep_size _ _ _ (si_log _ _ _ _ (sy_store _ _ _ _ _ Hs))).
  assert (compactable N (run_end (ds_db s)) s es tabs) as Hc.
  { split; try done; [|lia]. intros k h Hk Hh _. eapply sourced_logged; [done|]. by apply (tr_tabs _ _ _ Ht k h). }
  destruct Hcfg as [Hu Hf]. destruct (compaction_view_run N (run_end (ds_db s)) cfg s es tabs ids Hu Hf Ho) as (d' & tabs' & E & Hb & Hrs & Ha' & Hpm' & Hi' & Hy' & Hd' & Hh); [apply Hs..|done|].
  pose proof (rounds_untouched N _ cfg _ _ _ _ Ha Hrs) as [U1 U2 U3 U4 U5].
  assert (sys_inv N (with_db s d') es tabs' ids) as Hs'.
  { split; [done|done|done|by eapply kept_roomy|by eapply kept_gc|by eapply kept_queue| |].
    - by eapply kept_meta, pr_hot.
    - intros rs Hin. by destruct (Hidle rs). }
  exists d', tabs'. do 3 (split; [done|]). split; [|split; [by eapply kept_traced|split; [by eapply arranged_placed|by eapply rounds_ticks]]].
  split; [done|]. intros k Hk. unfold store_view. rewrite Hh; [by apply Hr|done|]. intros d1 tabs1 Hr1.
  destruct (rounds_reach _ _ _ _ _ Ha Hr1) as [Hre Ha1]. destruct (Hout k d1 Hk Hre) as (tabs2 & Ha2 & Ho2). eapply agree_outlives; [|exact Ho2]. by eapply arranged_agree.
Qed.
End compaction_step.
