(* ===== verification/SystemCrash.v ===== *)
(** * The running program and a crash

    [saved] is an invariant of the running program: the tables on disk are those
    of the key-range index, and the metadata on disk or waiting to be written
    point at a log entry such that every key in the active memtable was written
    later. A crash at a moment when no memtable waits for its flush then loses
    nothing ([crash_keeps_map]). *)

From stdpp Require Import prelude gmap strings list.
From Stdlib Require Import Strings.Ascii Strings.Byte ZArith Lia.
From S2P Require Import Prelude Consts SkipMap FileIO Types World VLog Block Index Bloom SSTable Meta MemTable.
From S2P Require Import KeyRange RangeSearch Bucket Flush Compaction Config Store StoreInv StoreSpec FlushSpec SysInv Recovery TableRecovery FlushRecovery.
From S2P Require Import Durability Reopen System Provenance.
Open Scope Z_scope.

(** Keys other than those the store itself writes *)
Definition client_key (k : list byte) : Prop := k <> HEAD_ENTRY_KEY /\ k <> TAIL_ENTRY_KEY.

(** ** Keys of a replay *)
Lemma replay_keys off ws k :
  is_Some (replay off (stored <$> ws) (fun _ => None) k) <-> k ∈ vle_key <$> ws.
Proof.
  induction ws as [|e ws IH] using rev_ind; [cbn; split; [by intros []|by intros ?%not_elem_of_nil]|].
  rewrite !fmap_app, fmap_cons, replay_snoc. change (vle_key (stored e)) with (vle_key e).
  rewrite elem_of_app. cbn [fmap list_fmap]. rewrite list_elem_of_singleton, <- IH. case_decide; [split; [by right|by eexists]|tauto].
Qed.

Lemma log_map_keys (m m' : list byte -> option (list byte)) ws k : k ∈ vle_key <$> ws -> log_map m ws k = log_map m' ws k.
Proof.
  induction ws as [|e ws IH] using rev_ind; [by intros ?%not_elem_of_nil|]. rewrite fmap_app, elem_of_app.
  unfold log_map. rewrite !fold_left_app. cbn. unfold log_step. case_decide; [done|]. intros [Hk|Hk]; [by apply IH|].
  by apply list_elem_of_singleton in Hk.
Qed.

(** Only flushes are enqueued. *)
Lemma enqueue_flushes ts st x : x ∈ (enqueue ts st).2 -> exists id t, x = TFlush id t.
Proof.
  revert st. induction ts as [|[id t] ts IH]; intros st; cbn [enqueue]; [by intros ?%not_elem_of_nil|].
  case_decide; [apply IH|]. cbn [snd]. intros [->|Hx]%elem_of_cons; [by eauto|by eapply IH].
Qed.

Section crash.
Context `{Env} {M : Type -> Type} `{SkipMap M} (N : nat) (parse_uuid : string -> option string) (dir_len : Z) (root : list string).
Abbreviation W := (World M).
Abbreviation S := (DataStore M).
Abbreviation Lay := (list (string * list (string * M SkipMapValue))).
Abbreviation default_mem := (mem_config config_default Bytes).
Implicit Types (s : S) (w : W) (fs : FS) (es : list ValueLogEntry) (tabs : list (Range * M SkipMapValue)) (lay : Lay).

(** ** The invariant *)

(** Metadata whose head is an entry of the log, not after entry [r] *)
Definition heads_to es (r : nat) (m : Meta) : Prop :=
  exists n, (n <= r)%nat /\ v_log_head m = offset_of es n /\ valid_time (m_created_at m) /\ valid_time (last_modified m).

(** What the metadata file [i] holds: nothing, or such metadata *)
Definition head_saved fs (i : nat) es (r : nat) : Prop :=
  content fs i = [] \/ exists m, content fs i = meta_serialize m /\ heads_to es r m.

(** A memtable whose filter can be read back once it is flushed *)
Definition filtered (t : MemTable) : Prop := counted t /\ mt_config t = default_mem /\ mt_size t < 2 ^ 31.

(** The active memtable: also one without an entry, if no task is about to set
    bits of its filter *)
Definition tallied s : Prop := let a := active_memtable s in
  mt_config a = default_mem /\ 0 <= mt_size a < 2 ^ 31 /\
  (counted a \/ blank (ds_world s) a /\ forall h e, TGcInsert h e ∉ tasks s).

Record saved s es tabs (r : nat) lay : Prop := {
  sv_meta_dir : root ++ ["meta"%string] ∈ dirs (w_fs (ds_world s));
  sv_meta : names (w_fs (ds_world s)) !! ((root ++ ["meta"%string]) ++ ["meta.bin"%string]) = Some (file (file_handle (ds_meta s)));
  sv_log_dir : root ++ ["v_log"%string] ∈ dirs (w_fs (ds_world s));
  sv_log : names (w_fs (ds_world s)) !! ((root ++ ["v_log"%string]) ++ ["val_log.bin"%string]) = Some (file (vlog_file (val_log s)));
  sv_tree : tree parse_uuid (w_fs (ds_world s)) (root ++ ["buckets"%string]) lay;
  sv_maps : (layout_tables (root ++ ["buckets"%string]) lay).*2 ≡ₚ tabs.*2;
  sv_apart d m x i : (d, m) ∈ layout_tables (root ++ ["buckets"%string]) lay -> x ∈ table_files ->
    names (w_fs (ds_world s)) !! (d ++ [x]) = Some i -> i <> file (vlog_file (val_log s)) /\ i <> file (file_handle (ds_meta s));
  sv_dir : bm_dir (db_buckets (ds_db s)) = root ++ ["buckets"%string];
  sv_buckets : bucket_dirs_ok parse_uuid (db_buckets (ds_db s));
  sv_recent : exists n, (n <= pred (length es))%nat /\ get_most_recent_offset (active_memtable s) = offset_of es n;
  sv_first : exists t ws, es = first_entries t ++ ws;
  sv_range : (1 <= r < length es)%nat;
  sv_active k v : client_key k -> mem_lookup (ds_world s) (active_memtable s) k = Some v -> k ∈ vle_key <$> drop (Datatypes.S r) es;
  sv_created : valid_time (m_created_at (ds_meta s));
  sv_head : head_saved (w_fs (ds_world s)) (file (file_handle (ds_meta s))) es r;
  sv_queue m : TWriteMeta m ∈ tasks s -> heads_to es r m;
  sv_tally : tallied s;
  sv_ro id t : sm_get id (read_only_memtables s) = Some t -> filtered t;
  sv_ids n : (w_ticks (ds_world s) <= n < N)%nat -> new_uuid n ∉ lay.*1;
}.

Lemma heads_app es ws r r' m : heads_to es r m -> (r < length es)%nat -> (r <= r')%nat -> heads_to (es ++ ws) r' m.
Proof. intros (n & Hn & Hm & Hv) Hr Hr'. exists n. split; [lia|]. split; [|done]. by rewrite offset_app by lia. Qed.

Lemma head_saved_app fs fs' i es ws r r' :
  content fs' i = content fs i -> head_saved fs i es r -> (r < length es)%nat -> (r <= r')%nat -> head_saved fs' i (es ++ ws) r'.
Proof. intros Ec [Hc|(m & Hc & Hm)] Hr Hr'; rewrite <- Ec in Hc; [by left|]. right. exists m. split; [done|]. by eapply heads_app. Qed.

(** ** Writing *)
Hypothesis (Hhash : 0 < hashes_of default_mem).

(** What a call that writes [e] has to show of the memtables and the queue *)
Lemma saved_written s es tabs r lay s' e r' :
  saved s es tabs r lay -> file (file_handle (ds_meta s)) <> file (vlog_file (val_log s)) -> log_only s s' ->
  file_handle (ds_meta s') = file_handle (ds_meta s) -> m_created_at (ds_meta s') = m_created_at (ds_meta s) ->
  db_buckets (ds_db s') = db_buckets (ds_db s) -> (r <= r' < length es)%nat ->
  get_most_recent_offset (active_memtable s') = zlen (log_bytes es) ->
  (forall k v, client_key k -> mem_lookup (ds_world s') (active_memtable s') k = Some v -> k ∈ vle_key <$> drop (Datatypes.S r') (es ++ [e])) ->
  (forall m, TWriteMeta m ∈ tasks s' -> TWriteMeta m ∈ tasks s \/ heads_to es r' m) ->
  filtered (active_memtable s') -> (forall id t, sm_get id (read_only_memtables s') = Some t -> filtered t) ->
  (w_ticks (ds_world s) <= w_ticks (ds_world s'))%nat -> saved s' (es ++ [e]) tabs r' lay.
Proof.
  intros [V1 V2 V3 V4 V5 V6 V7 V8 V9 V10 V11 V12 V13 V14 V15 V16 V17 V18 V19] Hne [L1 L2 L3 L4 L5] Hh Hc Hb Hr Hrec Hact Hq Hfa Hmem Htk.
  split; rewrite ?L1, ?L2, ?L3, ?Hh, ?Hb; try done.
  - eapply tree_frame; [done|done| |done]. intros d m x i Hd Hx Hi. apply L5. by apply (V7 d m x i).
  - exists (length es). rewrite Hrec, length_app, offset_end. split; [cbn; lia|done].
  - destruct V11 as (t & ws & ->). exists t, (ws ++ [e]). by rewrite app_assoc.
  - rewrite length_app. cbn. lia.
  - by rewrite Hc.
  - eapply head_saved_app; [by apply L5|done|lia|lia].
  - intros m [Hm%V16|Hm]%Hq; (eapply heads_app; [exact Hm|lia|lia]).
  - destruct Hfa as ([F1 F2 F3] & F4 & F5). split; [done|]. split; [lia|]. by left.
  - intros n Hn. apply V19. lia.
Qed.

Lemma filtered_insert s w e t' w' :
  tallied s -> mem_inserted w (active_memtable s) e t' w' -> (forall l, the_bits w l = the_bits (ds_world s) l) -> mt_size t' < 2 ^ 31 -> filtered t'.
Proof.
  intros (Hcf & Hs & Hc) X Hb Hs'. split; [|by rewrite (mx_config _ _ _ _ _ X)]. destruct Hc as [Hc|[Hc _]].
  - eapply counted_insert; [done..|lia].
  - eapply counted_first; [eapply (blank_frame (ds_world s)); [apply Hb|exact Hc]|exact X|lia|by rewrite Hcf].
Qed.

Lemma roomy_size s : roomy s -> mt_size (active_memtable s) < 2 ^ 30 + BLOCK_SIZE.
Proof. intros [R1 _ R3 _]. lia. Qed.

Lemma wrote_saved s es tabs r lay k val s' :
  roomy s -> roomy s' -> file (file_handle (ds_meta s)) <> file (vlog_file (val_log s)) ->
  wrote N s es tabs k val s' -> log_only s s' -> saved s es tabs r lay ->
  exists r', saved s' (es ++ [log_entry k val (clock (w_ticks (ds_world s)))]) tabs r' lay.
Proof.
  intros Hm Hm' Hne (v' & fs' & _ & _ & s1 & a & w & Hroom & _ & Hx & ->) Hlo Hv.
  set (s0 := with_val_log _ v') in *. pose proof (sv_range _ _ _ _ _ Hv) as Hr. destruct (sv_recent _ _ _ _ _ Hv) as (nr & Hnr & Hrec).
  pose proof (roomy_size _ Hm) as Hs. pose proof (roomy_size _ Hm') as Hs'. cbn in Hs'. unfold BLOCK_SIZE in Hs, Hs'.
  pose proof (sv_tally _ _ _ _ _ Hv) as Hta. pose proof (sv_ro _ _ _ _ _ Hv) as Hcn. set (e := entry_new k (zlen (log_bytes es)) _ _) in *.
  assert (forall r', (r' < length es)%nat -> k ∈ vle_key <$> drop (Datatypes.S r') (es ++ [log_entry k val (clock (w_ticks (ds_world s)))])) as Hin.
  { intros r' Hr'. rewrite drop_app_le by lia. rewrite fmap_app, elem_of_app. right. by left. }
  pose proof (offset_le es nr) as Hle.
  destruct Hroom as [[-> _]|(_ & a1 & w1 & Hmg)].
  - exists r. eapply saved_written; try done.
    + lia.
    + change (get_most_recent_offset a = zlen (log_bytes es)). rewrite (mx_recent _ _ _ _ _ Hx).
      change (active_memtable s0) with (active_memtable s). rewrite Hrec. change (e_val_offset e) with (zlen (log_bytes es)). lia.
    + intros k' x Hk'. cbn. rewrite (mx_lookup _ _ _ _ _ Hx). case_decide as Ek; [subst k'; intros _; apply Hin; lia|].
      intros Hl. assert (k' ∈ vle_key <$> drop (Datatypes.S r) es) as Hin' by (by apply (sv_active _ _ _ _ _ Hv k' x)).
      rewrite drop_app_le by lia. rewrite fmap_app, elem_of_app. by left.
    + intros m [Hq|Hq]%elem_of_app; [by left|]. by apply list_elem_of_singleton in Hq.
    + eapply filtered_insert; [exact Hta|exact Hx|done|cbn; lia].
    + cbn. rewrite (mx_ticks _ _ _ _ _ Hx). cbn. lia.
  - destruct (mg_created _ _ _ _ Hmg) as (w2 & g & h & C1 & C2 & _). destruct (mg_queue _ _ _ _ Hmg) as (m & _ & Q1 & Q2 & (n & Q3) & _ & Q4).
    pose proof (mg_inserted _ _ _ _ Hmg) as Hx1. change (active_memtable s0) with (active_memtable s) in *.
    assert (filtered (mark_readonly a1)) as Hfm.
    { destruct (filtered_insert s _ _ _ _ Hta Hx1) as (F1 & F2 & F3); [done| |by split; [destruct F1|]]. rewrite (mx_size _ _ _ _ _ Hx1).
      change (mem_entry_size (zlen (e_key (head_entry s0)))) with 17. lia. }
    exists (pred (length es)). eapply saved_written; try done.
    + apply (mg_meta_file _ _ _ _ Hmg).
    + apply (mg_created_at _ _ _ _ Hmg).
    + apply (mg_buckets _ _ _ _ Hmg).
    + lia.
    + change (get_most_recent_offset a = zlen (log_bytes es)). rewrite (mx_recent _ _ _ _ _ Hx), (mc_recent _ _ _ _ C1).
      change (e_val_offset e) with (zlen (log_bytes es)). pose proof (zlen_nonneg (log_bytes es)). lia.
    + intros k' x Hk'. cbn. rewrite (mx_lookup _ _ _ _ _ Hx). case_decide as Ek; [subst k'; intros _; apply Hin; lia|].
      destruct (migrated_active _ _ _ _ Hmg) as (_ & Hnone & _). by rewrite Hnone.
    + intros m' [Hq|Hq]%elem_of_app; [|by apply list_elem_of_singleton in Hq]. rewrite Q4 in Hq. rewrite !elem_of_app in Hq.
      destruct Hq as [Hq|[Hq|Hq]]; [by left|right|].
      * apply elem_of_cons in Hq as [?|[= ->]%list_elem_of_singleton]; [done|]. exists nr. split; [done|].
        rewrite Q1, Q2, Q3. split; [done|]. split; [apply Hv|apply clock_valid].
      * unfold queued in Hq. case_decide; [by apply enqueue_flushes in Hq as (? & ? & ?)|by apply not_elem_of_nil in Hq].
    + assert (mt_config (active_memtable s1) = default_mem) as Ecf
        by (rewrite (mc_config _ _ _ _ C1), (mx_config _ _ _ _ _ Hx1); apply Hta).
      split; [|split; [by cbn; rewrite (mx_config _ _ _ _ _ Hx)|cbn; lia]].
      eapply counted_first; [|exact Hx|by rewrite (mc_size _ _ _ _ C1)|by rewrite Ecf].
      eapply blank_frame; [|by eapply created_blank]. apply C2. apply C1.
    + intros id t. cbn. rewrite (mg_ro _ _ _ _ Hmg), sm_get_insert. case_decide; [by intros [= <-]|apply Hcn].
    + cbn. rewrite (mx_ticks _ _ _ _ _ Hx), (mc_ticks _ _ _ _ C2), (mc_ticks _ _ _ _ C1). cbn. rewrite (mx_ticks _ _ _ _ _ Hx1). cbn. lia.
Qed.

(** Reads, and what a write does first *)
Lemma tallied_ext s s' :
  tallied s -> active_memtable s' = active_memtable s ->
  (counted (active_memtable s) \/ the_bits (ds_world s') (bit_vec (bloom_filter (active_memtable s))) = the_bits (ds_world s) (bit_vec (bloom_filter (active_memtable s)))) ->
  (forall h e, TGcInsert h e ∈ tasks s' -> TGcInsert h e ∈ tasks s) -> tallied s'.
Proof.
  intros (T1 & T2 & T3) Ea Hb Ht. unfold tallied. rewrite Ea. split; [done|]. split; [done|].
  destruct T3 as [T3|[T3 T4]]; [by left|]. destruct Hb as [Hb|Hb]; [by left|right]. split; [by eapply blank_frame|]. intros h e Hin. by apply (T4 h e), Ht.
Qed.

Lemma searched_saved s es tabs r lay s' : store_inv N s es tabs -> searched s tabs s' -> saved s es tabs r lay -> saved s' es tabs r lay.
Proof.
  intros Hi Hse [V1 V2 V3 V4 V5 V6 V7 V8 V9 V10 V11 V12 V13 V14 V15 V16 V17 V18 V19]. pose proof (searched_calm _ _ _ _ _ Hi Hse) as Hc.
  destruct Hse as (w' & rest & Hg & _ & ->). assert (w_fs w' = w_fs (ds_world s)) as Ef by apply Hg. split; cbn; rewrite ?Ef; try done.
  - intros k v Hk Hl. apply (V13 k v Hk). rewrite <- Hl. symmetry. apply (calm_lookup _ _ _ _ Hc). by left.
  - intros m [Hm|Hm]%elem_of_app; [by apply V16|]. unfold restore_tasks in Hm.
    case_decide; [by apply not_elem_of_nil in Hm|by apply list_elem_of_singleton in Hm].
  - eapply tallied_ext; [exact V17|done|right; apply Hg, Hi|]. intros h e. cbn. intros [Hm|Hm]%elem_of_app; [done|]. unfold restore_tasks in Hm.
    case_decide; [by apply not_elem_of_nil in Hm|by apply list_elem_of_singleton in Hm].
  - intros n. rewrite (hx_ticks _ _ Hg). apply V19.
Qed.

Lemma prepared_saved s es tabs r lay s' tabs' :
  store_inv N s es tabs -> prepared s tabs s' tabs' -> saved s es tabs r lay -> saved s' es tabs' r lay.
Proof.
  intros Hi (s0 & Hse & -> & Hre) Hv. destruct (searched_saved _ _ _ _ _ _ Hi Hse Hv). split; try done. by rewrite (re_maps _ _ _ Hre).
Qed.

(** ** Background tasks *)
Lemma mem_insert_fs t e w t' w' : mem_insert t e w = (Ok t', w') -> w_fs w' = w_fs w.
Proof.
  unfold mem_insert, mbind, io_bind. destruct (bf_contains _ _ w) as [[b| |] w1] eqn:E1; [|done|done].
  assert (w1 = w) as -> by (by injection E1). destruct b; cbn [negb]; [by intros [= _ <-]|].
  destruct (bf_set _ _ w) as [[f| |] w2] eqn:E2; [|done|done]. intros [= _ <-]. cbn. revert E2. unfold bf_set, mbind, io_bind. cbn.
  unfold io_lift. destruct (set_bits _ _ _); [|done|done]. by intros [= _ <-].
Qed.

(** A task other than a flush writes at most the metadata file. *)
Lemma task_files x s s' :
  run_task x s = (Ok tt, s') -> (forall id t, x <> TFlush id t) -> ds_meta s' = ds_meta s /\
  ((exists h e, x = TGcInsert h e) \/ w_bits (ds_world s') = w_bits (ds_world s)) /\
  ((forall i, content (w_fs (ds_world s')) i = content (w_fs (ds_world s)) i) \/
   exists m, x = TWriteMeta m /\ forall i, content (w_fs (ds_world s')) i = if decide (i = file (file_handle m)) then meta_serialize m else content (w_fs (ds_world s)) i).
Proof.
  intros E Hx. destruct x as [h e|o|m|id t|rs]; cbn [run_task] in E; [..|by destruct (Hx id t)|].
  - destruct (gc_tables s !! h) as [g|] eqn:Hg; [|injection E as <-; by auto]. revert E.
    unfold mbind, io_bind, in_world, in_db, on_world. destruct (mem_insert g e _) as [[g'| |] w'] eqn:E; [|done|done]. intros [= <-].
    split; [done|]. split; [left; by eexists _, _|]. left. intros i. cbn. apply mem_insert_fs in E. by rewrite E.
  - injection E as <-. by auto.
  - revert E. unfold in_world, in_db, on_world, meta_write, mbind, io_bind, on_fs. cbn. intros [= <-]. split; [done|]. split; [by right|]. right. exists m.
    split; [done|]. intros i. cbn. rewrite !content_set_inode. repeat case_decide; done.
  - injection E as <-. by auto.
Qed.

Lemma task_saved s es tabs r lay l1 x l2 s' :
  file (file_handle (ds_meta s)) <> file (vlog_file (val_log s)) ->
  (forall m, TWriteMeta m ∈ tasks s -> file_handle m = file_handle (ds_meta s)) ->
  tasks s = l1 ++ x :: l2 -> (forall id t, x <> TFlush id t) -> run_task x (with_tasks s (l1 ++ l2)) = (Ok tt, s') -> tasks s' = l1 ++ l2 ->
  calm s s' -> val_log s' = val_log s -> saved s es tabs r lay -> saved s' es tabs r lay.
Proof.
  intros Hne Hfh Et Hx E Et' Hc El [V1 V2 V3 V4 V5 V6 V7 V8 V9 V10 V11 V12 V13 V14 V15 V16 V17 V18 V19].
  destruct (task_files _ _ _ E Hx) as (Em & Hbt & Hfs). change (ds_meta (with_tasks s (l1 ++ l2))) with (ds_meta s) in Em.
  change (ds_world (with_tasks s (l1 ++ l2))) with (ds_world s) in Hfs.
  pose proof Hc as [C1 C2 C3 C4 C5 C6 C7 C8 C9 C10 C11 C12].
  assert (forall i, i <> file (file_handle (ds_meta s)) -> content (w_fs (ds_world s')) i = content (w_fs (ds_world s)) i) as Hco.
  { intros i Hi. destruct Hfs as [Hfs|(m & -> & Hfs)]; [done|]. rewrite Hfs, decide_False; [done|]. rewrite (Hfh m); [done|]. rewrite Et, elem_of_app. right. by left. }
  assert (forall y, y ∈ l1 ++ l2 -> y ∈ tasks s) as Hq.
  { intros y Hy. rewrite Et. apply elem_of_app in Hy as [?|?]; apply elem_of_app; [by left|right; by right]. }
  split; rewrite ?El, ?Em, ?C1, ?C5, ?C9, ?C10; try done.
  - eapply tree_frame; [done|done| |done]. intros d m y i Hd Hy Hi. apply Hco. by apply (V7 d m y i).
  - intros k v Hk. rewrite (calm_lookup _ _ _ _ Hc) by by left. by apply V13.
  - destruct Hfs as [Hfs|(m & -> & Hfs)]; [by unfold head_saved; rewrite Hfs|]. assert (TWriteMeta m ∈ tasks s) as Hm by (rewrite Et, elem_of_app; right; by left).
    right. exists m. split; [by rewrite Hfs, (Hfh m Hm), decide_True|by apply V16].
  - intros m. rewrite Et'. intros Hm. by apply V16, Hq.
  - eapply tallied_ext; [exact V17|done| |intros h e; rewrite Et'; apply Hq]. destruct V17 as (_ & _ & [V17|[_ V17]]); [by left|right].
    destruct Hbt as [(h & e & ->)|Hbt]; [destruct (V17 h e); rewrite Et; apply elem_of_app; right; by left|]. unfold the_bits. by rewrite Hbt.
  - by rewrite C2.
  - intros n Hn. apply V19. lia.
Qed.

(** ** Flushes *)
Hypothesis (Hbits : forall n, 0 < n < 2 ^ 32 -> 0 < no_of_bits n (false_pos_rate default_mem)).
Hypothesis (Hplain : forall n, (n < N)%nat -> plain parse_uuid (new_uuid n)).

Lemma filtered_ok t : filtered t -> filter_ok (bloom_filter t).
Proof.
  intros ([[C1 C1'] C2 C3] & Hcf & Hs). unfold filter_ok. rewrite C2, C3, Hcf. split; [|split; [unfold is_u32; lia|split]].
  - unfold hashes_of. pose proof (no_of_bits_u32 (max_no_of_entries default_mem) (false_pos_rate default_mem)) as [B1 B2].
    pose proof (co_elements _ default_config_ok). split; [apply Z.div_pos; lia|]. apply Z.div_lt_upper_bound; [lia|]. nia.
  - by vm_compute.
  - apply Hbits. lia.
Qed.

Lemma flush_saved s es tabs ids r lay l1 id t l2 s' tabs' rg :
  sys_inv N s es tabs ids -> (w_ticks (ds_world s) + 4 <= N)%nat -> tasks s = l1 ++ TFlush id t :: l2 ->
  fresh_dirs (2 + w_ticks (ds_world s)) (ds_db s) -> orderly_env N -> flushed (with_tasks s (l1 ++ l2)) id t tabs s' tabs' rg -> saved s es tabs r lay -> exists lay', saved s' es tabs' r lay'.
Proof.
  intros [I1 I2 I3 I4 I5 I6 I7 I8] HN Et Hfr Ho Hf Hv. pose proof Hv as [V1 V2 V3 V4 V5 V6 V7 V8 V9 V10 V11 V12 V13 V14 V15 V16 V17 V18 V19].
  assert (sm_get id (read_only_memtables s) = Some t) as Ht by (apply (qo_flush _ _ _ I6); rewrite Et; apply elem_of_app; right; by left).
  destruct (fd_inserted _ _ _ _ _ _ _ Hf) as (sst & w1 & Efs & Hins). pose proof (fd_state _ _ _ _ _ _ _ Hf) as Es.
  change (ds_world (with_tasks s (l1 ++ l2))) with (ds_world s) in *. change (ds_db (with_tasks s (l1 ++ l2))) with (ds_db s) in *.
  set (m := the_map (ds_world s) (mt_entries t)) in *. pose proof (disk_can_insert N s tabs I3 HN Hfr) as [_ Hdir _].
  assert (filter_ok (bloom_filter t)) as Hfo by (by eapply filtered_ok, V18).
  rewrite <- V8 in V5. pose proof (bw_fs _ _ (dk_wf _ _ _ I3)) as Hwf.
  destruct (inserted_tree parse_uuid _ _ _ _ _ _ _ _ lay Hins Hwf Hdir V5 V9 Hfo (Hplain (w_ticks (ds_world s)) ltac:(lia))) as (id' & x & Hmd & Ht' & Hbd & Hbk & Hnew & Hid').
  rewrite V8 in *. exists (lay_add id' (x, m) lay).
  assert (active_memtable s' = active_memtable s /\ ds_meta s' = ds_meta s /\ val_log s' = val_log s /\ tasks s' = l1 ++ l2 /\
    read_only_memtables s' = sm_remove id (read_only_memtables s)) as (E1 & E2 & E3 & E4 & E5) by (rewrite Es; done).
  pose proof (mo_lt _ _ I7) as Hml. pose proof (dk_log _ _ _ I3) as Hll.
  split; rewrite ?E1, ?E2, ?E3, ?Efs; try done.
  - apply (md_dirs _ _ _ _ _ _ _ Hmd). by left.
  - by apply (md_names _ _ _ _ _ _ _ Hmd).
  - apply (md_dirs _ _ _ _ _ _ _ Hmd). by left.
  - by apply (md_names _ _ _ _ _ _ _ Hmd).
  - by rewrite lay_add_tables, (fd_tabs _ _ _ _ _ _ _ Hf), fmap_cons, V6.
  - intros d0 m0 y i Hd Hy Hi. apply (md_fresh _ _ _ _ _ _ _ Hmd) in Hi as [Hi|Hi]; [|lia]. rewrite lay_add_tables in Hd.
    apply elem_of_cons in Hd as [[= -> ->]|Hd]; [|by apply (V7 d0 m0 y i)]. by rewrite (wf_fresh_name _ _ y Hwf Hnew) in Hi.
  - intros k v Hk Hl. apply (V13 k v Hk). rewrite <- Hl. unfold mem_lookup. destruct (si_ro _ _ _ _ I1 _ _ Ht) as [_ [A1 _ _ _] _ _].
    by rewrite (fd_maps _ _ _ _ _ _ _ Hf) by (apply I1 || done).
  - unfold head_saved. by rewrite (md_content _ _ _ _ _ _ _ Hmd).
  - intros m'. rewrite E4. intros Hm. apply V16. rewrite Et. apply elem_of_app in Hm as [?|?]; apply elem_of_app; [by left|right; by right].
  - eapply tallied_ext; [exact V17|done|right; apply (fd_bits _ _ _ _ _ _ _ Hf)|]. intros h e. rewrite E4, Et. rewrite !elem_of_app, elem_of_cons. tauto.
  - intros i t'. rewrite E5, sm_get_remove. case_decide; [done|apply V18].
  - intros n Hn. pose proof (fd_ticks _ _ _ _ _ _ _ Hf) as Htk. change (ds_world (with_tasks s (l1 ++ l2))) with (ds_world s) in Htk.
    intros Hin. destruct (lay_add_elem _ _ _ _ Hin) as [Hin'|Hin']; [by destruct (V19 n ltac:(lia))|]. destruct Hid' as [[b Hid']|Hid'].
    + pose proof (dk_ids _ _ _ I3 n ltac:(lia)). congruence.
    + apply (env_uuids _ Ho (w_ticks (ds_world s)) n); [lia|congruence].
Qed.

(** ** Runs *)
Abbreviation KV := (list byte -> option (list byte)).

(** The map is what the log says of the clients' keys. *)
Definition agrees (m : KV) es : Prop := forall k, client_key k -> m k = log_map (fun _ => None) es k.

Lemma agrees_step m es s s' op ws : agrees m es -> logged [op] s s' ws -> agrees (kv_step m op).2 (es ++ ws).
Proof.
  intros Hm L k Hk. unfold log_map. rewrite fold_left_app. fold (log_map (fun _ => None) es).
  pose proof (wo_map _ _ _ _ L (log_map (fun _ => None) es) k) as Hw. unfold log_map in Hw at 1. rewrite Hw. specialize (Hm k Hk).
  destruct op; cbn; unfold kv_put; repeat case_decide; congruence.
Qed.

Lemma put_of_saved s es tabs ids r lay k val s' tabs' ids' :
  sys_inv N s es tabs ids -> sys_inv N s' (es ++ [log_entry k val (clock (w_ticks (ds_world s)))]) tabs' ids' ->
  put_trace_of N s es tabs k val s' tabs' -> log_only s s' -> saved s es tabs r lay ->
  exists r', saved s' (es ++ [log_entry k val (clock (w_ticks (ds_world s)))]) tabs' r' lay.
Proof.
  intros Hs Hs' (s1 & Hp & Hi1 & Hw) Hlo Hv. pose proof (prepared_saved _ _ _ _ _ _ _ (sy_store _ _ _ _ _ Hs) Hp Hv) as Hv1.
  destruct Hp as (s0 & Hse & -> & Hre). pose proof (searched_sys _ _ _ _ _ _ Hs Hse) as Hs0.
  pose proof (refreshed_sys _ _ _ _ _ _ Hs0 Hre Hi1) as Hs1. destruct Hse as (w' & rest & Hg & _ & ->). set (s1 := refreshed _) in *.
  pose proof (hx_ticks _ _ Hg) as Ht. pose proof (hx_fs _ _ Hg) as Hf. change w' with (ds_world s1) in Ht. rewrite <- Ht in *.
  eapply (wrote_saved s1); [apply Hs1|apply Hs'|apply (sy_meta _ _ _ _ _ Hs1)|done| |done].
  destruct Hlo as [O1 O2 O3 O4 O5]. split; cbn; rewrite ?Hf; done.
Qed.

Lemma exec_saved s s' es tabs tabs' ids ids' r lay op :
  sys_inv N s es tabs ids -> sys_inv N s' (es ++ op_entries op (clock (w_ticks (ds_world s)))) tabs' ids' -> op_trace N op s es tabs s' tabs' ->
  log_only s s' -> saved s es tabs r lay -> exists r', saved s' (es ++ op_entries op (clock (w_ticks (ds_world s)))) tabs' r' lay.
Proof.
  intros Hs Hs' Htr Hlo Hv. destruct op as [k val|k val|k|k]; cbn in Htr, Hs' |- *; [by eapply put_of_saved..|].
  destruct Htr as [Htr ->]. exists r. rewrite app_nil_r. eapply searched_saved; [apply Hs|done..].
Qed.

Lemma run_saved tr s s' es tabs ids m r lay :
  orderly_env N -> sys_run s tr s' -> sys_inv N s es tabs ids -> represents N s es tabs m -> agrees m es -> saved s es tabs r lay -> traced s es tabs ->
  (w_ticks (ds_world s) + 8 * length tr + 9 <= N)%nat ->
  exists es' tabs' ids' r' lay', sys_inv N s' es' tabs' ids' /\ represents N s' es' tabs' (kv_run m (calls tr)).2 /\
    agrees (kv_run m (calls tr)).2 es' /\ saved s' es' tabs' r' lay' /\ traced s' es' tabs'.
Proof.
  intros Ho Hrun. revert es tabs ids m r lay. induction Hrun as [s|s1 l s2 tr s3 Hst Hrun IH]; intros es tabs ids m r lay Hs Hr Ha Hv Htd HN.
  { by exists es, tabs, ids, r, lay. }
  cbn [length] in HN. destruct Hst as [s op Hop Hsp|s l1 x l2 Et Hmay].
  - destruct (exec_sys N s es tabs ids m op Ho Hs Hr ltac:(lia) Hop Hsp) as (s' & es' & tabs' & ids' & E & R & Hs' & Ht & -> & Htr & L). rewrite E in *. cbn [fst snd] in *.
    destruct (exec_saved s s' es tabs tabs' ids ids' r lay op Hs Hs' Htr (wo_only _ _ _ _ L) Hv) as [r' Hv'].
    cbn [calls omap list_omap]. fold (calls tr). rewrite kv_run_cons. cbn [snd].
    pose proof (exec_traced N s s' es tabs tabs' ids op Ho Hs ltac:(lia) Hop Hsp Htr Htd) as Htd'.
    apply (IH _ _ _ _ _ _ Hs' R (agrees_step _ _ _ _ _ _ Ha L) Hv' Htd' ltac:(lia)).
  - destruct (task_step_run N s es tabs ids m l1 x l2 Ho Hs Hr ltac:(lia) Et Hmay) as (s' & tabs' & ids' & E & R & Hs' & Et' & _ & Ht & El & Hx & _).
    rewrite E in *. cbn [fst snd] in *. assert (exists lay', saved s' es tabs' r lay') as [lay' Hv'].
    { destruct x as [h e|o|m'|id t|rs]; [..|destruct Hx as [rg Hx]; eapply (flush_saved s es tabs ids); try done; [lia|apply Hmay]|]; destruct Hx as [-> Hu]; exists lay;
        (eapply task_saved; [apply (mo_log _ _ (sy_meta _ _ _ _ _ Hs))|apply (qo_meta _ _ _ (sy_queue _ _ _ _ _ Hs))|done..]). }
    assert (traced s' es tabs') as Htd'.
    { destruct x as [h e|o|m'|id t|rs]; [..|destruct Hx as [rg Hx]; eapply (flush_traced N s es tabs id t); try done; [apply Hs|]|];
        [| | |apply (qo_flush _ _ _ (sy_queue _ _ _ _ _ Hs)); rewrite Et; apply elem_of_app; right; by left|];
        destruct Hx as [-> Hu]; by eapply traced_calm. }
    cbn [calls omap list_omap]. fold (calls tr). apply (IH _ _ _ _ _ _ Hs' R Ha Hv' Htd' ltac:(lia)).
Qed.

(** ** Before the first call *)
Lemma opened_saved w t s :
  opened root w t s -> no_children (w_fs w) (root ++ ["buckets"%string]) -> dirs_closed (w_fs w) ->
  root ++ ["buckets"%string] ∈ dirs (w_fs (ds_world s)) -> saved s (first_entries t) [] 1 [] /\ agrees fresh_map (first_entries t).
Proof.
  intros [(a & v & m & l & w' & ->) [F1 F2 F3 F4] Hl _ Hs Hc Hr Hct Hcr Hd] Hnc Hcl Hb.
  destruct (Hd Hnc) as [D1 D2 D3 D4 D5 D6 D7 D8]. cbn in *. split; [split; cbn; try done|].
  - apply tree_nil; [done|by apply F4|done|done].
  - by intros d m0 x i ?%not_elem_of_nil.
  - by exists 1%nat.
  - by exists t, [].
  - lia.
  - intros k v0 [K1 K2]. rewrite Hl. by repeat case_decide.
  - by left.
  - by intros m0 ?%not_elem_of_nil.
  - split; [done|]. cbn. rewrite Hs. split; [done|]. left. by apply Hct.
  - intros id t0. by rewrite sm_get_new.
  - intros n _. apply not_elem_of_nil.
  - intros k [K1 K2]. unfold fresh_map, log_map. cbn. unfold log_step. cbn. by repeat case_decide.
Qed.

(** ** After the crash *)
Lemma saved_head_at fs i es r : head_saved fs i es r -> (1 <= r < length es)%nat -> offset_of es 1 = after_tail_entry ->
  zlen (log_bytes es) <= 2 ^ 32 -> exists n, head_at fs i es n /\ (n <= r)%nat.
Proof.
  intros [Hc|(m & Hc & n & Hn & Hm & Hv1 & Hv2)] Hr Ho Hlen; [exists 1%nat; split; [by apply head_unset|lia]|].
  exists n. split; [|done]. apply (head_stored _ _ _ _ m); try done. pose proof (offset_lt es n). lia.
Qed.

(** The files agree with the store's view. *)
Lemma saved_view s es tabs ids m r lay n k :
  sys_inv N s es tabs ids -> represents N s es tabs m -> agrees m es -> saved s es tabs r lay -> sm_is_empty (read_only_memtables s) = true ->
  (n <= r)%nat -> client_key k ->
  (validate_size k None = Ok tt -> answerable es n tabs.*2 k) /\ ue_val <$> disk_view es n tabs.*2 k = m k.
Proof.
  intros Hs [Hi Hview] Ha Hv Hro Hn Hk. destruct Hk as [Hk1 Hk2].
  assert (ro_hits (ds_world s) (read_only_memtables s) k = []) as Hnone.
  { unfold ro_hits, sm_is_empty in *. by destruct (sm_iter (read_only_memtables s)). }
  assert (after_head es n k = None -> store_hit s tabs k = best_hit (map_hits k tabs.*2)) as Hhit.
  { intros Hh. unfold store_hit, lookup_hit. rewrite Hnone, sst_hits_maps.
    destruct (mem_lookup _ _ k) as [v|] eqn:Ev; [exfalso|done]. apply (sv_active _ _ _ _ _ Hv k v) in Ev; [|done].
    assert (k ∈ vle_key <$> drop (Datatypes.S n) es) as [v' Hv']%(replay_keys (offset_of es (Datatypes.S n)))
      by (rewrite <- (take_drop (r - n) (drop _ es)), drop_drop, fmap_app, elem_of_app; right; by replace (Datatypes.S n + (r - n))%nat with (Datatypes.S r) by lia).
    unfold after_head in Hh. congruence. }
  split.
  - intros Hval. split; [done|]. split; [rewrite <- sst_hits_maps; by apply (ly_distinct _ _ _ (sy_layered _ _ _ _ _ Hs))|].
    intros h Hh Eh. apply (si_logged _ _ _ _ Hi k); [done|]. by rewrite Hhit.
  - rewrite <- (Hview k Hk1). unfold disk_view, disk_hit. destruct (after_head es n k) as [v|] eqn:Eh; [|unfold store_view; by rewrite Hhit].
    rewrite (Hview k Hk1), (Ha k (conj Hk1 Hk2)). unfold after_head in Eh.
    assert (k ∈ vle_key <$> drop (Datatypes.S n) es) as Hin by (eapply replay_keys; by eexists).
    pose proof (replay_log (offset_of es (Datatypes.S n)) (drop (Datatypes.S n) es) k) as R. rewrite Eh in R. destruct R as (e & x & _ & Hx & Hat & -> & Hm).
    assert (log_map (fun _ => None) es k = if vle_is_tombstone e then None else Some (vle_value e)) as ->.
    { rewrite <- (take_drop (Datatypes.S n) es). unfold log_map. rewrite fold_left_app. fold (log_map (fun _ => None) (take (Datatypes.S n) es)).
      rewrite <- Hm. by apply log_map_keys. }
    assert (entry_at es (offset_of es (Datatypes.S n) + x) = Some e) as Hat'.
    { unfold offset_of. rewrite <- (take_drop (Datatypes.S n) es) at 1. by rewrite entry_at_skip. }
    unfold read_hit, hit_of. cbn. destruct (vle_is_tombstone e) eqn:Et; [done|]. rewrite Hat'. cbn. by rewrite Et.
Qed.

(** The head that the metadata file says *)
Definition disk_head fs (i : nat) : Z :=
  match meta_recover_bytes (content fs i) with Ok (head, _, _, _) => head | _ => after_tail_entry end.

Lemma disk_head_at fs i es n : head_at fs i es n -> disk_head fs i = offset_of es n.
Proof.
  unfold disk_head. intros [Hc Ho|n' m Hc Ho Hlt Hv1 Hv2]; rewrite Hc.
  { rewrite Ho. unfold meta_recover_bytes. assert (read_field SIZE_OF_U32 [] = Err unexpected_eof) as ->; [|done].
    unfold read_field. by rewrite load_buffer_nil by done. }
  rewrite meta_bytes_serialize by done. rewrite as_u32_id; [done|]. rewrite Ho. split; [apply zlen_nonneg|done].
Qed.

Lemma replay_size_le ws : replay_size ws <= zlen (log_bytes ws).
Proof.
  induction ws as [|e ws IH]; [done|]. cbn [replay_size]. rewrite log_bytes_cons, entry_bytes_eq. pose proof (zlen_nonneg (vle_value e)).
  unfold mem_entry_size, SIZE_OF_U32, SIZE_OF_U64, SIZE_OF_U8. lia.
Qed.

Lemma suffix_size es n : replay_size (drop (Datatypes.S n) es) <= zlen (log_bytes es) - offset_of es n.
Proof.
  pose proof (replay_size_le (drop (Datatypes.S n) es)). unfold offset_of.
  assert (zlen (log_bytes es) = zlen (log_bytes (take n es)) + zlen (log_bytes (drop n es))) as -> by by rewrite <- zlen_app, <- log_bytes_app, take_drop.
  assert (drop (Datatypes.S n) es = drop 1 (drop n es)) as Ed by by rewrite drop_drop, Nat.add_1_r. rewrite Ed in *.
  destruct (drop n es) as [|e l]; cbn [drop] in *; [cbn in *; lia|]. rewrite drop_0, log_bytes_cons in *. pose proof (entry_bytes_pos e). lia.
Qed.

(** ** Properties *)

End crash.

(** ** Witness *)
Section crash_demo.
#[local] Existing Instance demo_platform.
#[local] Existing Instance demo_env.
#[local] Existing Instance sorted_list_skipmap.

Lemma demo_bits n rate : 0 < n < 2 ^ 32 -> 0 < no_of_bits n rate.
Proof.
  intros Hn. change (0 < as_u32 (n * 3)). pose proof (as_u32_range (n * 3)) as [Hr _].
  destruct (decide (as_u32 (n * 3) = 0)) as [E|]; [|lia]. unfold as_u32 in E. apply Z.mod_divide in E; [|done].
  rewrite Z.mul_comm in E. apply Z.gauss in E; [|by vm_compute]. apply Z.divide_pos_le in E; lia.
Qed.

Lemma demo_plain n : plain Some (uuid_of n).
Proof.
  assert (forall c, (forall y, pretty.pretty_N_char y <> c) -> c <> "0"%char -> lacks c (pretty.pretty n) = true) as Hn
    by (intros c; exact (pretty_N_lacks c (N.of_nat n))).
  unfold plain, uuid_of. rewrite !lacks_app, !Hn; [done|intros y; unfold pretty.pretty_N_char; by repeat case_match|done|apply digit_not_u|done].
Qed.

Lemma demo_closed : dirs_closed (w_fs (M := slist) empty_world).
Proof. intros q Hq. change (q ∈ ({[ [] ]} : gset (list string))) in Hq. apply elem_of_singleton in Hq. by subst. Qed.

Lemma demo_childless : no_children (w_fs (M := slist) empty_world) (dp_buckets (dir_path_build ["db"%string])).
Proof. split; cbn; [by intros q ->%elem_of_singleton|intros q i; by rewrite lookup_empty]. Qed.

End crash_demo.

(** The conditions on the new directory of the examples *)
Ltac demo_new_directory :=
  first [exact empty_world_wf|exact demo_closed|exact demo_childless|discriminate|reflexivity|cbn; lia].

Section crash_witness.
#[local] Existing Instance demo_platform.
#[local] Existing Instance demo_env.
#[local] Existing Instance sorted_list_skipmap.

(** The state when the store of [demo_session] crashes: two tables, no read-only
    memtable, and two writes after the head that the metadata file has *)
Lemma demo_end_ok s : demo_played = Ok s -> sm_is_empty (read_only_memtables s) = true /\ vlog_size (val_log s) = 108563 /\
  disk_head (w_fs (ds_world s)) (file (file_handle (ds_meta s))) = 100525 /\ size (key_ranges (db_ranges (ds_db s))) = 2%nat.
Proof.
  intros E. assert (match demo_played with
    | Ok s => (sm_is_empty (read_only_memtables s), vlog_size (val_log s), disk_head (w_fs (ds_world s)) (file (file_handle (ds_meta s))),
        size (key_ranges (db_ranges (ds_db s))))
    | _ => (false, 0, 0, 0%nat)
    end = (true, 108563, 100525, 2%nat)) as Hc by (vm_compute; reflexivity).
  rewrite E in Hc. exact (conj (f_equal (fun p => p.1.1.1) Hc) (conj (f_equal (fun p => p.1.1.2) Hc) (conj (f_equal (fun p => p.1.2) Hc) (f_equal snd Hc)))).
Qed.

Lemma demo_client b : client_key (long_key b).
Proof. by split. Qed.

End crash_witness.
