(* ===== verification/Lifetimes.v ===== *)
(** * Lives of a store

    A store that was opened on the files of an earlier one satisfies the
    invariants of the running program again ([restart_durable]), so the theorems
    on runs hold for it too. A life of a database is a sequence of sessions, each
    ended by a crash and followed by a recovery; all of them together serve one
    key-value map ([lives_refine_map]). *)

From stdpp Require Import prelude gmap strings list.
From Stdlib Require Import Strings.Byte ZArith Lia.
From S2P Require Import Prelude Consts SkipMap FileIO Types World VLog Block Index Bloom SSTable Meta MemTable.
From S2P Require Import KeyRange RangeSearch Bucket Flush Compaction Config Store StoreInv StoreSpec FlushSpec SysInv Recovery TableRecovery FlushRecovery.
From S2P Require Import Durability Reopen System Provenance SystemCrash.
Open Scope Z_scope.

Section lifetimes.
Context `{Env} {M : Type -> Type} `{SkipMap M} (N : nat) (parse_uuid : string -> option string) (dir_len : Z) (root : list string).
Abbreviation W := (World M).
Abbreviation S := (DataStore M).
Abbreviation KV := (list byte -> option (list byte)).
Abbreviation Lay := (list (string * list (string * M SkipMapValue))).
Abbreviation default_mem := (mem_config config_default Bytes).
Implicit Types (s : S) (w : W) (es : list ValueLogEntry) (tabs : list (Range * M SkipMapValue)) (lay : Lay).

Hypothesis (Hhash : 0 < hashes_of default_mem).
Hypothesis (Hbits : forall n, 0 < n < 2 ^ 32 -> 0 < no_of_bits n (false_pos_rate default_mem)).
Hypothesis (Hplain : forall n, (n < N)%nat -> plain parse_uuid (new_uuid n)).

Lemma inserted_all_fits off es w t w' t' :
  inserted_all off es w t w' t' -> Forall (fun e => (vle_key e <> [] /\ short_key (vle_key e)) /\ valid_time (vle_created_at e)) es ->
  fits w t -> fits w' t'.
Proof.
  induction 1 as [|off e es w t w1 t1 w' t' X _ IH]; [done|]. intros [[[K1 K2] K3] Hk]%Forall_cons Hf. apply IH; [done|].
  by eapply fits_insert.
Qed.

(** All that is kept while the program runs *)
Record durable s es tabs (ids : list (list byte)) (m : KV) (r : nat) lay : Prop := {
  du_sys : sys_inv N s es tabs ids;
  du_map : represents N s es tabs m;
  du_agrees : agrees m es;
  du_saved : saved N parse_uuid root s es tabs r lay;
  du_traced : traced s es tabs;
}.

(** ** A restart *)
Section restart.
Context (s s2 : S) (es : list ValueLogEntry) (tabs : list (Range * M SkipMapValue)) (ids : list (list byte)) (m : KV) (r n : nat) (lay : Lay).
Context (all : list (list string * M SkipMapValue)).
Abbreviation i := (file (file_handle (ds_meta s))).
Abbreviation j := (file (vlog_file (val_log s))).
Hypothesis (Ho : orderly N) (Hd : durable s es tabs ids m r lay) (Hro : sm_is_empty (read_only_memtables s) = true).
Hypothesis (Hlen : zlen (log_bytes es) <= 2 ^ 32) (Hfit : replay_size (drop (Datatypes.S n) es) < mt_capacity default_mem).
Hypothesis (Hhead : head_at (w_fs (ds_world s)) i es n) (Hn : (n <= r)%nat).
Hypothesis (Hre : restarted root i j (crash s) es n lay all s2).
Hypothesis (Hall : all ≡ₚ layout_tables (root ++ ["buckets"%string]) lay).

(** *** What the new store is made of *)
Lemma restart_parts : read_only_memtables s2 = sm_new /\ gc_tables s2 = {[ 0%nat := active_memtable s2 ]} /\ tasks s2 = [] /\
  flush_stream s2 = ∅ /\ bm_dir (db_buckets (ds_db s2)) = root ++ ["buckets"%string].
Proof. destruct (rs_parts _ _ _ _ _ _ _ _ _ Hre) as (a & v & m' & bm & kr & l & w' & -> & Hbm). done. Qed.

Lemma restart_fs : w_fs (ds_world s2) = w_fs (ds_world s).
Proof. apply (rs_fs _ _ _ _ _ _ _ _ _ Hre). Qed.

Lemma restart_ticks : (w_ticks (ds_world s) <= w_ticks (ds_world s2))%nat.
Proof. apply (rs_ticks _ _ _ _ _ _ _ _ _ Hre). Qed.

(** A binding of the active memtable is the last log entry of its key. *)
Lemma restart_lookup k v : mem_lookup (ds_world s2) (active_memtable s2) k = Some v ->
  exists x e, (n < x)%nat /\ es !! x = Some e /\ vle_key e = k /\
    (forall x' e', (x < x')%nat -> es !! x' = Some e' -> vle_key e' <> k) /\
    v = smv_new (offset_of es x) (trunc_ms (vle_created_at e)) (vle_is_tombstone e) /\ found v = table_hit es x e /\ entry_fit e.
Proof.
  rewrite (rs_lookup _ _ _ _ _ _ _ _ _ Hre). intros Hv. pose proof (replay_suffix es n k) as Hs. unfold after_head in Hv. rewrite Hv in Hs.
  destruct Hs as (x & e & Hx & He & Hk & Hl & ->). exists x, e. do 5 (split; [done|]). split.
  - unfold found, table_hit. cbn. by rewrite trunc_ms_idem.
  - pose proof (tr_entries _ _ _ (du_traced _ _ _ _ _ _ _ Hd)) as Hp. rewrite Forall_forall in Hp.
    apply Hp. by eapply list_elem_of_lookup_2.
Qed.

Lemma restart_layout d mm : (d, mm) ∈ all -> (d, mm) ∈ layout_tables (root ++ ["buckets"%string]) lay.
Proof. by rewrite Hall. Qed.

(** The tables of the index after the restart *)
Lemma restart_tables : exists tabs2, indexed (ds_world s2) (db_ranges (ds_db s2)) tabs2 /\ tabs2.*2 ≡ₚ tabs.*2 /\
  restored_ranges (db_ranges (ds_db s2)) = ∅ /\
  Forall (fun p : Range * M SkipMapValue => exists d, (d, p.2) ∈ layout_tables (root ++ ["buckets"%string]) lay /\ cold (ds_world s2) d p.2 p.1) tabs2.
Proof.
  destruct (rs_tables _ _ _ _ _ _ _ _ _ Hre) as (st & Ek & Hr & _). rewrite Ek.
  destruct (recovered_indexed _ _ _ Hr) as (tabs2 & Hx & Hp & Hc).
  { rewrite Hall. apply (te_nodup _ _ _ _ (sv_tree _ _ _ _ _ _ _ _ (du_saved _ _ _ _ _ _ _ Hd))). }
  exists tabs2. split; [done|]. split; [by rewrite Hp, Hall, (sv_maps _ _ _ _ _ _ _ _ (du_saved _ _ _ _ _ _ _ Hd))|].
  split; [apply (rv_restored _ _ _ Hr)|]. eapply Forall_impl; [exact Hc|]. intros p (d & Hin & Hcd). exists d. split; [by apply restart_layout|done].
Qed.

Context (tabs2 : list (Range * M SkipMapValue)).
Hypothesis (Hx : indexed (ds_world s2) (db_ranges (ds_db s2)) tabs2) (Hmaps : tabs2.*2 ≡ₚ tabs.*2).
Hypothesis (Hno : restored_ranges (db_ranges (ds_db s2)) = ∅).
Hypothesis (Hcold : Forall (fun p : Range * M SkipMapValue => exists d,
  (d, p.2) ∈ layout_tables (root ++ ["buckets"%string]) lay /\ cold (ds_world s2) d p.2 p.1) tabs2).

Lemma restart_hits k : sst_hits tabs2 k ≡ₚ sst_hits tabs k.
Proof. rewrite !sst_hits_maps. by apply map_hits_perm. Qed.

Lemma restart_traced : traced s2 es tabs2.
Proof.
  destruct (du_traced _ _ _ _ _ _ _ Hd) as [T1 T2 T3 T4 T5]. destruct restart_parts as (Er & _). split; try done.
  - intros k v Hk (x & e & _ & He & Hke & Hl & -> & _)%restart_lookup. exists x. split; [|done].
    exists e. unfold stamp. cbn. by rewrite trunc_ms_idem.
  - intros k v id t _. by rewrite Er, sm_get_new.
  - intros k h Hk Hh. apply T3; [done|]. by rewrite <- restart_hits.
  - intros e He. destruct (T5 e He) as (y & Hy & E). exists y. pose proof restart_ticks. split; [lia|done].
Qed.

Lemma restart_ro_hits k : ro_hits (ds_world s2) (read_only_memtables s2) k = [].
Proof. destruct restart_parts as (Er & _). unfold ro_hits. by rewrite Er, sm_iter_new. Qed.

Lemma restart_hit k : store_hit s2 tabs2 k = match after_head es n k with Some v => Some (hit_of v) | None => best_hit (sst_hits tabs2 k) end.
Proof.
  unfold store_hit, lookup_hit. rewrite restart_ro_hits, (rs_lookup _ _ _ _ _ _ _ _ _ Hre). by destruct (after_head es n k).
Qed.
(** *** The invariants *)
Lemma restart_cold p : p ∈ tabs2 -> exists d, (d, p.2) ∈ layout_tables (root ++ ["buckets"%string]) lay /\ cold (ds_world s2) d p.2 p.1.
Proof. intros Hp. rewrite Forall_forall in Hcold. by apply Hcold. Qed.

(** The files of a table are neither the log nor the metadata file. *)
Lemma restart_apart d mm x y : (d, mm) ∈ layout_tables (root ++ ["buckets"%string]) lay -> x ∈ table_files ->
  names (w_fs (ds_world s2)) !! (d ++ [x]) = Some y -> y <> j /\ y <> i /\ (y < next_inode (w_fs (ds_world s2)))%nat.
Proof.
  rewrite restart_fs. intros Hin Hf Hy. destruct (sv_apart _ _ _ _ _ _ _ _ (du_saved _ _ _ _ _ _ _ Hd) d mm x y Hin Hf Hy) as [A1 A2].
  split; [done|]. split; [done|]. eapply wf_inode; [|done]. apply (bw_fs _ _ (dk_wf _ _ _ (sy_disk _ _ _ _ _ (du_sys _ _ _ _ _ _ _ Hd)))).
Qed.

Lemma restart_cold_filter p y : p ∈ tabs2 -> cold_filter (ds_world s2) p.1 y -> y <> j /\ y <> i.
Proof.
  intros Hp (g & q & f & Hg & _ & _ & Hq & Hy & _). destruct (restart_cold p Hp) as (d & Hin & [_ _ _ (g' & f' & y' & Hg' & _ & _ & Hq' & _) _]).
  assert (q = d ++ ["filter.db"%string]) as -> by congruence.
  destruct (restart_apart d p.2 "filter.db" y Hin) as (A & B & _); [by apply (bool_decide_unpack _); vm_compute|done|done].
Qed.

Lemma restart_files p : p ∈ tabs2 -> 
  let w := ds_world s2 in let d := file (data_file (r_sst p.1)) in let x := file (index_file (r_sst p.1)) in
  (d <> j /\ d <> i /\ (d < next_inode (w_fs w))%nat) /\ (x <> j /\ x <> i /\ (x < next_inode (w_fs w))%nat).
Proof.
  intros Hp. destruct (restart_cold p Hp) as (d & Hin & [_ _ _ _ [F1 F2]]). split; eapply restart_apart; try done; by apply (bool_decide_unpack _); vm_compute.
Qed.

Lemma restart_heap : (mt_entries (active_memtable s2) < gc_updated_entries s2)%nat /\
  (bit_vec (bloom_filter (active_memtable s2)) < w_next (ds_world s2))%nat /\ (gc_updated_entries s2 < w_next (ds_world s2))%nat /\
  mt_config (active_memtable s2) = default_mem.
Proof.
  destruct (rs_replayed _ _ _ _ _ _ _ _ _ Hre) as (w0 & w1 & R & _ & _ & -> & ->). destruct R. split; [done|]. split; [lia|]. split; [lia|done].
Qed.

Lemma restart_store : store_inv N s2 es tabs2.
Proof.
  destruct restart_parts as (Er & _). destruct restart_heap as (L1 & L2 & L3 & Ecf). pose proof (rs_log_file _ _ _ _ _ _ _ _ _ Hre) as Ej.
  split; rewrite ?Er, ?Hno; try done.
  - rewrite restart_fs. apply (rs_log _ _ _ _ _ _ _ _ _ Hre).
  - rewrite (rs_gc _ _ _ _ _ _ _ _ _ Hre). unfold sm_is_empty. by rewrite sm_iter_new.
  - lia.
  - apply (rs_active _ _ _ _ _ _ _ _ _ Hre).
  - lia.
  - intros k v (x & e & _ & He & _ & _ & -> & _ & _)%restart_lookup y Hy. cbn.
    destruct (tr_clock _ _ _ (du_traced _ _ _ _ _ _ _ Hd) e) as (z & Hz & ->); [by eapply list_elem_of_lookup_2|].
    pose proof restart_ticks. pose proof (clock_increases _ Ho z y ltac:(lia)). pose proof (trunc_ms_le (clock z)). lia.
  - rewrite Ecf. exact default_config_ok.
  - intros id t. by rewrite sm_get_new.
  - intros k v _ (x & e & _ & _ & _ & _ & -> & _ & [_ _ Hp])%restart_lookup. split; [done|]. intros h. unfold ro_hits. rewrite sm_iter_new. by intros ?%not_elem_of_nil.
  - apply Forall_forall. intros p Hp. destruct (restart_cold p Hp) as (d & _ & Hc). destruct (cold_ready _ _ _ _ Hc) as (R1 & [y R2] & _).
    destruct (restart_files p Hp) as [(F1 & _) (F2 & _)]. split; rewrite ?Ej; try done.
    + intros Hl. by destruct (live_not_cold _ _ _ _ _ Hl R2).
    + intros y' Hy'. by apply (restart_cold_filter p).
  - intros k h Hk. rewrite restart_hit. destruct (after_head es n k) as [v|] eqn:Ev; intros Hh Ht.
    + injection Hh as <-. cbn in *. exact (replay_entry _ _ _ _ Ev).
    + apply (sourced_logged es k); [done|]. apply (tr_tabs _ _ _ restart_traced k h Hk). by apply best_hit_newest.
Qed.
Lemma restart_layered : layered s2 tabs2 [].
Proof.
  destruct restart_parts as (Er & _). destruct (sy_layered _ _ _ _ _ (du_sys _ _ _ _ _ _ _ Hd)) as [_ _ _ _ _ _ L7].
  assert (forall id t, sm_get id (read_only_memtables s2) = Some t -> False) as Hno' by (intros id t; by rewrite Er, sm_get_new).
  split; try (by intros id t ?%Hno').
  - intros id. split; [by intros ?%not_elem_of_nil|]. by intros [t ?%Hno'].
  - constructor.
  - intros t [->|[id ?%Hno']]; [|done]. intros k v (x & e & _ & _ & _ & _ & -> & _ & [_ _ P1])%restart_lookup.
    unfold stamp. cbn. by rewrite trunc_ms_idem.
  - intros k h t v Hk Hh [->|[id ?%Hno']]; [|done]. intros (x & e & _ & He & Hke & Hl & -> & Ef & _)%restart_lookup.
    rewrite Ef. unfold stamp. cbn. rewrite trunc_ms_idem.
    eapply traced_latest; [by apply (tr_tabs _ _ _ restart_traced)|done..].
  - intros k Hk. rewrite restart_hits. by apply L7.
Qed.

Lemma restart_buckets : exists st, buckets (db_buckets (ds_db s2)) = rc_buckets st /\ recovered (ds_world s2) st all /\
  Forall (bucket_from_dir (root ++ ["buckets"%string]) lay.*1) (rc_buckets st).
Proof. destruct (rs_tables _ _ _ _ _ _ _ _ _ Hre) as (st & _ & R & E & F). by exists st. Qed.

Lemma restart_disk : disk_ok N s2 tabs2.
Proof.
  destruct restart_parts as (_ & _ & _ & _ & Ebm). destruct restart_buckets as (st & Eb & R & F). pose proof restart_ticks as Ht.
  destruct (sy_disk _ _ _ _ _ (du_sys _ _ _ _ _ _ _ Hd)) as [[_ _ _ _ W] D2 D3 _]. pose proof (du_saved _ _ _ _ _ _ _ Hd) as Hv. split.
  - split; rewrite ?restart_fs; [rewrite Eb; apply R|rewrite Eb; apply R| | |done]; unfold bm_tables; rewrite Eb.
    + rewrite <- restart_fs. by eapply recovered_named.
    + eapply Forall_impl; [apply (rv_built _ _ _ R)|]. intros t (mm & _ & [_ _ _ [_ B]]). rewrite restart_fs in B. by eapply wf_inode.
  - intros y Hy. rewrite Eb. destruct (im_get (new_uuid y) (rc_buckets st)) as [b|] eqn:Eg; [|done]. apply im_get_elem in Eg.
    rewrite Forall_forall in F. destruct (F _ Eg) as [Hin _]. destruct (sv_ids _ _ _ _ _ _ _ _ Hv y); [lia|done].
  - rewrite restart_fs, (rs_log_file _ _ _ _ _ _ _ _ _ Hre). done.
  - apply Forall_forall. intros p Hp. destruct (restart_files p Hp) as [(_ & _ & F1) (_ & _ & F2)]. done.
Qed.

Lemma restart_sized : mt_size (active_memtable s2) = replay_size (drop (Datatypes.S n) es).
Proof.
  destruct (rs_replayed _ _ _ _ _ _ _ _ _ Hre) as (w0 & w1 & R & _). destruct (rp_steps _ _ _ _ _ _ R) as (t & w2 & C & Hi).
  rewrite (inserted_all_size _ _ _ _ _ _ Hi), (mc_size _ _ _ _ C), replay_size_stored. lia.
Qed.

Lemma restart_roomy : roomy s2.
Proof.
  destruct restart_parts as (Er & _). destruct restart_heap as (_ & _ & _ & Ecf).
  split; rewrite ?Ecf, ?restart_sized, ?Er.
  - by vm_compute.
  - destruct (rs_replayed _ _ _ _ _ _ _ _ _ Hre) as (w0 & w1 & R & Em & _). destruct (rp_steps _ _ _ _ _ _ R) as (t & w2 & C & Hi).
    apply (fits_frame w1); [by rewrite Em by apply R|]. eapply inserted_all_fits; [exact Hi| |].
    + apply Forall_fmap, Forall_drop. eapply Forall_impl; [apply (tr_entries _ _ _ (du_traced _ _ _ _ _ _ _ Hd))|].
      intros e [E1 E2 _]. split; [done|]. by apply valid_time_trunc.
    + split; rewrite (empty_iter _ _ (mc_lookup _ _ _ _ C)); [constructor|]. by rewrite (mc_size _ _ _ _ C).
  - unfold BLOCK_SIZE. lia.
  - intros id t. by rewrite sm_get_new.
Qed.

Lemma restart_sys : sys_inv N s2 es tabs2 [].
Proof.
  destruct restart_parts as (Er & Eg & Et & Ef & _). destruct (rs_meta _ _ _ _ _ _ _ _ _ Hre) as [Em _].
  pose proof (rs_log_file _ _ _ _ _ _ _ _ _ Hre) as Ej. destruct (sy_meta _ _ _ _ _ (du_sys _ _ _ _ _ _ _ Hd)) as [M1 M2 _ _].
  split; [exact restart_store|exact restart_layered|exact restart_disk|exact restart_roomy|..].
  - split; rewrite Eg.
    + intros h g [<- <-]%lookup_singleton_Some. right. exists (active_memtable s2). split; [by left|apply twin_refl].
    + intros h h' g g' Hne [<- <-]%lookup_singleton_Some [<- <-]%lookup_singleton_Some. done.
  - split; rewrite ?Et, ?Ef.
    + by intros id x ?%not_elem_of_nil.
    + by exists O.
    + by intros id ?%not_elem_of_nil.
    + intros y _. apply not_elem_of_empty.
    + by intros m' ?%not_elem_of_nil.
  - split; rewrite ?Em, ?Ej, ?restart_fs; try done.
    + intros p Hp. destruct (restart_files p Hp) as [(_ & F1 & _) (_ & F2 & _)]. done.
    + intros p y Hp Hy. by destruct (restart_cold_filter p y Hp Hy).
  - intros rs. rewrite Et. by intros ?%not_elem_of_nil.
Qed.
Lemma restart_tally : tallied s2.
Proof.
  destruct restart_heap as (_ & _ & _ & Ecf). destruct restart_parts as (_ & _ & Et & _). split; [done|]. rewrite restart_sized.
  pose proof (replay_size_nonneg (drop (Datatypes.S n) es)) as Hp. assert (mt_capacity default_mem < 2 ^ 31) as Hc by by vm_compute. split; [lia|].
  destruct (rs_replayed _ _ _ _ _ _ _ _ _ Hre) as (w0 & w1 & R & _ & Eb & _). destruct (rp_steps _ _ _ _ _ _ R) as (t & w2 & C & Hi).
  destruct (drop (Datatypes.S n) es) as [|e l] eqn:El.
  - right. rewrite Et. split; [|intros h e; apply not_elem_of_nil]. inversion Hi; subst. eapply blank_frame; [apply Eb|by eapply created_blank].
  - left. eapply inserted_all_first; [exact Hi|by eapply created_blank|done|by rewrite (mc_size _ _ _ _ C)| |by rewrite (mc_config _ _ _ _ C)].
    rewrite (mc_size _ _ _ _ C), replay_size_stored. lia.
Qed.

Lemma restart_recent : exists y, (y <= pred (length es))%nat /\ get_most_recent_offset (active_memtable s2) = offset_of es y.
Proof.
  destruct (rs_replayed _ _ _ _ _ _ _ _ _ Hre) as (w0 & w1 & R & _). destruct (rp_steps _ _ _ _ _ _ R) as (t & w2 & C & Hi).
  destruct (inserted_all_recent _ _ _ _ _ _ Hi) as [E|(y & Hy & E)].
  - exists O. rewrite E, (mc_recent _ _ _ _ C). split; [lia|done].
  - rewrite length_fmap, length_drop in Hy. exists (Datatypes.S n + y)%nat. split; [lia|]. by rewrite E, stored_offset, <- offset_of_plus.
Qed.

Lemma restart_saved : saved N parse_uuid root s2 es tabs2 (Nat.max 1 n) lay.
Proof.
  destruct restart_parts as (Er & _ & Et & _ & Ebm). destruct (rs_meta _ _ _ _ _ _ _ _ _ Hre) as [Em Hcr].
  pose proof (rs_log_file _ _ _ _ _ _ _ _ _ Hre) as Ej. pose proof restart_ticks as Ht.
  destruct (du_saved _ _ _ _ _ _ _ Hd) as [V1 V2 V3 V4 V5 V6 V7 V8 V9 V10 V11 V12 V13 V14 V15 V16 V17 V18 V19].
  split; rewrite ?restart_fs, ?Em, ?Ej; try done.
  - by rewrite V6.
  - intros id b. destruct restart_buckets as (st & -> & R & F). intros Hb%im_get_elem. rewrite Ebm. rewrite Forall_forall in F.
    destruct (F _ Hb) as [Hin Hdir]. split; [done|]. apply list_elem_of_fmap in Hin as (q & Eq & Hq).
    pose proof (te_plain _ _ _ _ V5) as Hp. rewrite Forall_forall in Hp. cbn in Eq. rewrite Eq. by apply Hp.
  - exact restart_recent.
  - lia.
  - intros k v [K1 K2] (x & e & Hnx & He & Hk & _)%restart_lookup. apply list_elem_of_fmap. exists e. split; [done|].
    assert (Nat.max 1 n < x)%nat as Hlt.
    { destruct (decide (x = 1%nat)) as [->|]; [|lia]. destruct V11 as (t & ws & ->). by injection He as <-. }
    apply (list_elem_of_lookup_2 _ (x - Datatypes.S (Nat.max 1 n))). rewrite lookup_drop. by replace (_ + _)%nat with x by lia.
  - destruct Hhead as [Hc _|y m0 Hc Hoff Hlt T1 T2]; [by left|right]. exists m0. split; [done|]. exists y. split; [lia|]. done.
  - intros m' Hm. by rewrite Et in Hm; apply not_elem_of_nil in Hm.
  - exact restart_tally.
  - intros id t. by rewrite Er, sm_get_new.
  - intros y Hy. apply V19. lia.
Qed.

(** *** The map *)
Definition view_map : KV := fun k => ue_val <$> store_view s2 es tabs2 k.

Lemma restart_agrees : agrees view_map es.
Proof.
  intros k Hk. rewrite <- (du_agrees _ _ _ _ _ _ _ Hd k Hk).
  destruct (saved_view N parse_uuid root s es tabs ids m r lay n k) as [_ <-]; try apply Hd; try done.
  unfold view_map, store_view, disk_view. do 2 f_equal. rewrite restart_hit. unfold disk_hit. destruct (after_head es n k); [done|].
  rewrite <- sst_hits_maps. apply best_hit_perm; [apply restart_hits|]. rewrite restart_hits.
  apply (ly_distinct _ _ _ (sy_layered _ _ _ _ _ (du_sys _ _ _ _ _ _ _ Hd))), Hk.
Qed.

Lemma restart_durable_tabs : durable s2 es tabs2 [] view_map (Nat.max 1 n) lay.
Proof. split; [exact restart_sys|by split; [exact restart_store|]|exact restart_agrees|exact restart_saved|exact restart_traced]. Qed.
End restart.

(** ** Sessions and crashes *)

(** A moment at which a crash loses nothing: no memtable waits for its flush, the
    log is within the range of the stored offsets, and what was logged after the
    head on disk fits one memtable. *)
Record settled s : Prop := {
  se_ro : sm_is_empty (read_only_memtables s) = true;
  se_log : vlog_size (val_log s) <= 2 ^ 32;
  se_suffix : vlog_size (val_log s) - disk_head (w_fs (ds_world s)) (file (file_handle (ds_meta s))) < mt_capacity default_mem;
}.

Lemma restart_durable keyspace s es tabs ids m r lay :
  orderly N -> dir_len <> 0 -> is_valid_keyspace_name keyspace = true -> durable s es tabs ids m r lay -> settled s ->
  exists s2 tabs2 m2 r2, open parse_uuid dir_len keyspace root (crash s) = Ok s2 /\ durable s2 es tabs2 [] m2 r2 lay.
Proof.
  intros Ho Hl Hk Hd [Hro Hlen Hfit]. pose proof Hd as [Hs Hr Ha Hv Ht].
  rewrite (rep_size _ _ _ (si_log _ _ _ _ (proj1 Hr))) in Hlen, Hfit. destruct (sv_first _ _ _ _ _ _ _ _ Hv) as (t & ws & Ees).
  pose proof (sv_range _ _ _ _ _ _ _ _ Hv) as Hrg.
  destruct (saved_head_at _ _ es r (sv_head _ _ _ _ _ _ _ _ Hv) Hrg) as (n & Hh & Hn); [by rewrite Ees|done|].
  pose proof (suffix_size es n) as Hsz. rewrite (disk_head_at _ _ _ _ Hh) in Hfit.
  assert (replay_size (drop (Datatypes.S n) es) < mt_capacity default_mem) as Hfit' by lia.
  destruct (open_disk_run parse_uuid dir_len keyspace root (file (file_handle (ds_meta s))) (file (vlog_file (val_log s))) (crash s) es n lay)
    as (s2 & all & E & Hre & Hall); [done|done| |done|].
  { destruct (si_log _ _ _ _ (proj1 Hr)) as [L1 L2 L3]. split; try apply Hv; try done. apply lookup_lt_is_Some. lia. }
  destruct (restart_tables s s2 es tabs ids m r n lay all Hd Hre Hall) as (tabs2 & Hx & Hp & Hno & Hc).
  exists s2, tabs2, (view_map s2 es tabs2), (Nat.max 1 n). split; [done|]. by eapply (restart_durable_tabs s s2 es tabs ids m r n).
Qed.

(** A session within the readings of the clock that are known to be orderly *)
Definition session s (tr : list Label) s' : Prop := sys_run s tr s' /\ (w_ticks (ds_world s) + 8 * length tr + 9 <= N)%nat.

(** Sessions, each but the last ended by a crash at a settled moment and followed
    by a recovery from the files *)
Inductive lives (keyspace : list byte) : S -> list Label -> S -> Prop :=
  | lives_session s tr s' : session s tr s' -> lives keyspace s tr s'
  | lives_crash s tr s1 s2 tr' s' :
      session s tr s1 -> settled s1 -> open parse_uuid dir_len keyspace root (crash s1) = Ok s2 ->
      lives keyspace s2 tr' s' -> lives keyspace s (tr ++ tr') s'.

(** Calls on keys other than the store's own *)
Definition client_call (op : Op) : Prop :=
  match op with OpPut k _ | OpUpdate k _ | OpDelete k | OpGet k => client_key k end.

Definition client_eq (m m' : KV) : Prop := forall k, client_key k -> m k = m' k.

#[local] Instance client_eq_equiv : Equivalence client_eq.
Proof. split; [by intros m k|intros m m' Hm k Hk; by rewrite Hm|intros m1 m2 m3 H12 H23 k Hk; by rewrite H12, H23]. Qed.

Lemma client_step m m' op : client_call op -> client_eq m m' ->
  (kv_step m op).1 = (kv_step m' op).1 /\ client_eq (kv_step m op).2 (kv_step m' op).2.
Proof.
  intros Hop Hm. destruct op as [k v|k v|k|k]; cbn in *; (split; [|done || (intros k' Hk'; unfold kv_put; repeat case_decide; auto)]); try done. by rewrite Hm.
Qed.

Lemma client_run ops m m' : Forall client_call ops -> client_eq m m' ->
  (kv_run m ops).1 = (kv_run m' ops).1 /\ client_eq (kv_run m ops).2 (kv_run m' ops).2.
Proof.
  revert m m'. induction ops as [|op ops IH]; intros m m' Hops Hm; [done|]. apply Forall_cons in Hops as [Hop Hops].
  destruct (client_step m m' op Hop Hm) as [E1 E2]. cbn. destruct (kv_step m op) as [x m1], (kv_step m' op) as [x' m1']. cbn in E1, E2.
  destruct (IH _ _ Hops E2) as [E3 E4]. destruct (kv_run m1 ops) as [xs m2], (kv_run m1' ops) as [xs' m2']. cbn in *. split; [congruence|done].
Qed.

Lemma session_durable s tr s' es tabs ids m r lay :
  orderly_env N -> session s tr s' -> durable s es tabs ids m r lay ->
  answers tr = Ok <$> (kv_run m (calls tr)).1 /\
  exists es' tabs' ids' r' lay', durable s' es' tabs' ids' (kv_run m (calls tr)).2 r' lay'.
Proof.
  intros Ho [Hrun HN] [Hs Hr Ha Hv Ht]. split; [by eapply (sys_run_inv N)|].
  destruct (run_saved N parse_uuid root Hhash Hbits Hplain tr s s' es tabs ids m r lay Ho Hrun Hs Hr Ha Hv Ht HN)
    as (es' & tabs' & ids' & r' & lay' & Hs' & Hr' & Ha' & Hv' & Ht').
  by exists es', tabs', ids', r', lay'.
Qed.

Lemma lives_durable keyspace s tr s' : lives keyspace s tr s' -> forall es tabs ids m r lay,
  orderly_env N -> dir_len <> 0 -> is_valid_keyspace_name keyspace = true -> Forall client_call (calls tr) -> durable s es tabs ids m r lay ->
  answers tr = Ok <$> (kv_run m (calls tr)).1 /\
  exists es' tabs' ids' m' r' lay', durable s' es' tabs' ids' m' r' lay' /\ client_eq m' (kv_run m (calls tr)).2.
Proof.
  induction 1 as [s tr s' Hse|s tr s1 s2 tr' s' Hse Hset Hop _ IH]; intros es tabs ids m r lay Ho Hl Hk Hc Hd.
  - destruct (session_durable s tr s' es tabs ids m r lay Ho Hse Hd) as (Ha & es' & tabs' & ids' & r' & lay' & Hd').
    split; [done|]. by eexists es', tabs', ids', _, r', lay'.
  - destruct (session_durable s tr s1 es tabs ids m r lay Ho Hse Hd) as (Ha & es1 & tabs1 & ids1 & r1 & lay1 & Hd1).
    destruct (restart_durable keyspace s1 es1 tabs1 ids1 _ r1 lay1 (env_orderly _ Ho) Hl Hk Hd1 Hset) as (s2' & tabs2 & m2 & r2 & Hop' & Hd2).
    assert (s2' = s2) as -> by congruence. unfold calls, answers in *. rewrite !omap_app in *. apply Forall_app in Hc as [Hc1 Hc2].
    assert (client_eq m2 (kv_run m (calls tr)).2) as Hm2.
    { intros k Hck. rewrite (du_agrees _ _ _ _ _ _ _ Hd2 k Hck). symmetry. by apply (du_agrees _ _ _ _ _ _ _ Hd1). }
    destruct (IH es1 tabs2 [] m2 r2 lay1 Ho Hl Hk Hc2 Hd2) as (Ha2 & es' & tabs' & ids' & m' & r' & lay' & Hd' & Hm').
    destruct (client_run _ _ _ Hc2 Hm2) as [E1 E2]. split.
    + rewrite kv_run_app_fst, fmap_app, Ha, Ha2, E1. done.
    + exists es', tabs', ids', m', r', lay'. split; [done|]. rewrite kv_run_app. by rewrite Hm'.
Qed.

Lemma open_durable keyspace w :
  let dir := dir_path_build root in
  orderly_env N -> (w_ticks w + 5 < N)%nat -> is_valid_keyspace_name keyspace = true ->
  fs_wf (w_fs w) -> dirs_closed (w_fs w) -> path_exists (w_fs w) (dp_meta dir) = false -> path_exists (w_fs w) (dp_val_log dir) = false ->
  names (w_fs w) !! dp_buckets dir = None -> no_children (w_fs w) (dp_buckets dir) ->
  exists s t, open parse_uuid dir_len keyspace root w = Ok s /\ durable s (first_entries t) [] [] fresh_map 1 [].
Proof.
  intros dir Ho HN Hk Hwf Hcl Hm Hv Hb Hnc.
  destruct (open_fresh_run N parse_uuid dir_len keyspace root w (env_orderly _ Ho) HN Hk Hwf Hm Hv Hb) as (s & t & E & R & T & Hbd & _ & Hop).
  destruct (opened_saved N parse_uuid root Hhash w t s Hop Hnc Hcl Hbd) as [Hs0 Ha0].
  exists s, t. split; [done|]. split; [|done..|eapply opened_traced; try done; lia]. eapply opened_sys; try done. apply R.
Qed.

(** ** Properties *)


End lifetimes.


(** ** Witness *)
Section lives_witness.
#[local] Existing Instance demo_platform.
#[local] Existing Instance demo_env.
#[local] Existing Instance sorted_list_skipmap.

(** After the crash of [demo_session]: one read from the recovered memtable and one
    from a table, then a write and a read *)
Definition demo_later : list Move :=
  [MCall (OpGet (long_key x61)); MCall (OpGet (long_key x62)); MCall (OpPut (long_key x62) [x34]); MCall (OpGet (long_key x62))].

Definition client_callb (op : Op) : bool :=
  match op with OpPut k _ | OpUpdate k _ | OpDelete k | OpGet k => bool_decide (k <> HEAD_ENTRY_KEY /\ k <> TAIL_ENTRY_KEY) end.

Lemma client_calls_spec ops : forallb client_callb ops = true -> Forall client_call ops.
Proof.
  rewrite forallb_forall, Forall_forall. intros Hall op Hop%list_elem_of_In. specialize (Hall op Hop).
  destruct op; exact (bool_decide_eq_true_1 _ Hall).
Qed.

Lemma demo_settled s : demo_played = Ok s -> settled s.
Proof. intros (R1 & R2 & R3 & _)%demo_end_ok. split; [exact R1|rewrite R2; lia|rewrite R2, R3; by vm_compute]. Qed.

(** The first opening and the second *)
Lemma demo_opened_ticks s : demo_open = Ok s -> w_ticks (ds_world s) = 5%nat.
Proof.
  intros E. assert (match demo_open with Ok s => w_ticks (ds_world s) | _ => 5%nat end = 5%nat) as Hc by (vm_compute; reflexivity).
  by rewrite E in Hc.
Qed.

Abbreviation demo_reopen := (open (M := slist) Some 4096 [x64; x62] ["db"%string]).

Lemma demo_reopened s s2 : demo_played = Ok s -> demo_reopen (crash s) = Ok s2 -> (w_ticks (ds_world s2) < 100)%nat /\ playable demo_later s2 = true.
Proof.
  intros E E2. assert (match demo_played with
    | Ok s => match demo_reopen (crash s) with Ok s2 => (w_ticks (ds_world s2) <? 100)%nat && playable demo_later s2 | _ => true end
    | _ => true
    end = true) as Hc by (vm_compute; reflexivity).
  rewrite E, E2 in Hc. apply andb_true_iff in Hc as [Hc1 Hc2]. split; [by apply Nat.ltb_lt|done].
Qed.

Lemma demo_first_session s : demo_open = Ok s -> exists tr, session 1000 s tr (played demo_session s) /\ calls tr = moves_calls demo_session /\
  demo_played = Ok (played demo_session s).
Proof.
  intros E. destruct (played_run demo_session s (demo_session_playable s E)) as (tr & Htr & Hc & Hl). exists tr.
  split; [split; [exact Htr|rewrite Hl, (demo_opened_ticks s E); cbn; lia]|]. split; [exact Hc|]. unfold demo_played. rewrite E. reflexivity.
Qed.


End lives_witness.
