(* ===== verification/GC.v ===== *)
(** * Value-log garbage collection ([src/gc/garbage_collector.rs])

    A collection reads a chunk from the log's tail, looks up the newest value
    of each key through the collector's own memtable handle, appends the live
    values at the log's end and records where to punch a hole. The store picks
    the moved entries up on its next [put] ([sync_gc_update_with_store]). *)

From stdpp Require Import prelude gmap strings list.
From Stdlib Require Import Strings.Byte ZArith Lia.
From S2P Require Import Prelude Consts SkipMap FileIO Types World VLog Block Index Bloom SSTable Meta MemTable.
From S2P Require Import KeyRange RangeSearch Bucket Flush Compaction Config Store StoreInv StoreSpec Recovery.
Open Scope Z_scope.

Section gc.
Context `{Env} {M : Type -> Type} `{SkipMap M}.
Abbreviation W := (World M).
Abbreviation S := (DataStore M).

(** [GC::get_value_from_vlog] *)
Definition gc_get_value_from_vlog (offset : Z) (creation_at : DateTime) : io S Error (list byte * DateTime) :=
  v ← gets gc_log;
  res ← in_world (on_fs (vlog_get v offset));
  match res with
  | Some (value, is_tombstone) => if (is_tombstone : bool) then io_err NotFoundInDB else mret (value, creation_at)
  | None => io_err NotFoundInDB
  end.

(** What a search ends with *)
Definition gc_conclude (best : Z * DateTime * bool) (otherwise : io S Error (list byte * DateTime))
    : io S Error (list byte * DateTime) :=
  let '(offset, insert_time, is_deleted) := best in
  if found_in_table insert_time default_datetime then
    if (is_deleted : bool) then io_err NotFoundInDB else gc_get_value_from_vlog offset insert_time
  else otherwise.

(** [GC::search_key_in_sstables] *)
Definition gc_search_key_in_sstables (k : list byte) (ssts : list Table) : io S Error (list byte * DateTime) :=
  best ← in_world (search_ssts k ssts (0, default_datetime, false));
  gc_conclude best (io_err NotFoundInDB).

(** The collector's memtable *)
Definition own_table (s : S) : option MemTable := gc_tables s !! gc_own_table s.

(** [GC::get] *)
Definition gc_get (k : list byte) : io S Error (list byte * DateTime) :=
  t ← gets own_table;
  table ← io_lift (unwrap t);
  r ← in_world (mem_get table k);
  match r with
  | Some value =>
      if smv_is_tombstone value then io_err NotFoundInDB
      else gc_get_value_from_vlog (smv_val_offset value) (smv_created_at value)
  | None =>
      ro ← gets read_only_memtables;
      best ← in_world (search_read_only k (sm_iter ro).*2 (0, default_datetime, false));
      gc_conclude best (
        kr ← gets (fun s => db_ranges (ds_db s));
        '(ssts, restored) ← in_world (filter_sstables_by_key_range kr k);
        _ ← (if decide (restored = ∅) then mret tt else spawn (TRestored restored));
        gc_search_key_in_sstables k ssts)
  end.

(** Run a spawned task to its [JoinHandle]: a panic is reported as a value. *)
Definition joined {A} (m : io S Error A) : io S Error (outcome Error A) := fun s => let '(r, s') := m s in (Ok r, s').

(** [GC::handle_deleted_entries]: a key that is not found makes its entry invalid. *)
Definition handle_deleted_entries {A} (err : Error) : outcome Error (option A) :=
  match err with NotFoundInDB => Ok None | _ => Err err end.

(** The task for one entry of the chunk: [Some] of a key and its newest value
    when the entry is kept, [None] when it is invalid *)
Definition gc_check (e : ValueLogEntry) : io S Error (option (list byte * list byte)) := fun s =>
  if utf8_valid (vle_key e) then
    match gc_get (vle_key e) s with
    | (Ok (value, creation_time), s') =>
        (Ok (if bool_decide (vle_created_at e < creation_time) || bool_decide (value = TOMB_STONE_MARKER)
             then None else Some (vle_key e, value)), s')
    | (Err err, s') => (handle_deleted_entries err, s')
    | (Panic, s') => (Panic, s')
    end
  else (Panic, s).

(** [join_all]: every task runs *)
Fixpoint gc_check_all (es : list ValueLogEntry) : io S Error (list (outcome Error (option (list byte * list byte)))) :=
  match es with
  | [] => mret []
  | e :: es' => r ← joined (gc_check e); rs ← gc_check_all es'; mret (r :: rs)
  end.

(** [match tokio_res { Ok(res) => res?, Err(_) => return Err(TokioJoin) }] *)
Fixpoint gc_results (rs : list (outcome Error (option (list byte * list byte))))
    : outcome Error (list (option (list byte * list byte))) :=
  match rs with
  | [] => Ok []
  | Ok r :: rs' => l ← gc_results rs'; Ok (r :: l)
  | Err e :: _ => Err e
  | Panic :: _ => Err TokioJoin
  end.

(** [vlog.write().await.append(..)] through the collector's handle *)
Definition gc_append (k val : list byte) : io S Error Z :=
  t ← in_world now;
  v ← gets gc_log;
  '(o, v) ← in_world (on_fs (vlog_append v k val t false));
  _ ← modify (fun s => with_gc s (gc_tables s) (gc_table s) v);
  mret o.

(** [GC::write_tail_to_disk] *)
Definition write_tail_to_disk (new_tail_offset : Z) : io S Error Z :=
  gc_append TAIL_ENTRY_KEY (to_le 8 new_tail_offset).

(** [GC::write_valid_entries_to_vlog] *)
Fixpoint write_valid_entries_to_vlog (valid : list (list byte * list byte)) : io S Error (list (list byte * list byte * Z)) :=
  match valid with
  | [] => mret []
  | (k, value) :: valid' =>
      o ← gc_append k value; synced ← write_valid_entries_to_vlog valid'; mret ((k, value, o) :: synced)
  end.

(** [GC::put] *)
Definition gc_put (k value : list byte) (val_offset : Z) : io S Error unit :=
  let is_tombstone := bool_decide (value = []) in
  created_at ← in_world now;
  let entry := entry_new k val_offset created_at is_tombstone in
  t ← gets own_table;
  table ← io_lift (unwrap t);
  table ← in_world (mem_insert table entry);
  _ ← modify (fun s => with_gc s (<[gc_own_table s := table]> (gc_tables s)) (gc_table s) (gc_log s));
  l ← gets gc_updated_entries;
  m ← in_world (read_map l);
  in_world (write_map l (sm_insert k (smv_new val_offset created_at is_tombstone) m)).

(** [GC::write_valid_entries_to_store] *)
Fixpoint put_synced (synced : list (list byte * list byte * Z)) : io S Error unit :=
  match synced with
  | [] => mret tt
  | (k, value, o) :: synced' =>
      _ ← gc_put k value o;
      v ← gets gc_log;
      _ ← (if decide (o > head_offset v) then modify (fun s => with_gc s (gc_tables s) (gc_table s) (vlog_set_head (gc_log s) o))
           else mret tt);
      put_synced synced'
  end.
Definition write_valid_entries_to_store (synced : list (list byte * list byte * Z)) : io S Error unit :=
  l ← gets gc_updated_entries;
  _ ← in_world (write_map l sm_new);
  put_synced synced.

(** [GC::gc_handler]; [order] is the order in which the tasks push their valid
    entries *)
Definition gc_handler (order : list (list byte * list byte) -> list (list byte * list byte)) : io S Error unit :=
  v ← gets gc_log;
  size ← gets gc_chunk_size;
  '(entries, total_bytes_read) ← in_world (on_fs (vlog_read_chunk v size));
  results ← gc_check_all entries;
  checked ← io_lift (gc_results results);
  if forallb (fun c => match c with Some _ => true | None => false end) checked then mret tt else
  v ← gets gc_log;
  let new_tail_offset := tail_offset v + total_bytes_read in
  v_offset ← write_tail_to_disk new_tail_offset;
  synced ← write_valid_entries_to_vlog (order (omap id checked));
  _ ← write_valid_entries_to_store ((TAIL_ENTRY_KEY, to_le 8 new_tail_offset, v_offset) :: synced);
  v ← gets gc_log;
  modify (fun s => with_punch s (mkPunch (tail_offset v) total_bytes_read)).

(** One round of the worker's loop ([GC::start_gc_worker]): errors are logged *)
Definition gc_round (order : list (list byte * list byte) -> list (list byte * list byte)) : io S Error unit := fun s =>
  if sm_is_empty (the_map (ds_world s) (gc_updated_entries s)) then
    match gc_handler order s with
    | (Err _, s') => (Ok tt, s')
    | r => r
    end
  else (Ok tt, s).
End gc.

(** ** Properties *)
Section gc_properties.
Context `{Env} {M : Type -> Type} `{SkipMap M}.
Abbreviation S := (DataStore M).

(** The verdict on a log entry whose key is in the collector's memtable. *)
Lemma gc_check_run (s : S) es t e v e' :
  own_table s = Some t -> mem_inv (ds_world s) t -> vlog_rep (w_fs (ds_world s)) (val_log s) es ->
  vlog_file (gc_log s) = vlog_file (val_log s) -> utf8_valid (vle_key e') = true ->
  mem_lookup (ds_world s) t (vle_key e') = Some v -> smv_is_tombstone v = false ->
  entry_at es (smv_val_offset v) = Some e -> vle_is_tombstone e = false -> vle_value e <> TOMB_STONE_MARKER ->
  gc_check (stored e') s =
    (Ok (if decide (trunc_ms (vle_created_at e') < smv_created_at v) then None else Some (vle_key e', vle_value e)), s).
Proof.
  intros Ht Hi Hr Hf Hu Hl Hv He Hte Hne. unfold gc_check. cbn [stored vle_key vle_created_at]. rewrite Hu.
  assert (gc_get (vle_key e') s = (Ok (vle_value e, smv_created_at v), s)) as ->.
  { unfold gc_get. run_simpl. rewrite Ht. run_simpl.
    erewrite io_step by (apply in_world_pure, mem_get_lookup, Hi). rewrite Hl, Hv. unfold gc_get_value_from_vlog. run_simpl.
    assert (vlog_get (gc_log s) = vlog_get (val_log s)) as -> by (unfold vlog_get; by rewrite Hf).
    erewrite io_step. 2: { apply in_world_pure. rewrite (on_fs_ok _ _ _ _ (vlog_get_at _ _ _ _ _ Hr He)). by destruct (ds_world s). }
    by rewrite Hte. }
  rewrite (bool_decide_false (vle_value e = _)), orb_false_r by done. by case_decide; [rewrite bool_decide_true|rewrite bool_decide_false].
Qed.


(** [punch_holes] zeroes exactly the given byte range: the file keeps its
    length, every other byte and every other file is untouched. *)
Theorem punch_holes_spec p i off len fs :
  names fs !! p = Some i -> 0 <= off -> 0 < len ->
  exists fs', punch_holes p off len fs = (Ok tt, fs') /\ length (content fs' i) = length (content fs i) /\
    (forall n b, content fs i !! n = Some b ->
       content fs' i !! n = Some (if decide (off <= Z.of_nat n < off + len) then x00 else b)) /\
    (forall j, j <> i -> content fs' j = content fs j) /\ names fs' = names fs /\ dirs fs' = dirs fs.
Proof.
  intros Hn Ho Hl. unfold punch_holes. rewrite Hn, decide_False by lia. eexists. split; [reflexivity|].
  rewrite content_set_inode, decide_True by done. set (bs := content fs i). set (a := Z.to_nat off).
  set (h := Nat.min (Z.to_nat len) (length bs - a)). split; [|split; [|split; [|done]]].
  - rewrite !length_app, length_take, length_replicate, length_drop. lia.
  - intros n b Hb. pose proof (lookup_lt_Some _ _ _ Hb). destruct (decide (n < a)%nat).
    { rewrite decide_False by lia. rewrite lookup_app_l by (rewrite length_take; lia). by rewrite lookup_take_lt. }
    rewrite lookup_app_r, length_take by (rewrite length_take; lia). destruct (decide (n < a + h)%nat).
    + rewrite decide_True by lia. rewrite lookup_app_l by (rewrite length_replicate; lia). apply lookup_replicate. split; [done|lia].
    + rewrite decide_False by lia. rewrite lookup_app_r, length_replicate by (rewrite length_replicate; lia).
      rewrite lookup_drop, <- Hb. f_equal. lia.
  - intros j Hj. by rewrite content_set_inode, decide_False.
Qed.
End gc_properties.

(** ** Witnesses and an end-to-end run *)
Section gc_witnesses.
#[local] Existing Instance demo_platform.
#[local] Existing Instance demo_env.
#[local] Existing Instance sorted_list_skipmap.

(** A store whose collector has a clone of the active memtable and of the log *)
Definition with_own_table (s : DataStore slist) : DataStore slist :=
  with_gc s {[ gc_own_table s := active_memtable s ]} 0 (val_log s).

Lemma with_own_table_spec s :
  own_table (with_own_table s) = Some (active_memtable s) /\ ds_world (with_own_table s) = ds_world s /\
  val_log (with_own_table s) = val_log s /\ gc_log (with_own_table s) = val_log s.
Proof. split; [apply lookup_singleton_eq|done]. Qed.


Lemma punch_holes_spec_witness :
  exists fs', punch_holes ["v_log"%string; "val_log.bin"%string] 0 22 demo_fs = (Ok tt, fs') /\
    length (content fs' 0) = 44%nat.
Proof.
  destruct (punch_holes_spec ["v_log"%string; "val_log.bin"%string] 0 0 22 demo_fs eq_refl ltac:(lia) ltac:(lia))
    as (fs' & E & L & _). exists fs'. split; [exact E|exact L].
Defined.

Definition key4 (b : byte) : list byte := [b; b; b; b].
Definition val8 (b : byte) : list byte := [b; b; b; b; b; b; b; b].

(** A new store with two keys, one of them written twice *)
Definition before_gc : outcome Error (DataStore slist) :=
  match small_open empty_world with
  | Ok s => Ok (exec_all [OpPut (key4 x61) (val8 x31); OpPut (key4 x62) (val8 x32); OpPut (key4 x61) (val8 x33)] s).2
  | r => r
  end.
Definition gc_once (s : DataStore slist) : DataStore slist := (gc_round (fun l => reverse l) s).2.
Definition put_c (s : DataStore slist) : DataStore slist := (store_put (key4 x63) (val8 x34) s).2.

End gc_witnesses.
