(* ===== verification/Background.v ===== *)
(** * The running store: clients, flush channel, compactor and collector together

    [DataStore::open] ends with [start_background_tasks]: the compaction worker,
    the flush listener and the garbage collector then run beside the clients
    and the tasks they spawn. The listener is woken through a broadcast channel
    of capacity one (crate [async-broadcast]), an interface here with the
    crate's documented behaviour. *)

From stdpp Require Import prelude gmap strings list relations.
From Stdlib Require Import Strings.Byte ZArith Lia.
From S2P Require Import Prelude Consts SkipMap FileIO Types World VLog Block Index Bloom SSTable Meta MemTable.
From S2P Require Import KeyRange RangeSearch Bucket Flush Compaction Compactor Config Store StoreInv StoreSpec Recovery System GC.
Open Scope Z_scope.

(** ** The broadcast channel

    Receivers are numbered, the first one 0. A message stays in the queue until
    every receiver has taken it, so the channel is full when some receiver has
    as many unread messages as the capacity; a full channel refuses a message. *)
Inductive SendResult := Sent | Full.

Class Broadcast (Ch : Type) := {
  bc_new : nat -> Ch;
  bc_clone : Ch -> nat * Ch;
  bc_try_broadcast : Ch -> SendResult * Ch;
  bc_try_recv : nat -> Ch -> TryRecv * Ch;
  bc_capacity : Ch -> nat;
  bc_receivers : Ch -> list nat;
  bc_unread : nat -> Ch -> nat;
  bc_new_spec n : bc_capacity (bc_new n) = n /\ bc_receivers (bc_new n) = [0%nat] /\ bc_unread 0 (bc_new n) = 0%nat;
  bc_clone_spec c :
    let (r, c') := bc_clone c in
    (r ∉ bc_receivers c) /\ bc_receivers c' = r :: bc_receivers c /\ bc_capacity c' = bc_capacity c /\
    bc_unread r c' = bc_unread 0 c /\ forall q, q ∈ bc_receivers c -> bc_unread q c' = bc_unread q c;
  bc_full_spec c q :
    q ∈ bc_receivers c -> (bc_capacity c <= bc_unread q c)%nat -> bc_try_broadcast c = (Full, c);
  bc_send_spec c :
    (forall q, q ∈ bc_receivers c -> (bc_unread q c < bc_capacity c)%nat) ->
    exists c', bc_try_broadcast c = (Sent, c') /\ bc_receivers c' = bc_receivers c /\ bc_capacity c' = bc_capacity c /\
      forall q, q ∈ bc_receivers c -> bc_unread q c' = S (bc_unread q c);
  bc_empty_spec c r : r ∈ bc_receivers c -> bc_unread r c = 0%nat -> bc_try_recv r c = (Empty, c);
  bc_recv_spec c r n :
    r ∈ bc_receivers c -> bc_unread r c = S n ->
    exists c', bc_try_recv r c = (Received, c') /\ bc_receivers c' = bc_receivers c /\ bc_capacity c' = bc_capacity c /\
      bc_unread r c' = n /\ forall q, q ∈ bc_receivers c -> q <> r -> bc_unread q c' = bc_unread q c;
}.

Inductive CompactionReason := MaxSize | Manual.

(** A running store. [rn_rx] is the listener's receiver; receiver 0 is the
    store's own [flush_signal_rx]. *)
Record Running (Ch : Type) (M : Type -> Type) := mkRunning {
  rn_store : DataStore M;
  rn_chan : Ch;
  rn_rx : nat;
  rn_reason : CompactionReason;
  rn_config : CompactConfig;
  rn_active : CompState;
  rn_listener : TaskPc;
  rn_worker : TaskPc;
}.
Arguments mkRunning {Ch M}.
Arguments rn_store {Ch M}.
Arguments rn_chan {Ch M}.
Arguments rn_rx {Ch M}.
Arguments rn_reason {Ch M}.
Arguments rn_config {Ch M}.
Arguments rn_active {Ch M}.
Arguments rn_listener {Ch M}.
Arguments rn_worker {Ch M}.

Section background.
Context `{Env} {M : Type -> Type} `{SkipMap M} {Ch : Type} `{Broadcast Ch}.
Abbreviation S := (DataStore M).
Abbreviation R := (Running Ch M).

(** The compactor's configuration, fixed when the store is opened *)
Definition compactor_config (c : Config) : CompactConfig :=
  compact_config_new (cfg_enable_ttl c) (mkTtl (cfg_entry_ttl c) (cfg_tombstone_ttl c))
    (mkIntervals (cfg_background_compaction_interval c) (cfg_compactor_flush_listener_interval c) (cfg_tombstone_compaction_interval c))
    (cfg_compaction_strategy c) (cfg_false_positive_rate c).

(** [DataStore::start_background_tasks] on the store just opened: the listener
    gets a clone of the store's receiver. *)
Definition start_background_tasks (s : S) : R :=
  let '(rx, ch) := bc_clone (bc_new (Z.to_nat DEFAULT_FLUSH_SIGNAL_CHANNEL_SIZE)) in
  mkRunning s ch rx MaxSize (compactor_config (ds_config s)) Sleep Waiting Waiting.

(** The compactor's part of the state *)
Definition co_of (r : R) : Compactor M := mkCompactor (ds_db (rn_store r)) (rn_active r) (rn_listener r) (rn_worker r).
Definition with_co (r : R) (c : Compactor M) : R :=
  mkRunning (with_db (rn_store r) (co_db c)) (rn_chan r) (rn_rx r) (rn_reason r) (rn_config r) (is_active c) (listener c) (worker c).
Definition with_store (r : R) (s : S) : R :=
  mkRunning s (rn_chan r) (rn_rx r) (rn_reason r) (rn_config r) (rn_active r) (rn_listener r) (rn_worker r).
Definition with_chan (r : R) (ch : Ch) : R :=
  mkRunning (rn_store r) ch (rn_rx r) (rn_reason r) (rn_config r) (rn_active r) (rn_listener r) (rn_worker r).
Definition with_reason (r : R) (why : CompactionReason) : R :=
  mkRunning (rn_store r) (rn_chan r) (rn_rx r) why (rn_config r) (rn_active r) (rn_listener r) (rn_worker r).

(** [tx.try_broadcast(FLUSH_SIGNAL)] at the end of [Flusher::flush_handler] *)
Definition notify (r : R) : option SendResult * R :=
  if flush_signal (rn_store r) then
    let '(res, ch) := bc_try_broadcast (rn_chan r) in (Some res, with_chan r ch)
  else (None, r).

(** A spawned task; the store's flag shows whether it flushed a memtable. *)
Definition background_task (x : Task) (l : list Task) (r : R) : option SendResult * R :=
  let s := rn_store r in
  let s := with_flush (with_tasks s l) (flush_stream s) false in
  notify (with_store r (run_task x s).2).

(** One wake-up of the flush listener *)
Definition listen (r : R) : TryRecv * R :=
  let '(sig, ch) := bc_try_recv (rn_rx r) (rn_chan r) in
  (sig, with_co (with_chan r ch) (listener_check sig (co_of r))).

(** [DataStore::run_compaction]: compacts without a look at the state flag *)
Definition manual_compaction (r : R) : outcome Error unit * R :=
  let r := with_reason r Manual in
  let '(res, d) := handle_compaction (rn_config r) (ds_db (rn_store r)) in
  (res, with_store r (with_db (rn_store r) d)).

(** What happens in a step *)
Inductive Event :=
  | ECall (op : Op) (res : outcome Error Resp)
  | ETask (x : Task) (sent : option SendResult)
  | EListen (sig : TryRecv)
  | ECompacted
  | EWorker
  | EGc
  | EManual (res : outcome Error unit).

Inductive bg_step : R -> Event -> R -> Prop :=
  | bg_call r op : bg_step r (ECall op (exec op (rn_store r)).1) (with_store r (exec op (rn_store r)).2)
  | bg_task r l1 x l2 :
      tasks (rn_store r) = l1 ++ x :: l2 ->
      bg_step r (ETask x (background_task x (l1 ++ l2) r).1) (background_task x (l1 ++ l2) r).2
  | bg_listen r : rn_listener r = Waiting -> bg_step r (EListen (listen r).1) (listen r).2
  | bg_listener_finish r : rn_listener r = Compacting -> bg_step r ECompacted (with_co r (listener_finish (rn_config r) (co_of r)))
  | bg_worker_check r : rn_worker r = Waiting -> bg_step r EWorker (with_co r (worker_check (co_of r)))
  | bg_worker_finish r : rn_worker r = Compacting -> bg_step r ECompacted (with_co r (worker_finish (rn_config r) (co_of r)))
  | bg_gc r order : bg_step r EGc (with_store r (gc_round order (rn_store r)).2)
  | bg_manual r : bg_step r (EManual (manual_compaction r).1) (manual_compaction r).2.

Inductive bg_run : R -> list Event -> R -> Prop :=
  | bg_nil r : bg_run r [] r
  | bg_cons r1 e r2 es r3 : bg_step r1 e r2 -> bg_run r2 es r3 -> bg_run r1 (e :: es) r3.

(** The listener's wake-ups with a signal, and the signals sent *)
Definition is_received (e : Event) : bool := match e with EListen Received => true | _ => false end.
Definition is_sent (e : Event) : bool := match e with ETask _ (Some Sent) => true | _ => false end.
Definition count (p : Event -> bool) (es : list Event) : nat := length (List.filter p es).

(** ** The compactor inside the running store *)
Lemma co_of_with_co r c : co_of (with_co r c) = c.
Proof. by destruct c. Qed.

Lemma bg_step_config r e r' : bg_step r e r' -> rn_config r' = rn_config r.
Proof.
  destruct 1; try done; unfold background_task, notify, listen, manual_compaction; cbn [rn_store rn_config with_store with_reason].
  - destruct (flush_signal _); [|done]. by destruct (bc_try_broadcast _).
  - by destruct (bc_try_recv _ _).
  - by destruct (handle_compaction _ _).
Qed.

Lemma bg_run_config r es r' : bg_run r es r' -> rn_config r' = rn_config r.
Proof. induction 1 as [|r1 e r2 es r3 Hs _ IH]; [done|]. by rewrite IH, (bg_step_config _ _ _ Hs). Qed.

Lemma bg_step_co r e r' : bg_step r e r' -> co_step (rn_config r) (co_of r) (co_of r').
Proof.
  destruct 1 as [r op|r l1 x l2 E|r Hl|r Hl|r Hw|r Hw|r order|r].
  - apply (co_other _ (co_of r)).
  - unfold background_task, notify. set (s := (run_task _ _).2). cbn [rn_store with_store].
    destruct (flush_signal s); [destruct (bc_try_broadcast _) as [res ch]|]; apply (co_other _ (co_of r) (ds_db s)).
  - unfold listen. destruct (bc_try_recv _ _) as [sig ch]. cbn [snd]. rewrite co_of_with_co. by apply co_listener_check.
  - rewrite co_of_with_co. by apply co_listener_finish.
  - rewrite co_of_with_co. by apply co_worker_check.
  - rewrite co_of_with_co. by apply co_worker_finish.
  - apply (co_other _ (co_of r)).
  - unfold manual_compaction. destruct (handle_compaction _ _) as [res d]. apply (co_other _ (co_of r) d).
Qed.

Lemma bg_run_co r es r' : bg_run r es r' -> rtc (co_step (rn_config r)) (co_of r) (co_of r').
Proof.
  induction 1 as [r|r1 e r2 es r3 Hs Hr IH]; [apply rtc_refl|]. eapply rtc_l; [by eapply bg_step_co|].
  by rewrite <- (bg_step_config _ _ _ Hs).
Qed.

(** ** The channel inside the running store

    The store's own receiver is never read: what it has not read is what was
    sent, and the listener has read some of that. *)
Record chan_inv (sent received : nat) (r : R) : Prop := {
  ch_receivers : bc_receivers (rn_chan r) = [rn_rx r; 0%nat];
  ch_ne : rn_rx r <> 0%nat;
  ch_capacity : bc_capacity (rn_chan r) = 1%nat;
  ch_own : bc_unread 0 (rn_chan r) = sent;
  ch_listener : (bc_unread (rn_rx r) (rn_chan r) + received)%nat = sent;
  ch_sent : (sent <= 1)%nat;
}.

Lemma chan_inv_frame sent received r r' :
  rn_chan r' = rn_chan r -> rn_rx r' = rn_rx r -> chan_inv sent received r -> chan_inv sent received r'.
Proof. intros E1 E2 [C1 C2 C3 C4 C5 C6]. split; rewrite ?E1, ?E2; done. Qed.

Lemma chan_inv_start s : chan_inv 0 0 (start_background_tasks s).
Proof.
  unfold start_background_tasks. destruct (bc_new_spec (Z.to_nat DEFAULT_FLUSH_SIGNAL_CHANNEL_SIZE)) as (N1 & N2 & N3).
  pose proof (bc_clone_spec (bc_new (Z.to_nat DEFAULT_FLUSH_SIGNAL_CHANNEL_SIZE))) as Hc. destruct (bc_clone _) as [rx ch].
  destruct Hc as (C1 & C2 & C3 & C4 & C5). rewrite N2 in *. split; cbn [rn_chan rn_rx].
  - done.
  - intros ->. apply C1. by left.
  - by rewrite C3, N1.
  - by rewrite C5 by by left.
  - by rewrite C4, N3.
  - lia.
Qed.

Lemma chan_inv_notify sent received r :
  chan_inv sent received r ->
  chan_inv (sent + match (notify r).1 with Some Sent => 1 | _ => 0 end) received (notify r).2 /\
  ((notify r).1 = Some Sent -> sent = 0%nat).
Proof.
  intros Hi. unfold notify. destruct (flush_signal _); [|split; [by rewrite Nat.add_0_r|done]].
  destruct Hi as [C1 C2 C3 C4 C5 C6]. destruct sent as [|[|]]; [| |lia].
  - destruct (bc_send_spec (rn_chan r)) as (ch & -> & S1 & S2 & S3).
    { rewrite C1, C3. intros q [->|[->|[]%not_elem_of_nil]%elem_of_cons]%elem_of_cons; lia. }
    rewrite C1 in *. split; [|done]. split; cbn [fst snd rn_chan rn_rx with_chan]; rewrite ?S1, ?S2, ?S3 by ((by left) || (by right; left)); try done; lia.
  - erewrite bc_full_spec; [|rewrite C1; by right; left|lia]. split; [|done]. rewrite Nat.add_0_r. by split.
Qed.

Lemma chan_inv_listen sent received r :
  chan_inv sent received r ->
  chan_inv sent (received + match (listen r).1 with Received => 1 | _ => 0 end) (listen r).2.
Proof.
  intros [C1 C2 C3 C4 C5 C6]. unfold listen. assert (rn_rx r ∈ bc_receivers (rn_chan r)) as Hin by (rewrite C1; by left).
  destruct (bc_unread (rn_rx r) (rn_chan r)) as [|n] eqn:En.
  - rewrite (bc_empty_spec _ _ Hin En). split; cbn [fst snd rn_chan rn_rx with_chan with_co]; try done; lia.
  - destruct (bc_recv_spec _ _ _ Hin En) as (ch & -> & R1 & R2 & R3 & R4).
    assert (bc_unread 0 ch = sent) as E0 by (rewrite R4; [done|rewrite C1; by right; left|done]).
    split; cbn [fst snd rn_chan rn_rx with_chan with_co]; rewrite ?R1, ?R2, ?R3, ?E0; try done; lia.
Qed.

Lemma chan_inv_step sent received r e r' :
  bg_step r e r' -> chan_inv sent received r ->
  chan_inv (sent + if is_sent e then 1 else 0) (received + if is_received e then 1 else 0) r'.
Proof.
  intros Hs Hi. destruct Hs as [r op|r l1 x l2 E|r Hl|r Hl|r Hw|r Hw|r order|r]; cbn [is_sent is_received]; rewrite ?Nat.add_0_r;
    try (by eapply chan_inv_frame; [..|exact Hi]).
  - apply (chan_inv_frame _ _ _ (with_store r (run_task x (with_flush (with_tasks (rn_store r) (l1 ++ l2)) (flush_stream (rn_store r)) false)).2)) in Hi; [|done..].
    apply chan_inv_notify in Hi as [Hi _]. unfold background_task. by destruct (notify _) as [[[]|] r'].
  - apply chan_inv_listen in Hi. by destruct (listen r) as [[] r'].
  - eapply chan_inv_frame; [| |exact Hi]; unfold manual_compaction; by destruct (handle_compaction _ _).
Qed.

Lemma chan_inv_run es sent received r r' :
  bg_run r es r' -> chan_inv sent received r -> chan_inv (sent + count is_sent es) (received + count is_received es) r'.
Proof.
  intros Hr. revert sent received. induction Hr as [r|r1 e r2 es r3 Hs Hr IH]; intros sent received Hi; [by rewrite !Nat.add_0_r|].
  apply (chan_inv_step _ _ _ _ _ Hs), IH in Hi. unfold count. cbn [List.filter].
  destruct (is_sent e), (is_received e); cbn [length]; by rewrite ?Nat.add_succ_r, ?Nat.add_0_r, ?Nat.add_1_r, ?Nat.add_succ_l in *.
Qed.

(** ** Properties *)

(** [C24] Everything the running store does, client calls, spawned tasks, collections
    and manual compactions included, is seen by the compactor as one of its own
    steps or as other activity. So at most one of the flush listener and the
    worker compacts at a time in the whole program, and none while the flag says
    [Sleep]. *)
Theorem background_refines_compactor s es r :
  bg_run (start_background_tasks s) es r ->
  rtc (co_step (rn_config r)) (compactor_new (ds_db s)) (co_of r) /\ ~ (rn_listener r = Compacting /\ rn_worker r = Compacting) /\
  (rn_active r = Sleep -> rn_listener r <> Compacting /\ rn_worker r <> Compacting).
Proof.
  intros Hr. assert (co_of (start_background_tasks s) = compactor_new (ds_db s)) as Hs by (unfold start_background_tasks; by destruct (bc_clone _)).
  rewrite (bg_run_config _ _ _ Hr).
  pose proof (bg_run_co _ _ _ Hr) as Hc. rewrite Hs in Hc. split; [done|]. by destruct (co_steps_inv _ _ _ Hc (co_inv_new _)).
Qed.

(** [C32] The flush listener is woken at most once in the life of a store. The store
    keeps a receiver of the channel that nothing reads, so the first flush
    signal fills the channel for good and every later one is refused: only the
    first flush can trigger a compaction. *)
Theorem flush_wakes_listener_once s es r :
  bg_run (start_background_tasks s) es r -> (count is_sent es <= 1)%nat /\ (count is_received es <= count is_sent es)%nat.
Proof.
  intros Hr. destruct (chan_inv_run _ _ _ _ _ Hr (chan_inv_start s)) as [_ _ _ _ C5 C6]. lia.
Qed.
End background.

(** ** Witnesses *)

(** Two receivers and what each has not read *)
Record pair_chan := mkPair { pc_capacity : nat; pc_receivers : list nat; pc_unread : gmap nat nat }.

Definition pc_get (q : nat) (c : pair_chan) : nat := default 0%nat (pc_unread c !! q).
Definition pc_full (c : pair_chan) : bool := existsb (fun q => pc_capacity c <=? pc_get q c)%nat (pc_receivers c).

#[export] Program Instance pair_broadcast : Broadcast pair_chan := {|
  bc_new n := mkPair n [0%nat] ∅;
  bc_clone c := let r := fresh (pc_receivers c) in
    (r, mkPair (pc_capacity c) (r :: pc_receivers c) (<[r := pc_get 0 c]> (pc_unread c)));
  bc_try_broadcast c := if pc_full c then (Full, c)
    else (Sent, mkPair (pc_capacity c) (pc_receivers c) (list_to_map ((fun q => (q, S (pc_get q c))) <$> pc_receivers c)));
  bc_try_recv r c := match pc_get r c with
    | O => (Empty, c)
    | S n => (Received, mkPair (pc_capacity c) (pc_receivers c) (<[r := n]> (pc_unread c)))
    end;
  bc_capacity := pc_capacity;
  bc_receivers := pc_receivers;
  bc_unread := pc_get;
|}.
Next Obligation. done. Qed.
Next Obligation.
  intros c. split; [apply infinite_is_fresh|]. split; [done|]. split; [done|]. unfold pc_get. cbn [pc_unread].
  rewrite lookup_insert_eq. split; [done|]. intros q Hq. rewrite lookup_insert_ne; [done|]. intros <-. by apply infinite_is_fresh in Hq.
Qed.
Next Obligation.
  intros c q Hq Hle. cbn. replace (pc_full c) with true; [done|]. symmetry. apply existsb_exists. exists q.
  split; [by apply list_elem_of_In|by apply Nat.leb_le].
Qed.
Next Obligation.
  intros c Hlt. cbn. replace (pc_full c) with false.
  - eexists. split; [done|]. split; [done|]. split; [done|]. intros q Hq. unfold pc_get at 1. cbn [pc_unread].
    rewrite (elem_of_list_to_map_1' _ q (S (pc_get q c))); [done| |].
    + intros y (x & [= -> ->] & _)%list_elem_of_fmap. done.
    + apply list_elem_of_fmap. by exists q.
  - symmetry. apply not_true_iff_false. intros (q & Hq%list_elem_of_In & Hle%Nat.leb_le)%existsb_exists. specialize (Hlt q Hq). lia.
Qed.
Next Obligation. intros c r _ E. cbn. by rewrite E. Qed.
Next Obligation.
  intros c r n _ E. cbn. rewrite E. eexists. split; [done|]. split; [done|]. split; [done|]. unfold pc_get. cbn [pc_unread].
  rewrite lookup_insert_eq. split; [done|]. intros q _ Hne. by rewrite lookup_insert_ne.
Qed.

Section background_witnesses.
#[local] Existing Instance demo_platform.
#[local] Existing Instance demo_env.
#[local] Existing Instance sorted_list_skipmap.

(** A running store that wrote enough for two flushes, with the tasks run in
    order, the listener woken after each flush. *)
Fixpoint run_events (n : nat) (r : Running pair_chan slist) : list Event * Running pair_chan slist :=
  match n with
  | O => ([], r)
  | S n =>
      match tasks (rn_store r) with
      | [] => ([], r)
      | x :: l =>
          let '(sent, r1) := background_task x l r in
          let '(es, r2) := match rn_listener r1 with
            | Waiting => let '(sig, r2) := listen r1 in ([EListen sig], r2)
            | _ => ([], r1)
            end in
          let '(es', r3) := run_events n r2 in (ETask x sent :: es ++ es', r3)
      end
  end.

Lemma run_events_run n r : bg_run r (run_events n r).1 (run_events n r).2.
Proof.
  revert r. induction n as [|n IH]; intros r; [constructor|]. cbn. destruct (tasks (rn_store r)) as [|x l] eqn:Et; [constructor|].
  destruct (background_task x l r) as [sent r1] eqn:E1.
  pose proof (bg_task r [] x l Et) as Hst. cbn [app] in Hst. rewrite E1 in Hst. cbn [fst snd] in Hst.
  destruct (rn_listener r1) eqn:El.
  - destruct (listen r1) as [sig r2] eqn:E2. specialize (IH r2). destruct (run_events n r2) as [es r3].
    econstructor; [exact Hst|]. cbn. econstructor; [|exact IH]. pose proof (bg_listen r1 El) as Hl. by rewrite E2 in Hl.
  - specialize (IH r1). destruct (run_events n r1) as [es r3]. by econstructor.
  - specialize (IH r1). destruct (run_events n r1) as [es r3]. by econstructor.
Qed.

Lemma flush_wakes_listener_once_witness :
  let es := (run_events 30 (start_background_tasks drain_start)).1 in
  length (List.filter (fun e => match e with ETask (TFlush _ _) _ => true | _ => false end) es) = 2%nat /\
  count is_sent es = 1%nat /\ (count is_received es <= 1)%nat.
Proof.
  cbn zeta. split; [by vm_compute|]. split; [by vm_compute|].
  destruct (flush_wakes_listener_once drain_start _ _ (run_events_run 30 (start_background_tasks drain_start))) as [H1 H2].
  by etransitivity.
Defined.

Lemma background_refines_compactor_witness :
  let r := (run_events 30 (start_background_tasks drain_start)).2 in rn_listener r = Compacting /\ rn_worker r <> Compacting.
Proof.
  cbn zeta. assert (rn_listener (run_events 30 (start_background_tasks drain_start)).2 = Compacting) as Hl by by vm_compute.
  split; [exact Hl|]. intros Hw.
  exact (proj1 (proj2 (background_refines_compactor drain_start _ _ (run_events_run 30 (start_background_tasks drain_start)))) (conj Hl Hw)).
Defined.

(** Make the calls, run the pending tasks in order, compact by hand. *)
Fixpoint call_events (ops : list Op) (r : Running pair_chan slist) : list Event * Running pair_chan slist :=
  match ops with
  | [] => ([], r)
  | op :: ops' =>
      let '(res, s) := exec op (rn_store r) in
      let '(es, r') := call_events ops' (with_store r s) in (ECall op res :: es, r')
  end.

Lemma call_events_run ops r : bg_run r (call_events ops r).1 (call_events ops r).2.
Proof.
  revert r. induction ops as [|op ops IH]; intros r; [constructor|]. cbn. pose proof (bg_call r op) as Hst.
  destruct (exec op (rn_store r)) as [res s]. specialize (IH (with_store r s)). destruct (call_events ops _) as [es r']. by econstructor.
Qed.

Lemma bg_run_app (r1 r2 r3 : Running pair_chan slist) es1 es2 : bg_run r1 es1 r2 -> bg_run r2 es2 r3 -> bg_run r1 (es1 ++ es2) r3.
Proof. induction 1; [done|]. intros. cbn. econstructor; eauto. Qed.

Definition four_tables : list Op :=
  fill_table [x61] [x31] ++ fill_table [x63] [x32] ++ fill_table [x64] [x33] ++ fill_table [x65] [x34] ++ [OpPut [x66] [x35]].
Definition flushed_store : Running pair_chan slist :=
  (run_events 60 (call_events four_tables (start_background_tasks demo_sys)).2).2.

End background_witnesses.
