(* ===== verification/Program.v ===== *)
(** * The whole program as a key-value map

    The running store of [Background] once more: clients, spawned tasks, the flush
    listener, the compaction worker and the public [run_compaction], in any
    interleaving. [lawful] says which events the theorem covers: tasks in the
    order [may_run] allows, compaction runs that [may_compact] allows, and no
    collection. All calls then answer like one key-value map, and every
    compaction succeeds ([program_refines_map]). *)

From stdpp Require Import prelude gmap strings list relations.
From Stdlib Require Import Strings.Byte ZArith Lia.
From S2P Require Import Prelude Consts SkipMap FileIO Types World VLog Block Index Bloom SSTable Meta MemTable KeyRange RangeSearch Bucket Flush Compaction CompactionRun Compactor.
From S2P Require Import Config Store StoreInv StoreSpec FlushSpec CompactionSpec SysInv Recovery CompactionStep System CompactionView Provenance CompactionSystem SystemCrash GC Background.
Open Scope Z_scope.

Section program.
Context `{Env} {M : Type -> Type} `{SkipMap M} {Ch : Type} `{Broadcast Ch} (N : nat).
Abbreviation W := (World M).
Abbreviation S := (DataStore M).
Abbreviation R := (Running Ch M).
Abbreviation KV := (list byte -> option (list byte)).
Implicit Types (s : S) (r : R) (tabs : list (Range * M SkipMapValue)) (es : list ValueLogEntry) (evs : list Event) (m : KV).

(** ** Runs *)
Definition lawful r (e : Event) : Prop :=
  match e with
  | ECall op _ => call_ok op /\ spaced_call (rn_store r) op
  | ETask x _ => may_run (rn_store r) x
  | ECompacted | EManual _ => may_compact N (rn_config r) (rn_store r)
  | EListen _ | EWorker => True
  | EGc => False
  end.

Inductive lawful_run : R -> list Event -> R -> Prop :=
  | lawful_nil r : lawful_run r [] r
  | lawful_cons r1 e r2 evs r3 : bg_step r1 e r2 -> lawful r1 e -> lawful_run r2 evs r3 -> lawful_run r1 (e :: evs) r3.

(** The client calls of a run and their answers, and what manual compactions
    returned *)
Definition event_calls evs : list Op := omap (fun e => match e with ECall op _ => Some op | _ => None end) evs.
Definition event_answers evs : list (outcome Error Resp) := omap (fun e => match e with ECall _ res => Some res | _ => None end) evs.
Definition event_compactions evs : list (outcome Error unit) := omap (fun e => match e with EManual res => Some res | _ => None end) evs.

(** ** The invariant *)
Record program_inv r es tabs (ids : list (list byte)) m : Prop := {
  pi_sys : sys_inv N (rn_store r) es tabs ids;
  pi_map : represents N (rn_store r) es tabs m;
  pi_traced : traced (rn_store r) es tabs;
  pi_placed : placed (ds_db (rn_store r));
  pi_config : use_ttl (rn_config r) = false /\ f64_ge0 (filter_false_positive (rn_config r)) = true;
}.

(** Only the store and the compactor's configuration matter. *)
Lemma program_inv_frame r r' es tabs ids m :
  rn_store r' = rn_store r -> rn_config r' = rn_config r -> program_inv r es tabs ids m -> program_inv r' es tabs ids m.
Proof. intros E1 E2 [P1 P2 P3 P4 P5]. split; by rewrite ?E1, ?E2. Qed.

(** The flag that tells of a flush is not part of any invariant. *)
Lemma unflag_sys s es tabs ids : sys_inv N s es tabs ids -> sys_inv N (with_flush s (flush_stream s) false) es tabs ids.
Proof.
  intros [I1 I2 I3 I4 I5 I6 I7 I8]. assert (core (with_flush s (flush_stream s) false) = core s) as Hc by done.
  split; [by eapply core_inv|by destruct I2|by destruct I3|by destruct I4| |by destruct I6|by destruct I7|done].
  destruct I5 as [G1 G2]. split; [|done]. intros h g Hg. destruct (G1 h g Hg) as [[]|?]; [left; by split|by right].
Qed.

Lemma unflag_inv r es tabs ids m :
  program_inv r es tabs ids m -> program_inv (with_store r (with_flush (rn_store r) (flush_stream (rn_store r)) false)) es tabs ids m.
Proof.
  intros [P1 P2 P3 P4 P5]. split; cbn [rn_store with_store rn_config]; [by apply unflag_sys| |by destruct P3|done|done].
  destruct P2 as [R1 R2]. split; [by apply unflag_sys in P1; apply P1|exact R2].
Qed.

(** ** The steps *)

(** What a step of the program does: the invariant for the map after the call, if
    it is one, and at most eight more readings of the clock and tables *)
Definition stepped r es tabs m e r' : Prop :=
  exists es' tabs' ids', program_inv r' es' tabs' ids' (kv_run m (event_calls [e])).2 /\
    event_answers [e] = Ok <$> (kv_run m (event_calls [e])).1 /\ Forall (.= Ok tt) (event_compactions [e]) /\
    (w_ticks (ds_world (rn_store r')) + length tabs' <= w_ticks (ds_world (rn_store r)) + length tabs + 8)%nat.

Lemma call_stepped r es tabs ids m op :
  orderly_env N -> program_inv r es tabs ids m -> (w_ticks (ds_world (rn_store r)) + 9 <= N)%nat -> call_ok op -> spaced_call (rn_store r) op ->
  stepped r es tabs m (ECall op (exec op (rn_store r)).1) (with_store r (exec op (rn_store r)).2).
Proof.
  intros Ho [P1 P2 P3 P4 P5] HN Hop Hsp.
  destruct (exec_sys N (rn_store r) es tabs ids m op Ho P1 P2 HN Hop Hsp) as (s' & es' & tabs' & ids' & E & R & Hs' & Ht & -> & Htr & L).
  rewrite E. exists (es ++ op_entries op (clock (w_ticks (ds_world (rn_store r))))), tabs', ids'. split; [|split; [|split; [constructor|]]].
  - cbn [fst snd]. change (event_calls [_]) with [op]. rewrite kv_run_cons. split; cbn [rn_store with_store rn_config fst snd]; try done.
    + by eapply exec_traced.
    + eapply exec_placed; [apply P1|exact Htr|done].
  - cbn. by destruct (kv_step m op).
  - assert (length tabs' = length tabs) as El; [|cbn [rn_store with_store snd]; lia].
    assert (forall k val, put_trace_of N (rn_store r) es tabs k val s' tabs' -> length tabs' = length tabs) as Hput.
    { intros k val (s1 & (s0 & _ & _ & Hre) & _). rewrite <- (length_fmap snd tabs'), <- (length_fmap snd tabs). by rewrite (re_maps _ _ _ Hre). }
    destruct op; cbn in Htr; [exact (Hput _ _ Htr)..|]. by destruct Htr as [_ ->].
Qed.

Lemma task_stepped r es tabs ids m l1 x l2 :
  orderly_env N -> program_inv r es tabs ids m -> (w_ticks (ds_world (rn_store r)) + 4 <= N)%nat ->
  tasks (rn_store r) = l1 ++ x :: l2 -> may_run (rn_store r) x ->
  stepped r es tabs m (ETask x (background_task x (l1 ++ l2) r).1) (background_task x (l1 ++ l2) r).2.
Proof.
  intros Ho Hp HN Et Hmay. pose proof (unflag_inv _ _ _ _ _ Hp) as [P1 P2 P3 P4 P5]. cbn [rn_store with_store rn_config] in *.
  set (s := with_flush (rn_store r) (flush_stream (rn_store r)) false) in *.
  destruct (task_step_run N s es tabs ids m l1 x l2 Ho P1 P2 HN Et Hmay) as (s' & tabs' & ids' & E & R & Hs' & _ & _ & Ht & _ & Hcase & _).
  unfold background_task. change (with_flush (with_tasks (rn_store r) (l1 ++ l2)) (flush_stream (rn_store r)) false) with (with_tasks s (l1 ++ l2)).
  rewrite E. cbn [snd]. exists es, tabs', ids'. split; [|split; [done|split; [constructor|]]].
  - assert (program_inv (with_store r s') es tabs' ids' m) as Hp'.
    { split; cbn [rn_store with_store rn_config]; try done; assert ((exists id t, x = TFlush id t) \/ forall id t, x <> TFlush id t) as [(id & t & ->)|Hx] by (destruct x; eauto).
      - destruct Hcase as [rg Hf]. eapply flush_traced; [apply P1| |exact Hf|done]. apply (qo_flush _ _ _ (sy_queue _ _ _ _ _ P1) id t).
        change (tasks s) with (tasks (rn_store r)). rewrite Et. apply elem_of_app. right. by left.
      - assert (tabs' = tabs /\ calm s s') as [-> Hc] by (by destruct x; [..|destruct (Hx id t)|]). by eapply traced_calm.
      - by eapply (flush_placed N s); try apply Hmay.
      - assert (tabs' = tabs /\ calm s s') as [-> Hc] by (by destruct x; [..|destruct (Hx id t)|]). by eapply (task_placed s). }
    eapply program_inv_frame; [| |exact Hp']; unfold notify; destruct (flush_signal _); try done; by destruct (bc_try_broadcast _).
  - assert (length tabs' <= 1 + length tabs)%nat as Hl.
    { assert ((exists id t, x = TFlush id t) \/ forall id t, x <> TFlush id t) as [(id & t & ->)|Hx] by (destruct x; eauto).
      - destruct Hcase as [rg Hf]. rewrite (fd_tabs _ _ _ _ _ _ _ Hf). cbn. lia.
      - assert (tabs' = tabs /\ calm s s') as [-> _] by (by destruct x; [..|destruct (Hx id t)|]). lia. }
    assert (rn_store (notify (with_store r s')).2 = s') as -> by (unfold notify; destruct (flush_signal _); [|done]; by destruct (bc_try_broadcast _)).
    change (ds_world s) with (ds_world (rn_store r)) in Ht. lia.
Qed.

(** A compaction, whoever runs it *)
Lemma compaction_run r es tabs ids m :
  orderly_env N -> program_inv r es tabs ids m -> may_compact N (rn_config r) (rn_store r) -> (w_ticks (ds_world (rn_store r)) + length tabs + 1 <= N)%nat ->
  exists d' tabs', handle_compaction (rn_config r) (ds_db (rn_store r)) = (Ok tt, d') /\
    program_inv (with_store r (with_db (rn_store r) d')) es tabs' ids m /\
    (w_ticks (db_world d') + length tabs' <= w_ticks (ds_world (rn_store r)) + length tabs)%nat.
Proof.
  intros Ho [P1 P2 P3 P4 P5] Hmay HN.
  destruct (compact_step_run N (rn_config r) P5 (rn_store r) es tabs ids m Ho P1 P2 P3 P4 Hmay HN) as (d' & tabs' & E & _ & Q1 & Q2 & Q3 & Q4 & Q5).
  exists d', tabs'. split; [done|]. split; [by split|done].
Qed.

(** Looking at the state flag leaves the store alone. *)
Lemma listener_check_db sig (c : Compactor M) : co_db (listener_check sig c) = co_db c.
Proof. unfold listener_check. by destruct (is_active c), sig. Qed.
Lemma worker_check_db (c : Compactor M) : co_db (worker_check c) = co_db c.
Proof. unfold worker_check. by destruct (is_active c). Qed.

Lemma checked_stepped r es tabs ids m e r' :
  program_inv r es tabs ids m -> event_calls [e] = [] -> event_answers [e] = [] -> event_compactions [e] = [] ->
  rn_store r' = with_db (rn_store r) (ds_db (rn_store r)) -> rn_config r' = rn_config r -> stepped r es tabs m e r'.
Proof.
  intros Hp E1 E2 E3 Es Ec. assert (rn_store r' = rn_store r) as Es' by (rewrite Es; by destruct (rn_store r)).
  exists es, tabs, ids. rewrite E1, E2, E3, Es'. split; [by eapply program_inv_frame|]. split; [done|]. split; [constructor|lia].
Qed.

Lemma lawful_stepped r es tabs ids m e r' :
  orderly_env N -> program_inv r es tabs ids m -> (w_ticks (ds_world (rn_store r)) + length tabs + 9 <= N)%nat ->
  bg_step r e r' -> lawful r e -> stepped r es tabs m e r'.
Proof.
  intros Ho Hp HN Hst Hl. destruct Hst as [r op|r l1 x l2 Et|r Hw|r Hw|r Hw|r Hw|r order|r]; cbn [lawful] in Hl.
  - destruct Hl as [Hop Hsp]. apply (call_stepped r es tabs ids m); try done. lia.
  - apply (task_stepped r es tabs ids m); try done. lia.
  - unfold listen. destruct (bc_try_recv _ _) as [sig ch]. eapply checked_stepped; try done. cbn. by rewrite listener_check_db.
  - destruct (compaction_run r es tabs ids m Ho Hp Hl ltac:(lia)) as (d' & tabs' & E & Hp' & Ht). exists es, tabs', ids. unfold listener_finish.
    cbn [co_db co_of]. rewrite E. split; [by eapply program_inv_frame; [| |exact Hp']|]. split; [done|]. split; [constructor|]. etransitivity; [exact Ht|lia].
  - eapply checked_stepped; try done. cbn. by rewrite worker_check_db.
  - destruct (compaction_run r es tabs ids m Ho Hp Hl ltac:(lia)) as (d' & tabs' & E & Hp' & Ht). exists es, tabs', ids. unfold worker_finish.
    cbn [co_db co_of]. rewrite E. split; [by eapply program_inv_frame; [| |exact Hp']|]. split; [done|]. split; [constructor|]. etransitivity; [exact Ht|lia].
  - done.
  - destruct (compaction_run r es tabs ids m Ho Hp Hl ltac:(lia)) as (d' & tabs' & E & Hp' & Ht). exists es, tabs', ids. unfold manual_compaction.
    cbn [rn_config with_reason rn_store]. rewrite E. cbn [fst snd]. split; [by eapply program_inv_frame; [| |exact Hp']|]. split; [done|].
    split; [by apply Forall_singleton|]. etransitivity; [exact Ht|lia].
Qed.

Lemma lawful_run_inv r evs r' es tabs ids m :
  orderly_env N -> lawful_run r evs r' -> program_inv r es tabs ids m ->
  (w_ticks (ds_world (rn_store r)) + length tabs + 8 * length evs + 9 <= N)%nat ->
  event_answers evs = Ok <$> (kv_run m (event_calls evs)).1 /\ Forall (.= Ok tt) (event_compactions evs) /\
  exists es' tabs' ids', program_inv r' es' tabs' ids' (kv_run m (event_calls evs)).2.
Proof.
  intros Ho Hr. revert es tabs ids m. induction Hr as [r|r1 e r2 evs r3 Hst Hl _ IH]; intros es tabs ids m Hp HN.
  { split; [done|]. split; [constructor|]. by exists es, tabs, ids. }
  cbn [length] in HN. destruct (lawful_stepped r1 es tabs ids m e r2 Ho Hp ltac:(lia) Hst Hl) as (es1 & tabs1 & ids1 & Hp1 & Ha1 & Hc1 & Ht1).
  destruct (IH es1 tabs1 ids1 _ Hp1 ltac:(lia)) as (Ha & Hc & es2 & tabs2 & ids2 & Hp2).
  assert (event_calls (e :: evs) = event_calls [e] ++ event_calls evs) as -> by (apply (omap_app _ [e] evs)).
  rewrite kv_run_app, kv_run_app_fst. split; [|split; [|by exists es2, tabs2, ids2]].
  - transitivity (event_answers [e] ++ event_answers evs); [apply (omap_app _ [e] evs)|]. by rewrite Ha1, Ha, fmap_app.
  - assert (event_compactions (e :: evs) = event_compactions [e] ++ event_compactions evs) as -> by (apply (omap_app _ [e] evs)). by apply Forall_app.
Qed.

(** ** A new store *)
Lemma opened_program root w t s :
  orderly_env N -> opened root w t s -> w_ticks (ds_world s) = (5 + w_ticks w)%nat -> (w_ticks w + 5 < N)%nat ->
  represents N s (first_entries t) [] fresh_map -> program_inv (start_background_tasks s) (first_entries t) [] [] fresh_map.
Proof.
  intros Ho Hop Ht HN Hr. destruct (oe_parts _ _ _ _ Hop) as (a & v & m & l & w' & Es).
  assert (rn_store (start_background_tasks (Ch := Ch) s) = s /\ rn_config (start_background_tasks (Ch := Ch) s) = compactor_config (ds_config s)) as [E1 E2]
    by (unfold start_background_tasks; by destruct (bc_clone _)).
  split; rewrite ?E1, ?E2.
  - eapply opened_sys; try done. apply Hr.
  - done.
  - eapply opened_traced; done.
  - rewrite Es. split; cbn; [by apply Forall_nil|by apply NoDup_nil|by intros x ?%not_elem_of_nil].
  - rewrite Es. by vm_compute.
Qed.

(** ** Properties *)

End program.

(** ** A test of [may_compact] *)
Section test.
Context `{Env} {M : Type -> Type} `{SkipMap M} (N : nat) (cfg : CompactConfig).
Abbreviation W := (World M).
Abbreviation S := (DataStore M).
Implicit Types (w : W) (s : S) (d : Db M) (tabs : list (Range * M SkipMapValue)).

(** What a table's data file holds *)
Definition file_entries w (t : Table) : list (list byte * SkipMapValue) :=
  match load_entries_from_file t w with (Ok t', w') => sm_iter (the_map w' (t_entries t')) | _ => [] end.

Lemma file_entries_spec w t (m : M SkipMapValue) k v :
  table_holds w t m -> (k, v) ∈ file_entries w t <-> exists v0, sm_get k m = Some v0 /\ v = smv_stored v0.
Proof.
  intros Hh. unfold file_entries. destruct (load_grown t m w Hh) as (t' & w' & -> & _ & _ & Hm & _). rewrite sm_elem, Hm, fmap_Some. done.
Qed.

Definition ranges_of d : list Range := (hm_iter (key_ranges (db_ranges d))).*2.
Definition in_memory (r : Range) : bool := match t_filter (r_sst r) with Some f => match bf_sst_dir f with Some _ => true | None => false end | None => false end.
Definition kept_range d (r : Range) : bool := bool_decide (t_dir (r_sst r) ∉ first_dirs (db_buckets d)).

(** Every entry of a skipped table has a version at least as new in another one. *)
Definition outlivesb d : bool :=
  let kept := List.filter (kept_range d) (ranges_of d) in
  forallb (fun r => forallb (fun e => existsb (fun r' =>
      match (sst_lookup (r_sst r') e.1 (db_world d)).1 with Ok (Some h) => bool_decide (stamp e.2 <= h.1.2) | _ => false end) kept)
    (file_entries (db_world d) (r_sst r))) (List.filter (fun r => negb (kept_range d r)) (ranges_of d)).

(** The conditions, for a run of at most one round *)
Definition may_compactb s : bool :=
  let d := ds_db s in
  let entries := mjoin (file_entries (db_world d) <$> (r_sst <$> ranges_of d)) in
  fresh_dirsb (run_end d) d && forallb in_memory (ranges_of d) &&
  forallb (fun t => bool_decide (sm_iter (the_map (db_world d) (t_entries t)) = [])) (bm_tables (db_buckets d)) &&
  forallb (fun e => negb (smv_is_tombstone e.2)) entries &&
  bool_decide (Z.of_nat (sum_list_with (fun e => length e.1 + 17)%nat entries) < 2 ^ 32) &&
  bool_decide (size (restored_ranges (db_ranges d)) = 0%nat) &&
  forallb (fun x => match x with TRestored _ => false | _ => true end) (tasks s) &&
  bool_decide (vlog_size (val_log s) <= 2 ^ 32) &&
  is_balanced (db_buckets (compaction_round cfg ∅ d).2) && outlivesb d.

Section spec.
Variables (s : S) (es : list ValueLogEntry) (tabs : list (Range * M SkipMapValue)) (ids : list (list byte)).
Hypothesis (Hs : sys_inv N s es tabs ids) (Hplaced : placed (ds_db s)).
Abbreviation d := (ds_db s).

Lemma ranges_of_tabs : ranges_of d = tabs.*1.
Proof. symmetry. apply (ix_tabs _ _ _ (si_index _ _ _ _ (sy_store _ _ _ _ _ Hs))). Qed.

Lemma tab_ready p : p ∈ tabs -> ready (ds_world s) p.1 p.2 /\ (live_range (ds_world s) p.1 p.2 -> filter_below (w_next (ds_world s)) p.1).
Proof.
  pose proof (si_tabs _ _ _ _ (sy_store _ _ _ _ _ Hs)) as Ht. rewrite Forall_forall in Ht. intros Hp. destruct (Ht p Hp) as [R _ _ F _].
  split; [done|]. intros Hl%F f Hf. by apply Hl.
Qed.

Lemma tab_entries p k v : p ∈ tabs -> sm_get k p.2 = Some v -> (k, smv_stored v) ∈ file_entries (ds_world s) (r_sst p.1).
Proof. intros Hp Hv. destruct (tab_ready p Hp) as [[Hh _] _]. apply (file_entries_spec _ _ _ _ _ Hh). eauto. Qed.

Lemma tab_range p : p ∈ tabs -> In p.1 (ranges_of d).
Proof. intros Hp. rewrite ranges_of_tabs. apply list_elem_of_In, list_elem_of_fmap. by exists p. Qed.

Lemma tab_hot p : p ∈ tabs -> in_memory p.1 = true -> live_range (ds_world s) p.1 p.2.
Proof.
  intros Hp Hm. destruct (tab_ready p Hp) as [[_ [Hl|[_ (i & g & q & f & E1 & E2 & _)]]] _]; [done|]. unfold in_memory in Hm. by rewrite E1, E2 in Hm.
Qed.

Lemma outlivesb_spec k : outlivesb d = true -> outlives d tabs k.
Proof.
  unfold outlivesb. rewrite forallb_forall. intros Hall p v Hp Hd Hv.
  specialize (Hall p.1 (proj2 (filter_In _ _ _) (conj (tab_range p Hp) (proj2 (negb_true_iff _) (bool_decide_eq_false_2 _ (fun Hn => Hn Hd)))))).
  rewrite forallb_forall in Hall.
  specialize (Hall _ (proj1 (list_elem_of_In _ _) (tab_entries p k v Hp Hv))). apply existsb_exists in Hall as (r' & [Hr' Hk]%filter_In & Hl).
  rewrite ranges_of_tabs, <- list_elem_of_In in Hr'. apply list_elem_of_fmap in Hr' as (p' & -> & Hp'). apply bool_decide_eq_true in Hk.
  destruct (tab_ready p' Hp') as [[Hh _] _]. cbn [fst snd] in Hl. change (db_world d) with (ds_world s) in Hl. rewrite (sst_lookup_holds _ _ k _ Hh) in Hl. cbn [fst] in Hl.
  destruct (sm_get k p'.2) as [v'|] eqn:Ev; [|done]. apply bool_decide_eq_true in Hl. exists p', v'. do 3 (split; [done|]).
  unfold stamp, smv_stored in *. cbn in Hl. by rewrite trunc_ms_idem in Hl.
Qed.

(** The bytes of the tables *)
Lemma file_weight (r : Range) (m : M SkipMapValue) w : table_holds w (r_sst r) m -> sum_list_with (fun e => length e.1 + 17)%nat (file_entries w (r_sst r)) = weight m.
Proof.
  intros Hh. unfold file_entries. destruct (load_grown _ m w Hh) as (t' & w' & -> & _ & _ & Hm & _). set (m' := the_map w' (t_entries t')) in *.
  assert (agree [(r, m)] [(r, m')]) as Ha.
  { constructor; [|constructor]. split; [done|]. intros k. cbn. rewrite Hm. destruct (sm_get k m) as [v|]; [|done]. cbn. f_equal. symmetry. apply found_stored. }
  apply agree_weight in Ha. unfold total_weight in Ha. cbn in Ha. rewrite !Nat.add_0_r in Ha. rewrite Ha. unfold weight.
  induction (sm_iter m') as [|e l IH]; [done|]. cbn. by rewrite IH.
Qed.

Lemma files_weight : sum_list_with (fun e => length e.1 + 17)%nat (mjoin (file_entries (ds_world s) <$> (r_sst <$> ranges_of d))) = total_weight tabs.
Proof.
  rewrite ranges_of_tabs. pose proof tab_ready as Hall. unfold total_weight. clear Hs Hplaced. induction tabs as [|p l IH]; [done|]. rewrite !fmap_cons. cbn [sum_list_with].
  change (mjoin (?a :: ?x)) with (a ++ mjoin x).
  rewrite sum_list_with_app, (file_weight p.1 p.2), IH; [done| |].
  - intros q Hq. apply Hall. by right.
  - apply Hall. by left.
Qed.

Lemma may_compactb_spec :
  orderly_env N -> use_ttl cfg = false /\ f64_ge0 (filter_false_positive cfg) = true -> (w_ticks (ds_world s) + length tabs + 1 <= N)%nat ->
  may_compactb s = true -> may_compact N cfg s.
Proof.
  intros Ho [Hu Hf] HN. unfold may_compactb. rewrite !andb_true_iff, !forallb_forall, !bool_decide_eq_true.
  intros (((((((((Hfr & Hmem) & Hun) & Htomb) & Hw) & Hres) & Hid) & Hlog) & Hbal) & Hout). apply fresh_dirsb_spec in Hfr.
  change (db_world d) with (ds_world s) in *. rewrite files_weight in Hw.
  assert (run_end d = w_ticks (ds_world s) + length tabs + 1)%nat as Hend.
  { unfold run_end. fold (ds_world s). do 2 f_equal. rewrite <- (length_fmap fst tabs), <- ranges_of_tabs. unfold ranges_of, hm_iter. by rewrite length_fmap, hash_iter_perm, length_map_to_list. }
  assert (forall B, (B <= run_end d)%nat -> arranged N B d tabs) as Ha.
  { intros B HB. eapply placed_arranged; [exact Hs|exact Hplaced|by eapply fresh_dirs_shorter|lia]. }
  assert (primed d tabs) as Hpm.
  { split.
    - apply Forall_forall. intros p Hp. destruct (tab_ready p Hp) as [_ Hb]. pose proof (tab_hot p Hp (Hmem _ (tab_range p Hp))) as Hl. split; [done|by apply Hb|].
      intros k v Hv. specialize (Htomb (k, smv_stored v)). apply negb_true_iff, Htomb, list_elem_of_In, list_elem_of_join.
      exists (file_entries (ds_world s) (r_sst p.1)). split; [by apply tab_entries|]. apply list_elem_of_fmap. exists (r_sst p.1). split; [done|].
      apply list_elem_of_fmap. exists p.1. split; [done|]. apply list_elem_of_In. by apply tab_range.
    - intros t Ht. specialize (Hun t (proj1 (list_elem_of_In _ _) Ht)). by apply bool_decide_eq_true in Hun. }
  split; try done.
  - exists tabs. split; [apply Ha; lia|done].
  - by apply map_size_empty_iff.
  - intros rs Hin%list_elem_of_In%Hid. done.
  - intros k d1 Hk Hr. apply rtc_inv in Hr as [<-|(d2 & Hn & Hr)]; [exists tabs; split; [apply Ha; fold (ds_world s); lia|by apply outlivesb_spec]|].
    destruct (is_balanced (db_buckets d)) eqn:Eb; [unfold next_round in Hn; by rewrite (round_balanced cfg ∅ d Eb) in Hn|].
    unfold next_round in Hn. rewrite Hn in Hbal. cbn [snd] in Hbal.
    destruct (compaction_round_run N (run_end d) cfg d tabs Hu Hf Ho (Ha _ (le_n _)) Hpm Hw) as (d3 & tabs3 & pss & news & E & Hd); [|done|].
    { pose proof (gone_length N _ d tabs (Ha _ ltac:(reflexivity))). pose proof (length_filter (fun x => dir_of x ∈ gone_dirs (db_buckets d)) tabs). fold (ds_world s). lia. }
    assert (d3 = d2) as -> by congruence.
    assert (d1 = d2) as ->.
    { apply rtc_inv in Hr as [<-|(d4 & Hn' & _)]; [done|]. unfold next_round in Hn'. by rewrite (round_balanced cfg ∅ d2 Hbal) in Hn'. }
    exists tabs3. split.
    + destruct (rd_arranged _ _ _ _ _ _ _ _ Hd) as [A1 A2 A3 A4 A5 A6 A7 A8 A9 A10]. pose proof (rd_ticks _ _ _ _ _ _ _ _ Hd).
      pose proof (round_length N _ d tabs pss d2 tabs3 news (Ha _ ltac:(reflexivity)) Hd). fold (ds_world s) in *.
      split; try done; [eapply fresh_dirs_shorter; [|exact A3]|]; lia.
    + intros p v _ Hdr _. exfalso. unfold dropped, first_dirs in Hdr. apply is_balanced_imbalanced in Hbal. rewrite Hbal in Hdr. by apply not_elem_of_nil in Hdr.
Qed.
End spec.
End test.

(** ** Scripts of the whole program *)
Inductive Scene :=
  | SMove (v : Move)   (* a call, or a task of the queue *)
  | SListen            (* the listener wakes up *)
  | SListened          (* ... and finishes its compaction *)
  | SManual.           (* a compaction by hand *)

Section staging.
Context `{Env} {M : Type -> Type} `{SkipMap M} {Ch : Type} `{Broadcast Ch} (N : nat).
Abbreviation R := (Running Ch M).
Implicit Types (r : R) (v : Scene).

Definition stage_one v r : option (Event * R) :=
  let s := rn_store r in
  match v with
  | SMove (MCall op) => if call_okb op && spaced_callb s op then let '(res, s') := exec op s in Some (ECall op res, with_store r s') else None
  | SMove (MTask i) => x ← tasks s !! i;
      if may_runb s x then let '(sent, r') := background_task x (take i (tasks s) ++ drop (S i) (tasks s)) r in Some (ETask x sent, r') else None
  | SListen => if decide (rn_listener r = Waiting) then let '(sig, r') := listen r in Some (EListen sig, r') else None
  | SListened => if decide (rn_listener r = Compacting) then
      if may_compactb (rn_config r) s then Some (ECompacted, with_co r (listener_finish (rn_config r) (co_of r))) else None else None
  | SManual => if may_compactb (rn_config r) s then let '(res, r') := manual_compaction r in Some (EManual res, r') else None
  end.

Fixpoint stage (vs : list Scene) r : option (list Event * R) :=
  match vs with
  | [] => Some ([], r)
  | v :: vs' => '(e, r1) ← stage_one v r; '(evs, r2) ← stage vs' r1; Some (e :: evs, r2)
  end.

Lemma stage_one_step v r e r' es tabs ids m :
  orderly_env N -> program_inv N r es tabs ids m -> (w_ticks (ds_world (rn_store r)) + length tabs + 1 <= N)%nat ->
  stage_one v r = Some (e, r') -> bg_step r e r' /\ lawful N r e.
Proof.
  intros Ho Hp HN. assert (may_compactb (rn_config r) (rn_store r) = true -> may_compact N (rn_config r) (rn_store r)) as Hmay.
  { destruct Hp as [P1 P2 P3 P4 P5]. by apply (may_compactb_spec N (rn_config r) (rn_store r) es tabs ids). }
  destruct v as [[op|i]| | |]; cbn [stage_one].
  - destruct (call_okb op && spaced_callb (rn_store r) op) eqn:E; [|done]. apply andb_true_iff in E as [E1 E2]. destruct (exec op (rn_store r)) as [res s'] eqn:Ex.
    intros [= <- <-]. pose proof (bg_call r op) as Hb. rewrite Ex in Hb. split; [done|]. split; [by apply call_okb_spec|by apply spaced_callb_spec].
  - destruct (tasks (rn_store r) !! i) as [x|] eqn:Ei; [|done]. cbn. destruct (may_runb (rn_store r) x) eqn:E; [|done].
    destruct (background_task _ _ _) as [sent r1] eqn:Eb. intros [= <- <-]. split; [|by apply may_runb_spec].
    pose proof (bg_task r (take i (tasks (rn_store r))) x (drop (S i) (tasks (rn_store r)))) as Hb. rewrite Eb in Hb. apply Hb. by rewrite take_drop_middle.
  - case_decide; [|done]. destruct (listen r) as [sig r1] eqn:El. intros [= <- <-]. pose proof (bg_listen r) as Hb. rewrite El in Hb. split; [by apply Hb|done].
  - case_decide; [|done]. destruct (may_compactb _ _) eqn:E; [|done]. intros [= <- <-]. split; [by apply bg_listener_finish|by apply Hmay].
  - destruct (may_compactb _ _) eqn:E; [|done]. destruct (manual_compaction r) as [res r1] eqn:Em. intros [= <- <-].
    pose proof (bg_manual r) as Hb. rewrite Em in Hb. split; [done|by apply Hmay].
Qed.

Lemma stage_run vs r evs r' es tabs ids m :
  orderly_env N -> program_inv N r es tabs ids m -> (w_ticks (ds_world (rn_store r)) + length tabs + 8 * length vs + 9 <= N)%nat ->
  stage vs r = Some (evs, r') -> lawful_run N r evs r' /\ length evs = length vs.
Proof.
  intros Ho. revert r evs es tabs ids m. induction vs as [|v vs IH]; intros r evs es tabs ids m Hp HN; cbn; [intros [= <- <-]; by repeat constructor|].
  destruct (stage_one v r) as [[e r1]|] eqn:E; [|done]. cbn. destruct (stage vs r1) as [[evs' r2]|] eqn:E'; [|done]. intros [= <- <-]. cbn [length] in HN.
  destruct (stage_one_step v r e r1 es tabs ids m Ho Hp ltac:(lia) E) as [Hst Hl].
  destruct (lawful_stepped N r es tabs ids m e r1 Ho Hp ltac:(lia) Hst Hl) as (es1 & tabs1 & ids1 & Hp1 & _ & _ & Ht).
  destruct (IH r1 evs' es1 tabs1 ids1 _ Hp1 ltac:(lia) E') as [Hr Hlen]. split; [by econstructor|cbn; by rewrite Hlen].
Qed.

Definition scene_calls (vs : list Scene) : list Op := omap (fun v => match v with SMove (MCall op) => Some op | _ => None end) vs.

Lemma stage_calls vs r evs r' : stage vs r = Some (evs, r') -> event_calls evs = scene_calls vs.
Proof.
  revert r evs. induction vs as [|v vs IH]; intros r evs; cbn; [by intros [= <- _]|].
  destruct (stage_one v r) as [[e r1]|] eqn:E; [|done]. cbn. destruct (stage vs r1) as [[evs' r2]|] eqn:E'; [|done]. intros [= <- <-].
  specialize (IH _ _ E'). unfold event_calls, scene_calls in *.
  assert (match v with SMove (MCall op) => exists res, e = ECall op res | _ => forall op res, e <> ECall op res end) as He.
  { destruct v as [[op|i]| | |]; cbn [stage_one] in E.
    - destruct (_ && _); [|done]. destruct (exec op _). injection E as <- <-. by eexists.
    - destruct (tasks _ !! i); [|done]. cbn in E. destruct (may_runb _ _); [|done]. destruct (background_task _ _ _). by injection E as <- <-.
    - case_decide; [|done]. destruct (listen r). by injection E as <- <-.
    - case_decide; [|done]. destruct (may_compactb _ _); [|done]. by injection E as <- <-.
    - destruct (may_compactb _ _); [|done]. destruct (manual_compaction r). by injection E as <- <-. }
  destruct v as [[op|i]| | |]; [destruct He as [res ->]; cbn; by rewrite IH|..]; (destruct e as [op res| | | | | |]; [by destruct (He op res)|..]; exact IH).
Qed.
End staging.

(** ** Witnesses *)
Section program_witnesses.
#[local] Existing Instance demo_platform.
#[local] Existing Instance demo_env.
#[local] Existing Instance sorted_list_skipmap.

(** Four memtables are filled and flushed by and by, with the key tail written once
    more, since the first table holds the store's own. The flush listener wakes up
    and merges the four tables into one. Then a read, a compaction by hand, which
    has nothing to do, and reads from the merged table and of an absent key *)
Definition demo_scenes : list Scene :=
  (SMove <$> (demo_fill x31 ++ demo_fill x32 ++ MCall (OpPut TAIL_ENTRY_KEY [x30]) :: demo_fill x33 ++ [MTask 30; MTask 30] ++
     demo_fill x34 ++ [MCall (OpPut (long_key x61) [x35]); MTask 61; MTask 61])) ++
  [SListen; SListened; SMove (MCall (OpGet (long_key x61))); SManual; SMove (MCall (OpGet (long_key x62))); SMove (MCall (OpGet [x61]))].

Definition table_counts (r : Running pair_chan slist) : list nat := (fun p => length (sstables p.2)) <$> buckets (db_buckets (ds_db (rn_store r))).

Lemma demo_staged s : demo_open = Ok s ->
  exists evs r, stage demo_scenes (start_background_tasks (Ch := pair_chan) s) = Some (evs, r) /\ ECompacted ∈ evs /\ table_counts r = [1%nat].
Proof.
  intros E. assert (match demo_open with
    | Ok s => match stage demo_scenes (start_background_tasks (Ch := pair_chan) s) with
              | Some (evs, r) => (existsb (fun e => match e with ECompacted => true | _ => false end) evs, table_counts r)
              | None => (false, []) end
    | _ => (false, []) end = (true, [1%nat])) as Hc by (vm_compute; reflexivity).
  rewrite E in Hc. destruct (stage demo_scenes _) as [[evs r]|]; [|discriminate Hc]. injection Hc as H1 H2. exists evs, r.
  split; [reflexivity|]. split; [|exact H2]. apply existsb_exists in H1 as (e & He & Hx). apply list_elem_of_In. by destruct e.
Qed.

End program_witnesses.
